(* ===== verification/_CoqProject ===== *)
-Q . S2P
Prelude.v
Format.v
IdSequence.v
NestedMap.v
PidTracker.v
PendingOps.v
LogFormat.v
LogExtract.v
AsyncLog.v
LogSystem.v
LogRecovery.v
LoggerSpec.v
LogExamples.v
Jerrno.v
TimeNs.v
TimeStr.v
Bdb.v
TxnCtxt.v
Framing.v
Journal.v
JournalSpec.v
Durability.v
DurabilityExamples.v
Recovery.v
RecoverySpec.v
Provider.v
ProviderSpec.v
CrashRestart.v
Posix.v
Jdir.v
JdirSpec.v
JdirBak.v
Config.v
ConfigSpec.v
ConfigExamples.v
Resurrect.v
ResurrectSpec.v
ResurrectExamples.v
ThreadPool.v
PoolSpec.v
PoolLive.v
PoolExamples.v
Plugin.v
BdbStore.v
PluginSpec.v
PluginExamples.v
Lifecycle.v
LifecycleSpec.v
Options.v
Background.v
WholeRestart.v
RestartSpec.v
RestartQueues.v
Replay.v
QuietRestart.v
RestartExamples.v
Locks.v
CursorSync.v
Qmf.v
QmfStats.v
QmfStatsSpec.v
QmfStorageProvider.v
QmfJournal.v
QmfEvents.v
QmfSpec.v
QmfPath.v
QmfProvider.v
QmfExamples.v
Future.v
LoopedTask.v
FutureExamples.v
