(* ===== verification/Prelude.v ===== *)
(** * Verification of bdbmsgstore

    bdbmsgstore is a storage provider for the Qpid broker. Messages are kept in
    Berkeley DB databases, one journal per queue; enqueues and dequeues are first
    written to two append-only logs and then carried out by two thread pools, so
    that a broker thread never waits for a database. After a crash the logs and the
    journals together give the state back.

    ** The parts and how they work together

    A broker thread calls [enqueue] of the provider (lib/BdbStoreProvider.cpp). It
    draws a persistence id, writes a start record with the encoded message to the
    enqueue log and gives a task to the enqueue pool; the task stores the message in
    the journal (lib/JournalImpl.cpp), writes the complete record and tells the
    tracker (lib/PidTracker.cpp). [dequeue] does the same with the dequeue log; its
    task waits for the tracker until the message has been stored and then deletes
    it. With the smart-async option an enqueue and a dequeue that meet before either
    was carried out cancel each other. Two cleaner threads compact the logs
    (lib/AsyncOperationLogger.cpp). A restart reads the logs, reads the journals,
    decides for each message whether it survives and gives what is left of the
    pending operations to the pools again. Queues, exchanges, bindings and general
    items are kept in four more databases. The pools are boost threadpools
    (lib/ext/boost/threadpool). The broker does not talk to the provider itself but to
    the front end (lib/MessageStorePlugin.cpp), which chooses a provider at the start,
    checks ids before it forwards a call, and drives the recovery.

    ** The files

    Shared:
    - [Prelude]: machine integers, bytes, byte orders, exceptions as values, sorted
      traversal of maps and sets, automation; [Format]: numbers in file names and
      texts; [NestedMap]: the two-level maps of lib/PendingOperationSet.h.

    The logs, lib/AsyncOperationLogger.cpp and .h:
    - [PendingOps]: the operation records and their operators; [LogFormat]: the
      record layout as bytes, with the interface [LogKind] that the rest is written
      against and its two instances; [LogExtract]: the readers; [AsyncLog]: the
      logger object and all its methods; [LogSystem]: one log with clients and
      cleaner as a step relation, with its invariant; [LogRecovery]: what a crash
      leaves; [LoggerSpec]: both logs, whole methods; [LogExamples]: concrete runs.

    The journal and what it stands on:
    - [IdSequence]: lib/IdSequence.cpp; [PidTracker]: lib/PidTracker.cpp and .h;
      [Jerrno]: lib/jrnl/jerrno.cpp, jexception.cpp and enums.hpp; [TimeNs],
      [TimeStr]: lib/jrnl/time_ns.hpp and .cpp; [Bdb]: the interface of Berkeley DB; [TxnCtxt]:
      lib/TxnCtxt.cpp; [Framing]: the interface of the Qpid encoders and
      [msgEncode]; [Journal], [JournalSpec]: lib/JournalImpl.cpp.

    The provider, lib/BdbStoreProvider.cpp:
    - [Durability]: the life of a message over all interleavings;
      [DurabilityExamples]; [Recovery], [RecoverySpec]: [decodeAndRecoverMsg];
      [Provider]: the handlers on the concrete components; [ProviderSpec]: they
      implement [Durability]; [CrashRestart]: the end-to-end theorem; [Resurrect],
      [ResurrectSpec], [ResurrectExamples]: [recoverMessages];
      [Config], [ConfigSpec], [ConfigExamples]: the configuration databases, with
      lib/BindingDbt.cpp and lib/BufferValue.cpp.

      [Lifecycle], [LifecycleSpec]: construction, [earlyInitialize], [init],
      [truncateInit], [finalizeMe] and the destructor; [Options]: the option table of
      lib/StoreOptions.h; [Background]: the threads that the restart starts and [finalizeMe]
      joins, the two cleaners and the eraser of old database logs.

    Directories:
    - [Posix]: the system calls; [Jdir], [JdirSpec], [JdirBak]: lib/jrnl/jdir.cpp.

    The thread pool, lib/ext/boost/threadpool:
    - [ThreadPool]: schedulers (the interface [Scheduler] and its three instances),
      the pool core, workers and clients as a step relation; [PoolSpec]: its invariant;
      [PoolLive]: what tasks and waits can rely on; [PoolExamples].

    The front end, lib/MessageStorePlugin.cpp and lib/StorageProvider.h:
    - [Plugin]: the interface [StorageProvider] and the plugin over any provider;
      [BdbStore]: the Berkeley DB provider as an instance of it; [PluginSpec],
      [PluginExamples]; [WholeRestart]: [recoverMessages] over all queues;
      [RestartSpec]: the broker's view of a crash and a restart; [RestartQueues]: what
      a restart does to logs, journals and counters; [Replay]: pending enqueues logged again
      in another order; [QuietRestart]: from one session to the next; [RestartExamples].

    Management, lib/gen/qmf/com/atono/server/qpid/bdbstore and its callers:
    - [Qmf]: the interface of the Qpid management library (buffers, variants, object ids,
      schemas) and an instance of it; [QmfStats]: the per-thread statistics of
      StorageProvider.h and .cpp; [QmfStatsSpec]: what their reports say;
      [QmfStorageProvider], [QmfJournal]: the two object classes; [QmfEvents]: the four
      event classes and Package.cpp; [QmfSpec]: their encodings; [QmfPath]: the counters
      along the life of messages; [QmfProvider]: [initManagement], the handlers with
      their counting and the management object of a journal; [QmfExamples].

    Smaller parts:
    - [Future], [LoopedTask], [FutureExamples]: the futures and the looped tasks of the thread
      pool; [Locks]: lib/jrnl/slock.hpp and smutex.hpp; [CursorSync]: lib/Cursor.h,
      lib/IdDbt.cpp and the logged transactions of lib/TxnCtxt.cpp.

    State is passed explicitly. A C++ object is a record with the source's member
    names; a method is a function from the record to its result and the new record.
    An exception is [Throw] with a value of [Bdb.exn]; [Undefined] marks undefined
    behaviour of C++. 64-bit ids are integers with the wrap-around of [Prelude.u64];
    the casts to [int] are [Prelude.int_of]. A mutex-protected stretch is one step;
    where threads can interleave, the methods are cut into such stretches and a step
    relation runs them in any order.

    ** What is shown

    - The logs. Any sequence of calls is recovered as the operations started and not
      completed, and recovery can be repeated ([logger_sessions]); the same under
      any interleaving with the cleaner ([log_recovery_exact],
      [cleaner_never_throws]); at which moments of a cleaning pass a crash loses
      nothing ([log_no_loss]) and at which it does ([crash_window_loses],
      [stale_temporary_revives]); a torn file is read up to its last whole record
      ([torn_tail]).
    - The journal is a map from ids to bytes, whatever the number of files
      ([journal_refines_map]), recovered completely ([journal_recover_exact]); parts
      of a message are loaded exactly ([load_content_slice]); ids must lie in a
      window of [2^31] ([compare_window]); transactions are balanced
      ([txn_balanced]) unless a commit fails ([failed_commit_reuses_handle]).
    - The tracker ([tracker_contiguous], [tracker_any_order], [wait_total],
      [wait_sound], [smart_rendezvous], [duplicate_roundtrip],
      [tracker_cast_overflow]) and the ids ([ids_nonzero_distinct]).
    - The life of a message: no message is lost and none comes back, whatever the
      moment of the crash ([no_message_lost], [no_message_reborn]). The handlers
      implement this life cycle, so a crash and a restart of the provider itself
      give exactly the messages enqueued and not dequeued ([crash_restart_recovers]),
      and the broker gets every durable one of them back from the front end, once per
      queue ([broker_gets_messages_back]). When a session leaves pending dequeues of stored
      messages and the enqueues of its newest messages, the restart carries the dequeues out,
      gives the enqueues to the pool again and leads to a session over the durable
      messages, so that the same holds of the next session and the one after it
      ([restart_resumes_session]; with nothing pending, [quiet_restart_starts_session]). A crash
      during the restart can bring a dequeued message back ([restart_crash_revives]), and an id
      that is missing below a pending enqueue blocks a dequeue ([restart_gap_blocks_dequeue]).
    - The restart: [decodeAndRecoverMsg] hands the right messages to the broker
      under two conditions ([recovery_agrees]), which are needed
      ([pending_pair_revives], [eleventh_recovered_twice]); the pools get the right
      operations ([resurrect_exact]); two ways in which the session after a restart
      goes wrong ([restart_race_revives], [stale_dequeue_eats_message]).
    - Configuration: [objects_refine_map], [binding_ops_exact],
      [recover_bindings_exact], [create_queue_ready], [destroy_queue_clean],
      [queues_use_distinct_files]; directories: [create_dir_makes],
      [delete_dir_removes], [create_dir_top_level], [create_bak_dir_new],
      [push_down_moves], [clear_dir_moves].
    - The pool: its counters are exact in every reachable state ([pool_counts_exact]),
      a wait that returns means that the tasks are done ([wait_means_done]), every run
      without new calls ends ([pool_comes_to_rest]) and then nothing is left to do
      ([pool_at_rest_done]); with the fifo scheduler tasks start in the order in which
      they were given ([fifo_pool_in_order]).
    - The front end: which provider it takes ([early_init_exact]); its checks change
      nothing for the Berkeley DB provider ([guards_transparent]); [recover] is the
      composition of the provider's recoveries ([recover_equals_reference]).
    - Start and end: the start ends after at most three attempts ([start_ends]), and the
      provider announces itself initialised or throws ([registers_or_throws]);
      truncating deletes nothing ([truncate_keeps_store]); a shutdown can wait for ever
      ([shutdown_can_hang]) for a dequeue, but not for a cleaner: an interrupted cleaner ends
      and leaves its log whole ([interrupted_cleaner_ends]). When a cleaner makes a pass
      ([clean_period], [clean_when_large]) and what the eraser deletes ([eraser_exact]). The
      options set fields of their own ([options_commute]) and none of them enables accept
      recovery ([accept_recovery_unreachable]).
    - Times: arithmetic and comparisons are those of nanoseconds ([time_arith],
      [plus_minus]); a time is printed as the nearest decimal of its double
      ([fixed_nearest]), which has no room for the nanoseconds of today
      ([str_loses_nanoseconds]).
    - Management: the reports of the per-thread statistics are those of one common history
      ([stats_refine_history], [times_report_exact]), also as bytes
      ([statistics_on_the_wire]); the counters balance at every moment of a session
      ([counters_exact]) and nothing else depends on them ([management_transparent]); objects
      come back from their buffers and maps ([sp_properties_roundtrip], [sp_map_roundtrip],
      [j_properties_roundtrip], [j_map_roundtrip]), and the properties in a map have the types of the schema
      ([schema_types_maps]), while four statistics have other names ([statistics_names_differ]).
    - Futures: who returns has the value of the function ([future_agreement]), a future that
      nobody cancels is resolved ([future_resolves]), and who waits for a cancelled one waits
      for ever ([cancelled_wait_hangs]). Looped tasks run as often as their function says
      ([looped_task_exact]). Scoped locks exclude each other ([locks_exclude]) and a
      mutex is destroyed safely when they are gone ([destroy_when_released]). Finishing a
      logged transaction flushes nothing and throws ([complete_exact]).

    ** Bounds and fuel

    - Ids of one queue lie within [2^31] of each other where the journal or the
      tracker is involved: both cast differences to [int]. Ids of configuration
      objects need only fit in 64 bits.
    - [LogExtract.extract] has one turn per byte of the file and each turn reads at
      least one byte; [Journal.JournalImpl.rr_fuel] allows one turn of every cursor
      per row, and [journal_recover_exact] proves it enough; [create_dir] has one
      turn per character of the name, each recursion drops one; [delete_dir] has one
      turn per level of the tree, and [delete_dir_removes] proves it enough. The
      waits of the tracker are over the states seen at wake-ups; [wait_total] gives
      their bound. [Lifecycle.init_loop] needs three turns ([start_ends]). A looped task has
      the fuel for as many calls as its function asks for and one more ([looped_task_exact]).
    - The statistics of one thread are counted modulo 2^32 and 2^64 as in the source;
      [Qmf.bufSize] is the 65536 bytes of the source's buffers, and strings have at most 255
      characters where a round trip is stated. [Future.steps_left] bounds the steps of a future.
    - [broker_gets_messages_back] is for a session that leaves at most ten pending
      enqueues per queue and no stored message with both operations pending: beyond
      that the restart hands out the wrong messages ([eleventh_recovered_twice],
      [pending_pair_revives]).

    ** What is not modelled

    Berkeley DB, the Qpid encoders, the broker's recovery callbacks and the allocator
    are not part of the repository: they are classes with documented laws ([BTree],
    [DupTree], [Framing], [HostAlloc]) or arguments, each with an instance. A database
    call may fail; a file write of the logs may not, as the code never looks at the
    state of its streams. Closing the database environment is assumed to succeed. The
    Qpid management library is the class [Qmf], the POSIX mutex an owner, the clock an
    argument. Log lines and durations that only go into them are left out, and so are the
    parsing of the values of options, which the option library does, and of the thread pool
    [timed_wait] and the adaptors that only forward.
    Headers of declarations, macros and constants that no modelled function reads
    (lib/jrnl/jcfg.hpp) have nothing to model.

    ** Next

    What holds of a session after a restart whose pending enqueues were already stored, are
    transient, have a pending dequeue of their own, or leave ids out. *)
From stdpp Require Export base list gmap sorting strings pretty.
From Corelib.Init Require Export Byte.
From Stdlib.Strings Require Byte.
From Stdlib Require Import ZArith Lia.

Declare Scope store_scope.
Delimit Scope store_scope with store.
Open Scope Z_scope.

(** ** Automation *)

Create HintDb store.
Create Rewrite HintDb store.

(** Arithmetic with [Z.modulo] and [Z.div] by constants. *)
Ltac solve_mod := Z.div_mod_to_equations; lia.

(** Case analysis on the first [if] or [match] scrutinee found in the goal. *)
Ltac case_goal :=
  match goal with
  | |- context [if ?b then _ else _] => destruct b eqn:?
  | |- context [match ?x with _ => _ end] => destruct x eqn:?
  end.

(** Turn boolean comparisons of [Z] found in hypotheses into propositions. *)
Ltac zbool :=
  repeat match goal with
  | H : (_ <? _) = true |- _ => apply Z.ltb_lt in H
  | H : (_ <? _) = false |- _ => apply Z.ltb_ge in H
  | H : (_ <=? _) = true |- _ => apply Z.leb_le in H
  | H : (_ <=? _) = false |- _ => apply Z.leb_gt in H
  | H : (_ =? _) = true |- _ => apply Z.eqb_eq in H
  | H : (_ =? _) = false |- _ => apply Z.eqb_neq in H
  end.

(** ** Exceptions as values

    A C++ call either returns or throws; [Throw] carries the exception. *)

Inductive outcome (E A : Type) : Type :=
| Ret (a : A)
| Throw (e : E).
Arguments Ret {E A} a.
Arguments Throw {E A} e.

Definition obind {E A B} (m : outcome E A) (k : A -> outcome E B) : outcome E B :=
  match m with
  | Ret a => k a
  | Throw e => Throw e
  end.

Notation "'let!' x := m 'in' k" := (obind m (fun x => k))
  (at level 10, x pattern, m at level 100, k at level 200) : store_scope.
Open Scope store_scope.

(** ** Machine integers

    [uint64_t], [uint32_t] and [int] values are integers kept at their width:
    every operation that can leave the range is followed by its wrap. *)

Definition two31 : Z := 2 ^ 31.
Definition two32 : Z := 2 ^ 32.
Definition two63 : Z := 2 ^ 63.
Definition two64 : Z := 2 ^ 64.

Definition is_u64 (z : Z) : Prop := 0 <= z < 2 ^ 64.

(** Unsigned 64-bit wrap-around, addition and subtraction. *)
Definition u64 (z : Z) : Z := z mod 2 ^ 64.
Definition add64 (a b : Z) : Z := u64 (a + b).
Definition sub64 (a b : Z) : Z := u64 (a - b).

(** Unsigned 32-bit wrap-around. *)
Definition u32 (z : Z) : Z := z mod 2 ^ 32.

(** [static_cast<int>] of a 64-bit value: the low 32 bits read as a two's
    complement number. *)
Definition int_of (z : Z) : Z :=
  let w := z mod 2 ^ 32 in
  if w <? 2 ^ 31 then w else w - 2 ^ 32.

Lemma int_of_bounds (z : Z) : - 2 ^ 31 <= int_of z < 2 ^ 31.
Proof.
  unfold int_of. pose proof (Z.mod_pos_bound z (2 ^ 32)).
  destruct (Z.ltb_spec (z mod 2 ^ 32) (2 ^ 31)); lia.
Qed.

Lemma int_of_mod (z : Z) : int_of z mod 2 ^ 32 = z mod 2 ^ 32.
Proof.
  unfold int_of. destruct (Z.ltb_spec (z mod 2 ^ 32) (2 ^ 31)); solve_mod.
Qed.

Lemma int_of_small (z : Z) : - 2 ^ 31 <= z < 2 ^ 31 -> int_of z = z.
Proof.
  intros H. unfold int_of.
  destruct (Z.ltb_spec (z mod 2 ^ 32) (2 ^ 31)); solve_mod.
Qed.

(** The truncation only sees the difference modulo 2^32, and the unsigned
    64-bit subtraction before it does not change that residue. *)
Lemma int_of_sub64 (a b : Z) : int_of (sub64 a b) = int_of (a - b).
Proof.
  unfold int_of, sub64, u64.
  replace ((a - b) mod 2 ^ 64 mod 2 ^ 32) with ((a - b) mod 2 ^ 32); [done|].
  solve_mod.
Qed.

Lemma int_of_diff_small (a b : Z) :
  - 2 ^ 31 <= a - b < 2 ^ 31 -> int_of (sub64 a b) = a - b.
Proof. intros H. rewrite int_of_sub64. by apply int_of_small. Qed.

Lemma u64_small (z : Z) : is_u64 z -> u64 z = z.
Proof. intros H. apply Z.mod_small, H. Qed.

Lemma u32_small (z : Z) : 0 <= z < 2 ^ 32 -> u32 z = z.
Proof. apply Z.mod_small. Qed.

Lemma u64_range (z : Z) : is_u64 (u64 z).
Proof. apply Z.mod_pos_bound. lia. Qed.

#[export] Hint Resolve u64_range : store.

(** ** Bytes and memory blocks *)

Definition byte_of_Z (z : Z) : byte :=
  default x00 (Byte.of_N (Z.to_N (z mod 256))).
Definition Z_of_byte (b : byte) : Z := Z.of_N (Byte.to_N b).

#[export] Instance byte_eq_dec : EqDecision byte := Byte.byte_eq_dec.

#[export] Instance byte_countable : Countable byte := inj_countable Byte.to_N Byte.of_N Byte.of_to_N.

Lemma Z_of_byte_range (b : byte) : 0 <= Z_of_byte b < 256.
Proof. unfold Z_of_byte. pose proof (Byte.to_N_bounded b). lia. Qed.

Lemma Z_of_byte_inj (a b : byte) : Z_of_byte a = Z_of_byte b -> a = b.
Proof.
  unfold Z_of_byte. intros E%N2Z.inj. apply (f_equal Byte.of_N) in E.
  rewrite !Byte.of_to_N in E. by injection E.
Qed.

Lemma Z_of_byte_of_Z (z : Z) : Z_of_byte (byte_of_Z z) = z mod 256.
Proof.
  unfold byte_of_Z, Z_of_byte.
  pose proof (Z.mod_pos_bound z 256 ltac:(lia)).
  destruct (Byte.of_N (Z.to_N (z mod 256))) as [b|] eqn:E; simpl.
  - apply Byte.to_of_N in E. lia.
  - apply Byte.of_N_None_iff in E. lia.
Qed.

(** [memset(p,0,n)] of a fresh block and [memcpy(&dst[i],src,n)]. *)
Definition memset0 (n : nat) : list byte := replicate n x00.
Definition memcpy (dst : list byte) (i : nat) (src : list byte) : list byte :=
  list_inserts i src dst.

(** Copying right after the part [pre] already filled in. *)
Lemma memcpy_next (pre src : list byte) (n m : nat) :
  m = (length src + n)%nat ->
  memcpy (pre ++ memset0 m) (length pre) src = pre ++ src ++ memset0 n.
Proof.
  intros ->. unfold memcpy, memset0. rewrite replicate_add.
  rewrite <- (Nat.add_0_r (length pre)), list_inserts_app_r.
  by rewrite list_inserts_0_r by by rewrite length_replicate.
Qed.

(** ** Host byte order

    The log files hold 64-bit integers as [memcpy] leaves them, in the byte
    order of the host (lib/jrnl/jcfg.hpp lists both kinds of host). What the
    components rely on is the following interface, so every theorem about the
    logs holds on either kind of host. *)

Class HostEndian := {
  enc64 : Z -> list byte;
  dec64 : list byte -> Z;
  enc64_length : forall z, length (enc64 z) = 8%nat;
  dec64_enc64 : forall z, is_u64 z -> dec64 (enc64 z) = z;
  dec64_range : forall bs, length bs = 8%nat -> is_u64 (dec64 bs)
}.

Fixpoint le_bytes (n : nat) (z : Z) : list byte :=
  match n with
  | O => []
  | S m => byte_of_Z z :: le_bytes m (z / 256)
  end.

Fixpoint le_value (bs : list byte) : Z :=
  match bs with
  | [] => 0
  | b :: bs' => Z_of_byte b + 256 * le_value bs'
  end.

Lemma le_bytes_length n z : length (le_bytes n z) = n.
Proof. revert z. induction n; intros; simpl; auto. Qed.

Lemma le_value_bytes n z :
  le_value (le_bytes n z) = z mod 256 ^ Z.of_nat n.
Proof.
  revert z. induction n as [|n IH]; intros z.
  - simpl. by rewrite Z.mod_1_r.
  - cbn [le_bytes le_value]. rewrite IH, Z_of_byte_of_Z.
    rewrite Nat2Z.inj_succ, Z.pow_succ_r by lia.
    rewrite Z.rem_mul_r by lia. lia.
Qed.

Lemma le_value_range bs :
  0 <= le_value bs < 256 ^ Z.of_nat (length bs).
Proof.
  induction bs as [|b bs IH]; cbn [le_value length]; [lia|].
  pose proof (Z_of_byte_range b).
  rewrite Nat2Z.inj_succ, Z.pow_succ_r by lia. lia.
Qed.

#[program] Definition little_endian : HostEndian := {|
  enc64 := le_bytes 8;
  dec64 := le_value
|}.
Next Obligation. apply le_bytes_length. Qed.
Next Obligation. intros z Hz. rewrite le_value_bytes. apply Z.mod_small, Hz. Qed.
Next Obligation. intros bs Hl. pose proof (le_value_range bs) as H. by rewrite Hl in H. Qed.

#[program] Definition big_endian : HostEndian := {|
  enc64 := fun z => reverse (le_bytes 8 z);
  dec64 := fun bs => le_value (reverse bs)
|}.
Next Obligation. intros z. change (length (reverse (le_bytes 8 z)) = 8%nat).
  by rewrite length_reverse, le_bytes_length. Qed.
Next Obligation.
  intros z Hz. change (le_value (reverse (reverse (le_bytes 8 z))) = z).
  rewrite reverse_involutive, le_value_bytes. apply Z.mod_small, Hz.
Qed.
Next Obligation.
  intros bs Hl. pose proof (le_value_range (reverse bs)) as H.
  by rewrite length_reverse, Hl in H.
Qed.

(** ** Sorted traversal

    Iteration over a [std::map] or [std::set] with integer keys goes through
    the keys in increasing order. *)

Definition sorted_set (s : gset Z) : list Z := merge_sort (≤) (elements s).

Lemma elem_of_sorted_set (s : gset Z) x : x ∈ sorted_set s <-> x ∈ s.
Proof. unfold sorted_set. by rewrite merge_sort_Permutation, elem_of_elements. Qed.

Lemma sorted_set_sorted (s : gset Z) : StronglySorted (≤) (sorted_set s).
Proof. apply (StronglySorted_merge_sort _). Qed.

Lemma sorted_set_NoDup (s : gset Z) : NoDup (sorted_set s).
Proof. unfold sorted_set. rewrite merge_sort_Permutation. apply NoDup_elements. Qed.

Definition key_le {V} (a b : Z * V) : Prop := a.1 <= b.1.
#[export] Instance key_le_dec {V} (a b : Z * V) : Decision (key_le a b).
Proof. unfold key_le. apply _. Defined.

Definition sorted_map {V} (m : gmap Z V) : list (Z * V) :=
  merge_sort key_le (map_to_list m).

Lemma elem_of_sorted_map {V} (m : gmap Z V) k v :
  (k, v) ∈ sorted_map m <-> m !! k = Some v.
Proof. unfold sorted_map. by rewrite merge_sort_Permutation, elem_of_map_to_list. Qed.

Lemma sorted_map_Permutation {V} (m : gmap Z V) : sorted_map m ≡ₚ map_to_list m.
Proof. apply merge_sort_Permutation. Qed.

Lemma sorted_map_NoDup {V} (m : gmap Z V) : NoDup (sorted_map m).*1.
Proof. rewrite sorted_map_Permutation. apply NoDup_fst_map_to_list. Qed.

(** ** Lists *)

Lemma filter_none {A} (P : A -> Prop) `{!forall x, Decision (P x)} (l : list A) :
  (forall x, x ∈ l -> ~ P x) -> filter P l = [].
Proof.
  induction l as [|x l IH]; intros Hl; [done|]. rewrite filter_cons_False by (apply Hl; left).
  apply IH. intros y Hy. apply Hl. by right.
Qed.

Lemma foldl_commutes {A B} (f : A -> B -> A) (l l' : list B) a :
  (forall a x y, f (f a x) y = f (f a y) x) -> l ≡ₚ l' -> foldl f a l = foldl f a l'.
Proof.
  intros Hf Hp. revert a. induction Hp as [|x l l' _ IH|x y l|l l1 l2 _ IH1 _ IH2]; intros a; cbn [foldl].
  - done.
  - apply IH.
  - by rewrite Hf.
  - by rewrite IH1.
Qed.

(** ** Strings *)

Lemma string_app_assoc (a b c : string) : (a +:+ b) +:+ c = a +:+ (b +:+ c).
Proof. induction a as [|x a IH]; simpl; [done|]. unfold String.append in *. by rewrite IH. Qed.

Lemma string_app_length (a b : string) :
  String.length (a +:+ b) = (String.length a + String.length b)%nat.
Proof. induction a as [|x a IH]; simpl; [done|]. unfold String.append in *. by rewrite IH. Qed.

Lemma string_app_inj_r (a b c : string) : a +:+ c = b +:+ c -> a = b.
Proof.
  revert b. induction a as [|x a IH]; intros [|y b] E; [done| | |].
  - apply (f_equal String.length) in E. rewrite !string_app_length in E. simpl in E. lia.
  - apply (f_equal String.length) in E. rewrite !string_app_length in E. simpl in E. lia.
  - simpl in E. injection E as -> E. f_equal. by apply IH.
Qed.

Lemma string_app_nil_r (a : string) : a +:+ "" = a.
Proof. induction a as [|x a IH]; simpl; [done|]. unfold String.append in *. by rewrite IH. Qed.
