(* ===== verification/Format.v ===== *)
(** Numbers in names: the stream manipulators [std::hex], [std::setw] and
    [std::setfill('0')] as the store uses them, and [std::strtol] reading them
    back. *)
From S2P Require Import Prelude.
From Stdlib Require Import ZArith Lia Ascii.

(** Digits of a non-negative number, most significant first. The number of
    binary digits is enough fuel for any base. *)
Fixpoint digits_loop (fuel : nat) (b n : Z) (acc : list Z) : list Z :=
  match fuel with
  | O => acc
  | S fuel' => if n <? b then n :: acc else digits_loop fuel' b (n / b) (n mod b :: acc)
  end.

Definition digits (b n : Z) : list Z := digits_loop (S (Z.to_nat (Z.log2 n))) b n [].

Definition digit_char (d : Z) : ascii :=
  if d <? 10 then ascii_of_nat (Z.to_nat (48 + d)) else ascii_of_nat (Z.to_nat (87 + d)).

(** The value of a digit character, as [strtol] reads it. *)
Definition char_digit (b : Z) (c : ascii) : option Z :=
  let n := Z.of_nat (nat_of_ascii c) in
  let d := if (48 <=? n) && (n <=? 57) then n - 48
           else if (97 <=? n) && (n <=? 122) then n - 87
           else if (65 <=? n) && (n <=? 90) then n - 55 else b in
  if d <? b then Some d else None.

(** Output of a number, and of a number padded with zeros to a width. *)
Definition num_chars (b n : Z) : list ascii := map digit_char (digits b n).
Definition setw (w : nat) (l : list ascii) : list ascii := replicate (w - length l) "0"%char ++ l.
Definition num_str (b : Z) (w : nat) (n : Z) : string := String.string_of_list_ascii (setw w (num_chars b n)).

(** [strtol(s,0,b)] on digits: stops at the first character that is none. *)
Fixpoint strtol (b : Z) (s : string) (acc : Z) : Z :=
  match s with
  | EmptyString => acc
  | String c s' => match char_digit b c with
                   | Some d => strtol b s' (acc * b + d)
                   | None => acc
                   end
  end.

Definition digits_value (b : Z) (l : list Z) (acc : Z) : Z := foldl (fun a d => a * b + d) acc l.

Lemma digits_loop_value fuel b n acc :
  2 <= b -> 0 <= n < 2 ^ Z.of_nat fuel ->
  digits_value b (digits_loop fuel b n acc) 0 = digits_value b acc n /\
  (Forall (fun d => 0 <= d < b) acc -> Forall (fun d => 0 <= d < b) (digits_loop fuel b n acc)).
Proof.
  intros Hb. revert n acc. induction fuel as [|fuel IH]; intros n acc Hn.
  { simpl in *. assert (n = 0) as -> by lia. split; auto. }
  simpl. destruct (Z.ltb_spec n b) as [Hlt|Hge].
  - simpl. split.
    + unfold digits_value. simpl. done.
    + intros Ha. constructor; [lia|done].
  - rewrite Nat2Z.inj_succ, Z.pow_succ_r in Hn by lia.
    assert (Hq : 0 <= n / b < 2 ^ Z.of_nat fuel).
    { split; [apply Z.div_pos; lia|]. apply Z.div_lt_upper_bound; nia. }
    pose proof (Z.mod_pos_bound n b ltac:(lia)) as Hm.
    destruct (IH (n / b) (n mod b :: acc) Hq) as [E F]. split.
    + rewrite E. unfold digits_value. simpl. f_equal. rewrite (Z.div_mod n b) at 3 by lia. lia.
    + intros Ha. apply F. constructor; [lia|done].
Qed.

Lemma digits_spec b n :
  2 <= b -> 0 <= n ->
  digits_value b (digits b n) 0 = n /\ Forall (fun d => 0 <= d < b) (digits b n).
Proof.
  intros Hb Hn. unfold digits.
  destruct (digits_loop_value (S (Z.to_nat (Z.log2 n))) b n []) as [E F]; [done| |].
  - rewrite Nat2Z.inj_succ, Z2Nat.id by apply Z.log2_nonneg.
    destruct (decide (n = 0)) as [->|]; [simpl; lia|]. split; [done|]. apply Z.log2_spec. lia.
  - split; [by rewrite E|]. by apply F.
Qed.

Lemma char_digit_char b d : b = 10 \/ b = 16 -> 0 <= d < b -> char_digit b (digit_char d) = Some d.
Proof.
  intros Hb Hd.
  assert (Hall : forallb (fun k => match char_digit b (digit_char (Z.of_nat k)) with
                                  | Some e => e =? Z.of_nat k | None => false end)
                         (seq 0 (Z.to_nat b)) = true) by by destruct Hb as [-> | ->].
  rewrite forallb_forall in Hall. specialize (Hall (Z.to_nat d)).
  rewrite Z2Nat.id in Hall by lia. specialize (Hall ltac:(apply in_seq; lia)).
  destruct (char_digit b (digit_char d)); [|done]. zbool. by subst.
Qed.

Lemma strtol_digits b l acc :
  b = 10 \/ b = 16 -> Forall (fun d => 0 <= d < b) l ->
  strtol b (String.string_of_list_ascii (map digit_char l)) acc = digits_value b l acc.
Proof.
  intros Hb. revert acc. induction l as [|d l IH]; intros acc Hl; [done|].
  apply Forall_cons in Hl as [Hd Hl]. simpl. rewrite char_digit_char by done. by apply IH.
Qed.

Lemma strtol_zeros b k l :
  b = 10 \/ b = 16 ->
  strtol b (String.string_of_list_ascii (replicate k "0"%char ++ l)) 0 =
  strtol b (String.string_of_list_ascii l) 0.
Proof. intros [-> | ->]; induction k; simpl; done. Qed.

(** Reading back a padded number gives the number. *)
Lemma strtol_num_str b w n :
  b = 10 \/ b = 16 -> 0 <= n -> strtol b (num_str b w n) 0 = n.
Proof.
  intros Hb Hn. unfold num_str, setw, num_chars. rewrite strtol_zeros by done.
  destruct (digits_spec b n) as [E F]; [lia|done|]. by rewrite strtol_digits.
Qed.

Lemma num_str_inj b w n m :
  b = 10 \/ b = 16 -> 0 <= n -> 0 <= m -> num_str b w n = num_str b w m -> n = m.
Proof.
  intros Hb Hn Hm E. rewrite <- (strtol_num_str b w n), <- (strtol_num_str b w m) by done.
  by rewrite E.
Qed.

(** Characters after the first one that is no digit do not matter. *)
Lemma strtol_stop b (s : string) c (t : string) acc :
  char_digit b c = None -> strtol b (s +:+ String c t) acc = strtol b s acc.
Proof.
  intros Hc. revert acc. induction s as [|x s IH]; intros acc.
  - change ("" +:+ String c t) with (String c t). cbn [strtol]. by rewrite Hc.
  - change (String x s +:+ String c t) with (String x (s +:+ String c t)). cbn [strtol].
    destruct (char_digit b x); [apply IH|done].
Qed.

(** A number that fits in the width has exactly that many digits. *)
Lemma digits_loop_length fuel b n acc m :
  2 <= b -> 0 <= n < b ^ Z.of_nat (S m) -> (length (digits_loop fuel b n acc) <= S m + length acc)%nat.
Proof.
  intros Hb. revert n acc m. induction fuel as [|fuel IH]; intros n acc m Hn; cbn [digits_loop]; [lia|].
  destruct (Z.ltb_spec n b); [simpl; lia|]. destruct m as [|m].
  { change (Z.of_nat 1) with 1 in Hn. rewrite Z.pow_1_r in Hn. lia. }
  rewrite Nat2Z.inj_succ, Z.pow_succ_r in Hn by lia.
  specialize (IH (n / b) (n mod b :: acc) m). simpl in IH. transitivity (S (m + S (length acc))); [apply IH|lia].
  split; [apply Z.div_pos; lia|]. apply Z.div_lt_upper_bound; lia.
Qed.

Lemma list_ascii_length l : String.length (String.string_of_list_ascii l) = length l.
Proof. induction l as [|c l IH]; [done|]. simpl. by rewrite IH. Qed.

Lemma num_str_length b w n :
  2 <= b -> (1 <= w)%nat -> 0 <= n < b ^ Z.of_nat w -> String.length (num_str b w n) = w.
Proof.
  intros Hb Hw Hn. destruct w as [|w]; [lia|].
  unfold num_str, setw, num_chars. rewrite list_ascii_length, length_app, length_replicate, length_map.
  pose proof (digits_loop_length (S (Z.to_nat (Z.log2 n))) b n [] w Hb Hn) as Hl. unfold digits. simpl length in Hl at 2. lia.
Qed.
