(* ===== verification/IdSequence.v ===== *)
(** Model of lib/IdSequence.cpp: the generator of persistence ids.

    The whole state is the 64-bit counter [id]; [next] runs under the object's
    mutex, so a call is one atomic step. The lemmas give the closed form of the
    ids handed out: they walk the ring of the nonzero 64-bit values. *)
From S2P Require Import Prelude.
From Stdlib Require Import ZArith Lia.

Module IdSequence.

Record t := mk { id : Z }.

(** [IdSequence::IdSequence() : id(1)] *)
Definition init : t := mk 1.

(** [if (!id) id++; return id++;] *)
Definition next (s : t) : Z * t :=
  let i := if id s =? 0 then u64 (id s + 1) else id s in
  (i, mk (u64 (i + 1))).

Definition reset (value : Z) (s : t) : t := mk value.

(** [n] successive calls of [next]: the ids returned and the final state. *)
Fixpoint draws (n : nat) (s : t) : list Z * t :=
  match n with
  | O => ([], s)
  | S m => let '(i, s1) := next s in
           let '(l, s2) := draws m s1 in (i :: l, s2)
  end.

Lemma draws_S n s :
  draws (S n) s = ((next s).1 :: (draws n (next s).2).1, (draws n (next s).2).2).
Proof. cbn [draws]. destruct (next s) as [i s1]. cbn. by destruct (draws n s1). Qed.

(** The ring of the [2^64 - 1] nonzero 64-bit values: [ring v k] is the value
    [k] places after [v]. *)
Definition ring_size : Z := 2 ^ 64 - 1.
Definition ring (v k : Z) : Z := 1 + (v - 1 + k) mod ring_size.

Lemma ring_range v k : 0 < ring v k < 2 ^ 64.
Proof.
  unfold ring. pose proof (Z.mod_pos_bound (v - 1 + k) ring_size).
  unfold ring_size in *. lia.
Qed.

Lemma ring_ring v j k : ring (ring v j) k = ring v (j + k).
Proof.
  unfold ring. replace (1 + (v - 1 + j) mod ring_size - 1 + k)
    with ((v - 1 + j) mod ring_size + k) by lia.
  rewrite Zplus_mod_idemp_l. f_equal. f_equal. lia.
Qed.

Lemma ring_inj v j k :
  0 <= j < ring_size -> 0 <= k < ring_size -> ring v j = ring v k -> j = k.
Proof. unfold ring, ring_size. intros Hj Hk E. solve_mod. Qed.

(** Well-formed states: the counter is a 64-bit value. *)
Definition wf (s : t) : Prop := is_u64 (id s).

(** The value the next call returns. *)
Definition head (s : t) : Z := if id s =? 0 then 1 else id s.

Lemma next_wf s : wf s -> wf (next s).2.
Proof. intros _. apply u64_range. Qed.

Lemma next_value s : wf s -> (next s).1 = head s.
Proof.
  unfold wf, is_u64, head, next, u64. intros H. simpl.
  destruct (Z.eqb_spec (id s) 0) as [->|]; [by vm_compute|done].
Qed.

Lemma head_range s : wf s -> 0 < head s < 2 ^ 64.
Proof.
  unfold wf, is_u64, head. intros H. destruct (Z.eqb_spec (id s) 0); lia.
Qed.

Lemma head_next s : wf s -> head (next s).2 = ring (head s) 1.
Proof.
  intros H. pose proof (head_range s H) as Hh.
  assert (E : id (next s).2 = u64 (head s + 1)).
  { pose proof (next_value s H) as Hn. unfold next in *. simpl in *. by rewrite Hn. }
  unfold head at 1. rewrite E. unfold ring, ring_size, u64.
  destruct (Z.eqb_spec ((head s + 1) mod 2 ^ 64) 0); solve_mod.
Qed.

(** Closed form: the [k]-th of [n] successive ids is [ring (head s) k]. *)
Lemma draws_nth n s k :
  wf s -> (k < n)%nat ->
  (draws n s).1 !! k = Some (ring (head s) (Z.of_nat k)).
Proof.
  revert s k. induction n as [|n IH]; intros s k Hs Hk; [lia|].
  rewrite draws_S. cbn [fst]. pose proof (head_range s Hs) as Hr.
  rewrite (next_value s Hs). destruct k as [|k]; cbn [lookup list_lookup].
  - f_equal. unfold ring, ring_size. rewrite Z.mod_small by lia. lia.
  - rewrite (IH _ k) by (try apply next_wf; done || lia).
    rewrite head_next by done. rewrite ring_ring. do 2 f_equal. lia.
Qed.

Lemma draws_length n s : length (draws n s).1 = n.
Proof.
  revert s. induction n as [|n IH]; intros s; [done|].
  rewrite draws_S. cbn [fst length]. by rewrite IH.
Qed.

(** C40: from any 64-bit counter value (wrap-around
    included) the ids of up to [2^64 - 1] successive [next] calls are nonzero,
    fit in 64 bits and are pairwise different. *)
Theorem ids_nonzero_distinct (s : t) (n : nat) :
  wf s -> Z.of_nat n <= 2 ^ 64 - 1 ->
  Forall (fun i => 0 < i < 2 ^ 64) (draws n s).1 /\ NoDup (draws n s).1.
Proof.
  intros Hs Hn. split.
  - apply Forall_lookup. intros k i Hk.
    pose proof (lookup_lt_Some _ _ _ Hk) as Hl. rewrite draws_length in Hl.
    rewrite draws_nth in Hk by done. simplify_eq. apply ring_range.
  - apply NoDup_alt. intros j k i Hj Hk.
    pose proof (lookup_lt_Some _ _ _ Hj) as Hlj.
    pose proof (lookup_lt_Some _ _ _ Hk) as Hlk. rewrite draws_length in Hlj, Hlk.
    rewrite draws_nth in Hj by done. rewrite draws_nth in Hk by done.
    assert (Z.of_nat j = Z.of_nat k); [|lia].
    apply (ring_inj (head s)); unfold ring_size; try lia. congruence.
Qed.

(** Witness: three ids across the wrap-around, which skips 0. *)
Lemma ids_nonzero_distinct_witness :
  (draws 3 (mk (2 ^ 64 - 1))).1 = [2 ^ 64 - 1; 1; 2] /\
  NoDup (draws 3 (mk (2 ^ 64 - 1))).1.
Proof.
  split; [by vm_compute|].
  apply (ids_nonzero_distinct (mk (2 ^ 64 - 1)) 3).
  - unfold wf, is_u64. simpl. lia.
  - lia.
Defined.

End IdSequence.
