(* ===== verification/NestedMap.v ===== *)
(** Two-level maps of lib/PendingOperationSet.h and lib/PidTracker.h.

    The code keys pending operations by queue id and then by message id,
    [std::map<uint64_t, std::map<uint64_t, V>>], and always updates them with
    the same few sequences of [find], [insert], [erase] and [empty]. Those
    sequences are the operations below, with the laws that let the components
    reason on the flat view [nm_get m q p]. *)
From S2P Require Import Prelude.

Section nested.
Context {V : Type}.
Implicit Types (m : gmap Z (gmap Z V)) (q p : Z) (v : V).

(** [outit = m.find(q)], then [outit->second.find(p)]. *)
Definition nm_get m q p : option V :=
  match m !! q with
  | Some sub => sub !! p
  | None => None
  end.

(** [if (outit != m.end()) outit->second.insert(value_type(p,v)); else {sset.insert(..);
    m.insert(value_type(q,sset));}]; [std::map::insert] keeps a value already there. *)
Definition nm_insert m q p v : gmap Z (gmap Z V) :=
  match m !! q with
  | Some sub =>
      match sub !! p with
      | Some _ => m
      | None => <[q := <[p := v]> sub]> m
      end
  | None => <[q := {[p := v]}]> m
  end.

(** [outit->second.erase(outsubit); if (outit->second.empty()) m.erase(outit);]
    once both iterators have been found. *)
Definition nm_erase m q p : gmap Z (gmap Z V) :=
  match m !! q with
  | Some sub =>
      match sub !! p with
      | Some _ =>
          if decide (delete p sub = ∅) then delete q m
          else <[q := delete p sub]> m
      | None => m
      end
  | None => m
  end.

(** The nested loops [for (it = m.begin(); ...) for (iit = it->second.begin(); ...)]:
    queue ids in increasing order, message ids in increasing order for each. *)
Definition nm_list m : list (Z * Z * V) :=
  flat_map (fun qs : Z * gmap Z V =>
              map (fun pv : Z * V => (qs.1, pv.1, pv.2)) (sorted_map qs.2))
           (sorted_map m).

(** No queue is mapped to an empty inner map. *)
Definition nm_wf m : Prop := map_Forall (fun _ sub => sub <> ∅) m.

Lemma nm_get_empty q p : nm_get ∅ q p = None.
Proof. done. Qed.

Lemma nm_wf_empty : nm_wf ∅.
Proof. apply map_Forall_empty. Qed.

Lemma nm_get_insert m q p v q' p' :
  nm_get (nm_insert m q p v) q' p' =
  if decide ((q, p) = (q', p')) then Some (default v (nm_get m q p))
  else nm_get m q' p'.
Proof.
  unfold nm_get, nm_insert. case_decide as Hd.
  - simplify_eq. destruct (m !! q') as [sub|] eqn:Eq; simplify_map_eq; [|done].
    destruct (sub !! p') eqn:Ep; by simplify_map_eq.
  - destruct (m !! q) as [sub|] eqn:Eq.
    + destruct (sub !! p) eqn:Ep; [done|].
      destruct (decide (q = q')) as [->|]; [|by simplify_map_eq].
      simplify_map_eq. by rewrite lookup_insert_ne by congruence.
    + destruct (decide (q = q')) as [->|]; [|by simplify_map_eq].
      simplify_map_eq. by rewrite lookup_singleton_ne by congruence.
Qed.

Lemma nm_get_erase m q p q' p' :
  nm_get (nm_erase m q p) q' p' =
  if decide ((q, p) = (q', p')) then None else nm_get m q' p'.
Proof.
  unfold nm_get, nm_erase. case_decide as Hd.
  - simplify_eq. destruct (m !! q') as [sub|] eqn:Eq; [|by rewrite Eq].
    destruct (sub !! p') eqn:Ep; [|by rewrite Eq].
    case_decide; by simplify_map_eq.
  - destruct (m !! q) as [sub|] eqn:Eq; [|done].
    destruct (sub !! p) eqn:Ep; [|done].
    destruct (decide (q = q')) as [->|Hq].
    + rewrite Eq. assert (p <> p') by congruence. case_decide as He; simplify_map_eq.
      * assert (delete p sub !! p' = None) by by rewrite He. by simplify_map_eq.
      * done.
    + case_decide; by simplify_map_eq.
Qed.

Lemma nm_wf_insert m q p v : nm_wf m -> nm_wf (nm_insert m q p v).
Proof.
  intros Hm. unfold nm_insert.
  destruct (m !! q) as [sub|]; [destruct (sub !! p); [done|]|];
    (apply map_Forall_insert_2; [|exact Hm]);
    first [apply insert_non_empty | apply map_non_empty_singleton].
Qed.

Lemma nm_wf_erase m q p : nm_wf m -> nm_wf (nm_erase m q p).
Proof.
  intros Hm. unfold nm_erase.
  destruct (m !! q) as [sub|]; [destruct (sub !! p); [|done]|done].
  case_decide; [by apply map_Forall_delete|by apply map_Forall_insert_2].
Qed.

(** Well-formed nested maps are determined by their flat view. *)
Lemma nm_ext m1 m2 :
  nm_wf m1 -> nm_wf m2 -> (forall q p, nm_get m1 q p = nm_get m2 q p) -> m1 = m2.
Proof.
  intros W1 W2 H. apply map_eq. intros q. specialize (H q).
  unfold nm_get in H. unfold nm_wf, map_Forall in *.
  destruct (m1 !! q) as [s1|] eqn:E1, (m2 !! q) as [s2|] eqn:E2; try done.
  - f_equal. by apply map_eq.
  - destruct (W1 _ _ E1). by apply map_eq.
  - destruct (W2 _ _ E2). apply map_eq. intros p. by rewrite <- (H p).
Qed.

Lemma elem_of_nm_list m q p v :
  (q, p, v) ∈ nm_list m <-> nm_get m q p = Some v.
Proof.
  unfold nm_list. rewrite list_elem_of_In, in_flat_map. setoid_rewrite in_map_iff.
  unfold nm_get. split.
  - intros ([q' sub] & Hq & ([p' v'] & [= <- <- <-] & Hp)).
    apply list_elem_of_In, elem_of_sorted_map in Hq, Hp. by rewrite Hq.
  - destruct (m !! q) as [sub|] eqn:Eq; [|done]. intros Hp.
    exists (q, sub). split; [by apply list_elem_of_In, elem_of_sorted_map|].
    exists (p, v). split; [done|]. by apply list_elem_of_In, elem_of_sorted_map.
Qed.

Lemma nm_list_NoDup m : NoDup (nm_list m).*1.
Proof.
  unfold nm_list. pose proof (sorted_map_NoDup m) as Hn.
  induction (sorted_map m) as [|[q sub] l IH]; simpl; [constructor|].
  apply NoDup_cons in Hn as [Hq Hn]. rewrite fmap_app. apply NoDup_app.
  assert (Hk : forall k, k ∈ (map (fun pv : Z * V => (q, pv.1, pv.2)) (sorted_map sub)).*1
               -> k.1 = q /\ k.2 ∈ (sorted_map sub).*1).
  { intros k (x & -> & Hx)%list_elem_of_fmap. apply list_elem_of_In, in_map_iff in Hx.
    destruct Hx as (pv & <- & Hp). split; [done|]. simpl.
    apply list_elem_of_fmap. exists pv. by rewrite list_elem_of_In. }
  split_and!.
  - pose proof (sorted_map_NoDup sub) as Hs. clear -Hs.
    induction (sorted_map sub) as [|[p v] s IH]; simpl; [constructor|].
    apply NoDup_cons in Hs as [Hp Hs]. constructor; [|by apply IH].
    intros (x & Hx1 & Hx)%list_elem_of_fmap. apply list_elem_of_In, in_map_iff in Hx.
    destruct Hx as ([p' v'] & <- & Hp'). simpl in *. simplify_eq. apply Hp.
    apply list_elem_of_fmap. exists (p', v'). by rewrite list_elem_of_In.
  - intros [q' p'] [Hq' _]%Hk (x & Hx1 & Hx)%list_elem_of_fmap. simpl in Hq'. subst q'.
    apply list_elem_of_In, in_flat_map in Hx. destruct Hx as ([q2 s2] & Hin & Hx).
    apply in_map_iff in Hx. destruct Hx as (pv & <- & _). simpl in *. simplify_eq.
    apply Hq, list_elem_of_fmap. exists (q2, s2). by rewrite list_elem_of_In.
  - by apply IH.
Qed.

End nested.

#[export] Hint Resolve nm_wf_empty nm_wf_insert nm_wf_erase : store.
#[export] Hint Rewrite @nm_get_empty @nm_get_insert @nm_get_erase : store.
