(* ===== verification/PidTracker.v ===== *)
(** Model of lib/PidTracker.cpp and lib/PidTracker.h.

    The tracker tells a thread that wants to delete a message from the journal
    whether the thread that stores it has finished. It keeps
    - [mainRecord]: the highest persistence id below which every store is done
      ([lastPid]) and the ids done beyond it ([gapPidSet]);
    - [dupMap]: for each queue the ids whose store is a repeated enqueue of a
      message that already has an id;
    - [pendMap]: for each queue the ids whose store is scheduled and not yet
      decided (used by the smart-async option);
    - [stopped].
    Every method runs under the mutex of the part it touches, so each critical
    section is one function below; [addPid] and [waitForPid] have two. *)
From S2P Require Import Prelude.
From Stdlib Require Import ZArith Lia.

Record PidRecord := mkPidRecord { lastPid : Z; gapPidSet : gset Z }.

(** [std::map<uint64_t,MessageIdSet>] *)
Abbreviation QMMap := (gmap Z (gset Z)).

Record PidTracker := mkPidTracker {
  dupMap : QMMap;
  pendMap : QMMap;
  mainRecord : PidRecord;
  stopped : bool
}.

Module PidTracker.

(** ** Operations *)

Definition init : PidTracker := mkPidTracker ∅ ∅ (mkPidRecord 0 ∅) false.

Definition set_dup (d : QMMap) (t : PidTracker) : PidTracker :=
  mkPidTracker d (pendMap t) (mainRecord t) (stopped t).
Definition set_pend (d : QMMap) (t : PidTracker) : PidTracker :=
  mkPidTracker (dupMap t) d (mainRecord t) (stopped t).
Definition set_main (r : PidRecord) (t : PidTracker) : PidTracker :=
  mkPidTracker (dupMap t) (pendMap t) r (stopped t).

(** [PidTracker::reset] *)
Definition reset (pid : Z) (t : PidTracker) : PidTracker :=
  set_main (mkPidRecord pid ∅) t.

(** Is [pid] in the set that [m] holds for [qid]? *)
Definition qm_mem (m : QMMap) (qid pid : Z) : bool :=
  match m !! qid with
  | Some s => bool_decide (pid ∈ s)
  | None => false
  end.

(** First critical section of [addPid] (under [dupMutex]): forget a duplicate. *)
Definition addPid_dup (pid qid : Z) (t : PidTracker) : bool * PidTracker :=
  match dupMap t !! qid with
  | Some s =>
      if bool_decide (pid ∈ s) then
        let s' := s ∖ {[pid]} in
        let d := if decide (s' = ∅) then delete qid (dupMap t)
                 else <[qid := s']> (dupMap t) in
        (true, set_dup d t)
      else (false, t)
  | None => (false, t)
  end.

(** The [while] loop of [addPid] over the gap set, in increasing order. At
    [end()] the loop stops whatever the (invalid) read of [*pidIt] gives,
    because the second conjunct is false. *)
Fixpoint drain (last : Z) (gaps : list Z) : Z * list Z :=
  match gaps with
  | [] => (last, [])
  | x :: gaps' =>
      if int_of (sub64 x last) <=? 1 then drain (Z.max x last) gaps'
      else (last, gaps)
  end.

(** Second critical section of [addPid] (under [pidMutex]). *)
Definition addPid_main (pid : Z) (r : PidRecord) : bool * PidRecord :=
  if 1 <? int_of (sub64 pid (lastPid r)) then
    if lastPid r <? pid then (false, mkPidRecord (lastPid r) ({[pid]} ∪ gapPidSet r))
    else (false, r)
  else
    let '(last, gaps) := drain (Z.max pid (lastPid r)) (sorted_set (gapPidSet r)) in
    (true, mkPidRecord last (list_to_set gaps)).

(** [PidTracker::addPid] *)
Definition addPid (pid qid : Z) (t : PidTracker) : bool * PidTracker :=
  let '(updated, t1) := addPid_dup pid qid t in
  if updated then (true, t1)
  else let '(updated2, r) := addPid_main pid (mainRecord t1) in
       (updated2, set_main r t1).

(** [PidTracker::addDuplicate] *)
Definition addDuplicate (pid qid : Z) (t : PidTracker) : bool * PidTracker :=
  match dupMap t !! qid with
  | Some s => (true, set_dup (<[qid := {[pid]} ∪ s]> (dupMap t)) t)
  | None => (true, set_dup (<[qid := {[pid]}]> (dupMap t)) t)
  end.

(** [PidTracker::willEnqueue]: the result says whether the id was new. *)
Definition willEnqueue (pid qid : Z) (t : PidTracker) : bool * PidTracker :=
  match pendMap t !! qid with
  | Some s => (negb (bool_decide (pid ∈ s)),
               set_pend (<[qid := {[pid]} ∪ s]> (pendMap t)) t)
  | None => (true, set_pend (<[qid := {[pid]}]> (pendMap t)) t)
  end.

(** [PidTracker::dequeueCheck]: [false] means the dequeue is not required. *)
Definition dequeueCheck (pid qid : Z) (t : PidTracker) : bool * PidTracker :=
  match pendMap t !! qid with
  | Some s =>
      if bool_decide (pid ∈ s)
      then (false, set_pend (<[qid := s ∖ {[pid]}]> (pendMap t)) t)
      else (true, t)
  | None => (true, t)
  end.

(** [PidTracker::enqueueCheck]: [true] means the enqueue is required. *)
Definition enqueueCheck (pid qid : Z) (t : PidTracker) : bool * PidTracker :=
  match pendMap t !! qid with
  | Some s =>
      if bool_decide (pid ∈ s)
      then (true, set_pend (<[qid := s ∖ {[pid]}]> (pendMap t)) t)
      else (false, t)
  | None => (false, t)
  end.

(** [PidTracker::stop] *)
Definition stop (t : PidTracker) : PidTracker :=
  mkPidTracker (dupMap t) (pendMap t) (mainRecord t) true.

(** ** Waiting

    [waitForPid] sees the shared tracker only when it holds a lock: at the
    first test and after each wake-up of a condition variable. [obs] lists
    those observations in order; other threads may have changed the tracker in
    any way between two of them, and a wake-up may be spurious. [None] means
    that the thread is still blocked when the observations run out. *)

(** The second block of [waitForPid], waiting on [notYetEnqueued]; [t] is the
    tracker seen when the loop test runs. *)
Fixpoint wait_main (pid try_count : Z) (t : PidTracker) (obs : list PidTracker) : option Z :=
  if lastPid (mainRecord t) <? pid then
    match obs with
    | [] => None
    | t' :: obs' =>
        let try_count := try_count + 1 in
        if stopped t' then Some (-2)
        else if 100 <? try_count then Some (-1)
        else wait_main pid try_count t' obs'
    end
  else Some try_count.

(** The first block, waiting on [duplicateNotEnqueued]. *)
Fixpoint wait_dup (pid qid try_count : Z) (t : PidTracker) (obs : list PidTracker) : option Z :=
  if qm_mem (dupMap t) qid pid then
    match obs with
    | [] => None
    | t' :: obs' =>
        if stopped t' then Some (-2)
        else
          let try_count := try_count + 1 in
          if 100 <? try_count then Some (-1)
          else wait_dup pid qid try_count t' obs'
    end
  else
    if 100 <? try_count then Some (-1)
    else match obs with
         | [] => None
         | t' :: obs' => wait_main pid try_count t' obs'
         end.

(** [PidTracker::waitForPid]: the first observation is the tracker at the call. *)
Definition waitForPid (pid qid : Z) (obs : list PidTracker) : option Z :=
  match obs with
  | [] => None
  | t :: obs' => wait_dup pid qid 0 t obs'
  end.

(** ** The main record *)

(** Every gap is ahead of [last] by less than the reach of the [int] cast. *)
Definition in_reach (last : Z) (gaps : list Z) : Prop :=
  Forall (fun x => last < x < last + 2 ^ 31) gaps.

(** What the [while] loop does to an ordered gap list: it absorbs exactly the
    run of consecutive ids that starts right after [last]. *)
Lemma drain_spec last gaps last' rest :
  StronglySorted (≤) gaps -> NoDup gaps -> in_reach last gaps ->
  drain last gaps = (last', rest) ->
  last <= last' /\
  (forall x, last < x <= last' -> x ∈ gaps) /\
  (forall x, x ∈ rest <-> x ∈ gaps /\ last' < x) /\
  last' + 1 ∉ rest.
Proof.
  revert last. induction gaps as [|g gaps IH]; intros last Hs Hn Hr E; simpl in E.
  - simplify_eq. split_and!; [lia|lia|set_solver|set_solver].
  - apply StronglySorted_cons in Hs as [Hg Hs]. apply NoDup_cons in Hn as [Hgn Hn].
    apply Forall_cons in Hr as [Hgr Hr].
    assert (Hlt : Forall (fun x => g < x) gaps).
    { rewrite Forall_forall in Hg |- *. intros x Hx. specialize (Hg x Hx).
      assert (x <> g) by set_solver. lia. }
    rewrite int_of_diff_small in E by lia.
    destruct (Z.leb_spec (g - last) 1) as [Hc|Hc].
    + rewrite Z.max_l in E by lia.
      assert (Hr' : in_reach g gaps).
      { unfold in_reach in *. rewrite Forall_forall in *. intros x Hx.
        specialize (Hr x Hx). specialize (Hlt x Hx). lia. }
      specialize (IH g Hs Hn Hr' E) as (I1 & I2 & I3 & I4).
      split_and!; [lia| | |done].
      * intros x Hx. rewrite elem_of_cons.
        destruct (decide (x = g)); [by left|]. right. apply I2. lia.
      * intros x. rewrite elem_of_cons, I3. split; [naive_solver|].
        intros [[->|Hx] Hl]; [lia|done].
    + simplify_eq. rewrite Forall_forall in Hlt. split_and!; [lia|lia| |].
      * intros x. split; [|naive_solver]. intros Hx. split; [done|].
        apply elem_of_cons in Hx as [->|Hx]; [lia|]. specialize (Hlt x Hx). lia.
      * rewrite elem_of_cons. intros [?|Hx]; [lia|]. specialize (Hlt _ Hx). lia.
Qed.

(** Abstract specification of the record: [added] is the set of ids reported so
    far on top of a history complete up to [base]. *)
Definition tracks (base : Z) (added : gset Z) (r : PidRecord) : Prop :=
  base <= lastPid r /\
  (forall x, base < x <= lastPid r -> x ∈ added) /\
  (forall x, x ∈ gapPidSet r <-> x ∈ added /\ lastPid r < x) /\
  lastPid r + 1 ∉ added.

(** The ids the [int] cast can compare with [lastPid]. *)
Definition in_window (r : PidRecord) (pid : Z) : Prop :=
  - 2 ^ 31 <= pid - lastPid r < 2 ^ 31 /\
  forall x, x ∈ gapPidSet r -> x < lastPid r + 2 ^ 31.

Lemma addPid_main_tracks base added r pid :
  tracks base added r -> in_window r pid ->
  tracks base ({[pid]} ∪ added) (addPid_main pid r).2 /\
  (addPid_main pid r).1 = bool_decide (pid <= lastPid (addPid_main pid r).2).
Proof.
  intros (Tb & Tp & Tg & Tn) [Hw Hg]. unfold addPid_main.
  rewrite int_of_diff_small by lia.
  destruct (Z.ltb_spec 1 (pid - lastPid r)) as [Hc|Hc].
  - destruct (Z.ltb_spec (lastPid r) pid); [|lia]. simpl. split.
    + unfold tracks. simpl. split_and!; [done|set_solver| |set_solver by lia].
      intros x. rewrite !elem_of_union, !elem_of_singleton, Tg.
      split; [|naive_solver]. intros [->|[? ?]]; [split; [by left|lia]|by split; [right|]].
    + rewrite bool_decide_false by lia. done.
  - destruct (drain _ _) as [last' rest] eqn:E. simpl.
    apply drain_spec in E as (D1 & D2 & D3 & D4);
      [|apply sorted_set_sorted|apply sorted_set_NoDup|].
    + setoid_rewrite elem_of_sorted_set in D2. setoid_rewrite elem_of_sorted_set in D3.
      split; [|rewrite bool_decide_true by lia; done].
      assert (Hn1 : lastPid r + 1 ∉ gapPidSet r) by (rewrite Tg; naive_solver).
      unfold tracks. simpl. split_and!; [lia| | |].
      * intros x Hx. rewrite elem_of_union, elem_of_singleton.
        destruct (decide (x = pid)); [by left|]. right.
        destruct (decide (x <= lastPid r)); [apply Tp; lia|]. apply Tg, D2. lia.
      * intros x. rewrite elem_of_list_to_set, D3, Tg, elem_of_union, elem_of_singleton.
        split; [naive_solver|]. intros [[->|?] ?]; [lia|]. split_and!; [done|lia|lia].
      * rewrite elem_of_union, elem_of_singleton. intros [?|Hx]; [lia|].
        apply D4, D3. rewrite Tg. split_and!; [done|lia|lia].
    + apply Forall_forall. intros x Hx%elem_of_sorted_set. pose proof (Hg x Hx).
      apply Tg in Hx as [Hx1 Hx2].
      assert (x <> lastPid r + 1) by (intros ->; done). lia.
Qed.

(** The record after the stores of [pids] have reported, in that order, to a
    tracker reset at [base]. *)
Definition record_after (base : Z) (pids : list Z) : PidRecord :=
  foldl (fun r pid => (addPid_main pid r).2) (mkPidRecord base ∅) pids.

Lemma record_after_snoc base pids pid :
  record_after base (pids ++ [pid]) = (addPid_main pid (record_after base pids)).2.
Proof. unfold record_after. by rewrite foldl_app. Qed.

Lemma record_after_tracks base pids :
  Forall (fun x => base < x < base + 2 ^ 31) pids ->
  tracks base (list_to_set pids) (record_after base pids) /\
  lastPid (record_after base pids) < base + 2 ^ 31.
Proof.
  induction pids as [|pid pids IH] using rev_ind; intros H.
  - split; [|simpl; lia]. unfold tracks. simpl. split_and!; [lia|lia|set_solver|set_solver].
  - apply Forall_app in H as [H1 [H2 _]%Forall_cons].
    destruct (IH H1) as [T L]. rewrite record_after_snoc.
    assert (W : in_window (record_after base pids) pid).
    { destruct T as (Tb & _ & Tg & _). split; [lia|]. intros x [Hx _]%Tg.
      apply elem_of_list_to_set in Hx. rewrite Forall_forall in H1. specialize (H1 x Hx). lia. }
    destruct (addPid_main_tracks _ _ _ _ T W) as [T' _].
    replace (list_to_set (pids ++ [pid])) with ({[pid]} ∪ list_to_set pids : gset Z)
      by set_solver.
    split; [exact T'|]. destruct T' as (Tb & Tp & _ & _).
    destruct (decide (lastPid (addPid_main pid (record_after base pids)).2 <= base)); [lia|].
    specialize (Tp _ ltac:(split; [|reflexivity]; lia)).
    rewrite elem_of_union, elem_of_singleton, elem_of_list_to_set in Tp.
    destruct Tp as [Tp|Tp]; [lia|]. rewrite Forall_forall in H1.
    specialize (H1 _ Tp). lia.
Qed.

(** C11: after the stores of [pids] have reported in any
    order (repetitions included, ids within the reach of the [int] cast), an id
    [m] passes the test [pid <= lastPid] of [waitForPid] exactly when every id
    from the reset point up to [m] has reported, and the gap set holds exactly
    the reported ids beyond [lastPid]. A single id that never reports therefore
    blocks every later one. *)
Theorem tracker_contiguous (base : Z) (pids : list Z) :
  Forall (fun x => base < x < base + 2 ^ 31) pids ->
  (forall m, base < m ->
     (m <= lastPid (record_after base pids) <-> forall x, base < x <= m -> x ∈ pids)) /\
  (forall x, x ∈ gapPidSet (record_after base pids) <->
     x ∈ pids /\ lastPid (record_after base pids) < x).
Proof.
  intros H. destruct (record_after_tracks base pids H) as [(Tb & Tp & Tg & Tn) _].
  setoid_rewrite elem_of_list_to_set in Tp.
  setoid_rewrite elem_of_list_to_set in Tg. rewrite elem_of_list_to_set in Tn.
  split; [|done]. intros m Hm. split; [intros; apply Tp; lia|].
  intros Hall. destruct (decide (m <= lastPid (record_after base pids))); [done|].
  destruct Tn. apply Hall. lia.
Qed.

Lemma tracker_contiguous_witness :
  record_after 10 [12; 11; 15; 13] = mkPidRecord 13 {[15]} /\
  (12 <= lastPid (record_after 10 [12; 11; 15; 13]) <->
   forall x, 10 < x <= 12 -> x ∈ [12; 11; 15; 13]).
Proof.
  split; [by vm_compute|].
  apply (tracker_contiguous 10 [12; 11; 15; 13]); [|lia].
  repeat (constructor; [lia|]). constructor.
Defined.

(** Whatever the order in which the worker threads
    finish, once the [n] ids after the reset point have all been stored the
    record is closed: [lastPid] is the last of them and no gap is left. *)
Theorem tracker_any_order (base : Z) (n : nat) (pids : list Z) :
  Z.of_nat n < 2 ^ 31 -> pids ≡ₚ seqZ (base + 1) (Z.of_nat n) ->
  record_after base pids = mkPidRecord (base + Z.of_nat n) ∅.
Proof.
  intros Hn Hp.
  assert (Hin : forall x, x ∈ pids <-> base < x <= base + Z.of_nat n).
  { intros x. rewrite Hp, elem_of_seqZ. lia. }
  assert (H : Forall (fun x => base < x < base + 2 ^ 31) pids).
  { apply Forall_forall. intros x Hx%Hin. lia. }
  destruct (record_after_tracks base pids H) as [(Tb & Tp & Tg & Tn) _].
  rewrite elem_of_list_to_set, Hin in Tn.
  assert (El : lastPid (record_after base pids) = base + Z.of_nat n).
  { destruct (decide (lastPid (record_after base pids) <= base)); [lia|].
    specialize (Tp _ ltac:(split; [|reflexivity]; lia)).
    rewrite elem_of_list_to_set, Hin in Tp. lia. }
  destruct (record_after base pids) as [l g]. simpl in *. subst l. f_equal.
  apply set_eq. intros x. rewrite Tg, elem_of_list_to_set, Hin. split; [lia|set_solver].
Qed.

Lemma tracker_any_order_witness :
  record_after 7 [10; 8; 9] = mkPidRecord 10 ∅.
Proof.
  apply (tracker_any_order 7 3 [10; 8; 9]); [lia|].
  change (seqZ (7 + 1) (Z.of_nat 3)) with [8; 9; 10].
  change [8; 9; 10] with ([8; 9] ++ [10]). by rewrite Permutation_app_comm.
Defined.

(** The [int] cast in [addPid] loses the gap when an
    id is [2^31] or more (but less than [2^32]) ahead: instead of being kept as
    a gap, the id becomes [lastPid], and every missing id before it counts as
    stored. *)
Theorem tracker_cast_overflow (last pid : Z) :
  last + 2 ^ 31 <= pid < last + 2 ^ 32 ->
  addPid_main pid (mkPidRecord last ∅) = (true, mkPidRecord pid ∅).
Proof.
  intros H. unfold addPid_main. simpl. rewrite int_of_sub64.
  assert (E : int_of (pid - last) = pid - last - 2 ^ 32).
  { unfold int_of. rewrite Z.mod_small by lia.
    destruct (Z.ltb_spec (pid - last) (2 ^ 31)); lia. }
  rewrite E. destruct (Z.ltb_spec 1 (pid - last - 2 ^ 32)); [lia|].
  change (sorted_set ∅) with (@nil Z). simpl. by rewrite Z.max_l by lia.
Qed.

Lemma tracker_cast_overflow_witness :
  addPid_main (5 + 2 ^ 31) (mkPidRecord 5 ∅) = (true, mkPidRecord (5 + 2 ^ 31) ∅).
Proof. apply (tracker_cast_overflow 5 (5 + 2 ^ 31)). lia. Defined.

(** ** Waiting for a store to finish *)

Lemma wait_main_result pid n t obs r :
  0 <= n <= 100 -> wait_main pid n t obs = Some r ->
  (r = -2 /\ exists t', t' ∈ obs /\ stopped t' = true) \/
  (r = -1 /\ (100 < Z.of_nat (length obs) + n)) \/
  (n <= r <= 100 /\ exists t', t' ∈ t :: obs /\ pid <= lastPid (mainRecord t')).
Proof.
  revert n t. induction obs as [|t' obs IH]; intros n t Hn E; simpl in E;
    destruct (Z.ltb_spec (lastPid (mainRecord t)) pid) as [Hl|Hl]; try done.
  - simplify_eq. right; right. split; [lia|]. exists t. split; [set_solver|lia].
  - destruct (stopped t') eqn:Es.
    + simplify_eq. left. split; [done|]. exists t'. set_solver.
    + destruct (Z.ltb_spec 100 (n + 1)).
      * simplify_eq. right; left. split; [done|]. rewrite length_cons. lia.
      * apply IH in E; [|lia]. rewrite length_cons. set_solver by lia.
  - simplify_eq. right; right. split; [lia|]. exists t. split; [set_solver|lia].
Qed.

Lemma wait_main_total pid n t obs :
  0 <= n <= 100 -> 101 <= Z.of_nat (length obs) + n -> is_Some (wait_main pid n t obs).
Proof.
  revert n t. induction obs as [|t' obs IH]; intros n t Hn Hl; [simpl in Hl; lia|].
  simpl. case_goal; [|done]. case_goal; [done|].
  destruct (Z.ltb_spec 100 (n + 1)); [done|].
  apply IH; [lia|]. rewrite length_cons in Hl. lia.
Qed.

(** What an answer of the first block says. *)
Definition wait_answer (pid qid : Z) (obs : list PidTracker) (r : Z) : Prop :=
  (r = -2 /\ exists t, t ∈ obs /\ stopped t = true) \/
  (r = -1 /\ 101 < Z.of_nat (length obs)) \/
  (0 <= r <= 100 /\
   exists l1 t l2, obs = l1 ++ t :: l2 /\ qm_mem (dupMap t) qid pid = false /\
     exists t', t' ∈ l2 /\ pid <= lastPid (mainRecord t')).

Lemma wait_dup_result pid qid n t obs r pre :
  0 <= n <= 100 -> Z.of_nat (length pre) = n ->
  wait_dup pid qid n t obs = Some r -> wait_answer pid qid (pre ++ t :: obs) r.
Proof.
  revert n t pre. induction obs as [|t' obs IH]; intros n t pre Hn Hp E;
    simpl in E;
    destruct (qm_mem (dupMap t) qid pid) eqn:Em; try done;
    destruct (Z.ltb_spec 100 n); try lia; try done.
  - destruct (stopped t') eqn:Es.
    + simplify_eq. left. split; [done|]. exists t'. set_solver.
    + destruct (Z.ltb_spec 100 (n + 1)).
      * simplify_eq. right; left. split; [done|]. rewrite length_app, !length_cons. lia.
      * replace (pre ++ t :: t' :: obs) with ((pre ++ [t]) ++ t' :: obs)
          by by rewrite <- app_assoc.
        apply (IH (n + 1)); [lia|rewrite length_app; simpl; lia|done].
  - apply wait_main_result in E; [|lia].
    destruct E as [(-> & x & Hx & Hs)|[(-> & Hl)|(Hr & x & Hx & Hs)]].
    + left. split; [done|]. exists x. set_solver.
    + right; left. split; [done|]. rewrite length_app, !length_cons. lia.
    + right; right. split; [lia|]. exists pre, t, (t' :: obs). split_and!; eauto.
Qed.

Lemma wait_dup_total pid qid n t obs :
  0 <= n <= 100 -> 102 <= Z.of_nat (length obs) + n -> is_Some (wait_dup pid qid n t obs).
Proof.
  revert n t. induction obs as [|t' obs IH]; intros n t Hn Hl; [simpl in Hl; lia|].
  rewrite length_cons in Hl. simpl. case_goal.
  - case_goal; [done|]. destruct (Z.ltb_spec 100 (n + 1)); [done|]. apply IH; lia.
  - destruct (Z.ltb_spec 100 n); [done|]. apply wait_main_total; lia.
Qed.

(** [waitForPid] never waits for ever on a tracker that keeps
    being signalled: 103 observations always produce an answer, whatever the
    other threads do. *)
Theorem wait_total (pid qid : Z) (obs : list PidTracker) :
  (103 <= length obs)%nat -> is_Some (waitForPid pid qid obs).
Proof.
  destruct obs as [|t obs]; simpl; [lia|]. intros. apply wait_dup_total; lia.
Qed.

Lemma wait_total_witness :
  is_Some (waitForPid 3 1 (replicate 103 init)) /\
  waitForPid 3 1 (replicate 103 init) = Some (-1).
Proof. split; [apply (wait_total 3 1 (replicate 103 init)); simpl; lia|by vm_compute]. Defined.

(** An answer of [waitForPid] is the stop code and the tracker
    was seen stopped, or the retry code after more than a hundred wake-ups, or
    a number of wake-ups between 0 and 100; in that last case the id was first
    seen not to be a pending duplicate of the queue and at a later moment seen
    to be covered by [lastPid]. *)
Theorem wait_sound (pid qid r : Z) (obs : list PidTracker) :
  waitForPid pid qid obs = Some r -> wait_answer pid qid obs r.
Proof.
  destruct obs as [|t obs]; simpl; [done|]. intros E.
  apply (wait_dup_result _ _ _ _ _ _ []) in E; [done|lia|done].
Qed.

Lemma wait_sound_witness :
  waitForPid 3 1 [init; init; set_main (mkPidRecord 4 ∅) init] = Some 1 /\
  wait_answer 3 1 [init; init; set_main (mkPidRecord 4 ∅) init] 1.
Proof. split; [by vm_compute|]. apply (wait_sound 3 1 1); by vm_compute. Defined.

(** ** The smart-async rendezvous *)

(** Calls on [pendMap] made by the broker threads ([PWill], [PDeq]) and by the
    pool threads ([PEnq]). *)
Inductive pend_op : Type :=
| PWill (pid qid : Z)
| PDeq (pid qid : Z)
| PEnq (pid qid : Z).

Definition pend_key (o : pend_op) : Z * Z :=
  match o with PWill p q | PDeq p q | PEnq p q => (p, q) end.

Definition pend_run (o : pend_op) (t : PidTracker) : bool * PidTracker :=
  match o with
  | PWill p q => willEnqueue p q t
  | PDeq p q => dequeueCheck p q t
  | PEnq p q => enqueueCheck p q t
  end.

Definition pend_run_all (os : list pend_op) (t : PidTracker) : PidTracker :=
  foldl (fun t o => (pend_run o t).2) t os.

Lemma qm_mem_insert m q s q' p' :
  qm_mem (<[q := s]> m) q' p' = if decide (q = q') then bool_decide (p' ∈ s) else qm_mem m q' p'.
Proof. unfold qm_mem. case_decide; by simplify_map_eq. Qed.

Lemma pend_run_mem o t q' p' :
  qm_mem (pendMap (pend_run o t).2) q' p' =
  if decide (pend_key o = (p', q')) then (if o is PWill _ _ then true else false)
  else qm_mem (pendMap t) q' p'.
Proof.
  destruct o as [p q|p q|p q]; unfold pend_run, willEnqueue, dequeueCheck, enqueueCheck;
    simpl; destruct (pendMap t !! q) as [s|] eqn:Eq;
    try (destruct (bool_decide (p ∈ s)) eqn:Ep;
         [apply bool_decide_eq_true in Ep|apply bool_decide_eq_false in Ep]); simpl;
    rewrite ?qm_mem_insert; repeat case_decide; simplify_eq; try done;
    unfold qm_mem; try rewrite Eq; try done;
    try (apply bool_decide_eq_true; set_solver); try (apply bool_decide_eq_false; set_solver);
    try (apply bool_decide_ext; set_solver).
Qed.

Lemma pend_run_all_mem os t q p :
  Forall (fun o => pend_key o <> (p, q)) os ->
  qm_mem (pendMap (pend_run_all os t)) q p = qm_mem (pendMap t) q p.
Proof.
  revert t. induction os as [|o os IH]; intros t; [done|].
  intros [H1 H2]%Forall_cons. simpl. unfold pend_run_all in *. simpl.
  rewrite IH by done. rewrite pend_run_mem. by case_decide.
Qed.

Lemma dequeueCheck_mem p q t : (dequeueCheck p q t).1 = negb (qm_mem (pendMap t) q p).
Proof. unfold dequeueCheck, qm_mem. by repeat case_goal. Qed.

Lemma enqueueCheck_mem p q t : (enqueueCheck p q t).1 = qm_mem (pendMap t) q p.
Proof. unfold enqueueCheck, qm_mem. by repeat case_goal. Qed.

(** C34: once [willEnqueue] has announced a store, the dequeue
    of the same message and the store agree whatever else happens in between:
    if the store checks first both are executed, if the dequeue checks first
    both are skipped. *)
Theorem smart_rendezvous (pid qid : Z) (t : PidTracker) (os1 os2 : list pend_op) :
  Forall (fun o => pend_key o <> (pid, qid)) os1 ->
  Forall (fun o => pend_key o <> (pid, qid)) os2 ->
  let t1 := pend_run_all os1 (willEnqueue pid qid t).2 in
  ((enqueueCheck pid qid t1).1 = true /\
   (dequeueCheck pid qid (pend_run_all os2 (enqueueCheck pid qid t1).2)).1 = true) /\
  ((dequeueCheck pid qid t1).1 = false /\
   (enqueueCheck pid qid (pend_run_all os2 (dequeueCheck pid qid t1).2)).1 = false).
Proof.
  intros H1 H2 t1.
  assert (M : qm_mem (pendMap t1) qid pid = true).
  { unfold t1. rewrite pend_run_all_mem by done.
    pose proof (pend_run_mem (PWill pid qid) t qid pid) as E. simpl in E.
    by rewrite decide_True in E. }
  pose proof (pend_run_mem (PEnq pid qid) t1 qid pid) as E1.
  pose proof (pend_run_mem (PDeq pid qid) t1 qid pid) as E2.
  simpl in E1, E2. rewrite decide_True in E1, E2 by done.
  rewrite !dequeueCheck_mem, !enqueueCheck_mem, !pend_run_all_mem, M, E1, E2 by done.
  done.
Qed.

Lemma smart_rendezvous_witness :
  (dequeueCheck 5 1 (pend_run_all [PWill 6 1] (willEnqueue 5 1 init).2)).1 = false.
Proof.
  apply (smart_rendezvous 5 1 init [PWill 6 1] []);
    repeat (constructor; [done|]); constructor.
Defined.

(** A repeated enqueue recorded by [addDuplicate] is
    taken back by the [addPid] of its store: the map of duplicates is as before
    and the main record, which only counts first enqueues, is not touched. *)
Theorem duplicate_roundtrip (pid qid : Z) (t : PidTracker) :
  map_Forall (fun _ s => s <> ∅) (dupMap t) -> qm_mem (dupMap t) qid pid = false ->
  let t1 := (addDuplicate pid qid t).2 in
  qm_mem (dupMap t1) qid pid = true /\ addPid pid qid t1 = (true, t).
Proof.
  intros Hw Hm t1. unfold t1, addDuplicate, addPid, addPid_dup, qm_mem in *.
  destruct (dupMap t !! qid) as [s|] eqn:E; simpl; rewrite lookup_insert_eq.
  - apply bool_decide_eq_false in Hm. rewrite bool_decide_true by set_solver.
    split; [done|]. replace (({[pid]} ∪ s) ∖ {[pid]}) with s by set_solver.
    rewrite decide_False by by eapply Hw. rewrite insert_insert_eq, insert_id by done.
    by destruct t.
  - rewrite bool_decide_true by set_solver. split; [done|].
    rewrite decide_True by set_solver. rewrite delete_insert_id by done. by destruct t.
Qed.

Lemma duplicate_roundtrip_witness :
  addPid 4 2 (addDuplicate 4 2 init).2 = (true, init).
Proof. apply (duplicate_roundtrip 4 2 init); [apply map_Forall_empty|done]. Defined.

End PidTracker.
