(* ===== verification/PendingOps.v ===== *)
(** Pending asynchronous operations: lib/PendingOperationType.h, the maps of
    lib/PendingOperationSet.h and the comparison operators defined at the end
    of lib/AsyncOperationLogger.cpp. *)
From S2P Require Import Prelude NestedMap.
From Stdlib Require Import ZArith Lia.

Record PendingAsyncOperation := mkPAO { pao_msgId : Z; pao_queueId : Z }.

Record PendingAsyncDequeue := mkPAD { pad_msgId : Z; pad_queueId : Z }.

Record PendingAsyncEnqueue := mkPAE {
  pae_msgId : Z;
  pae_queueId : Z;
  pae_buff : list byte;
  pae_size : Z;
  pae_transient : bool
}.

#[export] Instance PendingAsyncOperation_eq_dec : EqDecision PendingAsyncOperation.
Proof. solve_decision. Defined.
#[export] Instance PendingAsyncDequeue_eq_dec : EqDecision PendingAsyncDequeue.
Proof. solve_decision. Defined.
#[export] Instance PendingAsyncEnqueue_eq_dec : EqDecision PendingAsyncEnqueue.
Proof. solve_decision. Defined.

(** [PendingOperationId], a pair (message id, queue id), and [opId()]. *)
Abbreviation PendingOperationId := (Z * Z)%type.
Definition opId (o : PendingAsyncOperation) : PendingOperationId :=
  (pao_msgId o, pao_queueId o).
Definition pae_opId (o : PendingAsyncEnqueue) : PendingOperationId :=
  (pae_msgId o, pae_queueId o).

(** The maps of lib/PendingOperationSet.h: queue id, then message id. *)
Abbreviation PendingOperationSet := (gmap Z (gmap Z PendingAsyncOperation)).
Abbreviation PendingDequeueSet := (gmap Z (gmap Z PendingAsyncDequeue)).
Abbreviation PendingEnqueueSet := (gmap Z (gmap Z PendingAsyncEnqueue)).

Module PendingOps.

Implicit Types l r : PendingAsyncOperation.

Definition op_eq l r : bool :=
  (pao_msgId l =? pao_msgId r) && (pao_queueId l =? pao_queueId r).
Definition op_ne l r : bool :=
  negb (pao_msgId l =? pao_msgId r) || negb (pao_queueId l =? pao_queueId r).
Definition op_lt l r : bool :=
  if pao_msgId l <? pao_msgId r then true
  else if pao_queueId l <? pao_queueId r then true else false.
Definition op_gt l r : bool :=
  if pao_msgId r <? pao_msgId l then true
  else if pao_queueId r <? pao_queueId l then true else false.
Definition op_le l r : bool := if op_eq l r || op_lt l r then true else false.
Definition op_ge l r : bool := if op_eq l r || op_gt l r then true else false.

Lemma op_eq_spec l r : op_eq l r = true <-> l = r.
Proof.
  destruct l as [a b], r as [c d]. unfold op_eq. simpl.
  rewrite andb_true_iff, !Z.eqb_eq. naive_solver.
Qed.

(** [==] and [!=] decide equality, [<] and [>] are
    converses of each other, but [<] is not asymmetric: two operations whose
    message ids and queue ids are ordered in opposite ways are each below the
    other. *)
Theorem op_lt_not_strict_order (l r : PendingAsyncOperation) :
  (op_eq l r = true <-> l = r) /\ op_ne l r = negb (op_eq l r) /\
  op_gt l r = op_lt r l /\
  (op_lt l r = true /\ op_lt r l = true <->
     (pao_msgId l < pao_msgId r /\ pao_queueId r < pao_queueId l) \/
     (pao_msgId r < pao_msgId l /\ pao_queueId l < pao_queueId r)).
Proof.
  split_and!.
  - apply op_eq_spec.
  - unfold op_ne, op_eq. by rewrite negb_andb.
  - done.
  - unfold op_lt.
    destruct (Z.ltb_spec (pao_msgId l) (pao_msgId r)), (Z.ltb_spec (pao_msgId r) (pao_msgId l)),
      (Z.ltb_spec (pao_queueId l) (pao_queueId r)), (Z.ltb_spec (pao_queueId r) (pao_queueId l));
      naive_solver lia.
Qed.

End PendingOps.
