(* ===== verification/LogFormat.v ===== *)
(** The record formats of the asynchronous operation logs:
    the buffer-filling and buffer-reading code of lib/AsyncOperationLogger.cpp.

    A log is a sequence of records without separators. A record starts with an
    opcode byte; 64-bit fields are in host byte order. The writers fill a zeroed
    buffer with [memcpy] at computed offsets, the readers copy it back; both are
    modelled at that level, and the class [LogKind] states what the rest of the
    development relies on. It has two instances, the enqueue log and the dequeue
    log. *)
From S2P Require Import Prelude PendingOps.
From Stdlib Require Import ZArith Lia.

(** The largest [std::vector<char>] the host grants; beyond it the constructor
    throws. *)
Class HostAlloc := { vector_max : Z }.

(** ** Opcodes and buffer sizes *)

Definition aolog_dequeue_start : byte := x02.
Definition aolog_dequeue_complete : byte := x03.
Definition aolog_enqueue_start : byte := x04.
Definition aolog_enqueue_complete : byte := x05.

Definition deqStartSize : nat := 1 + 8 + 8.
Definition deqCompleteSize : nat := 1 + 8 + 8.
Definition enqCompleteSize : nat := 1 + 8 + 8.
Definition enqDataPreambleSize : nat := 1 + 8 + 8 + 8 + 1.

(** ** File names *)

(** [buildEnqLogName] and [buildDeqLogName]. *)
Definition buildEnqLogName (logBaseDir : string) (index : Z) (temp : bool) : string :=
  logBaseDir +:+ "/enq" +:+ (if temp then "_tmp" else "0" +:+ pretty index) +:+ ".log".
Definition buildDeqLogName (logBaseDir : string) (index : Z) (temp : bool) : string :=
  logBaseDir +:+ "/deq" +:+ (if temp then "_tmp" else "0" +:+ pretty index) +:+ ".log".

(** Two names under one prefix are equal only for the same kind of file and, for
    the numbered files, the same number. *)
Lemma log_name_inj (pre : string) (i j : Z) (s t : bool) :
  pre +:+ (if s then "_tmp" else "0" +:+ pretty i) +:+ ".log" =
  pre +:+ (if t then "_tmp" else "0" +:+ pretty j) +:+ ".log" ->
  s = t /\ (s = false -> i = j).
Proof.
  intros E. apply (inj (String.append pre)), string_app_inj_r in E.
  destruct s, t; [by split|discriminate E|discriminate E|]. split; [done|]. intros _.
  injection E as E. exact (pretty_Z_inj _ _ E).
Qed.

Section format.
Context `{HostEndian, HostAlloc}.

(** ** Writers *)

(** A two-field record: opcode, message id, queue id. *)
Definition fill2 (n : nat) (op : byte) (pid qid : Z) : list byte :=
  let wbuff := memset0 n in
  let wbuff := <[0%nat := op]> wbuff in
  let wbuff := memcpy wbuff 1 (enc64 pid) in
  let buffindex := (1 + 8)%nat in
  memcpy wbuff buffindex (enc64 qid).

(** The buffer of [log_dequeue_start_on_file]. *)
Definition dequeue_start_bytes (pid qid : Z) : list byte :=
  fill2 deqStartSize aolog_dequeue_start pid qid.

(** The buffers of [log_dequeue_complete] and [log_enqueue_complete]. *)
Definition dequeue_complete_bytes (pid qid : Z) : list byte :=
  fill2 deqCompleteSize aolog_dequeue_complete pid qid.
Definition enqueue_complete_bytes (pid qid : Z) : list byte :=
  fill2 enqCompleteSize aolog_enqueue_complete pid qid.

(** The preamble buffer of [log_enqueue_start_on_file]. *)
Definition enqueue_preamble (pid qid buffsize : Z) (transient : bool) : list byte :=
  let wbuff := memset0 enqDataPreambleSize in
  let wbuff := <[0%nat := aolog_enqueue_start]> wbuff in
  let wbuff := memcpy wbuff 1 (enc64 pid) in
  let buffindex := (1 + 8)%nat in
  let wbuff := memcpy wbuff buffindex (enc64 qid) in
  let buffindex := (buffindex + 8)%nat in
  let wbuff := memcpy wbuff buffindex (enc64 buffsize) in
  let buffindex := (buffindex + 8)%nat in
  <[buffindex := if transient then x01 else x00]> wbuff.

(** The two writes of [log_enqueue_start_on_file]: the preamble, then
    [buffsize] bytes of [buff]. *)
Definition enqueue_start_bytes (pid qid : Z) (buff : list byte) (buffsize : Z)
    (transient : bool) : list byte :=
  enqueue_preamble pid qid buffsize transient ++ take (Z.to_nat buffsize) buff.

(** The loop of the two [log_mass_*_complete] methods over a block from
    [malloc]: opcode and ids at [buffindex], which advances by 17. *)
Fixpoint mass_fill (op : byte) (pid_list : list PendingOperationId)
    (bigbuff : list byte) (buffindex : nat) : list byte :=
  match pid_list with
  | [] => bigbuff
  | (p, q) :: rest =>
      let bigbuff := <[buffindex := op]> bigbuff in
      let buffindex := (buffindex + 1)%nat in
      let bigbuff := memcpy bigbuff buffindex (enc64 p) in
      let buffindex := (buffindex + 8)%nat in
      let bigbuff := memcpy bigbuff buffindex (enc64 q) in
      let buffindex := (buffindex + 8)%nat in
      mass_fill op rest bigbuff buffindex
  end.

(** ** Readers *)

(** [infile.read(dst,n)] on the bytes left in the file: [None] when fewer than
    [n] are left, which sets both [failbit] and [eofbit]. *)
Definition istream_read (n : Z) (s : list byte) : option (list byte * list byte) :=
  if n <=? Z.of_nat (length s)
  then Some (take (Z.to_nat n) s, drop (Z.to_nat n) s)
  else None.

(** [memcpy(&x,&buf[i],sizeof(uint64_t))]. *)
Definition field64 (buf : list byte) (i : nat) : Z := dec64 (take 8 (drop i buf)).

(** Reading the body of a start record: an exception, the end of the file, or a
    record and the bytes after it. *)
Inductive start_read (V : Type) : Type :=
| SRThrow
| SREof
| SRRec (pid qid : Z) (v : V) (rest : list byte).
Arguments SRThrow {V}.
Arguments SREof {V}.
Arguments SRRec {V} pid qid v rest.

(** [case aolog_dequeue_start] of [extractPendingDequeueFromFile]. *)
Definition read_dequeue_start (s : list byte) : start_read PendingAsyncDequeue :=
  match istream_read (Z.of_nat deqStartSize - 1) s with
  | None => SREof
  | Some (body, rest) =>
      let startbuff := memcpy (memset0 deqStartSize) 1 body in
      let pid := field64 startbuff 1 in
      let qid := field64 startbuff (1 + 8) in
      SRRec pid qid (mkPAD pid qid) rest
  end.

(** [case aolog_enqueue_start] of [extractPendingEnqueueFromFile]. *)
Definition read_enqueue_start (s : list byte) : start_read PendingAsyncEnqueue :=
  match istream_read (Z.of_nat enqDataPreambleSize - 1) s with
  | None => SREof
  | Some (body, rest) =>
      let startbuff := memcpy (memset0 enqDataPreambleSize) 1 body in
      let pid := field64 startbuff 1 in
      let qid := field64 startbuff (8 + 1) in
      let size := field64 startbuff (8 + 1 + 8) in
      let transientFlag := negb (bool_decide (default x00 (startbuff !! (8 + 1 + 8 + 8)%nat) = x00)) in
      if vector_max <? size then SRThrow
      else match istream_read size rest with
           | None => SREof
           | Some (buff, rest') => SRRec pid qid (mkPAE pid qid buff size transientFlag) rest'
           end
  end.

(** The body of a complete record; [n] is [deqCompleteSize] or
    [enqCompleteSize]. *)
Definition read_complete (n : nat) (s : list byte) : option (Z * Z * list byte) :=
  match istream_read (Z.of_nat n - 1) s with
  | None => None
  | Some (body, rest) =>
      let completebuff := memcpy (memset0 n) 1 body in
      Some (field64 completebuff 1, field64 completebuff (1 + 8), rest)
  end.

(** ** What the buffers contain *)

Lemma opcode_set op n : <[0%nat := op]> (memset0 (S n)) = [op] ++ memset0 n.
Proof. done. Qed.

(** [memcpy] of a field at an offset that is the length of what is filled in. *)
Lemma memcpy_at pre z n m i :
  i = length pre -> m = (8 + n)%nat ->
  memcpy (pre ++ memset0 m) i (enc64 z) = (pre ++ enc64 z) ++ memset0 n.
Proof.
  intros -> ->. rewrite (memcpy_next _ _ n) by by rewrite enc64_length.
  by rewrite app_assoc.
Qed.

Lemma fill2_app op pid qid : fill2 17 op pid qid = op :: enc64 pid ++ enc64 qid.
Proof.
  unfold fill2. rewrite opcode_set. rewrite (memcpy_at _ _ 8) by done.
  rewrite (memcpy_at _ _ 0) by (done || by rewrite length_app, enc64_length).
  by rewrite <- app_assoc, app_nil_r.
Qed.

Lemma enqueue_preamble_app pid qid size tr :
  enqueue_preamble pid qid size tr =
  aolog_enqueue_start :: enc64 pid ++ enc64 qid ++ enc64 size ++ [if tr then x01 else x00].
Proof.
  unfold enqueue_preamble. change enqDataPreambleSize with (S 25).
  rewrite opcode_set. rewrite (memcpy_at _ _ 17) by done.
  rewrite (memcpy_at _ _ 9) by (done || by rewrite length_app, enc64_length).
  rewrite (memcpy_at _ _ 1) by (done || by rewrite !length_app, !enc64_length).
  set (pre := (([aolog_enqueue_start] ++ enc64 pid) ++ enc64 qid) ++ enc64 size).
  replace (1 + 8 + 8 + 8)%nat with (length pre + 0)%nat
    by (unfold pre; by rewrite !length_app, !enc64_length).
  rewrite insert_app_r. unfold pre. by rewrite <- !app_assoc.
Qed.

(** Reading back a field that was just copied in. *)
Lemma field64_at n pre z post :
  is_u64 z -> length pre = n -> field64 (pre ++ enc64 z ++ post) n = z.
Proof.
  intros Hz <-. unfold field64. rewrite drop_app_length.
  rewrite <- (enc64_length z), take_app_length. by apply dec64_enc64.
Qed.

Lemma startbuff_app n body :
  length body = n -> memcpy (memset0 (S n)) 1 body = [x00] ++ body.
Proof.
  intros <-. change (memset0 (S (length body))) with ([x00] ++ memset0 (length body)).
  change 1%nat with (length [x00]). rewrite (memcpy_next _ _ 0) by lia.
  by rewrite app_nil_r.
Qed.

Lemma istream_read_app s rest :
  istream_read (Z.of_nat (length s)) (s ++ rest) = Some (s, rest).
Proof.
  unfold istream_read. rewrite length_app, Nat2Z.id.
  destruct (Z.leb_spec (Z.of_nat (length s)) (Z.of_nat (length s + length rest))); [|lia].
  by rewrite take_app_length, drop_app_length.
Qed.

Lemma istream_read_rest n s a b :
  istream_read n s = Some (a, b) -> (length b <= length s)%nat.
Proof.
  unfold istream_read. case_goal; [|done]. intros [= <- <-]. rewrite length_drop. lia.
Qed.

Lemma istream_read_short n s :
  Z.of_nat (length s) < n -> istream_read n s = None.
Proof. intros Hn. unfold istream_read. destruct (Z.leb_spec n (Z.of_nat (length s))); [lia|done]. Qed.

(** ** The interface of a log *)

(** What the logger relies on for the values [V] of one of its logs: how start
    records are written and read, and that reading inverts writing. *)
Class LogKind (V : Type) := {
  k_start_op : byte;
  k_complete_op : byte;
  k_pid : V -> Z;
  k_qid : V -> Z;
  k_valid : V -> Prop;
  k_body : V -> list byte;
  k_read_start : list byte -> start_read V;
  k_write_start : V -> list byte;
  k_write_complete : Z -> Z -> list byte;
  k_name : string -> Z -> bool -> string;
  k_ops_differ : k_complete_op <> k_start_op;
  k_valid_u64 : forall v, k_valid v -> is_u64 (k_pid v) /\ is_u64 (k_qid v);
  k_read_body : forall v rest, k_valid v ->
    k_read_start (k_body v ++ rest) = SRRec (k_pid v) (k_qid v) v rest;
  k_read_cut : forall v n, k_valid v -> (n < length (k_body v))%nat ->
    k_read_start (take n (k_body v)) = SREof;
  k_read_rest : forall s p q v rest,
    k_read_start s = SRRec p q v rest -> (length rest <= length s)%nat;
  k_write_start_ok : forall v, k_valid v -> k_write_start v = k_start_op :: k_body v;
  k_write_complete_ok : forall p q, k_write_complete p q = fill2 17 k_complete_op p q;
  k_name_inj : forall b i j s t,
    k_name b i s = k_name b j t -> s = t /\ (s = false -> i = j)
}.

(** Values that [log_dequeue_start] can log. *)
Definition valid_dequeue (v : PendingAsyncDequeue) : Prop :=
  is_u64 (pad_msgId v) /\ is_u64 (pad_queueId v).

(** Values that [log_enqueue_start] can log: [size] is the size of [buff]. *)
Definition valid_enqueue (v : PendingAsyncEnqueue) : Prop :=
  is_u64 (pae_msgId v) /\ is_u64 (pae_queueId v) /\ is_u64 (pae_size v) /\
  pae_size v = Z.of_nat (length (pae_buff v)) /\ pae_size v <= vector_max.

Definition enqueue_head (v : PendingAsyncEnqueue) : list byte :=
  enc64 (pae_msgId v) ++ enc64 (pae_queueId v) ++ enc64 (pae_size v) ++
  [if pae_transient v then x01 else x00].

Lemma enqueue_head_length v : length (enqueue_head v) = 25%nat.
Proof. unfold enqueue_head. by rewrite !length_app, !enc64_length. Qed.

Lemma read_enqueue_head v rest :
  valid_enqueue v ->
  read_enqueue_start (enqueue_head v ++ rest) =
  match istream_read (pae_size v) rest with
  | None => SREof
  | Some (buff, rest') =>
      SRRec (pae_msgId v) (pae_queueId v)
        (mkPAE (pae_msgId v) (pae_queueId v) buff (pae_size v) (pae_transient v)) rest'
  end.
Proof.
  intros (Hp & Hq & Hs & Hl & Hm). unfold read_enqueue_start.
  change (Z.of_nat enqDataPreambleSize - 1) with (Z.of_nat 25).
  rewrite <- (enqueue_head_length v), istream_read_app.
  unfold enqDataPreambleSize. change (1 + 8 + 8 + 8 + 1)%nat with (S 25).
  rewrite startbuff_app by apply enqueue_head_length. unfold enqueue_head.
  pose proof (enc64_length (pae_msgId v)) as Lp. pose proof (enc64_length (pae_queueId v)) as Lq.
  pose proof (enc64_length (pae_size v)) as Ls.
  set (tr := [if pae_transient v then x01 else x00]).
  rewrite (field64_at 1 [x00]) by done.
  rewrite app_assoc, (field64_at (8 + 1)) by (done || rewrite length_app, Lp; done).
  rewrite app_assoc, (field64_at (8 + 1 + 8)) by (done || rewrite !length_app, Lp, Lq; done).
  destruct (Z.ltb_spec vector_max (pae_size v)); [lia|].
  rewrite app_assoc, lookup_app_r by (rewrite !length_app, Lp, Lq, Ls; simpl; lia).
  rewrite !length_app, Lp, Lq, Ls.
  unfold tr. by destruct (pae_transient v).
Qed.

#[export, program] Instance enqueue_log : LogKind PendingAsyncEnqueue := {
  k_start_op := aolog_enqueue_start;
  k_complete_op := aolog_enqueue_complete;
  k_pid := pae_msgId;
  k_qid := pae_queueId;
  k_valid := valid_enqueue;
  k_body := fun v => enqueue_head v ++ pae_buff v;
  k_read_start := read_enqueue_start;
  k_write_start := fun v => enqueue_start_bytes (pae_msgId v) (pae_queueId v) (pae_buff v)
                              (pae_size v) (pae_transient v);
  k_write_complete := enqueue_complete_bytes;
  k_name := buildEnqLogName
}.
Next Obligation. done. Qed.
Next Obligation. intros v (? & ? & _). done. Qed.
Next Obligation.
  intros v rest Hv. cbn beta. rewrite <- app_assoc, read_enqueue_head by done.
  destruct Hv as (_ & _ & _ & Hl & _). rewrite Hl, istream_read_app.
  rewrite <- Hl. by destruct v.
Qed.
Next Obligation.
  intros v n Hv Hn. cbn beta in *. rewrite length_app, enqueue_head_length in Hn.
  destruct (decide (25 <= n)%nat) as [Hd|Hd].
  - rewrite take_app_ge, enqueue_head_length by (rewrite enqueue_head_length; lia).
    rewrite read_enqueue_head by done. destruct Hv as (_ & _ & _ & Hl & _).
    rewrite istream_read_short; [done|]. rewrite Hl, length_take. lia.
  - unfold read_enqueue_start. rewrite istream_read_short; [done|].
    rewrite length_take. change (Z.of_nat enqDataPreambleSize) with 26. lia.
Qed.
Next Obligation.
  intros s p q v rest. unfold read_enqueue_start.
  destruct (istream_read _ s) as [[body r1]|] eqn:E1; [|done].
  case_goal; [done|]. destruct (istream_read _ r1) as [[b r2]|] eqn:E2; [|done].
  intros [= _ _ _ <-]. apply istream_read_rest in E1, E2. lia.
Qed.
Next Obligation.
  intros v (_ & _ & _ & Hl & _). cbn beta. unfold enqueue_start_bytes.
  rewrite enqueue_preamble_app, Hl, Nat2Z.id, firstn_all, <- Hl.
  unfold enqueue_head. by rewrite app_comm_cons.
Qed.
Next Obligation. done. Qed.
Next Obligation.
  intros b i j s t. cbn beta. unfold buildEnqLogName. rewrite <- !(string_app_assoc b).
  apply log_name_inj.
Qed.

Lemma read_dequeue_body v rest :
  valid_dequeue v ->
  read_dequeue_start ((enc64 (pad_msgId v) ++ enc64 (pad_queueId v)) ++ rest) =
  SRRec (pad_msgId v) (pad_queueId v) v rest.
Proof.
  intros [Hp Hq]. unfold read_dequeue_start.
  assert (L : length (enc64 (pad_msgId v) ++ enc64 (pad_queueId v)) = 16%nat)
    by by rewrite length_app, !enc64_length.
  change (Z.of_nat deqStartSize - 1) with (Z.of_nat 16). rewrite <- L at 1.
  rewrite istream_read_app. change deqStartSize with (S 16).
  rewrite startbuff_app by done.
  rewrite (field64_at 1 [x00]) by done.
  rewrite app_assoc, <- (app_nil_r (enc64 (pad_queueId v))).
  rewrite (field64_at (1 + 8)) by (done || by rewrite length_app, enc64_length).
  by destruct v.
Qed.

#[export, program] Instance dequeue_log : LogKind PendingAsyncDequeue := {
  k_start_op := aolog_dequeue_start;
  k_complete_op := aolog_dequeue_complete;
  k_pid := pad_msgId;
  k_qid := pad_queueId;
  k_valid := valid_dequeue;
  k_body := fun v => enc64 (pad_msgId v) ++ enc64 (pad_queueId v);
  k_read_start := read_dequeue_start;
  k_write_start := fun v => dequeue_start_bytes (pad_msgId v) (pad_queueId v);
  k_write_complete := dequeue_complete_bytes;
  k_name := buildDeqLogName
}.
Next Obligation. done. Qed.
Next Obligation. done. Qed.
Next Obligation. intros v rest Hv. by apply read_dequeue_body. Qed.
Next Obligation.
  intros v n Hv Hn. cbn beta in *. rewrite length_app, !enc64_length in Hn.
  unfold read_dequeue_start. rewrite istream_read_short; [done|].
  rewrite length_take. change (Z.of_nat deqStartSize) with 17. lia.
Qed.
Next Obligation.
  intros s p q v rest. unfold read_dequeue_start.
  destruct (istream_read _ s) as [[body r1]|] eqn:E1; [|done].
  intros [= _ _ _ <-]. by apply istream_read_rest in E1.
Qed.
Next Obligation. intros v _. apply fill2_app. Qed.
Next Obligation. done. Qed.
Next Obligation.
  intros b i j s t. cbn beta. unfold buildDeqLogName. rewrite <- !(string_app_assoc b).
  apply log_name_inj.
Qed.

End format.

Arguments SRThrow {V}.
Arguments SREof {V}.
Arguments SRRec {V} pid qid v rest.
