(* ===== verification/LogExtract.v ===== *)
(** Reading a log back: [extractPendingEnqueueFromFile] and
    [extractPendingDequeueFromFile] of lib/AsyncOperationLogger.cpp.

    The two methods have the same control flow over two log kinds, so the loop
    is written once against the [LogKind] interface. It keeps the set of pending
    operations (started and not completed) and the set of lost completes (the
    complete was read and its start was not, since it may be in the other file).

    The theorems compare the loop with a specification on records: what one key
    (queue id, message id) goes through, and which bytes of a file that was cut
    short by a crash still count. *)
From S2P Require Import Prelude NestedMap PendingOps LogFormat.
From Stdlib Require Import ZArith Lia.

Section extract.
Context `{HostEndian} {V : Type} `{!LogKind V}.

Abbreviation psets := (gmap Z (gmap Z V) * PendingOperationSet)%type.

(** ** The loop *)

(** The branches of the [switch] once a whole record has been read. *)
Definition on_start (pid qid : Z) (v : V) (st : psets) : psets :=
  let '(aeset, lostSet) := st in
  match nm_get lostSet qid pid with
  | Some _ => (aeset, nm_erase lostSet qid pid)
  | None => (nm_insert aeset qid pid v, lostSet)
  end.

Definition on_complete (pid qid : Z) (st : psets) : psets :=
  let '(aeset, lostSet) := st in
  match nm_get aeset qid pid with
  | Some _ => (nm_erase aeset qid pid, lostSet)
  | None => (aeset, nm_insert lostSet qid pid (mkPAO pid qid))
  end.

(** The [do ... while (!infile.eof())] loop. Each turn consumes at least the
    opcode byte, so the number of bytes is enough fuel ([extract_loop_fuel]);
    [None] is the exception of an impossible allocation. *)
Fixpoint extract_loop (fuel : nat) (s : list byte) (st : psets) : option psets :=
  match fuel with
  | O => Some st
  | S fuel' =>
      match s with
      | [] => Some st
      | opcode :: s1 =>
          if decide (opcode = k_start_op (V:=V)) then
            match k_read_start s1 with
            | SRThrow => None
            | SREof => Some st
            | SRRec pid qid v rest => extract_loop fuel' rest (on_start pid qid v st)
            end
          else if decide (opcode = k_complete_op (V:=V)) then
            match read_complete 17 s1 with
            | None => Some st
            | Some (pid, qid, rest) => extract_loop fuel' rest (on_complete pid qid st)
            end
          else extract_loop fuel' s1 st
      end
  end.

Definition extract (s : list byte) (st : psets) : option psets :=
  extract_loop (length s) s st.

Lemma read_complete_rest n s p q rest :
  read_complete n s = Some (p, q, rest) -> (length rest <= length s)%nat.
Proof.
  unfold read_complete. destruct (istream_read _ s) as [[b r]|] eqn:E; [|done].
  intros [= _ _ <-]. by apply istream_read_rest in E.
Qed.

Lemma extract_loop_fuel fuel s st :
  (length s <= fuel)%nat -> extract_loop fuel s st = extract s st.
Proof.
  unfold extract. remember (length s) as n eqn:En. revert fuel s st En.
  induction n as [n IH] using lt_wf_ind. intros fuel s st -> Hf.
  destruct s as [|op s]; [by destruct fuel|].
  destruct fuel as [|fuel]; simpl in Hf; [lia|]. simpl.
  assert (Hgo : forall r st', (length r <= length s)%nat ->
            extract_loop fuel r st' = extract_loop (length s) r st').
  { intros r st' Hr. rewrite (IH (length r)) by (simpl; done || lia).
    symmetry. apply (IH (length r)); simpl; done || lia. }
  case_decide.
  - destruct (k_read_start s) eqn:Er; [done|done|]. apply k_read_rest in Er. by apply Hgo.
  - case_decide; [|by apply Hgo].
    destruct (read_complete 17 s) as [[[p q] r]|] eqn:Er; [|done].
    apply read_complete_rest in Er. by apply Hgo.
Qed.

(** ** Records *)

Inductive log_rec : Type :=
| LStart (v : V)
| LComplete (pid qid : Z).

(** The bytes the writers put in the file for a record. *)
Definition enc_rec (r : log_rec) : list byte :=
  match r with
  | LStart v => k_start_op (V:=V) :: k_body v
  | LComplete pid qid => fill2 17 (k_complete_op (V:=V)) pid qid
  end.

Definition encode (rs : list log_rec) : list byte := flat_map enc_rec rs.

Definition valid_rec (r : log_rec) : Prop :=
  match r with
  | LStart v => k_valid v
  | LComplete pid qid => is_u64 pid /\ is_u64 qid
  end.

Definition apply_rec (st : psets) (r : log_rec) : psets :=
  match r with
  | LStart v => on_start (k_pid v) (k_qid v) v st
  | LComplete pid qid => on_complete pid qid st
  end.

Definition apply_recs (rs : list log_rec) (st : psets) : psets := foldl apply_rec st rs.

Lemma encode_app rs1 rs2 : encode (rs1 ++ rs2) = encode rs1 ++ encode rs2.
Proof. apply flat_map_app. Qed.

Lemma apply_recs_app rs1 rs2 st :
  apply_recs (rs1 ++ rs2) st = apply_recs rs2 (apply_recs rs1 st).
Proof. apply foldl_app. Qed.

Lemma enc_rec_nonempty r : (0 < length (enc_rec r))%nat.
Proof. destruct r; simpl; [lia|]. rewrite fill2_app. simpl. lia. Qed.

Lemma read_complete_body p q rest :
  is_u64 p -> is_u64 q ->
  read_complete 17 ((enc64 p ++ enc64 q) ++ rest) = Some (p, q, rest).
Proof.
  intros Hp Hq. unfold read_complete.
  assert (L : length (enc64 p ++ enc64 q) = 16%nat) by by rewrite length_app, !enc64_length.
  change (Z.of_nat 17 - 1) with (Z.of_nat 16). rewrite <- L at 1.
  rewrite istream_read_app. change 17%nat with (S 16). rewrite startbuff_app by done.
  rewrite (field64_at 1 [x00]) by done.
  rewrite app_assoc, <- (app_nil_r (enc64 q)).
  by rewrite (field64_at (1 + 8)) by (done || by rewrite length_app, enc64_length).
Qed.

(** One record at the front of the file. *)
Lemma extract_rec r s st :
  valid_rec r -> extract (enc_rec r ++ s) st = extract s (apply_rec st r).
Proof.
  intros Hr. unfold extract at 1. destruct r as [v|p q]; simpl in *.
  - rewrite decide_True by done. rewrite k_read_body by done.
    apply extract_loop_fuel. rewrite length_app. lia.
  - rewrite fill2_app. simpl. rewrite decide_False by apply k_ops_differ.
    rewrite decide_True by done. destruct Hr. rewrite read_complete_body by done.
    apply extract_loop_fuel. rewrite length_app. lia.
Qed.

Lemma extract_encode_app rs s st :
  Forall valid_rec rs -> extract (encode rs ++ s) st = extract s (apply_recs rs st).
Proof.
  revert st. induction rs as [|r rs IH]; intros st; [done|].
  intros [H1 H2]%Forall_cons. simpl. rewrite <- app_assoc, extract_rec by done.
  by rewrite IH by done.
Qed.

Lemma extract_encode rs st :
  Forall valid_rec rs -> extract (encode rs) st = Some (apply_recs rs st).
Proof.
  intros Hr. rewrite <- (app_nil_r (encode rs)), extract_encode_app by done. done.
Qed.

(** A record cut short at the end of the file is ignored. *)
Lemma extract_cut r n st :
  valid_rec r -> (n < length (enc_rec r))%nat -> extract (take n (enc_rec r)) st = Some st.
Proof.
  intros Hr Hn. destruct n as [|n]; [done|]. unfold extract.
  destruct r as [v|p q]; cbn [enc_rec] in *.
  - simpl in Hn. simpl. rewrite decide_True by done. by rewrite k_read_cut by (done || lia).
  - rewrite fill2_app in *. simpl in Hn. simpl. rewrite decide_False by apply k_ops_differ.
    rewrite decide_True by done. unfold read_complete. rewrite istream_read_short; [done|].
    rewrite length_take, !length_app, !enc64_length in *. lia.
Qed.

(** The records that lie entirely in the first [n] bytes. *)
Fixpoint whole_recs (n : nat) (rs : list log_rec) : list log_rec :=
  match rs with
  | [] => []
  | r :: rs' =>
      if decide (length (enc_rec r) <= n)%nat
      then r :: whole_recs (n - length (enc_rec r)) rs'
      else []
  end.

Lemma extract_truncated rs n st :
  Forall valid_rec rs ->
  extract (take n (encode rs)) st = Some (apply_recs (whole_recs n rs) st).
Proof.
  revert n st. induction rs as [|r rs IH]; intros n st; [simpl; by rewrite take_nil|].
  intros [H1 H2]%Forall_cons. simpl. case_decide.
  - rewrite take_app_ge by done. rewrite extract_rec by done. by rewrite IH.
  - rewrite take_app_le by lia. apply extract_cut; [done|lia].
Qed.

Lemma whole_recs_prefix n rs : whole_recs n rs `prefix_of` rs.
Proof.
  revert n. induction rs as [|r rs IH]; intros n; simpl; [done|].
  case_decide; [|apply prefix_nil]. by apply prefix_cons.
Qed.

Lemma whole_recs_app rs1 rs2 n :
  (length (encode rs1) <= n)%nat ->
  whole_recs n (rs1 ++ rs2) = rs1 ++ whole_recs (n - length (encode rs1)) rs2.
Proof.
  revert n. induction rs1 as [|r rs IH]; intros n Hn; simpl in *; [by rewrite Nat.sub_0_r|].
  rewrite length_app in Hn. rewrite decide_True by lia. rewrite IH by lia.
  by rewrite length_app, Nat.sub_add_distr.
Qed.

(** ** One key

    Seen from one key (queue id, message id) the loop is a three-state machine. *)

Inductive key_state : Type :=
| KNone
| KPending (v : V)
| KLost.

Definition rec_key (r : log_rec) : Z * Z :=
  match r with
  | LStart v => (k_qid v, k_pid v)
  | LComplete pid qid => (qid, pid)
  end.

Definition key_step (s : key_state) (r : log_rec) : key_state :=
  match r, s with
  | LStart v, KNone => KPending v
  | LStart _, KPending v => KPending v
  | LStart _, KLost => KNone
  | LComplete _ _, KPending _ => KNone
  | LComplete _ _, _ => KLost
  end.

(** The state of a key in the two sets of the loop. *)
Definition key_of (st : psets) (q p : Z) : key_state :=
  match nm_get st.1 q p, nm_get st.2 q p with
  | Some v, _ => KPending v
  | None, Some _ => KLost
  | None, None => KNone
  end.

(** Invariant of the loop: no key is in both sets, the values are filed under
    their own ids, no inner map is empty. *)
Record sets_ok (st : psets) : Prop := {
  so_wf1 : nm_wf st.1;
  so_wf2 : nm_wf st.2;
  so_disj : forall q p v, nm_get st.1 q p = Some v -> nm_get st.2 q p = None;
  so_val : forall q p v, nm_get st.1 q p = Some v -> k_qid v = q /\ k_pid v = p;
  so_lost : forall q p o, nm_get st.2 q p = Some o -> o = mkPAO p q
}.

Lemma sets_ok_empty : sets_ok (∅, ∅).
Proof. split; auto with store; done. Qed.

Lemma on_start_ok v st : sets_ok st -> sets_ok (on_start (k_pid v) (k_qid v) v st).
Proof.
  intros [W1 W2 D Vl Lo]. destruct st as [a l]. unfold on_start. simpl in *.
  destruct (nm_get l (k_qid v) (k_pid v)) as [o|] eqn:E; split; simpl; auto with store;
    intros q p x; rewrite ?nm_get_insert, ?nm_get_erase; case_decide as Hd; eauto.
  - done.
  - by simplify_eq.
  - simplify_eq. intros [= <-].
    destruct (nm_get a (k_qid v) (k_pid v)) eqn:E2; simpl; [by apply Vl|done].
Qed.

Lemma on_complete_ok p q st : sets_ok st -> sets_ok (on_complete p q st).
Proof.
  intros [W1 W2 D Vl Lo]. destruct st as [a l]. unfold on_complete. simpl in *.
  destruct (nm_get a q p) eqn:E; split; simpl; auto with store;
    intros q' p' x; rewrite ?nm_get_insert, ?nm_get_erase; case_decide as Hd; eauto.
  - done.
  - done.
  - simplify_eq. congruence.
  - simplify_eq. intros [= <-].
    destruct (nm_get l q' p') eqn:E2; simpl; [by apply Lo|done].
Qed.

Lemma apply_rec_ok st r : sets_ok st -> sets_ok (apply_rec st r).
Proof. destruct r; simpl; [apply on_start_ok|apply on_complete_ok]. Qed.

Lemma apply_recs_ok rs st : sets_ok st -> sets_ok (apply_recs rs st).
Proof. revert st. induction rs; simpl; auto using apply_rec_ok. Qed.

Lemma key_of_apply st r q p :
  sets_ok st ->
  key_of (apply_rec st r) q p =
  if decide (rec_key r = (q, p)) then key_step (key_of st q p) r else key_of st q p.
Proof.
  intros [W1 W2 D Vl Lo]. destruct st as [a l]. unfold key_of. simpl in *.
  destruct r as [v|p' q']; unfold apply_rec, on_start, on_complete; simpl.
  - destruct (nm_get l (k_qid v) (k_pid v)) as [o|] eqn:E; simpl;
      rewrite ?nm_get_insert, ?nm_get_erase; case_decide as Hk; simplify_eq; try done.
    + rewrite E. destruct (nm_get a (k_qid v) (k_pid v)) eqn:Ea; [|done].
      apply D in Ea. congruence.
    + rewrite E. by destruct (nm_get a (k_qid v) (k_pid v)).
  - destruct (nm_get a q' p') as [v|] eqn:E; simpl;
      rewrite ?nm_get_insert, ?nm_get_erase; case_decide as Hk; simplify_eq; try done.
    + apply D in E as E'. by rewrite E, E'.
    + rewrite E. by destruct (nm_get l q p).
Qed.

Lemma key_of_apply_recs rs st q p :
  sets_ok st ->
  key_of (apply_recs rs st) q p =
  foldl key_step (key_of st q p) (filter (fun r => rec_key r = (q, p)) rs).
Proof.
  revert st. induction rs as [|r rs IH]; intros st Hst; [done|].
  simpl. rewrite IH by by apply apply_rec_ok. rewrite key_of_apply by done.
  rewrite filter_cons. by case_decide.
Qed.

(** ** Keys that are started at most once *)

(** The values started for a key, and whether a complete was written for it. *)
Definition starts (rs : list log_rec) (q p : Z) : list V :=
  omap (fun r => match r with
                 | LStart v => if decide ((k_qid v, k_pid v) = (q, p)) then Some v else None
                 | LComplete _ _ => None
                 end) rs.

Definition completed (rs : list log_rec) (q p : Z) : Prop := LComplete p q ∈ rs.

#[export] Instance log_rec_complete_dec (r : log_rec) p q : Decision (r = LComplete p q).
Proof.
  destruct r as [v|p' q']; [by right|].
  destruct (decide (p' = p)), (decide (q' = q)); subst; [by left|right; congruence..].
Defined.

#[export] Instance completed_dec rs q p : Decision (completed rs q p).
Proof.
  unfold completed. destruct (decide (Exists (fun r => r = LComplete p q) rs)) as [E|E];
    rewrite Exists_exists in E; [left|right]; naive_solver.
Defined.

Definition started_once (rs : list log_rec) : Prop :=
  forall q p, (length (starts rs q p) <= 1)%nat.

(** What is pending according to the records alone: started, not completed. *)
Definition pending (rs : list log_rec) (q p : Z) : option V :=
  if decide (completed rs q p) then None else head (starts rs q p).

Lemma starts_app rs1 rs2 q p : starts (rs1 ++ rs2) q p = starts rs1 q p ++ starts rs2 q p.
Proof. apply omap_app. Qed.

Lemma completed_app rs1 rs2 q p :
  completed (rs1 ++ rs2) q p <-> completed rs1 q p \/ completed rs2 q p.
Proof. apply elem_of_app. Qed.

Lemma starts_snoc rs r q p :
  starts (rs ++ [r]) q p = starts rs q p ++ starts [r] q p.
Proof. apply starts_app. Qed.

(** The state of a key that is started at most once. *)
Lemma key_of_once rs q p :
  (length (starts rs q p) <= 1)%nat ->
  match starts rs q p with
  | [] => key_of (apply_recs rs (∅, ∅)) q p =
          if decide (completed rs q p) then KLost else KNone
  | v :: _ => if decide (completed rs q p)
              then key_of (apply_recs rs (∅, ∅)) q p = KNone \/
                   key_of (apply_recs rs (∅, ∅)) q p = KLost
              else key_of (apply_recs rs (∅, ∅)) q p = KPending v
  end.
Proof.
  induction rs as [|r rs IH] using rev_ind; intros Hl.
  { change (starts [] q p) with (@nil V). cbn match.
    by rewrite decide_False by apply not_elem_of_nil. }
  rewrite starts_snoc, length_app in Hl. specialize (IH ltac:(lia)).
  rewrite starts_snoc, apply_recs_app. simpl apply_recs.
  rewrite (key_of_apply _ r) by apply apply_recs_ok, sets_ok_empty.
  set (K := key_of (apply_recs rs (∅, ∅)) q p) in *.
  assert (Hc : completed (rs ++ [r]) q p <-> completed rs q p \/ r = LComplete p q).
  { rewrite completed_app. unfold completed. set_solver. }
  destruct r as [v|p' q']; simpl starts in *; simpl rec_key.
  - case_decide as Hk; simpl in Hl.
    + destruct (starts rs q p); [|simpl in Hl; lia]. simpl.
      repeat case_decide; rewrite IH; naive_solver.
    + rewrite app_nil_r. destruct (starts rs q p); repeat case_decide; naive_solver.
  - rewrite app_nil_r. destruct (decide ((q', p') = (q, p))) as [Hk|Hk].
    + simplify_eq.
      destruct (decide (completed (rs ++ [LComplete p q]) q p)) as [_|Hn];
        [|destruct Hn; apply Hc; by right].
      clearbody K. destruct (starts rs q p); case_decide; simpl; destruct K;
        destruct_or?; simplify_eq; auto.
    + assert (LComplete p' q' <> LComplete p q) by congruence.
      destruct (starts rs q p); repeat case_decide; naive_solver.
Qed.

Lemma pending_of_apply rs q p :
  (length (starts rs q p) <= 1)%nat ->
  nm_get (apply_recs rs (∅, ∅)).1 q p = pending rs q p.
Proof.
  intros Hl. pose proof (key_of_once rs q p Hl) as Hk. unfold pending, key_of in *.
  destruct (nm_get (apply_recs rs (∅, ∅)).1 q p), (nm_get (apply_recs rs (∅, ∅)).2 q p),
    (starts rs q p); repeat case_decide; simpl in *; destruct_or?; simplify_eq; done.
Qed.

End extract.

Arguments log_rec V : clear implicits.
Arguments key_state V : clear implicits.
