(* ===== verification/AsyncLog.v ===== *)
(** Model of lib/AsyncOperationLogger.cpp: the logger's state, its log files and
    its methods, built on the record formats of [LogFormat] and the reader of
    [LogExtract].

    The log directory is a map from file names to contents. A stream opened for
    appending is the name of its file; a write to it appends and is flushed, a
    write to a closed stream does nothing (the streams have no exception mask,
    so the [catch] clauses around the writes are never entered). Each public
    method takes the mutex of its log for its whole body, so it is one function.
    The enqueue and the dequeue log run the same code on two [LogKind]s. *)
From S2P Require Import Prelude NestedMap PendingOps LogFormat LogExtract.
From Stdlib Require Import ZArith Lia.

(** ** Files *)

Abbreviation FS := (gmap string (list byte)).

(** [open(name, out|app|binary)] creates the file if it is missing. *)
Definition fs_open_app (name : string) (fs : FS) : FS :=
  match fs !! name with
  | Some _ => fs
  | None => <[name := []]> fs
  end.

Definition fs_append (name : string) (bs : list byte) (fs : FS) : FS :=
  <[name := default [] (fs !! name) ++ bs]> fs.

(** [remove(name)] and [rename(a,b)]. *)
Definition fs_remove (name : string) (fs : FS) : FS := delete name fs.
Definition fs_rename (a b : string) (fs : FS) : FS :=
  match fs !! a with
  | Some c => <[b := c]> (delete a fs)
  | None => fs
  end.

(** A log of the logger: the index of its current file and its stream. *)
Record channel := mkChan { ch_index : Z; ch_file : option string }.

Definition chan_write (bs : list byte) (c : channel) (fs : FS) : FS :=
  match ch_file c with
  | Some name => fs_append name bs fs
  | None => fs
  end.

Section chan.
Context `{HostEndian} {V : Type} `{!LogKind V}.

Abbreviation psets := (gmap Z (gmap Z V) * PendingOperationSet)%type.

Definition chan_open (base : string) (i : Z) (fs : FS) : channel * FS :=
  (mkChan i (Some (k_name (V:=V) base i false)), fs_open_app (k_name (V:=V) base i false) fs).

(** [extractPending*FromFile]: a file that cannot be opened changes nothing. *)
Definition extract_file (base : string) (fileIndex : Z) (fs : FS) (st : psets) : option psets :=
  match fs !! k_name (V:=V) base fileIndex false with
  | Some s => extract s st
  | None => Some st
  end.

(** The nested loops that write the pending operations back as start records. *)
Definition write_starts (aset : gmap Z (gmap Z V)) (c : channel) (fs : FS) : FS :=
  foldl (fun fs x => chan_write (k_write_start x.2) c fs) fs (nm_list aset).

(** [recoverAsyncEnqueue] and [recoverAsyncDequeue]: read both files and remove
    them, restart from file 0 and log the pending operations again. *)
Definition recover_chan (base : string) (aset : gmap Z (gmap Z V)) (fs : FS) :
    option (gmap Z (gmap Z V) * channel * FS) :=
  match extract_file base 0 fs (aset, ∅) with
  | None => None
  | Some st0 =>
      let fs := fs_remove (k_name (V:=V) base 0 false) fs in
      match extract_file base 1 fs st0 with
      | None => None
      | Some (aset, _) =>
          let fs := fs_remove (k_name (V:=V) base 1 false) fs in
          let '(c, fs) := chan_open base 0 fs in
          Some (aset, c, write_starts aset c fs)
      end
  end.

(** *** The cleaner

    The body of the loop of [cleanEnqueueLog] and [cleanDequeueLog], one function
    for each stretch between two effects on the files. *)

(** [notNow] is false. *)
Definition clean_due (dur interval tellp warningSize : Z) : bool :=
  negb ((dur <? interval) && (tellp <? warningSize)).

(** Under the mutex: switch to the other file. *)
Definition clean_swap (base : string) (c : channel) (fs : FS) : channel * FS :=
  chan_open base ((ch_index c + 1) mod 2) fs.

(** Write the pending operations to the temporary file (opened in append mode). *)
Definition clean_tmp (base : string) (aset : gmap Z (gmap Z V)) (fs : FS) : FS :=
  let name := k_name (V:=V) base 0 true in
  write_starts aset (mkChan 0 (Some name)) (fs_open_app name fs).

Definition clean_remove (base : string) (handlingIndex : Z) (fs : FS) : FS :=
  fs_remove (k_name (V:=V) base handlingIndex false) fs.
Definition clean_rename (base : string) (handlingIndex : Z) (fs : FS) : FS :=
  fs_rename (k_name (V:=V) base 0 true) (k_name (V:=V) base handlingIndex false) fs.

(** Log one lost complete on the current file. *)
Definition clean_relog (pao : PendingAsyncOperation) (c : channel) (fs : FS) : FS :=
  chan_write (k_write_complete (V:=V) (pao_msgId pao) (pao_queueId pao)) c fs.

(** One whole pass. *)
Definition clean_pass (base : string) (c : channel) (fs : FS) : option (channel * FS) :=
  let handlingIndex := ch_index c in
  let '(c, fs) := clean_swap base c fs in
  match extract_file base handlingIndex fs (∅, ∅) with
  | None => None
  | Some (aset, lostSet) =>
      let fs := clean_tmp base aset fs in
      let fs := clean_remove base handlingIndex fs in
      let fs := clean_rename base handlingIndex fs in
      Some (c, foldl (fun fs x => clean_relog x.2 c fs) fs (nm_list lostSet))
  end.

End chan.

(** ** The logger *)

Record AsyncOperationLogger := mkLogger {
  enqueueFileIndex : Z;
  dequeueFileIndex : Z;
  enqueueFile : option string;
  dequeueFile : option string;
  logBaseDir : string;
  logFS : FS
}.

Module AsyncOperationLogger.

Section logger.
Context `{HostEndian, HostAlloc}.
Implicit Type l : AsyncOperationLogger.

Definition enq_chan l : channel := mkChan (enqueueFileIndex l) (enqueueFile l).
Definition deq_chan l : channel := mkChan (dequeueFileIndex l) (dequeueFile l).
Definition set_enq (c : channel) (fs : FS) l : AsyncOperationLogger :=
  mkLogger (ch_index c) (dequeueFileIndex l) (ch_file c) (dequeueFile l) (logBaseDir l) fs.
Definition set_deq (c : channel) (fs : FS) l : AsyncOperationLogger :=
  mkLogger (enqueueFileIndex l) (ch_index c) (enqueueFile l) (ch_file c) (logBaseDir l) fs.

(** [AsyncOperationLogger(basedir)] *)
Definition create (basedir : string) (fs : FS) : AsyncOperationLogger :=
  let '(ce, fs) := chan_open (V:=PendingAsyncEnqueue) basedir 0 fs in
  let '(cd, fs) := chan_open (V:=PendingAsyncDequeue) basedir 0 fs in
  mkLogger (ch_index ce) (ch_index cd) (ch_file ce) (ch_file cd) basedir fs.

(** A write on a log: the returned index and the logger. *)
Definition enq_write (bs : list byte) l : Z * AsyncOperationLogger :=
  (enqueueFileIndex l, set_enq (enq_chan l) (chan_write bs (enq_chan l) (logFS l)) l).
Definition deq_write (bs : list byte) l : Z * AsyncOperationLogger :=
  (dequeueFileIndex l, set_deq (deq_chan l) (chan_write bs (deq_chan l) (logFS l)) l).

Definition log_dequeue_start (pid qid : Z) l : Z * AsyncOperationLogger :=
  deq_write (dequeue_start_bytes pid qid) l.
Definition log_dequeue_complete (pid qid : Z) l : Z * AsyncOperationLogger :=
  deq_write (dequeue_complete_bytes pid qid) l.
Definition log_enqueue_start (pid qid : Z) (buff : list byte) (buffsize : Z)
    (transient : bool) l : Z * AsyncOperationLogger :=
  enq_write (enqueue_start_bytes pid qid buff buffsize transient) l.
Definition log_enqueue_complete (pid qid : Z) l : Z * AsyncOperationLogger :=
  enq_write (enqueue_complete_bytes pid qid) l.

(** [int local_buff_size = n * pid_list.size()] *)
Definition local_buff_size (n : nat) (pid_list : list PendingOperationId) : Z :=
  int_of (Z.of_nat n * Z.of_nat (length pid_list)).

(** The fallback loop when [malloc] fails. *)
Definition complete_each (f : Z -> Z -> AsyncOperationLogger -> Z * AsyncOperationLogger)
    (pid_list : list PendingOperationId) l : Z * AsyncOperationLogger :=
  foldl (fun (rl : Z * AsyncOperationLogger) pq => f pq.1 pq.2 rl.2) (0, l) pid_list.

(** [bigbuff] is the block [malloc] returned, [None] for a null pointer. *)
Definition log_mass_dequeue_complete (bigbuff : option (list byte))
    (pid_list : list PendingOperationId) l : Z * AsyncOperationLogger :=
  match bigbuff with
  | Some b =>
      deq_write (take (Z.to_nat (local_buff_size deqCompleteSize pid_list))
                   (mass_fill aolog_dequeue_complete pid_list b 0)) l
  | None => complete_each log_dequeue_complete pid_list l
  end.

Definition log_mass_enqueue_complete (bigbuff : option (list byte))
    (pid_list : list PendingOperationId) l : Z * AsyncOperationLogger :=
  match bigbuff with
  | Some b =>
      enq_write (take (Z.to_nat (local_buff_size enqCompleteSize pid_list))
                   (mass_fill aolog_enqueue_complete pid_list b 0)) l
  | None => complete_each log_enqueue_complete pid_list l
  end.

Definition log_mass_enqueue_dequeue_complete (be bd : option (list byte))
    (pid_list : list PendingOperationId) l : bool * AsyncOperationLogger :=
  let retVal := true in
  let '(r1, l) := log_mass_enqueue_complete be pid_list l in
  let retVal := if r1 =? -1 then false else retVal in
  let '(r2, l) := log_mass_dequeue_complete bd pid_list l in
  let retVal := if r2 =? -1 then false else retVal in
  (retVal, l).

Definition recoverAsyncDequeue (adset : PendingDequeueSet) l :
    option (PendingDequeueSet * AsyncOperationLogger) :=
  match recover_chan (logBaseDir l) adset (logFS l) with
  | Some (adset, c, fs) => Some (adset, set_deq c fs l)
  | None => None
  end.

Definition recoverAsyncEnqueue (aeset : PendingEnqueueSet) l :
    option (PendingEnqueueSet * AsyncOperationLogger) :=
  match recover_chan (logBaseDir l) aeset (logFS l) with
  | Some (aeset, c, fs) => Some (aeset, set_enq c fs l)
  | None => None
  end.

(** One turn of the [while(1)] loops, [dur] seconds after the last pass, with
    the stream at [tellp]; [None] is an exception that ends the thread. *)
Definition cleanEnqueueLog (intervalInSeconds warningSize dur tellp : Z) l :
    option AsyncOperationLogger :=
  if clean_due dur intervalInSeconds tellp warningSize then
    match clean_pass (V:=PendingAsyncEnqueue) (logBaseDir l) (enq_chan l) (logFS l) with
    | Some (c, fs) => Some (set_enq c fs l)
    | None => None
    end
  else Some l.

Definition cleanDequeueLog (intervalInSeconds warningSize dur tellp : Z) l :
    option AsyncOperationLogger :=
  if clean_due dur intervalInSeconds tellp warningSize then
    match clean_pass (V:=PendingAsyncDequeue) (logBaseDir l) (deq_chan l) (logFS l) with
    | Some (c, fs) => Some (set_deq c fs l)
    | None => None
    end
  else Some l.

End logger.

End AsyncOperationLogger.
