(* ===== verification/LogSystem.v ===== *)
(** One log with its cleaner thread, as a step relation, and what recovery finds.

    Client threads append records at any moment; the cleaner goes through the
    stretches of [clean_pass] one at a time; the other log's threads change
    other files. [hist] is the ghost history of the records the clients logged.
    The invariant [linv] relates the two log files, the temporary file and the
    cleaner's memory to the history; the theorems say what [recover_chan] returns
    after a crash in any reachable state. *)
From S2P Require Import Prelude NestedMap PendingOps LogFormat LogExtract AsyncLog.
From Stdlib Require Import ZArith Lia.

(** Repeated appends to one open file. *)
Lemma write_all {A} (f : A -> list byte) (c : channel) (name : string) (xs : list A) (fs : FS) s :
  ch_file c = Some name -> fs !! name = Some s ->
  foldl (fun fs x => chan_write (f x) c fs) fs xs = <[name := s ++ flat_map f xs]> fs.
Proof.
  intros Hc. revert fs s. induction xs as [|x xs IH]; intros fs s Hs; simpl.
  - rewrite app_nil_r. by rewrite insert_id.
  - rewrite (IH _ (s ++ f x)).
    + unfold chan_write. rewrite Hc. unfold fs_append. rewrite Hs. simpl.
      by rewrite insert_insert_eq, app_assoc.
    + unfold chan_write. rewrite Hc. unfold fs_append. rewrite Hs. by simplify_map_eq.
Qed.

Section system.
Context `{HostEndian} {V : Type} `{!LogKind V}.
Variable base : string.

Abbreviation name := (k_name (V:=V) base).
Abbreviation recs := (list (log_rec V)).
Implicit Types (hist rs rc ro : list (log_rec V)) (c : channel) (fs : FS) (q p : Z).

(** ** States and steps *)

Inductive cleaner : Type :=
| CIdle
| CSwapped (h : Z)
| CExtracted (h : Z) (aset : gmap Z (gmap Z V)) (lost : PendingOperationSet)
| CTmp (h : Z) (aset : gmap Z (gmap Z V)) (lost : PendingOperationSet)
| CRemoved (h : Z) (lost : PendingOperationSet)
| CRelog (todo : list PendingAsyncOperation).

Record lsys := mkSys { ls_chan : channel; ls_fs : FS; ls_cl : cleaner }.

(** What a client writes for a record. *)
Definition write_rec (r : log_rec V) : list byte :=
  match r with
  | LStart v => k_write_start v
  | LComplete pid qid => k_write_complete (V:=V) pid qid
  end.

Inductive lstep : lsys -> recs -> lsys -> Prop :=
| S_log c fs cl r :
    valid_rec r ->
    lstep (mkSys c fs cl) [r] (mkSys c (chan_write (write_rec r) c fs) cl)
| S_swap c fs :
    lstep (mkSys c fs CIdle) []
      (mkSys (clean_swap (V:=V) base c fs).1 (clean_swap (V:=V) base c fs).2
             (CSwapped (ch_index c)))
| S_extract c fs h a l :
    extract_file base h fs (∅, ∅) = Some (a, l) ->
    lstep (mkSys c fs (CSwapped h)) [] (mkSys c fs (CExtracted h a l))
| S_tmp c fs h a l :
    lstep (mkSys c fs (CExtracted h a l)) [] (mkSys c (clean_tmp base a fs) (CTmp h a l))
| S_remove c fs h a l :
    lstep (mkSys c fs (CTmp h a l)) [] (mkSys c (clean_remove (V:=V) base h fs) (CRemoved h l))
| S_rename c fs h l :
    lstep (mkSys c fs (CRemoved h l)) []
      (mkSys c (clean_rename (V:=V) base h fs) (CRelog (map snd (nm_list l))))
| S_relog c fs o todo :
    lstep (mkSys c fs (CRelog (o :: todo))) [] (mkSys c (clean_relog (V:=V) o c fs) (CRelog todo))
| S_done c fs :
    lstep (mkSys c fs (CRelog [])) [] (mkSys c fs CIdle)
| S_frame c fs fs' cl :
    (forall i t, fs' !! name i t = fs !! name i t) ->
    lstep (mkSys c fs cl) [] (mkSys c fs' cl).

(** [lreach s hist s']: [s'] is reached from [s], the clients logging [hist]. *)
Inductive lreach (s : lsys) : recs -> lsys -> Prop :=
| R_refl : lreach s [] s
| R_step hist s1 l s2 : lreach s hist s1 -> lstep s1 l s2 -> lreach s (hist ++ l) s2.

(** A state as the constructor of the logger leaves it on an empty directory. *)
Definition fresh (s : lsys) : Prop :=
  exists fs0, (forall i t, fs0 !! name i t = None) /\
              s = mkSys (chan_open (V:=V) base 0 fs0).1 (chan_open (V:=V) base 0 fs0).2 CIdle.

(** ** Contents of the files *)

Definition holds fs (n : string) rs : Prop :=
  match fs !! n with
  | Some s => s = encode rs
  | None => rs = []
  end.

(** The start records written back for a set of pending operations. *)
Definition start_recs (a : gmap Z (gmap Z V)) : recs := map (fun x => LStart x.2) (nm_list a).

Definition other (i : Z) : Z := 1 - i.

(** A key is tracked when the files (and the completes the cleaner still has in
    memory, [M]) say what the history says; it is retired when it was started
    and completed and its start has been cleaned away. *)
Definition key_inv hist rs (M : list PendingAsyncOperation) q p : Prop :=
  (starts rs q p = starts hist q p /\
   (completed hist q p <-> completed rs q p \/ mkPAO p q ∈ M)) \/
  (starts rs q p = [] /\ starts hist q p <> [] /\ completed hist q p).

Definition phase_inv (i : Z) fs (cl : cleaner) ro (M : list PendingAsyncOperation) : Prop :=
  match cl with
  | CIdle => holds fs (name (other i) false) ro /\ M = [] /\ fs !! name 0 true = None
  | CSwapped h =>
      h = other i /\ holds fs (name h false) ro /\ M = [] /\ fs !! name 0 true = None
  | CExtracted h a l =>
      h = other i /\ holds fs (name h false) ro /\ M = [] /\ fs !! name 0 true = None /\
      (a, l) = apply_recs ro (∅, ∅)
  | CTmp h a l =>
      h = other i /\ holds fs (name h false) ro /\ M = [] /\
      fs !! name 0 true = Some (encode (start_recs a)) /\ (a, l) = apply_recs ro (∅, ∅)
  | CRemoved h l =>
      h = other i /\ fs !! name h false = None /\ fs !! name 0 true = Some (encode ro) /\
      M = map snd (nm_list l)
  | CRelog todo =>
      holds fs (name (other i) false) ro /\ M = todo /\ fs !! name 0 true = None
  end.

Definition linv_at (s : lsys) hist rc ro (M : list PendingAsyncOperation) : Prop :=
  (ch_index (ls_chan s) = 0 \/ ch_index (ls_chan s) = 1) /\
  ch_file (ls_chan s) = Some (name (ch_index (ls_chan s)) false) /\
  ls_fs s !! name (ch_index (ls_chan s)) false = Some (encode rc) /\
  phase_inv (ch_index (ls_chan s)) (ls_fs s) (ls_cl s) ro M /\
  Forall valid_rec rc /\ Forall valid_rec ro /\
  Forall (fun o => valid_rec (V:=V) (LComplete (pao_msgId o) (pao_queueId o))) M /\
  (forall q p, key_inv hist (rc ++ ro) M q p).

Definition linv (s : lsys) hist : Prop := exists rc ro M, linv_at s hist rc ro M.

(** ** Lemmas on records *)

Lemma write_rec_enc r : valid_rec r -> write_rec r = enc_rec r.
Proof. destruct r; simpl; [apply k_write_start_ok|intros _; apply k_write_complete_ok]. Qed.

Lemma once_comm {A} (l1 l2 : list A) : (length (l1 ++ l2) <= 1)%nat -> l1 ++ l2 = l2 ++ l1.
Proof.
  destruct l1 as [|x l1], l2 as [|y l2]; simpl; rewrite ?app_nil_r; try done.
  rewrite length_app. simpl. lia.
Qed.

Lemma starts_one r q p : (length (starts [r] q p) <= 1)%nat.
Proof. destruct r; cbn; [case_decide; simpl; lia|lia]. Qed.

(** A tracked or retired key stays so when a client logs a record. *)
Lemma key_inv_log hist rc ro M r q p :
  (length (starts (hist ++ [r]) q p) <= 1)%nat ->
  key_inv hist (rc ++ ro) M q p -> key_inv (hist ++ [r]) ((rc ++ [r]) ++ ro) M q p.
Proof.
  intros Ho [[Hs Hc]|(Hs & Hn & Hc)]; unfold key_inv;
    rewrite <- app_assoc, !starts_app, !completed_app in *.
  - left. split.
    + rewrite <- Hs in *. rewrite <- app_assoc in Ho |- *. f_equal. apply once_comm.
      rewrite !length_app in *. lia.
    + tauto.
  - right. destruct (starts hist q p) as [|v l]; [done|].
    assert (E : starts [r] q p = []).
    { rewrite length_app in Ho. destruct (starts [r] q p); [done|]. simpl in Ho. lia. }
    apply app_eq_nil in Hs as [-> ->]. rewrite E. split_and!; [done|done|by left].
Qed.

(** A complete moves from the cleaner's memory to the current file. *)
Lemma key_inv_relog hist rc ro o todo q p :
  key_inv hist (rc ++ ro) (o :: todo) q p ->
  key_inv hist ((rc ++ [LComplete (pao_msgId o) (pao_queueId o)]) ++ ro) todo q p.
Proof.
  assert (E : completed [LComplete (V:=V) (pao_msgId o) (pao_queueId o)] q p <-> mkPAO p q = o).
  { unfold completed. rewrite list_elem_of_singleton. destruct o; simpl. naive_solver. }
  unfold key_inv. rewrite !starts_app, !completed_app, elem_of_cons, E.
  change (starts [LComplete (V:=V) (pao_msgId o) (pao_queueId o)] q p) with (@nil V).
  rewrite app_nil_r. tauto.
Qed.

(** Exchanging the roles of the two files. *)
Lemma key_inv_swap hist rc ro M q p :
  (length (starts hist q p) <= 1)%nat ->
  key_inv hist (rc ++ ro) M q p -> key_inv hist (ro ++ rc) M q p.
Proof.
  intros Ho Hk. unfold key_inv in *. rewrite !starts_app, !completed_app in *.
  assert (E : starts ro q p ++ starts rc q p = starts rc q p ++ starts ro q p).
  { destruct Hk as [[Hs _]|(Hs & _)].
    - symmetry. apply once_comm. by rewrite Hs.
    - apply app_eq_nil in Hs as [-> ->]. done. }
  rewrite E. tauto.
Qed.

Lemma key_inv_once hist rs M q p :
  (length (starts hist q p) <= 1)%nat -> key_inv hist rs M q p ->
  (length (starts rs q p) <= 1)%nat.
Proof. intros Ho [[-> _]|(-> & _)]; [done|simpl; lia]. Qed.

Lemma starts_of_list (L : list (Z * Z * V)) q p :
  NoDup L.*1 -> (forall k v, (k, v) ∈ L -> (k_qid v, k_pid v) = k) ->
  (forall v, (q, p, v) ∈ L -> starts (map (fun x => LStart x.2) L) q p = [v]) /\
  ((q, p) ∉ L.*1 -> starts (map (fun x => LStart x.2) L) q p = []).
Proof.
  induction L as [|[k v] L IH]; intros Hn Hk; [split; [set_solver|done]|].
  apply NoDup_cons in Hn as [Hkn Hn].
  destruct IH as [IH1 IH2]; [done|set_solver|]. simpl in Hkn.
  pose proof (Hk k v ltac:(set_solver)) as E. simpl. rewrite E. split.
  - intros w [Hw|Hw]%elem_of_cons.
    + simplify_eq. rewrite decide_True by done. by rewrite IH2.
    + rewrite decide_False; [by apply IH1|]. intros ->. apply Hkn.
      apply list_elem_of_fmap. by exists (q, p, w).
  - intros Hq. apply not_elem_of_cons in Hq as [Hq1 Hq2].
    simpl in Hq1. rewrite decide_False by done. by apply IH2.
Qed.

Lemma starts_start_recs st q p :
  sets_ok st -> starts (start_recs st.1) q p =
                match nm_get st.1 q p with Some v => [v] | None => [] end.
Proof.
  intros Hok. destruct (starts_of_list (nm_list st.1) q p) as [H1 H2].
  - apply nm_list_NoDup.
  - intros [q' p'] v Hv%elem_of_nm_list. apply Hok in Hv as [-> ->]. done.
  - destruct (nm_get st.1 q p) as [v|] eqn:E; [by apply H1, elem_of_nm_list|].
    apply H2. intros ([[q' p'] v] & [= <- <-] & Hv)%list_elem_of_fmap.
    apply elem_of_nm_list in Hv. congruence.
Qed.

Lemma completed_start_recs a q p : ~ completed (start_recs a) q p.
Proof.
  unfold completed, start_recs. intros Hin. apply list_elem_of_In, in_map_iff in Hin.
  by destruct Hin as (x & Hx & _).
Qed.

Lemma lost_list st q p :
  sets_ok st -> mkPAO p q ∈ map snd (nm_list st.2) <-> is_Some (nm_get st.2 q p).
Proof.
  intros Hok. rewrite list_elem_of_In, in_map_iff. split.
  - intros ([[q' p'] o] & Ho & Hx). simpl in Ho. subst o.
    apply list_elem_of_In, elem_of_nm_list in Hx. pose proof (so_lost _ Hok _ _ _ Hx) as E.
    injection E as -> ->. by eexists.
  - intros [o Ho]. pose proof (so_lost _ Hok _ _ _ Ho) as ->. exists (q, p, mkPAO p q).
    split; [done|]. by apply list_elem_of_In, elem_of_nm_list.
Qed.

(** Replacing the records of a file by its pending starts, with its lost
    completes kept in memory, keeps the invariant of every key. *)
Lemma key_inv_compress hist rc ro q p :
  (length (starts hist q p) <= 1)%nat ->
  key_inv hist (rc ++ ro) [] q p ->
  key_inv hist (rc ++ start_recs (apply_recs ro (∅, ∅)).1)
          (map snd (nm_list (apply_recs ro (∅, ∅)).2)) q p.
Proof.
  intros Ho Hk. pose proof (key_inv_once _ _ _ _ _ Ho Hk) as Hl.
  rewrite starts_app, length_app in Hl.
  assert (Hok : sets_ok (apply_recs ro (∅, ∅))) by apply apply_recs_ok, sets_ok_empty.
  pose proof (key_of_once ro q p ltac:(lia)) as K. unfold key_of in K.
  unfold key_inv in *. rewrite !starts_app, !completed_app in *.
  rewrite starts_start_recs by done. rewrite lost_list by done.
  pose proof (completed_start_recs (apply_recs ro (∅, ∅)).1 q p) as Hcs.
  assert (Hnil : mkPAO p q ∉ []) by apply not_elem_of_nil.
  pose proof (so_disj _ Hok q p) as Hd.
  set (g1 := nm_get (apply_recs ro (∅, ∅)).1 q p) in *.
  set (g2 := nm_get (apply_recs ro (∅, ∅)).2 q p) in *. clearbody g1 g2.
  pose proof (is_Some_None (A:=PendingAsyncOperation)) as HN.
  destruct (starts ro q p) as [|v l] eqn:Es.
  - (* the key is not started in this file *)
    case_decide as Hc; destruct g1, g2; try done; rewrite !app_nil_r in *; naive_solver.
  - (* started in this file, hence not in the other *)
    destruct (starts rc q p) as [|? ?]; simpl in Hl |- *; [|lia].
    destruct l; simpl in Hl; [|lia].
    case_decide as Hc.
    + right. destruct Hk as [[Hs Hh]|(Hs & _)]; [|done]. simpl in Hs.
      destruct g1; [destruct K; done|]. split_and!; [done|by rewrite <- Hs|tauto].
    + destruct g1; [|by destruct g2]. injection K as ->.
      destruct Hk as [[Hs Hh]|(Hs & _)]; [|done]. left. split; [done|].
      rewrite (Hd v eq_refl). naive_solver.
Qed.

(** The sets of the reader only hold what the records contain. *)
Lemma apply_recs_src rs q p :
  (forall v, nm_get (apply_recs rs (∅, ∅)).1 q p = Some v -> LStart v ∈ rs) /\
  (is_Some (nm_get (apply_recs rs (∅, ∅)).2 q p) -> completed rs q p).
Proof.
  assert (Hsrc : forall K,
    foldl key_step K (filter (fun r => rec_key r = (q, p)) rs) = K \/
    match foldl key_step K (filter (fun r => rec_key r = (q, p)) rs) with
    | KNone => True
    | KPending v => LStart v ∈ rs \/ K = KPending v
    | KLost => completed rs q p \/ K = KLost
    end).
  { induction rs as [|r rs IH]; intros K; [by left|]. rewrite filter_cons.
    case_decide as Hk.
    - right. simpl. specialize (IH (key_step K r)).
      destruct (foldl key_step (key_step K r) _) eqn:E; [done| |];
        unfold completed in *; rewrite elem_of_cons;
        destruct r as [w|p' q'], K; simpl in *; destruct_or?; simplify_eq; auto.
    - destruct (IH K) as [E|E]; [by left|right].
      destruct (foldl key_step K _); [done| |]; unfold completed in *; set_solver. }
  specialize (Hsrc KNone).
  pose proof (key_of_apply_recs rs (∅, ∅) q p sets_ok_empty) as E.
  change (key_of (∅, ∅) q p) with (@KNone V) in E. rewrite <- E in Hsrc. clear E.
  unfold key_of in Hsrc.
  pose proof (so_disj _ (apply_recs_ok rs _ sets_ok_empty) q p) as Hd. split.
  - intros v Hv. rewrite Hv in Hsrc. destruct Hsrc as [|[|]]; done.
  - intros [o Ho]. rewrite Ho in Hsrc. destruct (nm_get (apply_recs rs (∅, ∅)).1 q p) as [v|].
    + specialize (Hd v eq_refl). congruence.
    + destruct Hsrc as [|[|]]; done.
Qed.

Lemma start_recs_valid rs :
  Forall valid_rec rs -> Forall valid_rec (start_recs (apply_recs rs (∅, ∅)).1).
Proof.
  intros Hv. unfold start_recs. apply Forall_forall. intros r Hr.
  apply list_elem_of_In, in_map_iff in Hr. destruct Hr as ([[q p] v] & <- & Hx).
  apply list_elem_of_In, elem_of_nm_list, apply_recs_src in Hx.
  rewrite Forall_forall in Hv. by apply (Hv (LStart v)).
Qed.

Lemma lost_valid rs :
  Forall valid_rec rs ->
  Forall (fun o => valid_rec (V:=V) (LComplete (pao_msgId o) (pao_queueId o)))
         (map snd (nm_list (apply_recs rs (∅, ∅)).2)).
Proof.
  intros Hv. apply Forall_forall. intros o Ho.
  apply list_elem_of_In, in_map_iff in Ho. destruct Ho as ([[q p] o'] & <- & Hx).
  apply list_elem_of_In, elem_of_nm_list in Hx. simpl.
  pose proof (so_lost _ (apply_recs_ok rs _ sets_ok_empty) _ _ _ Hx) as ->.
  assert (Hc : completed rs q p) by (apply apply_recs_src; by eexists).
  rewrite Forall_forall in Hv. by apply (Hv (LComplete p q)).
Qed.

(** ** Preservation *)

Lemma other_index i : i = 0 \/ i = 1 -> (i + 1) mod 2 = other i /\ other (other i) = i.
Proof. unfold other. intros [-> | ->]; split; reflexivity. Qed.

Lemma name_ne_other i : i = 0 \/ i = 1 -> name (other i) false <> name i false.
Proof. unfold other. intros Hi E. apply k_name_inj in E as [_ E]. specialize (E eq_refl). lia. Qed.

Lemma name_ne_tmp i : name i false <> name 0 true.
Proof. intros E. by apply k_name_inj in E as [E _]. Qed.

Lemma phase_inv_ext i fs fs' cl ro M :
  fs' !! name (other i) false = fs !! name (other i) false ->
  fs' !! name 0 true = fs !! name 0 true ->
  phase_inv i fs cl ro M -> phase_inv i fs' cl ro M.
Proof.
  intros E1 E2. destruct cl; simpl; unfold holds; rewrite ?E2.
  - by rewrite E1.
  - intros (-> & Hr). by rewrite E1.
  - intros (-> & Hr). by rewrite E1.
  - intros (-> & Hr). by rewrite E1.
  - intros (-> & Hr). by rewrite E1.
  - by rewrite E1.
Qed.

(** A client or the cleaner appends a record to the current file. *)
Lemma linv_append c fs cl hist' rc ro M' bs r :
  (ch_index c = 0 \/ ch_index c = 1) -> ch_file c = Some (name (ch_index c) false) ->
  fs !! name (ch_index c) false = Some (encode rc) ->
  Forall valid_rec rc -> Forall valid_rec ro -> valid_rec r -> bs = enc_rec r ->
  phase_inv (ch_index c) fs cl ro M' ->
  Forall (fun o => valid_rec (V:=V) (LComplete (pao_msgId o) (pao_queueId o))) M' ->
  (forall q p, key_inv hist' ((rc ++ [r]) ++ ro) M' q p) ->
  linv_at (mkSys c (chan_write bs c fs) cl) hist' (rc ++ [r]) ro M'.
Proof.
  intros Hi Hf Hc Vc Vo Hr -> Hp HM HK. simpl in *.
  unfold chan_write. rewrite Hf. unfold fs_append. rewrite Hc. simpl.
  unfold linv_at. simpl. split_and!; try done.
  - rewrite lookup_insert_eq, encode_app. simpl. by rewrite app_nil_r.
  - eapply phase_inv_ext; [| |exact Hp]; rewrite lookup_insert_ne; try done.
    + intros E. symmetry in E. by apply name_ne_other in E.
    + apply name_ne_tmp.
  - apply Forall_app; split; [done|]. by constructor.
Qed.

Lemma extract_file_holds h fs rs st :
  holds fs (name h false) rs -> Forall valid_rec rs ->
  extract_file base h fs st = Some (apply_recs rs st).
Proof.
  unfold holds, extract_file. intros Hh Hv. destruct (fs !! name h false) as [s|].
  - subst s. by apply extract_encode.
  - by subst rs.
Qed.

Lemma write_starts_eq rs n i fs s :
  Forall valid_rec rs -> fs !! n = Some s ->
  write_starts (apply_recs rs (∅, ∅)).1 (mkChan i (Some n)) fs =
  <[n := s ++ encode (start_recs (apply_recs rs (∅, ∅)).1)]> fs.
Proof.
  intros Hv Hs. unfold write_starts.
  rewrite (write_all (fun x => k_write_start x.2) _ n _ _ s) by done.
  do 2 f_equal. pose proof (start_recs_valid rs Hv) as Hr. unfold start_recs, encode in *.
  induction (nm_list (apply_recs rs (∅, ∅)).1) as [|x L IH]; [done|].
  simpl in *. apply Forall_cons in Hr as [H1 H2]. rewrite (k_write_start_ok x.2 H1).
  by rewrite IH.
Qed.

Lemma clean_tmp_eq rs fs :
  Forall valid_rec rs -> fs !! name 0 true = None ->
  clean_tmp base (apply_recs rs (∅, ∅)).1 fs =
  <[name 0 true := encode (start_recs (apply_recs rs (∅, ∅)).1)]> fs.
Proof.
  intros Hv Hn. unfold clean_tmp, fs_open_app. rewrite Hn.
  rewrite (write_starts_eq _ _ _ _ []) by (done || apply lookup_insert_eq).
  by rewrite insert_insert_eq.
Qed.

Lemma linv_swap c fs hist :
  (forall q p, (length (starts hist q p) <= 1)%nat) ->
  linv (mkSys c fs CIdle) hist ->
  linv (mkSys (clean_swap (V:=V) base c fs).1 (clean_swap (V:=V) base c fs).2
          (CSwapped (ch_index c))) hist.
Proof.
  intros Ho (rc & ro & M & Hi & Hf & Hc & (Hh & -> & Ht) & Vc & Vo & _ & HK). simpl in *.
  destruct (other_index _ Hi) as [Em Eo].
  exists ro, rc, []. unfold clean_swap, chan_open, linv_at. simpl. rewrite Em.
  assert (Hne : name (other (ch_index c)) false <> name (ch_index c) false)
    by by apply name_ne_other.
  assert (Hnt : name (other (ch_index c)) false <> name 0 true) by apply name_ne_tmp.
  split_and!; try done.
  - unfold other. lia.
  - unfold fs_open_app, holds in *. destruct (fs !! name (other (ch_index c)) false) eqn:E.
    + by rewrite E, Hh.
    + subst ro. by simplify_map_eq.
  - unfold fs_open_app, holds. destruct (fs !! name (other (ch_index c)) false) eqn:E;
      by simplify_map_eq.
  - unfold fs_open_app. destruct (fs !! name (other (ch_index c)) false) eqn:E; by simplify_map_eq.
  - intros q p. apply key_inv_swap; auto.
Qed.

Lemma linv_remove c fs h a l hist :
  (forall q p, (length (starts hist q p) <= 1)%nat) ->
  linv (mkSys c fs (CTmp h a l)) hist ->
  linv (mkSys c (clean_remove (V:=V) base h fs) (CRemoved h l)) hist.
Proof.
  intros Ho (rc & ro & M & Hi & Hf & Hc & (-> & Hh & -> & Ht & Ea) & Vc & Vo & _ & HK).
  simpl in *. rewrite (surjective_pairing (apply_recs ro (∅, ∅))) in Ea. simplify_eq.
  exists rc, (start_recs (apply_recs ro (∅, ∅)).1), (map snd (nm_list (apply_recs ro (∅, ∅)).2)).
  unfold linv_at, clean_remove, fs_remove. simpl.
  pose proof (name_ne_other _ Hi). pose proof (name_ne_tmp (other (ch_index c))).
  split_and!; try done.
  - by rewrite lookup_delete_ne.
  - apply lookup_delete_eq.
  - by rewrite lookup_delete_ne.
  - by apply start_recs_valid.
  - by apply lost_valid.
  - intros q p. apply key_inv_compress; auto.
Qed.

Lemma linv_rename c fs h l hist :
  linv (mkSys c fs (CRemoved h l)) hist ->
  linv (mkSys c (clean_rename (V:=V) base h fs) (CRelog (map snd (nm_list l)))) hist.
Proof.
  intros (rc & ro & M & Hi & Hf & Hc & (-> & Hh & Ht & ->) & Vc & Vo & HM & HK). simpl in *.
  exists rc, ro, (map snd (nm_list l)). unfold linv_at, clean_rename, fs_rename.
  rewrite Ht. simpl. pose proof (name_ne_other _ Hi). pose proof (name_ne_tmp (other (ch_index c))).
  pose proof (name_ne_tmp (ch_index c)).
  split_and!; try done.
  - by rewrite lookup_insert_ne, lookup_delete_ne.
  - unfold holds. by rewrite lookup_insert_eq.
  - by rewrite lookup_insert_ne, lookup_delete_eq.
Qed.

Lemma linv_step s l s' hist :
  lstep s l s' -> (forall q p, (length (starts (hist ++ l) q p) <= 1)%nat) ->
  linv s hist -> linv s' (hist ++ l).
Proof.
  intros Hs Ho Hl. destruct Hs as [c fs cl r Hr|c fs|c fs h a l He|c fs h a l|c fs h a l
    |c fs h l|c fs o todo|c fs|c fs fs' cl Hfr]; rewrite ?app_nil_r in *.
  - destruct Hl as (rc & ro & M & Hl). exists (rc ++ [r]), ro, M.
    destruct Hl as (Hi & Hf & Hc & Hp & Vc & Vo & HM & HK).
    apply linv_append; auto using write_rec_enc, key_inv_log.
  - by apply linv_swap.
  - destruct Hl as (rc & ro & M & Hi & Hf & Hc & (Eh & Hh & -> & Ht) & Vc & Vo & HM & HK).
    cbn [ls_chan ls_fs ls_cl] in *. subst h.
    rewrite (extract_file_holds _ _ _ _ Hh Vo) in He. injection He as He.
    exists rc, ro, []. unfold linv_at. simpl. by split_and!.
  - destruct Hl as (rc & ro & M & Hi & Hf & Hc & (-> & Hh & -> & Ht & Ea) & Vc & Vo & HM & HK).
    simpl in *. exists rc, ro, []. pose proof Ea as Ea'.
    rewrite (surjective_pairing (apply_recs ro (∅, ∅))) in Ea'. simplify_eq.
    rewrite clean_tmp_eq by done. pose proof (name_ne_tmp (ch_index c)).
    pose proof (name_ne_tmp (other (ch_index c))).
    unfold linv_at. simpl. unfold holds in *. split_and!; try done.
    + by rewrite lookup_insert_ne.
    + by rewrite lookup_insert_ne.
    + apply lookup_insert_eq.
  - by eapply linv_remove.
  - by apply linv_rename.
  - destruct Hl as (rc & ro & M & Hi & Hf & Hc & (Hh & -> & Ht) & Vc & Vo & HM & HK).
    simpl in *. apply Forall_cons in HM as [HM1 HM2].
    exists (rc ++ [LComplete (pao_msgId o) (pao_queueId o)]), ro, todo.
    apply linv_append; auto; try apply k_write_complete_ok; [done|].
    intros q p. by apply key_inv_relog.
  - destruct Hl as (rc & ro & M & Hi & Hf & Hc & (Hh & -> & Ht) & Vc & Vo & HM & HK).
    exists rc, ro, []. unfold linv_at. simpl in *. by split_and!.
  - destruct Hl as (rc & ro & M & Hi & Hf & Hc & Hp & Vc & Vo & HM & HK). exists rc, ro, M.
    unfold linv_at. simpl in *. split_and!; try done.
    + by rewrite Hfr.
    + eapply phase_inv_ext; [..|exact Hp]; by rewrite Hfr.
Qed.

(** ** Reachable states *)

Lemma fresh_linv s : fresh s -> linv s [].
Proof.
  intros (fs0 & H0 & ->). exists [], [], []. unfold linv_at, chan_open, fs_open_app. simpl.
  rewrite H0. assert (name 0 false <> name (other 0) false /\ name 0 false <> name 0 true) as [? ?].
  { split; [apply not_eq_sym, name_ne_other; by left|apply name_ne_tmp]. }
  unfold holds. split_and!; try done; [by left|by simplify_map_eq|..].
  - by rewrite lookup_insert_ne, H0.
  - by rewrite lookup_insert_ne, H0.
  - intros q p. left. split; [done|]. unfold completed. set_solver.
Qed.

Lemma started_once_app_l hist l : started_once (hist ++ l) -> started_once hist.
Proof. intros Ho q p. specialize (Ho q p). rewrite starts_app, length_app in Ho. lia. Qed.

Lemma lreach_linv s0 hist s :
  fresh s0 -> lreach s0 hist s -> started_once hist -> linv s hist.
Proof.
  intros Hf Hr. induction Hr as [|hist s1 l s2 Hr IH Hs]; intros Ho; [by apply fresh_linv|].
  eapply linv_step; [done|exact Ho|]. apply IH. by eapply started_once_app_l.
Qed.

(** ** Recovery *)

(** Both files hold whole records: what recovery returns and leaves behind. *)
Lemma recover_chan_eq fs r0 r1 :
  holds fs (name 0 false) r0 -> holds fs (name 1 false) r1 ->
  Forall valid_rec r0 -> Forall valid_rec r1 ->
  let a := (apply_recs (r0 ++ r1) (∅, ∅)).1 in
  recover_chan base ∅ fs =
  Some (a, mkChan 0 (Some (name 0 false)),
        <[name 0 false := encode (start_recs a)]> (delete (name 1 false) fs)).
Proof.
  intros H0 H1 V0 V1 a. unfold recover_chan.
  rewrite (extract_file_holds _ _ r0 (∅, ∅)) by done.
  assert (Hne : name 0 false <> name 1 false) by (apply (name_ne_other 1); by right).
  rewrite (extract_file_holds _ _ r1); [| |done].
  2: { unfold holds, fs_remove. by rewrite lookup_delete_ne. }
  rewrite <- apply_recs_app.
  destruct (apply_recs (r0 ++ r1) (∅, ∅)) as [a' l'] eqn:E. unfold chan_open.
  change a' with (a', l').1. rewrite <- E.
  assert (Hopen : fs_open_app (name 0 false) (fs_remove (name 1 false) (fs_remove (name 0 false) fs))
                  = <[name 0 false := []]> (delete (name 1 false) fs)).
  { unfold fs_open_app, fs_remove. rewrite lookup_delete_ne, lookup_delete_eq by done.
    rewrite delete_delete. by rewrite insert_delete_eq. }
  rewrite Hopen. rewrite (write_starts_eq _ _ _ _ [])
    by (apply lookup_insert_eq || by apply Forall_app).
  rewrite insert_insert_eq. unfold a. by rewrite E.
Qed.

(** The contents of the two files of a state that satisfies the invariant, when
    the cleaner is not between its [remove] and its [rename]. *)
Lemma linv_files s hist rc ro M :
  linv_at s hist rc ro M -> started_once hist ->
  (forall h l, ls_cl s <> CRemoved h l) ->
  exists r0 r1, holds (ls_fs s) (name 0 false) r0 /\ holds (ls_fs s) (name 1 false) r1 /\
    Forall valid_rec r0 /\ Forall valid_rec r1 /\
    (forall q p, key_inv hist (r0 ++ r1) M q p).
Proof.
  intros (Hi & Hf & Hc & Hp & Vc & Vo & HM & HK) Ho Hcl.
  assert (Hh : holds (ls_fs s) (name (other (ch_index (ls_chan s))) false) ro).
  { destruct (ls_cl s) eqn:Ecl; simpl in Hp; try (by destruct Hp as (-> & ? & _)); try tauto.
    by destruct (Hcl h lost). }
  assert (Hh' : holds (ls_fs s) (name (ch_index (ls_chan s)) false) rc)
    by (unfold holds; by rewrite Hc).
  destruct Hi as [Hi|Hi]; rewrite Hi in *.
  - by exists rc, ro.
  - exists ro, rc. split_and!; try done. intros q p. apply key_inv_swap; [apply Ho|apply HK].
Qed.

(** A pending operation of the history is pending according to the files. *)
Lemma key_inv_pending hist rs M q p v :
  key_inv hist rs M q p -> pending hist q p = Some v -> pending rs q p = Some v.
Proof.
  unfold pending. intros Hk. case_decide as Hc; [done|]. intros Hv.
  destruct Hk as [[Hs Hh]|(_ & _ & Hcc)]; [|done].
  rewrite decide_False by tauto. by rewrite Hs.
Qed.

Lemma key_inv_pending_eq hist rs q p :
  key_inv hist rs [] q p -> pending rs q p = pending hist q p.
Proof.
  unfold pending. intros [[Hs Hh]|(Hs & _ & Hc)].
  - assert (mkPAO p q ∉ []) by apply not_elem_of_nil. rewrite Hs.
    repeat case_decide; tauto.
  - rewrite Hs, (decide_True _ _ Hc). by case_decide.
Qed.

(** The pending set read back from the files. *)
Lemma pending_of_files hist r0 r1 M q p :
  started_once hist -> key_inv hist (r0 ++ r1) M q p ->
  nm_get (apply_recs (r0 ++ r1) (∅, ∅)).1 q p = pending (r0 ++ r1) q p.
Proof. intros Ho Hk. apply pending_of_apply. eapply key_inv_once; [apply Ho|exact Hk]. Qed.

(** Recovering right after a recovery returns the same set. *)
Lemma recover_twice fs r0 r1 :
  holds fs (name 0 false) r0 -> holds fs (name 1 false) r1 ->
  Forall valid_rec r0 -> Forall valid_rec r1 ->
  let a := (apply_recs (r0 ++ r1) (∅, ∅)).1 in
  let fs' := <[name 0 false := encode (start_recs a)]> (delete (name 1 false) fs) in
  recover_chan base ∅ fs' = Some (a, mkChan 0 (Some (name 0 false)), fs').
Proof.
  intros H0 H1 V0 V1 a fs'.
  assert (Hne : name 0 false <> name 1 false) by (apply (name_ne_other 1); by right).
  assert (Va : Forall valid_rec (start_recs a)) by by apply start_recs_valid, Forall_app.
  assert (Ea : (apply_recs (start_recs a ++ []) (∅, ∅)).1 = a).
  { rewrite app_nil_r.
    assert (Hok : sets_ok (apply_recs (r0 ++ r1) (∅, ∅))) by apply apply_recs_ok, sets_ok_empty.
    apply nm_ext; [apply so_wf1, apply_recs_ok, sets_ok_empty|apply (so_wf1 _ Hok)|].
    intros q p. pose proof (starts_start_recs _ q p Hok) as Hs. fold a in Hs.
    rewrite pending_of_apply by (rewrite Hs; case_goal; simpl; lia).
    unfold pending. rewrite decide_False by apply completed_start_recs.
    rewrite Hs. unfold a. by case_goal. }
  rewrite (recover_chan_eq fs' (start_recs a) []).
  - rewrite Ea. do 2 f_equal. unfold fs'.
    rewrite delete_insert_ne by done. rewrite delete_delete_eq. by rewrite insert_insert_eq.
  - unfold holds, fs'. by rewrite lookup_insert_eq.
  - unfold holds, fs'. by rewrite lookup_insert_ne, lookup_delete_eq.
  - done.
  - constructor.
Qed.

End system.
