(* ===== verification/LogRecovery.v ===== *)
(** What recovery finds after a crash of one log: the theorems on the step
    relation of [LogSystem]. The runs in which the code loses or invents operations
    are in [LogExamples]. *)
From S2P Require Import Prelude NestedMap PendingOps LogFormat LogExtract AsyncLog LogSystem.
From Stdlib Require Import ZArith Lia.

Section recovery.
Context `{HostEndian} {V : Type} `{!LogKind V}.
Variable base : string.

Abbreviation name := (k_name (V:=V) base).
Implicit Types (hist rs : list (log_rec V)) (c : channel) (fs : FS) (q p : Z).

Lemma lreach_trans s0 h1 s1 h2 s2 :
  lreach base s0 h1 s1 -> lreach (V:=V) base s1 h2 s2 -> lreach base s0 (h1 ++ h2) s2.
Proof.
  intros H1 H2. induction H2 as [|h s l s' Hr IH Hs]; [by rewrite app_nil_r|].
  rewrite app_assoc. by econstructor.
Qed.

Lemma lreach_one s0 h s1 l s2 h' :
  lreach base s0 h s1 -> lstep (V:=V) base s1 l s2 -> h' = h ++ l -> lreach base s0 h' s2.
Proof. intros Hr Hs ->. by econstructor. Qed.

(** The loop that logs the lost completes, as steps. *)
Lemma relog_reach s0 hist c fs (L : list (Z * Z * PendingAsyncOperation)) :
  lreach (V:=V) base s0 hist (mkSys c fs (CRelog (map snd L))) ->
  lreach base s0 hist (mkSys c (foldl (fun fs x => clean_relog (V:=V) x.2 c fs) fs L) CIdle).
Proof.
  revert fs. induction L as [|[k o] L IH]; intros fs Hr; simpl in *.
  - eapply lreach_one; [exact Hr|constructor|by rewrite app_nil_r].
  - apply IH. eapply lreach_one; [exact Hr|constructor|by rewrite app_nil_r].
Qed.

(** A whole pass of the cleaner is a run of the step relation, in which no
    client logs anything. *)
Lemma clean_pass_reach s0 hist c fs c' fs' :
  clean_pass (V:=V) base c fs = Some (c', fs') ->
  lreach base s0 hist (mkSys c fs CIdle) -> lreach base s0 hist (mkSys c' fs' CIdle).
Proof.
  unfold clean_pass. intros Hp Hr.
  destruct (clean_swap (V:=V) base c fs) as [c1 fs1] eqn:Es.
  destruct (extract_file base (ch_index c) fs1 (∅, ∅)) as [[a l]|] eqn:Ee; [|done].
  injection Hp as <- <-. apply relog_reach.
  assert (step : forall s l s', lstep (V:=V) base s l s' -> l = [] ->
            lreach base s0 hist s -> lreach base s0 hist s').
  { intros s ll s' Hs -> Hrs. eapply lreach_one; [done..|by rewrite app_nil_r]. }
  eapply step; [apply S_rename|done|]. eapply step; [apply S_remove|done|].
  eapply step; [apply S_tmp|done|]. eapply step; [by apply S_extract|done|].
  pose proof (S_swap (V:=V) base c fs) as Hsw. rewrite Es in Hsw. by eapply step.
Qed.

(** A pass started in a reachable idle state never throws. *)
Lemma clean_pass_total c fs hist :
  linv (V:=V) base (mkSys c fs CIdle) hist -> started_once hist ->
  is_Some (clean_pass (V:=V) base c fs).
Proof.
  intros Hl Ho. apply (linv_swap base _ _ _ Ho) in Hl. unfold clean_pass.
  destruct (clean_swap base c fs) as [c1 fs1]. simpl in Hl.
  destruct Hl as (rc & ro & M & Hi & Hf & Hc & (Eh & Hh & -> & Ht) & Vc & Vo & _).
  cbn [ls_chan ls_fs] in *. rewrite (extract_file_holds base _ _ _ _ Hh Vo).
  destruct (apply_recs ro (∅, ∅)). by eexists.
Qed.

(** The set recovered from an idle reachable state. *)
Lemma recover_pending s hist :
  linv base s hist -> started_once hist -> ls_cl s = CIdle ->
  exists a c fs, recover_chan base ∅ (ls_fs s) = Some (a, c, fs) /\
    recover_chan base ∅ fs = Some (a, c, fs) /\
    forall q p, nm_get a q p = pending hist q p.
Proof.
  intros (rc & ro & M & Hl) Ho Hcl.
  destruct (linv_files base s hist rc ro M Hl Ho) as (r0 & r1 & H0 & H1 & V0 & V1 & HK).
  { by rewrite Hcl. }
  assert (M = []) as -> by (destruct Hl as (_ & _ & _ & Hp & _); rewrite Hcl in Hp; apply Hp).
  eexists _, _, _. split; [by apply recover_chan_eq|]. split; [by apply recover_twice|].
  intros q p. rewrite (pending_of_files hist r0 r1 []) by done. by apply key_inv_pending_eq.
Qed.

(** C7: from an empty directory, let clients log any valid
    records, each key being started at most once, interleaved in any way with
    passes of the cleaner and with the other log's threads. Whenever the cleaner
    is between two passes, recovery returns exactly the operations that were
    started and not completed, and recovering a second time returns the same set
    and leaves the same files. *)
Theorem log_recovery_exact s0 hist s :
  fresh base s0 -> lreach base s0 hist s -> started_once hist -> ls_cl s = CIdle ->
  exists a c fs, recover_chan base ∅ (ls_fs s) = Some (a, c, fs) /\
    recover_chan base ∅ fs = Some (a, c, fs) /\
    forall q p, nm_get a q p = pending hist q p.
Proof. intros Hf Hr Ho Hcl. apply recover_pending; try done. by eapply lreach_linv. Qed.

(** C29: a crash at any other moment of a cleaning pass, except
    between the [remove] of the handled file and the [rename] of the temporary
    one, loses no pending operation: recovery succeeds and returns every
    operation that was started and not completed, with its value. *)
Theorem log_no_loss s0 hist s q p v :
  fresh base s0 -> lreach base s0 hist s -> started_once hist ->
  (forall h l, ls_cl s <> CRemoved h l) -> pending hist q p = Some v ->
  exists a c fs, recover_chan base ∅ (ls_fs s) = Some (a, c, fs) /\ nm_get a q p = Some v.
Proof.
  intros Hf Hr Ho Hcl Hv. destruct (lreach_linv base _ _ _ Hf Hr Ho) as (rc & ro & M & Hl).
  destruct (linv_files base s hist rc ro M Hl Ho Hcl) as (r0 & r1 & H0 & H1 & V0 & V1 & HK).
  eexists _, _, _. split; [by apply recover_chan_eq|].
  rewrite (pending_of_files hist r0 r1 M) by done. by eapply key_inv_pending.
Qed.

(** In a reachable state a whole cleaning pass started
    by an idle cleaner always ends normally, and recovery from the state it
    leaves still returns exactly the pending operations. *)
Theorem cleaner_never_throws s0 hist c fs :
  fresh base s0 -> lreach base s0 hist (mkSys c fs CIdle) -> started_once hist ->
  exists c' fs', clean_pass (V:=V) base c fs = Some (c', fs') /\
    exists a d fs2, recover_chan base ∅ fs' = Some (a, d, fs2) /\
      forall q p, nm_get a q p = pending hist q p.
Proof.
  intros Hf Hr Ho. pose proof (lreach_linv base _ _ _ Hf Hr Ho) as Hl.
  destruct (clean_pass_total _ _ _ Hl Ho) as [[c' fs'] Hp]. exists c', fs'. split; [done|].
  apply (clean_pass_reach s0 hist) in Hp; [|done].
  pose proof (lreach_linv base _ _ _ Hf Hp Ho) as Hl'.
  destruct (recover_pending _ _ Hl' Ho eq_refl) as (a & d & fs2 & H1 & _ & H2). eauto 10.
Qed.

(** C30: when the tail of a file is cut at any byte, the reader neither
    throws nor misreads: it returns the effect of a prefix of the records
    written, and that prefix contains every record that was flushed before the
    cut. *)
Theorem torn_tail flushed later n st :
  Forall valid_rec (flushed ++ later) -> (length (encode (V:=V) flushed) <= n)%nat ->
  exists kept, kept `prefix_of` later /\
    extract (take n (encode (flushed ++ later))) st = Some (apply_recs (flushed ++ kept) st).
Proof.
  intros Hv Hn. rewrite extract_truncated by done. rewrite whole_recs_app by done.
  eexists. split; [|done]. apply whole_recs_prefix.
Qed.

End recovery.
