(* ===== verification/LoggerSpec.v ===== *)
(** The logger as a whole: sequences of calls of the public methods of
    [AsyncOperationLogger] on both logs, and what recovery returns after them.

    The specification of a call is the list of records it stands for on each
    log; the refinement theorem says that any sequence of calls, whichever way
    the methods format, batch, fall back and clean, is recovered as the pending
    operations of those records. *)
From S2P Require Import Prelude NestedMap PendingOps LogFormat LogExtract AsyncLog.
From S2P Require Import LogSystem LogRecovery.
From Stdlib Require Import ZArith Lia.

(** ** Batched completes *)

Section mass.
Context `{HostEndian}.

Lemma insert_mid {A} (pre : list A) x y post :
  <[length pre := y]> (pre ++ x :: post) = pre ++ y :: post.
Proof. rewrite <- (Nat.add_0_r (length pre)), insert_app_r. done. Qed.

Lemma memcpy_mid pre src mid post :
  length mid = length src -> memcpy (pre ++ mid ++ post) (length pre) src = pre ++ src ++ post.
Proof.
  intros Hl. unfold memcpy. rewrite <- (Nat.add_0_r (length pre)), list_inserts_app_r.
  by rewrite list_inserts_0_r by done.
Qed.

(** The loop writes the records one after the other over the block. *)
Lemma mass_fill_eq op ids pre blk :
  length blk = (17 * length ids)%nat ->
  mass_fill op ids (pre ++ blk) (length pre) =
  pre ++ flat_map (fun pq => fill2 17 op pq.1 pq.2) ids.
Proof.
  revert pre blk. induction ids as [|[p q] ids IH]; intros pre blk Hl; simpl.
  { by rewrite (nil_length_inv blk). }
  simpl in Hl. destruct blk as [|x blk]; [simpl in Hl; lia|]. simpl in Hl.
  rewrite insert_mid.
  rewrite <- (take_drop 8 blk), <- (take_drop 8 (drop 8 blk)).
  set (b1 := take 8 blk). set (b2 := take 8 (drop 8 blk)). set (rest := drop 8 (drop 8 blk)).
  assert (L1 : length b1 = 8%nat) by (unfold b1; rewrite length_take; lia).
  assert (L2 : length b2 = 8%nat) by (unfold b2; rewrite length_take, length_drop; lia).
  assert (L3 : length rest = (17 * length ids)%nat) by (unfold rest; rewrite !length_drop; lia).
  replace (length pre + 1)%nat with (length (pre ++ [op])) by by rewrite length_app.
  rewrite (cons_middle op pre), (app_assoc pre).
  rewrite memcpy_mid by by rewrite enc64_length.
  replace (length (pre ++ [op]) + 8)%nat with (length ((pre ++ [op]) ++ enc64 p))
    by by rewrite (length_app _ (enc64 p)), enc64_length.
  rewrite (app_assoc (pre ++ [op])), memcpy_mid by by rewrite enc64_length.
  replace (length ((pre ++ [op]) ++ enc64 p) + 8)%nat
    with (length (((pre ++ [op]) ++ enc64 p) ++ enc64 q))
    by by rewrite (length_app _ (enc64 q)), enc64_length.
  rewrite app_assoc, IH by done. rewrite fill2_app.
  rewrite <- !app_assoc. simpl. by rewrite <- !app_assoc.
Qed.

Lemma flat_fill2_length op ids :
  length (flat_map (fun pq => fill2 17 op pq.1 pq.2) ids) = (17 * length ids)%nat.
Proof.
  induction ids as [|x ids IH]; [done|]. simpl. rewrite length_app, IH, fill2_app. simpl.
  rewrite length_app, !enc64_length. lia.
Qed.

(** The bytes written from the block, when [int] can hold its size. *)
Lemma mass_bytes op ids blk :
  length blk = (17 * length ids)%nat -> 17 * Z.of_nat (length ids) < 2 ^ 31 ->
  take (Z.to_nat (AsyncOperationLogger.local_buff_size 17 ids)) (mass_fill op ids blk 0) =
  flat_map (fun pq => fill2 17 op pq.1 pq.2) ids.
Proof.
  intros Hl Hs. pose proof (mass_fill_eq op ids [] blk Hl) as E. simpl in E. rewrite E.
  unfold AsyncOperationLogger.local_buff_size. rewrite int_of_small by lia.
  apply take_ge. rewrite flat_fill2_length. lia.
Qed.

End mass.

(** ** The system and groups of records *)

Section groups.
Context `{HostEndian} {V : Type} `{!LogKind V}.
Variable base : string.
Implicit Types (hist rs : list (log_rec V)) (c : channel) (fs : FS).

(** A group of records written at once. *)
Lemma linv_writes c fs cl hist rs :
  linv base (mkSys c fs cl) hist -> Forall valid_rec rs -> started_once (hist ++ rs) ->
  linv base (mkSys c (chan_write (encode rs) c fs) cl) (hist ++ rs).
Proof.
  intros Hl Hv Ho.
  assert (exists n s, ch_file c = Some n /\ fs !! n = Some s) as (n & s & Hc & Hs).
  { destruct Hl as (rc & ro & M & _ & Hf & Hc & _). eauto. }
  assert (E : chan_write (encode rs) c fs = foldl (fun fs r => chan_write (enc_rec r) c fs) fs rs).
  { rewrite (write_all enc_rec c n rs fs s) by done. unfold chan_write, fs_append.
    by rewrite Hc, Hs. }
  rewrite E. clear E Hc Hs n s. revert fs hist Hl Ho. induction rs as [|r rs IH]; intros fs hist Hl Ho.
  - by rewrite app_nil_r.
  - apply Forall_cons in Hv as [Hr Hv]. rewrite cons_middle, app_assoc in Ho |- *.
    apply IH; [done| |done]. rewrite <- (write_rec_enc r) by done.
    eapply linv_step; [by apply S_log| |exact Hl]. by apply started_once_app_l in Ho.
Qed.

(** The files that belong to neither the numbered files nor the temporary one. *)
Definition foreign (n : string) : Prop := forall i t, k_name (V:=V) base i t <> n.

Lemma chan_write_foreign bs c fs i n :
  ch_file c = Some (k_name (V:=V) base i false) -> foreign n ->
  chan_write bs c fs !! n = fs !! n.
Proof.
  intros Hc Hn. unfold chan_write, fs_append. rewrite Hc. apply lookup_insert_ne, Hn.
Qed.

Lemma write_starts_foreign (a : gmap Z (gmap Z V)) c fs m n :
  ch_file c = Some m -> m <> n -> write_starts a c fs !! n = fs !! n.
Proof.
  intros Hc Hn. unfold write_starts. revert fs. induction (nm_list a) as [|x L IH]; intros fs; [done|].
  simpl. rewrite IH. unfold chan_write, fs_append. rewrite Hc. by apply lookup_insert_ne.
Qed.

Lemma fs_open_foreign m n fs : m <> n -> fs_open_app m fs !! n = fs !! n.
Proof. intros Hn. unfold fs_open_app. case_goal; [done|]. by apply lookup_insert_ne. Qed.

Lemma clean_pass_foreign c fs c' fs' n :
  clean_pass (V:=V) base c fs = Some (c', fs') -> foreign n -> fs' !! n = fs !! n.
Proof.
  unfold clean_pass, clean_swap, chan_open. intros Hp Hn.
  destruct (extract_file _ _ _ _) as [[a l]|]; [|done]. injection Hp as <- <-.
  set (c1 := mkChan _ _).
  assert (Hr : forall L fs2, foldl (fun fs (x : Z * Z * PendingAsyncOperation) =>
            clean_relog (V:=V) x.2 c1 fs) fs2 L !! n = fs2 !! n).
  { induction L as [|x L IH]; intros fs2; [done|]. simpl. rewrite IH.
    by eapply chan_write_foreign. }
  rewrite Hr. unfold clean_rename, fs_rename, clean_remove, fs_remove, clean_tmp.
  pose proof (Hn 0 true). pose proof (Hn (ch_index c) false).
  case_goal; rewrite ?lookup_insert_ne, ?lookup_delete_ne by done;
    rewrite (write_starts_foreign _ _ _ (k_name base 0 true)) by done;
    by rewrite !fs_open_foreign.
Qed.

Lemma linv_pass c fs c' fs' hist :
  clean_pass (V:=V) base c fs = Some (c', fs') -> started_once hist ->
  linv base (mkSys c fs CIdle) hist -> linv base (mkSys c' fs' CIdle) hist.
Proof.
  intros Hp Ho Hl. apply (clean_pass_reach base (mkSys c fs CIdle) []) in Hp; [|constructor].
  assert (Hg : forall h s', lreach base (mkSys c fs CIdle) h s' -> h = [] -> linv base s' hist).
  { intros h s' Hr. induction Hr as [|h s1 l s2 Hr IH Hs]; intros Hh; [done|].
    apply app_eq_nil in Hh as [-> ->]. specialize (IH eq_refl).
    rewrite <- (app_nil_r hist). eapply linv_step; [done| |done]. by rewrite app_nil_r. }
  by eapply Hg.
Qed.

Lemma linv_frame c fs fs' hist :
  (forall i t, fs' !! k_name (V:=V) base i t = fs !! k_name (V:=V) base i t) -> started_once hist ->
  linv base (mkSys c fs CIdle) hist -> linv base (mkSys c fs' CIdle) hist.
Proof.
  intros Hf Ho Hl. rewrite <- (app_nil_r hist). eapply linv_step; [by apply S_frame| |exact Hl].
  by rewrite app_nil_r.
Qed.

Lemma linv_file c fs hist :
  linv (V:=V) base (mkSys c fs CIdle) hist -> exists i, ch_file c = Some (k_name (V:=V) base i false).
Proof. intros (rc & ro & M & _ & Hf & _). eauto. Qed.

(** Recovery from an idle state: the pending operations, and an idle state whose
    history consists of their start records. *)
Lemma linv_recover c fs hist :
  linv base (mkSys c fs CIdle) hist -> started_once hist ->
  exists a c' fs', recover_chan base ∅ fs = Some (a, c', fs') /\
    (forall q p, nm_get a q p = pending hist q p) /\
    (forall n, foreign n -> fs' !! n = fs !! n) /\
    started_once (start_recs a) /\
    linv base (mkSys c' fs' CIdle) (start_recs a).
Proof.
  intros Hl Ho. pose proof Hl as (rc & ro & M & Hl0).
  destruct (linv_files base _ hist rc ro M Hl0 Ho) as (r0 & r1 & H0 & H1 & V0 & V1 & HK); [done|].
  destruct Hl0 as (_ & _ & _ & (_ & -> & Ht) & _). cbn [ls_fs ls_chan ls_cl] in *.
  assert (Hok : sets_ok (apply_recs (r0 ++ r1) (∅, ∅))) by apply apply_recs_ok, sets_ok_empty.
  eexists _, _, _. split; [by apply recover_chan_eq|]. split_and!.
  - intros q p. rewrite (pending_of_files hist r0 r1 []) by done. by apply key_inv_pending_eq.
  - intros n Hn. by rewrite lookup_insert_ne, lookup_delete_ne by apply Hn.
  - intros q p. rewrite starts_start_recs by done. case_goal; simpl; lia.
  - pose proof (name_ne_tmp (V:=V) base 0). pose proof (name_ne_tmp (V:=V) base 1).
    assert (k_name (V:=V) base 0 false <> k_name base 1 false) by (apply (name_ne_other base 1); by right).
    exists (start_recs (apply_recs (r0 ++ r1) (∅, ∅)).1), [], []. unfold linv_at. simpl.
    unfold holds, other. split_and!; try done.
    + by left.
    + by rewrite lookup_insert_eq.
    + by rewrite lookup_insert_ne, lookup_delete_eq.
    + by rewrite lookup_insert_ne, lookup_delete_ne.
    + by apply start_recs_valid, Forall_app.
    + intros q p. left. rewrite app_nil_r. split; [done|]. set_solver.
Qed.

End groups.

(** ** Calls *)

(** The calls of the public methods; a batched call carries the block that
    [malloc] returned, or [None] when it returned a null pointer. *)
Inductive call : Type :=
| EnqStart (v : PendingAsyncEnqueue)
| EnqComplete (pid qid : Z)
| DeqStart (v : PendingAsyncDequeue)
| DeqComplete (pid qid : Z)
| MassEnqComplete (blk : option (list byte)) (ids : list PendingOperationId)
| MassDeqComplete (blk : option (list byte)) (ids : list PendingOperationId)
| MassBothComplete (be bd : option (list byte)) (ids : list PendingOperationId)
| CleanEnq (interval warningSize dur tellp : Z)
| CleanDeq (interval warningSize dur tellp : Z).

Section calls.
Context `{HostEndian, HostAlloc}.
Implicit Type l : AsyncOperationLogger.

Abbreviation ELog := PendingAsyncEnqueue.
Abbreviation DLog := PendingAsyncDequeue.

Definition run_call (x : call) l : option AsyncOperationLogger :=
  match x with
  | EnqStart v => Some (AsyncOperationLogger.log_enqueue_start (pae_msgId v) (pae_queueId v)
                          (pae_buff v) (pae_size v) (pae_transient v) l).2
  | EnqComplete p q => Some (AsyncOperationLogger.log_enqueue_complete p q l).2
  | DeqStart v => Some (AsyncOperationLogger.log_dequeue_start (pad_msgId v) (pad_queueId v) l).2
  | DeqComplete p q => Some (AsyncOperationLogger.log_dequeue_complete p q l).2
  | MassEnqComplete b ids => Some (AsyncOperationLogger.log_mass_enqueue_complete b ids l).2
  | MassDeqComplete b ids => Some (AsyncOperationLogger.log_mass_dequeue_complete b ids l).2
  | MassBothComplete be bd ids =>
      Some (AsyncOperationLogger.log_mass_enqueue_dequeue_complete be bd ids l).2
  | CleanEnq i w d t => AsyncOperationLogger.cleanEnqueueLog i w d t l
  | CleanDeq i w d t => AsyncOperationLogger.cleanDequeueLog i w d t l
  end.

Definition run_calls (xs : list call) l : option AsyncOperationLogger :=
  foldl (fun r x => r ≫= run_call x) (Some l) xs.

(** *** The specification: records per log *)

Definition completes {V} (ids : list PendingOperationId) : list (log_rec V) :=
  map (fun pq => LComplete pq.1 pq.2) ids.

Definition enq_recs (x : call) : list (log_rec ELog) :=
  match x with
  | EnqStart v => [LStart v]
  | EnqComplete p q => [LComplete p q]
  | MassEnqComplete _ ids | MassBothComplete _ _ ids => completes ids
  | _ => []
  end.

Definition deq_recs (x : call) : list (log_rec DLog) :=
  match x with
  | DeqStart v => [LStart v]
  | DeqComplete p q => [LComplete p q]
  | MassDeqComplete _ ids | MassBothComplete _ _ ids => completes ids
  | _ => []
  end.

Definition ids_ok (ids : list PendingOperationId) : Prop :=
  Forall (fun pq => is_u64 pq.1 /\ is_u64 pq.2) ids.

(** The block has the size asked for, which fits in an [int]. *)
Definition block_ok (blk : option (list byte)) (ids : list PendingOperationId) : Prop :=
  match blk with
  | Some b => length b = (17 * length ids)%nat /\ 17 * Z.of_nat (length ids) < 2 ^ 31
  | None => True
  end.

Definition call_ok (x : call) : Prop :=
  match x with
  | EnqStart v => valid_enqueue v
  | DeqStart v => valid_dequeue v
  | EnqComplete p q | DeqComplete p q => is_u64 p /\ is_u64 q
  | MassEnqComplete b ids | MassDeqComplete b ids => ids_ok ids /\ block_ok b ids
  | MassBothComplete be bd ids => ids_ok ids /\ block_ok be ids /\ block_ok bd ids
  | CleanEnq _ _ _ _ | CleanDeq _ _ _ _ => True
  end.

(** *** Invariant: both logs are idle systems over the same directory *)

Definition both_inv l (he : list (log_rec ELog)) (hd : list (log_rec DLog)) : Prop :=
  linv (logBaseDir l) (mkSys (AsyncOperationLogger.enq_chan l) (logFS l) CIdle) he /\
  linv (logBaseDir l) (mkSys (AsyncOperationLogger.deq_chan l) (logFS l) CIdle) hd.

Lemma enq_deq_names b i s j t :
  k_name (V:=ELog) b i s <> k_name (V:=DLog) b j t.
Proof.
  simpl. unfold buildEnqLogName, buildDeqLogName. intros E.
  apply (inj (String.append b)) in E. discriminate E.
Qed.

Lemma enq_change l he hd he' c fs :
  both_inv l he hd -> started_once hd ->
  linv (logBaseDir l) (mkSys c fs CIdle) he' ->
  (forall n, foreign (V:=ELog) (logBaseDir l) n -> fs !! n = logFS l !! n) ->
  both_inv (AsyncOperationLogger.set_enq c fs l) he' hd.
Proof.
  intros [He Hd] Ho Hl Hf. split; simpl.
  - by destruct c.
  - eapply linv_frame; [|done|exact Hd]. intros i t. apply Hf. intros j s. apply enq_deq_names.
Qed.

Lemma deq_change l he hd hd' c fs :
  both_inv l he hd -> started_once he ->
  linv (logBaseDir l) (mkSys c fs CIdle) hd' ->
  (forall n, foreign (V:=DLog) (logBaseDir l) n -> fs !! n = logFS l !! n) ->
  both_inv (AsyncOperationLogger.set_deq c fs l) he hd'.
Proof.
  intros [He Hd] Ho Hl Hf. split; simpl.
  - eapply linv_frame; [|done|exact He]. intros i t. apply Hf. intros j s E.
    by apply (enq_deq_names (logBaseDir l) i t j s).
  - by destruct c.
Qed.

Lemma enq_write_inv l he hd bs rs :
  both_inv l he hd -> started_once (he ++ rs) -> started_once hd ->
  Forall valid_rec rs -> bs = encode rs ->
  both_inv (AsyncOperationLogger.enq_write bs l).2 (he ++ rs) hd.
Proof.
  intros Hb Ho Hd Hv ->. pose proof Hb as [He _]. apply (enq_change l he); try done.
  - by apply linv_writes.
  - intros n Hn. destruct (linv_file _ _ _ _ He) as [i Hi].
    by apply (chan_write_foreign (V:=ELog) (logBaseDir l) _ _ _ i).
Qed.

Lemma deq_write_inv l he hd bs rs :
  both_inv l he hd -> started_once he -> started_once (hd ++ rs) ->
  Forall valid_rec rs -> bs = encode rs ->
  both_inv (AsyncOperationLogger.deq_write bs l).2 he (hd ++ rs).
Proof.
  intros Hb Ho Hd Hv ->. pose proof Hb as [_ He]. apply (deq_change l he hd); try done.
  - by apply linv_writes.
  - intros n Hn. destruct (linv_file _ _ _ _ He) as [i Hi].
    by apply (chan_write_foreign (V:=DLog) (logBaseDir l) _ _ _ i).
Qed.

Lemma encode_completes {V} `{!LogKind V} ids :
  encode (V:=V) (completes ids) = flat_map (fun pq => fill2 17 (k_complete_op (V:=V)) pq.1 pq.2) ids.
Proof. unfold encode, completes. by rewrite flat_map_concat_map, map_map, <- flat_map_concat_map. Qed.

Lemma completes_valid {V} `{!LogKind V} ids :
  ids_ok ids -> Forall valid_rec (completes (V:=V) ids).
Proof. intros Hi. unfold completes. by apply Forall_fmap. Qed.

Lemma completes_once {V} `{!LogKind V} hist ids :
  started_once hist -> started_once (V:=V) (hist ++ completes ids).
Proof.
  intros Ho q p. rewrite starts_app.
  assert (starts (completes (V:=V) ids) q p = []) as ->; [|by rewrite app_nil_r].
  induction ids as [|x ids IH]; [done|]. simpl. done.
Qed.

(** The fallback loop logs the completes one at a time. *)
Lemma complete_each_inv (f : Z -> Z -> AsyncOperationLogger -> Z * AsyncOperationLogger)
    (P : list PendingOperationId -> AsyncOperationLogger -> Prop) ids l :
  P [] l ->
  (forall done l p q, P done l -> (p, q) ∈ ids -> P (done ++ [(p, q)]) (f p q l).2) ->
  P ids (AsyncOperationLogger.complete_each f ids l).2.
Proof.
  intros Hz Hs. unfold AsyncOperationLogger.complete_each.
  assert (Hg : forall todo dn r, P dn r.2 -> (forall x, x ∈ todo -> x ∈ ids) ->
    P (dn ++ todo) (foldl (fun (rl : Z * AsyncOperationLogger) pq => f pq.1 pq.2 rl.2) r todo).2).
  { induction todo as [|[p q] todo IH]; intros dn r Hr Hi; simpl; [by rewrite app_nil_r|].
    rewrite cons_middle, app_assoc. apply IH; [|set_solver]. apply Hs; set_solver. }
  by apply (Hg ids [] (0, l)).
Qed.

Lemma mass_enq_inv l he hd blk ids :
  both_inv l he hd -> started_once he -> started_once hd -> ids_ok ids -> block_ok blk ids ->
  both_inv (AsyncOperationLogger.log_mass_enqueue_complete blk ids l).2 (he ++ completes ids) hd.
Proof.
  intros Hb He Hd Hi Hk. destruct blk as [b|]; simpl in *.
  - apply enq_write_inv; auto using completes_once, completes_valid.
    rewrite encode_completes. apply mass_bytes; apply Hk.
  - apply (complete_each_inv _ (fun dn l => both_inv l (he ++ completes dn) hd)).
    + by rewrite app_nil_r.
    + intros dn l' p q Hl Hpq. unfold completes. rewrite map_app, app_assoc.
      apply enq_write_inv; auto.
      * apply (completes_once _ [(p, q)]). by apply completes_once.
      * unfold ids_ok in Hi. rewrite Forall_forall in Hi. constructor; [by apply (Hi _ Hpq)|done].
      * unfold enqueue_complete_bytes. symmetry. apply app_nil_r.
Qed.

Lemma mass_deq_inv l he hd blk ids :
  both_inv l he hd -> started_once he -> started_once hd -> ids_ok ids -> block_ok blk ids ->
  both_inv (AsyncOperationLogger.log_mass_dequeue_complete blk ids l).2 he (hd ++ completes ids).
Proof.
  intros Hb He Hd Hi Hk. destruct blk as [b|]; simpl in *.
  - apply deq_write_inv; auto using completes_once, completes_valid.
    rewrite encode_completes. apply mass_bytes; apply Hk.
  - apply (complete_each_inv _ (fun dn l => both_inv l he (hd ++ completes dn))).
    + by rewrite app_nil_r.
    + intros dn l' p q Hl Hpq. unfold completes. rewrite map_app, app_assoc.
      apply deq_write_inv; auto.
      * apply (completes_once _ [(p, q)]). by apply completes_once.
      * unfold ids_ok in Hi. rewrite Forall_forall in Hi. constructor; [by apply (Hi _ Hpq)|done].
      * unfold dequeue_complete_bytes. symmetry. apply app_nil_r.
Qed.

(** Every call succeeds and appends its records to the two histories. *)
Lemma run_call_inv x l he hd :
  both_inv l he hd -> call_ok x ->
  started_once (he ++ enq_recs x) -> started_once (hd ++ deq_recs x) ->
  exists l', run_call x l = Some l' /\ both_inv l' (he ++ enq_recs x) (hd ++ deq_recs x).
Proof.
  intros Hb Hx He Hd. destruct x; simpl in *; rewrite ?app_nil_r in *.
  - eexists. split; [done|]. apply enq_write_inv; auto.
    unfold encode. simpl. rewrite app_nil_r. exact (k_write_start_ok (V:=ELog) v Hx).
  - eexists. split; [done|]. apply enq_write_inv; auto. symmetry. apply app_nil_r.
  - eexists. split; [done|]. apply deq_write_inv; auto.
    unfold encode. simpl. rewrite app_nil_r. exact (k_write_start_ok (V:=DLog) v Hx).
  - eexists. split; [done|]. apply deq_write_inv; auto. symmetry. apply app_nil_r.
  - destruct Hx as [Hi Hk]. eexists. split; [done|]. apply mass_enq_inv; auto.
    by apply started_once_app_l in He.
  - destruct Hx as [Hi Hk]. eexists. split; [done|]. apply mass_deq_inv; auto.
    by apply started_once_app_l in Hd.
  - destruct Hx as (Hi & Hk1 & Hk2). eexists. split; [done|].
    unfold AsyncOperationLogger.log_mass_enqueue_dequeue_complete.
    pose proof (mass_enq_inv l he hd be ids Hb ltac:(by apply started_once_app_l in He)
      ltac:(by apply started_once_app_l in Hd) Hi Hk1) as H1.
    destruct (AsyncOperationLogger.log_mass_enqueue_complete be ids l) as [r1 l1].
    pose proof (mass_deq_inv l1 _ hd bd ids H1 He ltac:(by apply started_once_app_l in Hd) Hi Hk2) as H2.
    by destruct (AsyncOperationLogger.log_mass_dequeue_complete bd ids l1) as [r2 l2].
  - unfold AsyncOperationLogger.cleanEnqueueLog. case_goal; [|by eexists].
    pose proof Hb as [HL _]. destruct (clean_pass_total _ _ _ _ HL He) as [[c fs] Hp].
    rewrite Hp. eexists. split; [done|]. eapply enq_change; [done|done| |].
    + by eapply linv_pass.
    + intros n Hn. eapply (clean_pass_foreign (V:=ELog)); [exact Hp|done].
  - unfold AsyncOperationLogger.cleanDequeueLog. case_goal; [|by eexists].
    pose proof Hb as [_ HL]. destruct (clean_pass_total _ _ _ _ HL Hd) as [[c fs] Hp].
    rewrite Hp. eexists. split; [done|]. eapply deq_change; [done|done| |].
    + by eapply linv_pass.
    + intros n Hn. eapply (clean_pass_foreign (V:=DLog)); [exact Hp|done].
Qed.

Lemma run_calls_inv xs l he hd :
  both_inv l he hd -> Forall call_ok xs ->
  started_once (he ++ flat_map enq_recs xs) -> started_once (hd ++ flat_map deq_recs xs) ->
  exists l', run_calls xs l = Some l' /\
    both_inv l' (he ++ flat_map enq_recs xs) (hd ++ flat_map deq_recs xs).
Proof.
  unfold run_calls. revert l he hd. induction xs as [|x xs IH]; intros l he hd Hb Hx He Hd; simpl in *.
  - exists l. by rewrite !app_nil_r.
  - apply Forall_cons in Hx as [Hx Hxs]. rewrite app_assoc in He, Hd. rewrite 2!app_assoc.
    destruct (run_call_inv x l he hd Hb Hx) as (l1 & E & Hb1).
    { by apply started_once_app_l in He. }
    { by apply started_once_app_l in Hd. }
    rewrite E. by apply IH.
Qed.

(** A restart: a new logger on the directory, recovering both logs as the
    provider does, the dequeues first. *)
Definition restart l : option (PendingEnqueueSet * PendingDequeueSet * AsyncOperationLogger) :=
  match AsyncOperationLogger.recoverAsyncDequeue ∅ l with
  | Some (ad, l1) =>
      match AsyncOperationLogger.recoverAsyncEnqueue ∅ l1 with
      | Some (ae, l2) => Some (ae, ad, l2)
      | None => None
      end
  | None => None
  end.

Lemma restart_inv l he hd :
  both_inv l he hd -> started_once he -> started_once hd ->
  exists ae ad l', restart l = Some (ae, ad, l') /\
    (forall q p, nm_get ae q p = pending he q p) /\
    (forall q p, nm_get ad q p = pending hd q p) /\
    started_once (start_recs ae) /\ started_once (start_recs ad) /\
    both_inv l' (start_recs ae) (start_recs ad).
Proof.
  intros Hb He Hd. pose proof Hb as [_ HD].
  destruct (linv_recover _ _ _ _ HD Hd) as (ad & cd & fd & Ed & Pd & Fd & Od & Ld).
  pose proof (deq_change l he hd _ cd fd Hb He Ld Fd) as Hb1. pose proof Hb1 as [HE _].
  destruct (linv_recover _ _ _ _ HE He) as (ae & ce & fe & Ee & Pe & Fe & Oe & Le).
  pose proof (enq_change _ he _ _ ce fe Hb1 Od Le Fe) as Hb2.
  exists ae, ad, (AsyncOperationLogger.set_enq ce fe (AsyncOperationLogger.set_deq cd fd l)).
  unfold restart, AsyncOperationLogger.recoverAsyncDequeue, AsyncOperationLogger.recoverAsyncEnqueue.
  rewrite Ed. simpl logFS. simpl logBaseDir. simpl in Ee. rewrite Ee. by split_and!.
Qed.

Lemma create_inv base fs0 :
  (forall i t, fs0 !! k_name (V:=ELog) base i t = None) ->
  (forall i t, fs0 !! k_name (V:=DLog) base i t = None) ->
  both_inv (AsyncOperationLogger.create base fs0) [] [].
Proof.
  intros He Hd. unfold AsyncOperationLogger.create. simpl. split; simpl.
  - eapply linv_frame; [|by intros q p; simpl; lia|].
    2: { apply fresh_linv. exists fs0. split; [exact He|reflexivity]. }
    intros i t. simpl. rewrite fs_open_foreign; [done|]. apply not_eq_sym, (enq_deq_names base i t 0 false).
  - apply fresh_linv. exists (fs_open_app (k_name (V:=ELog) base 0 false) fs0). split; [|done].
    intros i t. rewrite fs_open_foreign; [apply Hd|]. apply enq_deq_names.
Qed.


End calls.
