(* ===== verification/LogExamples.v ===== *)
(** Concrete runs of the logs: the inputs at which the theorems of [LogRecovery]
    and [LoggerSpec] are applied, and the runs in which a crash inside a cleaning
    pass loses a pending operation or brings a completed one back. *)
From S2P Require Import Prelude NestedMap PendingOps LogFormat LogExtract AsyncLog.
From S2P Require Import LogSystem LogRecovery LoggerSpec.
From Stdlib Require Import ZArith Lia.

#[local] Existing Instance little_endian.

(** A 64-bit host. *)
Definition host64 : HostAlloc := {| vector_max := 2 ^ 62 |}.
#[local] Existing Instance host64.

Abbreviation ELog := PendingAsyncEnqueue.
Abbreviation DLog := PendingAsyncDequeue.

Definition ex_msg : PendingAsyncEnqueue := mkPAE 7 3 [x61; x62; x63] 3 false.
Definition ex_boot : channel * FS := chan_open (V:=ELog) "d" 0 ∅.
Definition ex_start : lsys (V:=ELog) := mkSys ex_boot.1 ex_boot.2 CIdle.

(** The state after the records [rs], with the cleaner idle. *)
Definition ex_after (rs : list (log_rec ELog)) : lsys (V:=ELog) :=
  mkSys ex_boot.1 (foldl (fun fs r => chan_write (write_rec r) ex_boot.1 fs) ex_boot.2 rs) CIdle.

(** The directory when the cleaner has written the temporary file for [ex_msg],
    and when it has then removed the handled file. *)
Definition ex_swapped : channel * FS :=
  clean_swap (V:=ELog) "d" ex_boot.1 (ls_fs (ex_after [LStart ex_msg])).
Definition ex_tmp : FS := clean_tmp "d" (nm_insert ∅ 3 7 ex_msg) ex_swapped.2.
Definition ex_removed : FS := clean_remove (V:=ELog) "d" 0 ex_tmp.

Lemma ex_valid : valid_enqueue ex_msg.
Proof. unfold valid_enqueue, is_u64. simpl. lia. Qed.

Lemma ex_fresh : fresh "d" ex_start.
Proof. exists ∅. split; [|done]. intros i t. apply lookup_empty. Qed.

Lemma ex_once : started_once [LStart ex_msg].
Proof. intros q p. unfold starts. simpl. case_decide; simpl; lia. Qed.

Lemma ex_reach : lreach "d" ex_start [LStart ex_msg] (ex_after [LStart ex_msg]).
Proof. apply (R_step "d" _ [] ex_start); [constructor|]. apply S_log, ex_valid. Qed.

Lemma ex_reach_tmp :
  lreach "d" ex_start [LStart ex_msg] (mkSys ex_swapped.1 ex_tmp (CTmp 0 (nm_insert ∅ 3 7 ex_msg) ∅)).
Proof.
  eapply (lreach_one "d" _ [LStart ex_msg]); [|apply S_tmp|done].
  eapply (lreach_one "d" _ [LStart ex_msg]); [|apply S_extract; by vm_compute|done].
  eapply (lreach_one "d" _ [LStart ex_msg]); [apply ex_reach|apply S_swap|done].
Qed.

(** The hypotheses of [log_recovery_exact] hold after one start record. *)
Lemma log_recovery_exact_witness :
  exists a c fs, recover_chan "d" ∅ (ls_fs (ex_after [LStart ex_msg])) = Some (a, c, fs) /\
    recover_chan "d" ∅ fs = Some (a, c, fs) /\
    forall q p, nm_get a q p = pending [LStart ex_msg] q p.
Proof.
  apply (log_recovery_exact "d" ex_start).
  - apply ex_fresh.
  - apply ex_reach.
  - apply ex_once.
  - reflexivity.
Defined.

(** [log_no_loss] at a crash right after the temporary file was written. *)
Lemma log_no_loss_witness :
  exists a c fs, recover_chan "d" ∅ ex_tmp = Some (a, c, fs) /\ nm_get a 3 7 = Some ex_msg.
Proof.
  apply (log_no_loss "d" ex_start [LStart ex_msg] _ 3 7 ex_msg ex_fresh ex_reach_tmp ex_once).
  - discriminate.
  - reflexivity.
Defined.

Lemma cleaner_never_throws_witness :
  exists c' fs', clean_pass (V:=ELog) "d" ex_boot.1 (ls_fs (ex_after [LStart ex_msg])) = Some (c', fs') /\
    exists a d fs2, recover_chan "d" ∅ fs' = Some (a, d, fs2) /\
      forall q p, nm_get a q p = pending [LStart ex_msg] q p.
Proof. apply (cleaner_never_throws "d" ex_start); [apply ex_fresh|apply ex_reach|apply ex_once]. Defined.

(** [torn_tail] at a file cut after the first byte of its second record. *)
Lemma torn_tail_witness :
  exists kept, kept `prefix_of` [LComplete 7 3] /\
    extract (take (1 + length (encode [LStart ex_msg])) (encode ([LStart ex_msg] ++ [LComplete 7 3])))
      (∅, ∅) = Some (apply_recs ([LStart ex_msg] ++ kept) (∅, ∅)).
Proof.
  apply (torn_tail [LStart ex_msg] [LComplete 7 3]); [|lia].
  repeat constructor; simpl; unfold is_u64; lia.
Defined.

(** The handled file is removed before the temporary one
    takes its name. There is a run, of one logged enqueue and a cleaning pass
    that stops between the two calls, after which the enqueue is pending in the
    history and recovery returns nothing. *)
Theorem crash_window_loses :
  lreach "d" ex_start [LStart ex_msg] (mkSys ex_swapped.1 ex_removed (CRemoved 0 ∅)) /\
  pending [LStart ex_msg] 3 7 = Some ex_msg /\
  exists c fs, recover_chan (V:=ELog) "d" ∅ ex_removed = Some (∅, c, fs).
Proof.
  split; [|split; [done|]].
  - eapply (lreach_one "d" _ [LStart ex_msg]); [apply ex_reach_tmp|apply S_remove|done].
  - eexists _, _. vm_compute. reflexivity.
Qed.

(** What recovery returns for the key of [ex_msg]. *)
Definition recovered_ex (fs : FS) : option PendingAsyncEnqueue :=
  match recover_chan (V:=ELog) "d" ∅ fs with
  | Some (a, _, _) => nm_get a 3 7
  | None => None
  end.

(** The directory after a recovery from [fs], the complete of [ex_msg] and a
    cleaning pass. *)
Definition complete_and_clean (fs : FS) : option (channel * FS) :=
  match recover_chan (V:=ELog) "d" ∅ fs with
  | Some (_, c, fs1) => clean_pass (V:=ELog) "d" c (chan_write (k_write_complete (V:=ELog) 7 3) c fs1)
  | None => None
  end.

(** Recovery never removes the temporary file and the
    cleaner opens it for appending. After a crash that left it behind, recovery
    returns the pending enqueue; once its complete is logged and the next
    cleaning pass has run, a second recovery returns the completed enqueue again,
    which does not happen from the same directory without the temporary file. *)
Theorem stale_temporary_revives :
  recovered_ex ex_tmp = Some ex_msg /\
  (complete_and_clean ex_tmp ≫= fun r => recovered_ex r.2) = Some ex_msg /\
  (complete_and_clean (fs_remove (k_name (V:=ELog) "d" 0 true) ex_tmp) ≫= fun r => recovered_ex r.2)
    = None.
Proof. repeat split; vm_compute; reflexivity. Qed.

(** *** A session of the whole logger *)

Definition ex_calls : list call :=
  [EnqStart ex_msg; DeqStart (mkPAD 9 3); MassBothComplete None (Some (replicate 17 x61)) [(9, 3)];
   CleanEnq 60 100 10 200; CleanDeq 60 100 90 20].

