(* ===== verification/Jerrno.v ===== *)
(** The error codes of the journal library (lib/jrnl/jerrno.cpp), the exception
    class built on them (lib/jrnl/jexception.cpp) and the enumerations of
    lib/jrnl/enums.hpp. *)
From S2P Require Import Prelude Format.
From Stdlib Require Import ZArith Lia Ascii.

Module jerrno.

Definition JERR__MALLOC : Z := 0x0100.
Definition JERR__UNDERFLOW : Z := 0x0101.
Definition JERR__NINIT : Z := 0x0102.
Definition JERR__AIO : Z := 0x0103.
Definition JERR__FILEIO : Z := 0x0104.
Definition JERR__RTCLOCK : Z := 0x0105.
Definition JERR__PTHREAD : Z := 0x0106.
Definition JERR__TIMEOUT : Z := 0x0107.
Definition JERR__UNEXPRESPONSE : Z := 0x0108.
Definition JERR__RECNFOUND : Z := 0x0109.
Definition JERR__NOTIMPL : Z := 0x010a.
Definition JERR_JCNTL_STOPPED : Z := 0x0200.
Definition JERR_JCNTL_READONLY : Z := 0x0201.
Definition JERR_JCNTL_AIOCMPLWAIT : Z := 0x0202.
Definition JERR_JCNTL_UNKNOWNMAGIC : Z := 0x0203.
Definition JERR_JCNTL_NOTRECOVERED : Z := 0x0204.
Definition JERR_JCNTL_RECOVERJFULL : Z := 0x0205.
Definition JERR_JCNTL_OWIMISMATCH : Z := 0x0206.
Definition JERR_JDIR_NOTDIR : Z := 0x0300.
Definition JERR_JDIR_MKDIR : Z := 0x0301.
Definition JERR_JDIR_OPENDIR : Z := 0x0302.
Definition JERR_JDIR_READDIR : Z := 0x0303.
Definition JERR_JDIR_CLOSEDIR : Z := 0x0304.
Definition JERR_JDIR_RMDIR : Z := 0x0305.
Definition JERR_JDIR_NOSUCHFILE : Z := 0x0306.
Definition JERR_JDIR_FMOVE : Z := 0x0307.
Definition JERR_JDIR_STAT : Z := 0x0308.
Definition JERR_JDIR_UNLINK : Z := 0x0309.
Definition JERR_JDIR_BADFTYPE : Z := 0x030a.
Definition JERR_FCNTL_OPENWR : Z := 0x0400.
Definition JERR_FCNTL_WRITE : Z := 0x0401.
Definition JERR_FCNTL_CLOSE : Z := 0x0402.
Definition JERR_FCNTL_FILEOFFSOVFL : Z := 0x0403.
Definition JERR_FCNTL_CMPLOFFSOVFL : Z := 0x0404.
Definition JERR_FCNTL_RDOFFSOVFL : Z := 0x0405.
Definition JERR_LFMGR_BADAEFNUMLIM : Z := 0x0500.
Definition JERR_LFMGR_AEFNUMLIMIT : Z := 0x0501.
Definition JERR_LFMGR_AEDISABLED : Z := 0x0502.
Definition JERR_RRFC_OPENRD : Z := 0x0600.
Definition JERR_JREC_BADRECHDR : Z := 0x0700.
Definition JERR_JREC_BADRECTAIL : Z := 0x0701.
Definition JERR_WMGR_BADPGSTATE : Z := 0x0801.
Definition JERR_WMGR_BADDTOKSTATE : Z := 0x0802.
Definition JERR_WMGR_ENQDISCONT : Z := 0x0803.
Definition JERR_WMGR_DEQDISCONT : Z := 0x0804.
Definition JERR_WMGR_DEQRIDNOTENQ : Z := 0x0805.
Definition JERR_RMGR_UNKNOWNMAGIC : Z := 0x0900.
Definition JERR_RMGR_RIDMISMATCH : Z := 0x0901.
Definition JERR_RMGR_ENQSTATE : Z := 0x0903.
Definition JERR_RMGR_BADRECTYPE : Z := 0x0904.
Definition JERR_DTOK_ILLEGALSTATE : Z := 0x0a00.
Definition JERR_MAP_DUPLICATE : Z := 0x0b00.
Definition JERR_MAP_NOTFOUND : Z := 0x0b01.
Definition JERR_MAP_LOCKED : Z := 0x0b02.
Definition JERR_JINF_CVALIDFAIL : Z := 0x0c00.
Definition JERR_JINF_NOVALUESTR : Z := 0x0c01.
Definition JERR_JINF_BADVALUESTR : Z := 0x0c02.
Definition JERR_JINF_JDATEMPTY : Z := 0x0c03.
Definition JERR_JINF_TOOMANYFILES : Z := 0x0c04.
Definition JERR_JINF_INVALIDFHDR : Z := 0x0c05.
Definition JERR_JINF_STAT : Z := 0x0c06.
Definition JERR_JINF_NOTREGFILE : Z := 0x0c07.
Definition JERR_JINF_BADFILESIZE : Z := 0x0c08.
Definition JERR_JINF_OWIBAD : Z := 0x0c09.
Definition AIO_TIMEOUT : Z := -1.
Definition LOCK_TAKEN : Z := -2.

(** The assignments of [__init], in order. *)
Definition err_table : list (Z * string) :=
  [(JERR__MALLOC, "JERR__MALLOC: Buffer memory allocation failed.");
   (JERR__UNDERFLOW, "JERR__UNDERFLOW: Underflow error");
   (JERR__NINIT, "JERR__NINIT: Operation on uninitialized class.");
   (JERR__AIO, "JERR__AIO: AIO error.");
   (JERR__FILEIO, "JERR__FILEIO: File read or write failure.");
   (JERR__RTCLOCK, "JERR__RTCLOCK: Reading real-time clock failed.");
   (JERR__PTHREAD, "JERR__PTHREAD: pthread failure.");
   (JERR__TIMEOUT, "JERR__TIMEOUT: Timeout waiting for event.");
   (JERR__UNEXPRESPONSE, "JERR__UNEXPRESPONSE: Unexpected response to call or event.");
   (JERR__RECNFOUND, "JERR__RECNFOUND: Record not found.");
   (JERR__NOTIMPL, "JERR__NOTIMPL: Not implemented");
   (JERR_JCNTL_STOPPED, "JERR_JCNTL_STOPPED: Operation on stopped journal.");
   (JERR_JCNTL_READONLY, "JERR_JCNTL_READONLY: Write operation on read-only journal (during recovery).");
   (JERR_JCNTL_AIOCMPLWAIT, "JERR_JCNTL_AIOCMPLWAIT: Timeout waiting for AIOs to complete.");
   (JERR_JCNTL_UNKNOWNMAGIC, "JERR_JCNTL_UNKNOWNMAGIC: Found record with unknown magic.");
   (JERR_JCNTL_NOTRECOVERED, "JERR_JCNTL_NOTRECOVERED: Operation requires recover() to be run first.");
   (JERR_JCNTL_RECOVERJFULL, "JERR_JCNTL_RECOVERJFULL: Journal data files full, cannot write.");
   (JERR_JCNTL_OWIMISMATCH, "JERR_JCNTL_OWIMISMATCH: Overwrite Indicator (OWI) change found in unexpected location.");
   (JERR_JDIR_NOTDIR, "JERR_JDIR_NOTDIR: Directory name exists but is not a directory.");
   (JERR_JDIR_MKDIR, "JERR_JDIR_MKDIR: Directory creation failed.");
   (JERR_JDIR_OPENDIR, "JERR_JDIR_OPENDIR: Directory open failed.");
   (JERR_JDIR_READDIR, "JERR_JDIR_READDIR: Directory read failed.");
   (JERR_JDIR_CLOSEDIR, "JERR_JDIR_CLOSEDIR: Directory close failed.");
   (JERR_JDIR_RMDIR, "JERR_JDIR_RMDIR: Directory delete failed.");
   (JERR_JDIR_NOSUCHFILE, "JERR_JDIR_NOSUCHFILE: File does not exist.");
   (JERR_JDIR_FMOVE, "JERR_JDIR_FMOVE: File move failed.");
   (JERR_JDIR_STAT, "JERR_JDIR_STAT: File stat failed.");
   (JERR_JDIR_UNLINK, "JERR_JDIR_UNLINK: File delete failed.");
   (JERR_JDIR_BADFTYPE, "JERR_JDIR_BADFTYPE: Bad or unknown file type (stat mode).");
   (JERR_FCNTL_OPENWR, "JERR_FCNTL_OPENWR: Unable to open file for write.");
   (JERR_FCNTL_WRITE, "JERR_FCNTL_WRITE: Unable to write to file.");
   (JERR_FCNTL_CLOSE, "JERR_FCNTL_CLOSE: File close failed.");
   (JERR_FCNTL_FILEOFFSOVFL, "JERR_FCNTL_FILEOFFSOVFL: Attempted increase file offset past file size.");
   (JERR_FCNTL_CMPLOFFSOVFL, "JERR_FCNTL_CMPLOFFSOVFL: Attempted increase completed file offset past submitted offset.");
   (JERR_FCNTL_RDOFFSOVFL, "JERR_FCNTL_RDOFFSOVFL: Attempted increase read offset past write offset.");
   (JERR_LFMGR_BADAEFNUMLIM, "JERR_LFMGR_BADAEFNUMLIM: Auto-expand file number limit lower than initial number of journal files.");
   (JERR_LFMGR_AEFNUMLIMIT, "JERR_LFMGR_AEFNUMLIMIT: Exceeded auto-expand file number limit.");
   (JERR_LFMGR_AEDISABLED, "JERR_LFMGR_AEDISABLED: Attempted to expand with auto-expand disabled.");
   (JERR_RRFC_OPENRD, "JERR_RRFC_OPENRD: Unable to open file for read.");
   (JERR_JREC_BADRECHDR, "JERR_JREC_BADRECHDR: Invalid data record header.");
   (JERR_JREC_BADRECTAIL, "JERR_JREC_BADRECTAIL: Invalid data record tail.");
   (JERR_WMGR_BADPGSTATE, "JERR_WMGR_BADPGSTATE: Page buffer in illegal state for operation.");
   (JERR_WMGR_BADDTOKSTATE, "JERR_WMGR_BADDTOKSTATE: Data token in illegal state for operation.");
   (JERR_WMGR_ENQDISCONT, "JERR_WMGR_ENQDISCONT: Enqueued new dtok when previous enqueue returned partly completed (state ENQ_PART).");
   (JERR_WMGR_DEQDISCONT, "JERR_WMGR_DEQDISCONT: Dequeued new dtok when previous dequeue returned partly completed (state DEQ_PART).");
   (JERR_WMGR_DEQRIDNOTENQ, "JERR_WMGR_DEQRIDNOTENQ: Dequeue rid is not enqueued.");
   (JERR_RMGR_UNKNOWNMAGIC, "JERR_RMGR_UNKNOWNMAGIC: Found record with unknown magic.");
   (JERR_RMGR_RIDMISMATCH, "JERR_RMGR_RIDMISMATCH: RID mismatch between current record and dtok RID");
   (JERR_RMGR_ENQSTATE, "JERR_RMGR_ENQSTATE: Attempted read when data token wstate was not ENQ");
   (JERR_RMGR_BADRECTYPE, "JERR_RMGR_BADRECTYPE: Attempted operation on inappropriate record type");
   (JERR_DTOK_ILLEGALSTATE, "JERR_MTOK_ILLEGALSTATE: Attempted to change to illegal state.");
   (JERR_MAP_DUPLICATE, "JERR_MAP_DUPLICATE: Attempted to insert record into map using duplicate key.");
   (JERR_MAP_NOTFOUND, "JERR_MAP_NOTFOUND: Key not found in map.");
   (JERR_MAP_LOCKED, "JERR_MAP_LOCKED: Record ID locked by a pending transaction.");
   (JERR_JINF_CVALIDFAIL, "JERR_JINF_CVALIDFAIL: Journal compatibility validation failure.");
   (JERR_JINF_NOVALUESTR, "JERR_JINF_NOVALUESTR: No value attribute found in jinf file.");
   (JERR_JINF_BADVALUESTR, "JERR_JINF_BADVALUESTR: Bad format for value attribute in jinf file");
   (JERR_JINF_JDATEMPTY, "JERR_JINF_JDATEMPTY: Journal data files empty.");
   (JERR_JINF_TOOMANYFILES, "JERR_JINF_TOOMANYFILES: Too many journal data files.");
   (JERR_JINF_INVALIDFHDR, "JERR_JINF_INVALIDFHDR: Invalid journal data file header");
   (JERR_JINF_STAT, "JERR_JINF_STAT: Error while trying to stat a journal data file");
   (JERR_JINF_NOTREGFILE, "JERR_JINF_NOTREGFILE: Target journal data file is not a regular file");
   (JERR_JINF_BADFILESIZE, "JERR_JINF_BADFILESIZE: Journal data file is of incorrect or unexpected size");
   (JERR_JINF_OWIBAD, "JERR_JINF_OWIBAD: Journal data files have inconsistent OWI flags; >1 transition found in non-auto-expand or min-size journal")].

(** [_err_map] after the static initialisation: a later assignment to a key
    replaces an earlier one. *)
Definition err_map : gmap Z string :=
  foldl (fun m kv => <[kv.1 := kv.2]> m) ∅ err_table.

Definition err_msg (err_no : Z) : string :=
  match err_map !! err_no with
  | None => "<Unknown error code>"
  | Some s => s
  end.

Lemma foldl_insert_lookup (l : list (Z * string)) (m : gmap Z string) k v :
  NoDup l.*1 ->
  (((k, v) ∈ l \/ ((k ∉ l.*1) /\ m !! k = Some v)) <->
   foldl (fun (m : gmap Z string) kv => <[kv.1 := kv.2]> m) m l !! k = Some v).
Proof.
  revert m. induction l as [|[k' v'] l IH]; intros m Hn; simpl.
  - set_solver.
  - apply NoDup_cons in Hn as [Hk Hn]. rewrite <- IH by done. simpl in *.
    rewrite lookup_insert. case_decide as E; [subst|]; [|set_solver].
    split.
    + intros [H|H]; [|set_solver]. apply elem_of_cons in H as [[= ->]|H]; [auto|].
      left. done.
    + intros [H|[H [= ->]]]; set_solver.
Qed.

(** The codes of the table are pairwise distinct. *)
Lemma err_codes_distinct : NoDup err_table.*1.
Proof. apply (bool_decide_unpack (NoDup err_table.*1)). vm_compute. exact I. Qed.

(** The error codes are pairwise distinct, so that every code of
    the table keeps the message it was given; any other number is answered with
    the text for an unknown code, which no message of the table is. *)
Theorem err_msg_exact (c : Z) :
  (forall m, (c, m) ∈ err_table -> err_msg c = m /\ m <> "<Unknown error code>") /\
  (c ∉ err_table.*1 -> err_msg c = "<Unknown error code>").
Proof.
  pose proof (fun v => foldl_insert_lookup err_table ∅ c v err_codes_distinct) as L.
  unfold err_msg, err_map. split.
  - intros m Hm. assert (E := proj1 (L m) (or_introl Hm)). rewrite E. split; [done|].
    assert (Hall : Forall (fun kv => kv.2 <> "<Unknown error code>") err_table).
    { repeat constructor; discriminate. }
    rewrite Forall_forall in Hall. apply (Hall _ Hm).
  - intros Hc. destruct (foldl _ ∅ err_table !! c) as [v|] eqn:E; [|done].
    destruct (proj2 (L v) eq_refl) as [H|[_ H]]; [|done]. exfalso. apply Hc, list_elem_of_fmap. by exists (c, v).
Qed.

(** A message names its constant before the colon, except one: the text of
    [JERR_DTOK_ILLEGALSTATE] names a constant that does not exist. *)
Lemma dtok_message :
  err_msg JERR_DTOK_ILLEGALSTATE = "JERR_MTOK_ILLEGALSTATE: Attempted to change to illegal state.".
Proof. vm_compute. reflexivity. Qed.

End jerrno.

(** ** jexception *)

Record jexception := mkJexception {
  je_err_code : Z;
  je_additional_info : string;
  je_throwing_class : string;
  je_throwing_fn : string
}.

Module jexception.

Definition is_empty (s : string) : bool := bool_decide (s = "").

(** [format()], which sets the text [what()] returns. *)
Definition what (e : jexception) : string :=
  let ai := negb (is_empty (je_additional_info e)) in
  let tc := negb (is_empty (je_throwing_class e)) in
  let tf := negb (is_empty (je_throwing_fn e)) in
  "jexception 0x" +:+ num_str 16 4 (je_err_code e) +:+ " " +:+
  (if tc then je_throwing_class e +:+ (if tf then "::" else " ") else "") +:+
  (if tf then je_throwing_fn e +:+ "() " else "") +:+
  (if tc || tf then "threw " +:+ jerrno.err_msg (je_err_code e) else "") +:+
  (if ai then " (" +:+ je_additional_info e +:+ ")" else "").

(** [jexception(err_code, throwing_class, throwing_fn)] and with information. *)
Definition thrown (code : Z) (cls fn : string) : jexception := mkJexception code "" cls fn.
Definition thrown_info (code : Z) (info cls fn : string) : jexception := mkJexception code info cls fn.
(** The constructors that leave out the place, the information or the code. *)
Definition unknown : jexception := mkJexception 0 "" "" "".
Definition of_code (code : Z) : jexception := mkJexception code "" "" "".
Definition of_info (info : string) : jexception := mkJexception 0 info "" "".
Definition of_code_info (code : Z) (info : string) : jexception := mkJexception code info "" "".

(** The text of every journal exception starts with a fixed
    prefix followed by its error code, and reading that hexadecimal number back
    gives the code. *)
Theorem what_names_code (e : jexception) :
  0 <= je_err_code e ->
  exists rest, what e = "jexception 0x" +:+ rest /\ strtol 16 rest 0 = je_err_code e.
Proof.
  intros Hc. eexists. split; [reflexivity|].
  match goal with
  | |- strtol 16 (_ +:+ " " +:+ ?t) 0 = _ => change (" " +:+ t) with (String " "%char t)
  end.
  rewrite (strtol_stop 16 (num_str 16 4 (je_err_code e)) " "%char) by done.
  apply strtol_num_str; auto.
Qed.

Lemma what_names_code_witness :
  exists rest, what (thrown jerrno.JERR__NOTIMPL "BdbStoreProvider" "begin") = "jexception 0x" +:+ rest /\
    strtol 16 rest 0 = jerrno.JERR__NOTIMPL.
Proof.
  apply (what_names_code (thrown jerrno.JERR__NOTIMPL "BdbStoreProvider" "begin")). discriminate.
Defined.

End jexception.

(** ** Enumerations *)

Inductive iores : Type :=
| RHM_IORES_SUCCESS | RHM_IORES_PAGE_AIOWAIT | RHM_IORES_FILE_AIOWAIT | RHM_IORES_EMPTY
| RHM_IORES_RCINVALID | RHM_IORES_ENQCAPTHRESH | RHM_IORES_FULL | RHM_IORES_BUSY
| RHM_IORES_TXPENDING | RHM_IORES_NOTIMPL.

Definition iores_str (res : iores) : string :=
  match res with
  | RHM_IORES_SUCCESS => "RHM_IORES_SUCCESS"
  | RHM_IORES_PAGE_AIOWAIT => "RHM_IORES_PAGE_AIOWAIT"
  | RHM_IORES_FILE_AIOWAIT => "RHM_IORES_FILE_AIOWAIT"
  | RHM_IORES_EMPTY => "RHM_IORES_EMPTY"
  | RHM_IORES_RCINVALID => "RHM_IORES_RCINVALID"
  | RHM_IORES_ENQCAPTHRESH => "RHM_IORES_ENQCAPTHRESH"
  | RHM_IORES_FULL => "RHM_IORES_FULL"
  | RHM_IORES_BUSY => "RHM_IORES_BUSY"
  | RHM_IORES_TXPENDING => "RHM_IORES_TXPENDING"
  | RHM_IORES_NOTIMPL => "RHM_IORES_NOTIMPL"
  end.

Inductive log_level : Type :=
| LOG_TRACE | LOG_DEBUG | LOG_INFO | LOG_NOTICE | LOG_WARN | LOG_ERROR | LOG_CRITICAL.

Definition log_level_str (ll : log_level) : string :=
  match ll with
  | LOG_TRACE => "TRACE" | LOG_DEBUG => "DEBUG" | LOG_INFO => "INFO" | LOG_NOTICE => "NOTICE"
  | LOG_WARN => "WARN" | LOG_ERROR => "ERROR" | LOG_CRITICAL => "CRITICAL"
  end.
