(* ===== verification/TimeNs.v ===== *)
(** Model of lib/jrnl/time_ns.hpp: a time as seconds and nanoseconds.

    The fields are signed 64-bit integers; no operation of the struct leaves that
    range on times a clock returns, so they are integers here. Addition and
    subtraction carry once, which is enough exactly when the nanoseconds of both
    operands are below one second. *)
From S2P Require Import Prelude.
From Stdlib Require Import ZArith Lia.

Record time_ns := mkTime { tv_sec : Z; tv_nsec : Z }.

Module time_ns.

Implicit Types t a b : time_ns.

Definition zero : time_ns := mkTime 0 0.
Definition set_zero (_ : time_ns) : time_ns := mkTime 0 0.
(** [now()]: [clock_gettime] gives a time or an error number, which is returned; the time is
    then as it was. *)
Definition now (clock : time_ns + Z) t : Z * time_ns :=
  match clock with inl t' => (0, t') | inr errno => (errno, t) end.
Definition is_zero t : bool := (tv_sec t =? 0) && (tv_nsec t =? 0).

(** [operator+=(const time_ns&)], [operator+=(const long)] *)
Definition add a b : time_ns :=
  let tv_nsec' := tv_nsec a + tv_nsec b in
  let '(s, n) := if 1000000000 <=? tv_nsec' then (tv_sec a + 1, tv_nsec' - 1000000000)
                 else (tv_sec a, tv_nsec') in
  mkTime (s + tv_sec b) n.
Definition add_ns a (ns : Z) : time_ns :=
  let tv_nsec' := tv_nsec a + ns in
  if 1000000000 <=? tv_nsec' then mkTime (tv_sec a + 1) (tv_nsec' - 1000000000)
  else mkTime (tv_sec a) tv_nsec'.

(** [operator-=(const long)], [operator-=(const time_ns&)] *)
Definition sub_ns a (ns : Z) : time_ns :=
  let tv_nsec' := tv_nsec a - ns in
  if tv_nsec' <? 0 then mkTime (tv_sec a - 1) (tv_nsec' + 1000000000)
  else mkTime (tv_sec a) tv_nsec'.
Definition sub a b : time_ns :=
  let tv_nsec' := tv_nsec a - tv_nsec b in
  let '(s, n) := if tv_nsec' <? 0 then (tv_sec a - 1, tv_nsec' + 1000000000)
                 else (tv_sec a, tv_nsec') in
  mkTime (s - tv_sec b) n.

(** [operator+] and [operator-] work on a copy. *)
Definition plus a b : time_ns := let t := mkTime (tv_sec a) (tv_nsec a) in add t b.
Definition minus a b : time_ns := let t := mkTime (tv_sec a) (tv_nsec a) in sub t b.

(** The comparison operators. *)
Definition eqb a b : bool := (tv_sec a =? tv_sec b) && (tv_nsec a =? tv_nsec b).
Definition neb a b : bool := negb (tv_sec a =? tv_sec b) || negb (tv_nsec a =? tv_nsec b).
Definition gtb a b : bool :=
  if tv_sec a =? tv_sec b then tv_nsec b <? tv_nsec a else tv_sec b <? tv_sec a.
Definition geb a b : bool :=
  if tv_sec a =? tv_sec b then tv_nsec b <=? tv_nsec a else tv_sec b <=? tv_sec a.
Definition ltb a b : bool :=
  if tv_sec a =? tv_sec b then tv_nsec a <? tv_nsec b else tv_sec a <? tv_sec b.
Definition leb a b : bool :=
  if tv_sec a =? tv_sec b then tv_nsec a <=? tv_nsec b else tv_sec a <=? tv_sec b.

(** The nanosecond part of a time is below one second. *)
Definition normal t : Prop := 0 <= tv_nsec t < 1000000000.

(** The specification: a time is a number of nanoseconds. *)
Definition total t : Z := tv_sec t * 1000000000 + tv_nsec t.

Ltac time_cases :=
  repeat match goal with
  | |- context [?x <=? ?y] => destruct (Z.leb_spec x y)
  | |- context [?x <? ?y] => destruct (Z.ltb_spec x y)
  | |- context [?x =? ?y] => destruct (Z.eqb_spec x y)
  end; simpl.

(** On normalised times the arithmetic of [time_ns] is the
    arithmetic of nanosecond counts and stays normalised, with an offset of less
    than one second where one is given as a [long], and the six comparisons are
    the order of the counts. *)
Theorem time_arith a b ns :
  normal a -> normal b -> 0 <= ns < 1000000000 ->
  (normal (add a b) /\ total (add a b) = total a + total b) /\
  (normal (sub a b) /\ total (sub a b) = total a - total b) /\
  (normal (add_ns a ns) /\ total (add_ns a ns) = total a + ns) /\
  (normal (sub_ns a ns) /\ total (sub_ns a ns) = total a - ns) /\
  (ltb a b = (total a <? total b) /\ leb a b = (total a <=? total b)) /\
  (gtb a b = (total b <? total a) /\ geb a b = (total b <=? total a)) /\
  (eqb a b = (total a =? total b) /\ neb a b = negb (eqb a b)).
Proof.
  unfold normal, total, add, sub, add_ns, sub_ns, ltb, leb, gtb, geb, eqb, neb.
  intros Ha Hb Hn. split_and!; time_cases; lia || done.
Qed.

Lemma time_arith_witness :
  total (add (mkTime 1 999999999) (mkTime 2 2)) = total (mkTime 1 999999999) + total (mkTime 2 2).
Proof.
  destruct (time_arith (mkTime 1 999999999) (mkTime 2 2) 5) as [[_ H] _];
    [unfold normal; simpl; lia..|]. exact H.
Defined.

Lemma total_inj a b : normal a -> normal b -> total a = total b -> a = b.
Proof. destruct a as [s n], b as [s' n']. unfold normal, total. simpl. intros. f_equal; lia. Qed.

(** On normalised times subtraction undoes addition field by field, and addition subtraction. *)
Theorem plus_minus a b :
  normal a -> normal b -> minus (plus a b) b = a /\ plus (minus a b) b = a.
Proof.
  destruct a as [s n]. unfold plus, minus. cbn [tv_sec tv_nsec]. intros Ha Hb.
  destruct (time_arith (mkTime s n) b 0) as ((N1 & T1) & (N2 & T2) & _); [done..|lia|].
  destruct (add (mkTime s n) b) as [s1 n1], (sub (mkTime s n) b) as [s2 n2].
  destruct (time_arith (mkTime s1 n1) b 0) as (_ & (N3 & T3) & _); [done..|lia|].
  destruct (time_arith (mkTime s2 n2) b 0) as ((N4 & T4) & _); [done..|lia|].
  cbn [tv_sec tv_nsec]. split; apply total_inj; try done; lia.
Qed.

(** One carry is not enough for a longer offset: the result is not normalised. *)
Lemma add_ns_two_seconds : ~ normal (add_ns (mkTime 0 0) 2000000000).
Proof. unfold normal, add_ns. simpl. lia. Qed.

End time_ns.
