(* ===== verification/TimeStr.v ===== *)
(** Model of lib/jrnl/time_ns.cpp: [time_ns::str], which prints a time as seconds with a number
    of decimals. The time is put in a [double] first: the conversions, the division and the
    addition round to 53 bits, to nearest and ties to even ([SpecFloat] of the standard
    library); the stream then prints the decimal that is nearest to the [double], ties to
    even. *)
From S2P Require Import Prelude Format TimeNs.
From Stdlib Require Import ZArith Lia SpecFloat.

(** ** The double *)

Definition double_of_long (n : Z) : spec_float := binary_normalize 53 1024 n 0 false.

(** [tv_sec + (tv_nsec/1e9)] *)
Definition seconds (t : time_ns) : spec_float :=
  SFadd 53 1024 (double_of_long (tv_sec t))
    (SFdiv 53 1024 (double_of_long (tv_nsec t)) (double_of_long 1000000000)).

(** ** Printing with a fixed number of decimals *)

(** The integer nearest to [a / b], the even one of two. *)
Definition round_even (a b : Z) : Z :=
  let q := a / b in
  let r := a mod b in
  if 2 * r <? b then q else if b <? 2 * r then q + 1 else if Z.even q then q else q + 1.

(** The number of units of the last decimal in [m * 2^e]. *)
Definition fixed_units (prec : nat) (m : positive) (e : Z) : Z :=
  round_even (Z.pos m * 10 ^ Z.of_nat prec * 2 ^ Z.max 0 e) (2 ^ Z.max 0 (- e)).

Definition fixed_digits (prec : nat) (n : Z) : string :=
  let d := 10 ^ Z.of_nat prec in
  match prec with
  | O => num_str 10 1 n
  | _ => num_str 10 1 (n / d) +:+ "." +:+ num_str 10 prec (n mod d)
  end.

Definition sign_str (neg : bool) : string := if neg then "-" else "".

(** [operator<<] on a stream with [ios::fixed]; a negative precision counts as 6. *)
Definition put_fixed (precision : Z) (x : spec_float) : string :=
  let prec := Z.to_nat (if precision <? 0 then 6 else precision) in
  match x with
  | S754_zero s => sign_str s +:+ fixed_digits prec 0
  | S754_infinity s => sign_str s +:+ "inf"
  | S754_nan => "nan"
  | S754_finite s m e => sign_str s +:+ fixed_digits prec (fixed_units prec m e)
  end.

Definition str (t : time_ns) (precision : Z) : string := put_fixed precision (seconds t).

(** ** What is printed *)

Lemma round_even_nearest a b : 0 < b -> 2 * Z.abs (round_even a b * b - a) <= b.
Proof.
  intros Hb. unfold round_even. pose proof (Z.div_mod a b ltac:(lia)) as Hd. pose proof (Z.mod_pos_bound a b Hb).
  set (q := a / b) in *. set (r := a mod b) in *.
  destruct (Z.ltb_spec (2 * r) b); [|destruct (Z.ltb_spec b (2 * r)); [|destruct (Z.even q)]]; nia.
Qed.

Lemma round_even_exact a b : 0 < b -> round_even (a * b) b = a.
Proof.
  intros Hb. unfold round_even. rewrite Z.div_mul, Z.mod_mul by lia. by rewrite (proj2 (Z.ltb_lt (2 * 0) b)) by lia.
Qed.

(** The printed number of units is nearest to the value of the [double]: with [x = m * 2^e] and
    [n] units of the last decimal, [n / 10^prec] differs from [x] by at most half a unit. *)
Theorem fixed_nearest prec m e :
  let n := fixed_units prec m e in
  2 * Z.abs (n * 2 ^ Z.max 0 (- e) - Z.pos m * 10 ^ Z.of_nat prec * 2 ^ Z.max 0 e) <= 2 ^ Z.max 0 (- e).
Proof. apply round_even_nearest. apply Z.pow_pos_nonneg; lia. Qed.

(** The decimals that are printed are those of the units: the part before the point and the part
    behind it read back as quotient and remainder, and the latter has [prec] digits. *)
Theorem fixed_digits_roundtrip prec n :
  0 <= n -> prec <> 0%nat ->
  exists a b, fixed_digits prec n = a +:+ "." +:+ b /\
    strtol 10 a 0 * 10 ^ Z.of_nat prec + strtol 10 b 0 = n /\ String.length b = prec.
Proof.
  intros Hn Hp. assert (Hd : 0 < 10 ^ Z.of_nat prec) by (apply Z.pow_pos_nonneg; lia).
  exists (num_str 10 1 (n / 10 ^ Z.of_nat prec)), (num_str 10 prec (n mod 10 ^ Z.of_nat prec)).
  split; [unfold fixed_digits; by destruct prec|]. pose proof (Z.mod_pos_bound n _ Hd).
  rewrite !strtol_num_str by (auto; try lia; apply Z.div_pos; lia). split; [pose proof (Z.div_mod n (10 ^ Z.of_nat prec)); lia|].
  apply num_str_length; lia.
Qed.

(** ** Examples *)

Example str_examples :
  str (mkTime 1 500000000) 6 = "1.500000" /\ str (mkTime 0 0) 3 = "0.000" /\ str (mkTime 12 999999999) 6 = "13.000000" /\
  str (mkTime 5 0) (-1) = "5.000000" /\ str (mkTime 7 250000000) 0 = "7" /\ str (mkTime (-1) 250000000) 2 = "-0.75".
Proof. vm_compute. split_and!; reflexivity. Qed.

(** The double has no room for the nanoseconds of a time of day: two times print alike. *)
Example str_loses_nanoseconds :
  str (mkTime 1300000000 1) 9 = str (mkTime 1300000000 100) 9 /\
  str (mkTime 1300000000 1) 9 = "1300000000.000000000" /\ str (mkTime 1 1) 9 = "1.000000001".
Proof. vm_compute. split_and!; reflexivity. Qed.
