(* ===== verification/Bdb.v ===== *)
(** The interface of Berkeley DB that the store uses.

    Berkeley DB is not part of the repository: its B-tree databases are the class
    [BTree], whose laws are the documented behaviour of [Db::put] with
    [DB_NOOVERWRITE], [Db::get], [Db::exists], [Db::del] and of a cursor that
    steps with [DB_NEXT]. A database is ordered by a comparison function, and the
    manual only promises anything when that function orders the keys in use; the
    laws are therefore guarded by [sane]. The instance [gmap_btree] shows that the
    laws can hold, and is what the examples run on. *)
From S2P Require Import Prelude Jerrno.
From Stdlib Require Import ZArith Lia.

(** The exceptions that reach the store's callers; [Undefined] is undefined
    behaviour of the C++ code (a division by zero, a null pointer, a read outside
    a block), which no handler catches. *)
Inductive exn : Type :=
| DbException (err_no : Z)
| StoreException (text : string)
| JException (e : jexception)
| Undefined (why : string).

Abbreviation result := (outcome exn).

(** The status codes that Berkeley DB returns instead of throwing. *)
Inductive db_status : Type := DB_OK | DB_KEYEXIST | DB_NOTFOUND.
#[export] Instance db_status_eq_dec : EqDecision db_status.
Proof. solve_decision. Defined.

(** [cmp] is a strict total order on the keys that satisfy [P], and tells them
    apart. *)
Record sane (cmp : Z -> Z -> Z) (P : Z -> Prop) : Prop := {
  sane_eq : forall a b, P a -> P b -> (cmp a b = 0 <-> a = b);
  sane_anti : forall a b, P a -> P b -> (cmp a b < 0 <-> 0 < cmp b a);
  sane_trans : forall a b c, P a -> P b -> P c -> cmp a b < 0 -> cmp b c < 0 -> cmp a c < 0
}.

Lemma sane_sub cmp (P Q : Z -> Prop) : (forall k, Q k -> P k) -> sane cmp P -> sane cmp Q.
Proof. intros HQ [E A T]. split; eauto. Qed.

Class BTree (cmp : Z -> Z -> Z) := {
  Db : Type;
  db_created : Db;
  db_put : Db -> Z -> list byte -> result (db_status * Db);
  db_get : Db -> Z -> result (option (list byte));
  db_del : Db -> Z -> result (db_status * Db);
  db_scan : Db -> list (Z * list byte);
  (** what is stored, as the laws describe it *)
  db_map : Db -> gmap Z (list byte);
  db_keys := fun (d : Db) (k x : Z) => x = k \/ is_Some (db_map d !! x);
  db_created_map : db_map db_created = ∅;
  db_put_law : forall d k v st d', sane cmp (db_keys d k) -> db_put d k v = Ret (st, d') ->
    match db_map d !! k with
    | Some _ => st = DB_KEYEXIST /\ db_map d' = db_map d
    | None => st = DB_OK /\ db_map d' = <[k := v]> (db_map d)
    end;
  db_get_law : forall d k r, sane cmp (db_keys d k) -> db_get d k = Ret r -> r = db_map d !! k;
  db_del_law : forall d k st d', sane cmp (db_keys d k) -> db_del d k = Ret (st, d') ->
    match db_map d !! k with
    | Some _ => st = DB_OK /\ db_map d' = delete k (db_map d)
    | None => st = DB_NOTFOUND /\ db_map d' = db_map d
    end;
  db_scan_law : forall d k, sane cmp (db_keys d k) -> db_scan d ≡ₚ map_to_list (db_map d)
}.

#[export, program] Instance gmap_btree (cmp : Z -> Z -> Z) : BTree cmp | 100 := {
  Db := gmap Z (list byte);
  db_created := ∅;
  db_put := fun d k v => match d !! k with
                         | Some _ => Ret (DB_KEYEXIST, d)
                         | None => Ret (DB_OK, <[k := v]> d)
                         end;
  db_get := fun d k => Ret (d !! k);
  db_del := fun d k => match d !! k with
                       | Some _ => Ret (DB_OK, delete k d)
                       | None => Ret (DB_NOTFOUND, d)
                       end;
  db_scan := fun d => map_to_list d;
  db_map := fun d => d
}.
Next Obligation. done. Qed.
Next Obligation. intros cmp d k v st d' _. cbn beta. destruct (d !! k); by intros [= <- <-]. Qed.
Next Obligation. intros cmp d k r _. cbn beta. by intros [= <-]. Qed.
Next Obligation. intros cmp d k st d' _. cbn beta. destruct (d !! k); by intros [= <- <-]. Qed.
Next Obligation. done. Qed.

(** ** The default comparison

    Without a comparison function keys are compared as strings of unsigned bytes,
    here the eight bytes of an id as the host stores it. *)

Fixpoint lex (a b : list byte) : Z :=
  match a, b with
  | [], [] => 0
  | [], _ :: _ => -1
  | _ :: _, [] => 1
  | x :: a', y :: b' =>
      if Z_of_byte x <? Z_of_byte y then -1
      else if Z_of_byte y <? Z_of_byte x then 1 else lex a' b'
  end.

Definition key_compare `{HostEndian} (a b : Z) : Z := lex (enc64 a) (enc64 b).

Lemma lex_facts a b :
  (lex a b = 0 -> a = b) /\ lex b a = - lex a b /\ (forall c, lex a b < 0 -> lex b c < 0 -> lex a c < 0).
Proof.
  revert b. induction a as [|x a IH]; intros [|y b]; cbn [lex]; try (split_and!; [done|done|]).
  - lia.
  - intros [|z c]; cbn [lex]; lia.
  - lia.
  - destruct (IH b) as (I1 & I2 & I3). split_and!.
    + destruct (Z.ltb_spec (Z_of_byte x) (Z_of_byte y)); [done|].
      destruct (Z.ltb_spec (Z_of_byte y) (Z_of_byte x)); [done|]. intros E. f_equal; [|by apply I1].
      apply Z_of_byte_inj. lia.
    + destruct (Z.ltb_spec (Z_of_byte x) (Z_of_byte y)), (Z.ltb_spec (Z_of_byte y) (Z_of_byte x)); lia.
    + intros [|z c]; cbn [lex]; [repeat case_match; lia|].
      destruct (Z.ltb_spec (Z_of_byte x) (Z_of_byte y)), (Z.ltb_spec (Z_of_byte y) (Z_of_byte x)),
        (Z.ltb_spec (Z_of_byte y) (Z_of_byte z)), (Z.ltb_spec (Z_of_byte z) (Z_of_byte y)),
        (Z.ltb_spec (Z_of_byte x) (Z_of_byte z)), (Z.ltb_spec (Z_of_byte z) (Z_of_byte x));
        try lia; intros; by eapply I3.
Qed.

(** It orders all the ids. *)
Lemma key_compare_sane `{HostEndian} : sane key_compare is_u64.
Proof.
  unfold key_compare. split.
  - intros a b Ha Hb. split; [|intros ->; destruct (lex_facts (enc64 b) (enc64 b)) as (_ & E & _); lia].
    intros E. apply lex_facts in E. by rewrite <- (dec64_enc64 a), E, dec64_enc64.
  - intros a b Ha Hb. destruct (lex_facts (enc64 a) (enc64 b)) as (_ & E & _). lia.
  - intros a b c _ _ _ H1 H2. by eapply lex_facts.
Qed.

(** ** Databases with sorted duplicates

    [dup_put] is [Db::put] with [DB_NODUPDATA], [dup_del] is [Db::del], which
    deletes all the duplicates of a key, [dup_scan] and [dup_dups] are what a cursor
    gives with [DB_NEXT], and with [DB_SET] and [DB_NEXT_DUP], and [dup_cdel] is
    [Dbc::del] at a pair. Deleting through a cursor does not disturb its walk. *)
Class DupTree (cmp : Z -> Z -> Z) := {
  DupDb : Type;
  dup_created : DupDb;
  dup_put : DupDb -> Z -> list byte -> result (db_status * DupDb);
  dup_del : DupDb -> Z -> result (db_status * DupDb);
  dup_scan : DupDb -> list (Z * list byte);
  dup_dups : DupDb -> Z -> list (list byte);
  dup_cdel : DupDb -> Z -> list byte -> result DupDb;
  dup_set : DupDb -> gset (Z * list byte);
  dup_keys := fun (d : DupDb) (k x : Z) => x = k \/ exists v, (x, v) ∈ dup_set d;
  dup_created_set : dup_set dup_created = ∅;
  dup_put_law : forall d k v st d', sane cmp (dup_keys d k) -> dup_put d k v = Ret (st, d') ->
    if bool_decide ((k, v) ∈ dup_set d) then st = DB_KEYEXIST /\ dup_set d' = dup_set d
    else st = DB_OK /\ dup_set d' = {[(k, v)]} ∪ dup_set d;
  dup_del_law : forall d k st d', sane cmp (dup_keys d k) -> dup_del d k = Ret (st, d') ->
    dup_set d' = filter (fun kv => kv.1 <> k) (dup_set d);
  dup_scan_law : forall d k, sane cmp (dup_keys d k) -> dup_scan d ≡ₚ elements (dup_set d);
  dup_dups_law : forall d k, sane cmp (dup_keys d k) ->
    NoDup (dup_dups d k) /\ forall v, v ∈ dup_dups d k <-> (k, v) ∈ dup_set d;
  dup_cdel_law : forall d k v d', sane cmp (dup_keys d k) -> dup_cdel d k v = Ret d' ->
    dup_set d' = dup_set d ∖ {[(k, v)]}
}.

#[export, program] Instance gset_dup (cmp : Z -> Z -> Z) : DupTree cmp | 100 := {
  DupDb := gset (Z * list byte);
  dup_created := ∅;
  dup_put := fun d k v => if bool_decide ((k, v) ∈ d) then Ret (DB_KEYEXIST, d) else Ret (DB_OK, {[(k, v)]} ∪ d);
  dup_del := fun d k => Ret (DB_OK, filter (fun kv => kv.1 <> k) d);
  dup_scan := fun d => elements d;
  dup_dups := fun d k => (elements (filter (fun kv => kv.1 = k) d)).*2;
  dup_cdel := fun d k v => Ret (d ∖ {[(k, v)]});
  dup_set := fun d => d
}.
Next Obligation. done. Qed.
Next Obligation. intros cmp d k v st d' _. cbn beta. case_bool_decide; by intros [= <- <-]. Qed.
Next Obligation. intros cmp d k st d' _. cbn beta. by intros [= <- <-]. Qed.
Next Obligation. done. Qed.
Next Obligation.
  intros cmp d k _. cbn beta. split.
  - apply NoDup_fmap_2_strong; [|apply NoDup_elements]. intros [k1 v1] [k2 v2].
    rewrite !elem_of_elements, !elem_of_filter. simpl. intros [-> _] [-> _] ->. done.
  - intros v. rewrite list_elem_of_fmap. split.
    + intros ([k' v'] & -> & Hin). rewrite elem_of_elements, elem_of_filter in Hin. by destruct Hin as [<- ?].
    + intros Hin. exists (k, v). split; [done|]. by rewrite elem_of_elements, elem_of_filter.
Qed.
Next Obligation. intros cmp d k v d' _. cbn beta. by intros [= <-]. Qed.
