(* ===== verification/TxnCtxt.v ===== *)
(** Model of lib/TxnCtxt.cpp: the transaction context that wraps a Berkeley DB
    transaction and the global serialiser mutex, and the
    [begin; try { ...; commit } catch (...) { abort; throw }] pattern in which the
    store uses it.

    The environment records the calls made on transaction handles; what Berkeley
    DB answers to [txn_begin] and [commit] is an argument. Berkeley DB documents
    that a handle may not be used again after [DbTxn::commit] or [DbTxn::abort],
    whatever they return. *)
From S2P Require Import Prelude IdSequence Jerrno Bdb.
From Stdlib Require Import ZArith Lia.

Inductive txn_call : Type := TBegin (h : Z) | TCommit (h : Z) | TAbort (h : Z).

Record DbEnv := mkEnv {
  env_next : Z;                  (* the next handle *)
  env_calls : list txn_call;     (* the calls made so far, oldest first *)
  env_serialiser : bool          (* the global mutex is held *)
}.

Inductive begin_answer : Type := BeginOk | BeginErr (code : Z) | BeginThrow (err_no : Z).

(** The members that the code in use touches: [txn] and [globalHolder]; and those
    of the logged transactions: [loggedtx] (set or not), [tid]. *)
Record TxnCtxt := mkTxn {
  txn : option Z;
  globalHolder : bool;
  loggedtx : bool;
  tid : list byte
}.

Module TxnCtxt.

Implicit Types (t : TxnCtxt) (e : DbEnv).

Definition call (c : txn_call) e : DbEnv :=
  mkEnv (env_next e) (env_calls e ++ [c]) (env_serialiser e).
Definition set_serialiser (b : bool) e : DbEnv := mkEnv (env_next e) (env_calls e) b.

(** The constructor from a sequence pointer: a logged transaction takes a number for its binary
    identifier of 8 + 16 bytes. *)
Definition create `{HostEndian} (_loggedtx : bool) (uuidSeq : IdSequence.t) (uuid : list byte) :
    TxnCtxt * IdSequence.t :=
  if _loggedtx then
    let '(c, seq) := IdSequence.next uuidSeq in
    (mkTxn None false true (enc64 c ++ take 16 uuid), seq)
  else (mkTxn None false false [], uuidSeq).

(** [TxnCtxt()], as the store declares its local variables. *)
Definition local : TxnCtxt := mkTxn None false false [].

Definition begin (ans : begin_answer) (sync : bool) t e : result TxnCtxt * DbEnv :=
  match ans with
  | BeginThrow n => (Throw (DbException n), e)
  | BeginErr code => (Throw (StoreException "Error: Env::txn_begin() returned error code: "), e)
  | BeginOk =>
      let h := env_next e in
      let e := mkEnv (h + 1) (env_calls e ++ [TBegin h]) (env_serialiser e) in
      if sync then (Ret (mkTxn (Some h) true (loggedtx t) (tid t)), set_serialiser true e)
      else (Ret (mkTxn (Some h) (globalHolder t) (loggedtx t) (tid t)), e)
  end.

(** Dropping [globalHolder] releases the mutex. *)
Definition release t e : DbEnv := if globalHolder t then set_serialiser false e else e.

(** [commit()]: when [DbTxn::commit] throws, the members keep their values. *)
Definition commit (ans : option Z) t e : result TxnCtxt * TxnCtxt * DbEnv :=
  match txn t with
  | None => (Ret t, t, e)
  | Some h =>
      let e := call (TCommit h) e in
      match ans with
      | Some n => (Throw (DbException n), t, e)
      | None => let t' := mkTxn None false (loggedtx t) (tid t) in (Ret t', t', release t e)
      end
  end.

Definition abort t e : TxnCtxt * DbEnv :=
  match txn t with
  | None => (t, e)
  | Some h => (mkTxn None false (loggedtx t) (tid t), release t (call (TAbort h) e))
  end.

(** [~TxnCtxt()] *)
Definition destroy t e : DbEnv := (abort t e).2.

(** The pattern around a body that returns or throws. *)
Definition with_txn {A} (ansb : begin_answer) (ansc : option Z) (sync : bool)
    (body : result A) e : result A * DbEnv :=
  let t := local in
  match begin ansb sync t e with
  | (Throw x, e) => (Throw x, destroy t e)
  | (Ret t, e) =>
      match body with
      | Ret a =>
          match commit ansc t e with
          | (Ret _, t, e) => (Ret a, destroy t e)
          | (Throw x, t, e) => let '(t, e) := abort t e in (Throw x, destroy t e)
          end
      | Throw x => let '(t, e) := abort t e in (Throw x, destroy t e)
      end
  end.

(** The uses of a handle after it was finished by a commit or an abort. *)
Fixpoint uses_after_finish (finished : list Z) (calls : list txn_call) : list Z :=
  match calls with
  | [] => []
  | TBegin h :: cs => uses_after_finish finished cs
  | (TCommit h | TAbort h) :: cs =>
      (if decide (h ∈ finished) then [h] else []) ++ uses_after_finish (h :: finished) cs
  end.

(** As long as [DbTxn::commit] does not throw, every run of the
    pattern finishes the transaction it began exactly once, by a commit when the
    body returned and by an abort when it threw, releases the serialiser, and
    returns what the body did; when [txn_begin] fails nothing is begun. *)
Theorem txn_balanced {A} ansb sync (body : result A) e :
  env_serialiser e = false ->
  let h := env_next e in
  match with_txn ansb None sync body e with
  | (r, e') =>
      env_serialiser e' = false /\
      match ansb, body with
      | BeginOk, Ret a => r = Ret a /\ env_calls e' = env_calls e ++ [TBegin h; TCommit h]
      | BeginOk, Throw x => r = Throw x /\ env_calls e' = env_calls e ++ [TBegin h; TAbort h]
      | _, _ => (exists x, r = Throw x) /\ env_calls e' = env_calls e
      end
  end.
Proof.
  intros He. destruct ansb, body, sync; unfold with_txn; simpl;
    rewrite ?He, <- ?app_assoc; eauto.
Qed.

Lemma txn_balanced_witness :
  match with_txn BeginOk None true (Ret 7) (mkEnv 4 [] false) with
  | (r, e') => env_serialiser e' = false /\ r = Ret 7 /\ env_calls e' = [TBegin 4; TCommit 4]
  end.
Proof. apply (txn_balanced BeginOk true (Ret 7) (mkEnv 4 [] false)). reflexivity. Defined.

(** When [DbTxn::commit] throws, the context still
    holds the handle, and the [catch] block aborts it: the handle is used after it
    was finished. *)
Theorem failed_commit_reuses_handle {A} n sync (a : A) e :
  let '(r, e') := with_txn BeginOk (Some n) sync (Ret a) e in
  r = Throw (DbException n) /\
  env_calls e' = env_calls e ++ [TBegin (env_next e); TCommit (env_next e); TAbort (env_next e)] /\
  uses_after_finish [] [TBegin (env_next e); TCommit (env_next e); TAbort (env_next e)] = [env_next e].
Proof.
  destruct sync; unfold with_txn; simpl;
    rewrite decide_True by (by apply list_elem_of_singleton); rewrite <- ?app_assoc; done.
Qed.

(** *** Logged transactions

    No caller creates one; finishing it would call [txn_commit] or [txn_abort] of
    a journal, which throw [JERR__NOTIMPL]. *)

Definition journal_txn (commit : bool) : result unit :=
  Throw (JException (jexception.thrown jerrno.JERR__NOTIMPL "BdbMessageStoreImpl"
                       (if commit then "txn_commit" else "txn_abort"))).

(** [commitTxn(jc,commit)]; [jc] tells whether the pointer is set. *)
Definition commitTxn t (jc commit : bool) : result unit :=
  if jc && loggedtx t then
    match journal_txn commit with
    | Throw (JException x) => Throw (StoreException ("Error commit" +:+ jexception.what x))
    | r => r
    end
  else Ret tt.

(** [completeTxn(commit)] over the impacted queues and the prepared-xid journal. *)
Definition completeTxn t (impactedQueues : list bool) (preparedXidStorePtr commit : bool) : result unit :=
  let! _ := foldl (fun r jc => let! _ := r in commitTxn t jc commit) (Ret tt) impactedQueues in
  commitTxn t preparedXidStorePtr commit.

Lemma completeTxn_local qs p c : completeTxn local qs p c = Ret tt.
Proof.
  unfold completeTxn.
  assert (foldl (fun r jc => let! _ := r in commitTxn local jc c) (Ret tt) qs = Ret tt) as ->.
  { induction qs as [|jc qs IH]; [done|]. simpl. unfold commitTxn at 2. simpl.
    by rewrite andb_false_r. }
  simpl. unfold commitTxn. simpl. by rewrite andb_false_r.
Qed.

End TxnCtxt.
