(* ===== verification/Framing.v ===== *)
(** The wire encoding the store relies on: [qpid::framing::Buffer] and the encode
    methods of a broker message are not part of the repository, so they are the
    class [Framing] with the documented behaviour of the put and get methods; and
    the layout of a stored message, [msgEncode] of lib/BdbStoreProvider.cpp. *)
From S2P Require Import Prelude Bdb.
From Stdlib Require Import ZArith Lia.

(** Field tables are opaque: [put(FieldTable)] and [get(FieldTable)] invert each
    other. *)
Class Framing := {
  FieldTable : Type;
  put_long : Z -> list byte;
  get_long : list byte -> Z;
  put_longlong : Z -> list byte;
  get_longlong : list byte -> Z;
  put_shortstr : string -> list byte;
  get_shortstr : list byte -> string * list byte;
  put_table : FieldTable -> list byte;
  get_table : list byte -> FieldTable;
  put_long_length : forall z, length (put_long z) = 4%nat;
  get_put_long : forall z rest, 0 <= z < 2 ^ 32 -> get_long (put_long z ++ rest) = z;
  put_longlong_length : forall z, length (put_longlong z) = 8%nat;
  get_put_longlong : forall z rest, is_u64 z -> get_longlong (put_longlong z ++ rest) = z;
  get_put_shortstr : forall s rest, (String.length s < 256)%nat ->
    get_shortstr (put_shortstr s ++ rest) = (s, rest);
  put_shortstr_length : forall s, (String.length s < 256)%nat ->
    length (put_shortstr s) = (1 + String.length s)%nat;
  get_put_table : forall t rest, get_table (put_table t ++ rest) = t
}.

(** What the store sees of a broker message: the bytes its encode methods
    produce and its delivery mode. [encodedHeaderSize] and [encodedSize] are the
    lengths of the header and of both parts. *)
Record Message := mkMsg { m_header : list byte; m_content : list byte; m_persistent : bool }.

Definition encodedHeaderSize (m : Message) : Z := u32 (Z.of_nat (length (m_header m))).
Definition encodedSize (m : Message) : Z := u32 (Z.of_nat (length (m_header m) + length (m_content m))).

Section encode.
Context `{Framing}.

(** [msgEncode]: the transient flag, the header size, the header and the content,
    written over a zeroed vector of the size that is returned. *)
Definition msgEncode (message : Message) : list byte * Z :=
  let headerSize := encodedHeaderSize message in
  let size := u64 (encodedSize message + 4 + 1) in
  let buff := memset0 (Z.to_nat size) in
  let buff := memcpy buff 0 [if m_persistent message then x00 else x01] in
  let buff := memcpy buff 1 (put_long headerSize) in
  (memcpy buff 5 (m_header message ++ m_content message), size).

(** Messages whose encoded size fits the 32-bit size fields. *)
Definition msg_ok (m : Message) : Prop :=
  Z.of_nat (length (m_header m) + length (m_content m)) < 2 ^ 31.

Lemma encodedSize_ok m :
  msg_ok m -> encodedSize m = Z.of_nat (length (m_header m) + length (m_content m)).
Proof. unfold msg_ok, encodedSize, u32. intros Hm. apply Z.mod_small. lia. Qed.

Lemma encodedHeaderSize_ok m : msg_ok m -> encodedHeaderSize m = Z.of_nat (length (m_header m)).
Proof. unfold msg_ok, encodedHeaderSize, u32. intros Hm. apply Z.mod_small. lia. Qed.

Lemma msgEncode_eq m :
  msg_ok m ->
  msgEncode m =
  ([if m_persistent m then x00 else x01] ++ put_long (Z.of_nat (length (m_header m))) ++
   m_header m ++ m_content m,
   Z.of_nat (5 + length (m_header m) + length (m_content m))).
Proof.
  intros Hm. unfold msgEncode. rewrite encodedHeaderSize_ok, encodedSize_ok by done.
  set (hc := m_header m ++ m_content m).
  assert (Lh : length hc = (length (m_header m) + length (m_content m))%nat) by apply length_app.
  unfold msg_ok in Hm.
  assert (Hs : u64 (Z.of_nat (length (m_header m) + length (m_content m)) + 4 + 1) =
               Z.of_nat (1 + (4 + length hc))).
  { rewrite Lh. rewrite u64_small; unfold is_u64; lia. }
  rewrite Hs, Nat2Z.id. set (fl := [if m_persistent m then x00 else x01]).
  set (pl := put_long (Z.of_nat (length (m_header m)))).
  assert (Lp : length pl = 4%nat) by apply put_long_length.
  assert (memcpy (memset0 (1 + (4 + length hc))) 0 fl = fl ++ memset0 (4 + length hc)) as ->
    by exact (memcpy_next [] fl (4 + length hc) (1 + (4 + length hc)) eq_refl).
  assert (memcpy (fl ++ memset0 (4 + length hc)) 1 pl = fl ++ pl ++ memset0 (length hc)) as ->
    by (apply (memcpy_next fl pl); lia).
  assert (memcpy (fl ++ pl ++ memset0 (length hc)) 5 hc = (fl ++ pl) ++ hc ++ memset0 0) as ->.
  { rewrite app_assoc. rewrite <- (memcpy_next (fl ++ pl) hc 0 (length hc)) by lia.
    by rewrite length_app, Lp. }
  f_equal; [|lia]. rewrite <- app_assoc. unfold memset0. simpl replicate. by rewrite app_nil_r.
Qed.

(** The fields of a stored message, read back. *)
Lemma stored_fields m :
  msg_ok m ->
  get_long (drop 1 (msgEncode m).1) = Z.of_nat (length (m_header m)) /\
  take (length (m_header m)) (drop 5 (msgEncode m).1) = m_header m /\
  drop (5 + length (m_header m)) (msgEncode m).1 = m_content m /\
  length (msgEncode m).1 = (5 + length (m_header m) + length (m_content m))%nat.
Proof.
  intros Hm. rewrite msgEncode_eq by done. cbn [fst]. set (f := [if m_persistent m then x00 else x01]).
  set (pl := put_long (Z.of_nat (length (m_header m)))).
  assert (Lp : length (f ++ pl) = 5%nat) by by rewrite length_app; unfold pl; rewrite put_long_length.
  assert (E5 : drop 5 (f ++ pl ++ m_header m ++ m_content m) = m_header m ++ m_content m).
  { rewrite app_assoc, <- Lp. apply drop_app_length. }
  split_and!.
  - change (drop 1 (f ++ pl ++ m_header m ++ m_content m)) with (pl ++ m_header m ++ m_content m).
    unfold pl. apply get_put_long. unfold msg_ok in Hm. lia.
  - rewrite E5. apply take_app_length.
  - rewrite <- drop_drop, E5. apply drop_app_length.
  - rewrite app_assoc, !length_app in *. lia.
Qed.

End encode.

(** A concrete encoding in network byte order, with empty field tables: the laws
    of [Framing] can hold. *)
Definition be_bytes (n : nat) (z : Z) : list byte := reverse (le_bytes n z).
Definition be_value (bs : list byte) : Z := le_value (reverse bs).

Lemma be_value_bytes n z rest : 0 <= z < 256 ^ Z.of_nat n ->
  be_value (take n (be_bytes n z ++ rest)) = z.
Proof.
  intros Hz. unfold be_value, be_bytes.
  rewrite take_app_length' by by rewrite length_reverse, le_bytes_length.
  rewrite reverse_involutive, le_value_bytes. by apply Z.mod_small.
Qed.

Lemma list_byte_length (s : string) : length (String.list_byte_of_string s) = String.length s.
Proof.
  unfold String.list_byte_of_string. rewrite length_map.
  induction s as [|c s IH]; [done|]. simpl. by rewrite IH.
Qed.

#[program] Definition wire : Framing := {|
  FieldTable := unit;
  put_long := be_bytes 4;
  get_long := fun bs => be_value (take 4 bs);
  put_longlong := be_bytes 8;
  get_longlong := fun bs => be_value (take 8 bs);
  put_shortstr := fun s => byte_of_Z (Z.of_nat (String.length s)) :: String.list_byte_of_string s;
  get_shortstr := fun bs => match bs with
                            | [] => ("", [])
                            | n :: bs' => (String.string_of_list_byte (take (Z.to_nat (Z_of_byte n)) bs'),
                                           drop (Z.to_nat (Z_of_byte n)) bs')
                            end;
  put_table := fun _ => [];
  get_table := fun _ => tt
|}.
Next Obligation. intros z. cbn beta. unfold be_bytes. by rewrite length_reverse, le_bytes_length. Qed.
Next Obligation. intros z rest Hz. by apply be_value_bytes. Qed.
Next Obligation. intros z. cbn beta. unfold be_bytes. by rewrite length_reverse, le_bytes_length. Qed.
Next Obligation. intros z rest Hz. by apply be_value_bytes. Qed.
Next Obligation.
  intros s rest Hs. cbn -[Z.of_nat byte_of_Z]. rewrite Z_of_byte_of_Z, Z.mod_small, Nat2Z.id by lia.
  rewrite <- list_byte_length, take_app_length, drop_app_length.
  by rewrite String.string_of_list_byte_of_string.
Qed.
Next Obligation. intros s Hs. cbn -[byte_of_Z]. by rewrite list_byte_length. Qed.
Next Obligation. intros [] rest. done. Qed.
