(* ===== verification/Journal.v ===== *)
(** Model of lib/JournalImpl.cpp: the journal of a queue, which keeps its messages
    in [num_jfiles] Berkeley DB databases, message [pid] in number
    [pid % num_jfiles].

    The world of a journal is the set of database files of the environment and
    the transaction log of [TxnCtxt]; [messageDbs] records which handles are set.
    Logging and timers are left out and the management object is in [QmfProvider]: they
    do not change this state. [JournalSpec] proves that the journal implements a single map from
    message ids to stored bytes. *)
From S2P Require Import Prelude Format Jerrno Bdb TxnCtxt Framing.
From Stdlib Require Import ZArith Lia.

(** ** The comparison function of the databases *)

Definition bt_compare (first_key second_key : Z) : Z := int_of (sub64 first_key second_key).

(** ** State *)

Record JournalImpl := mkJournal {
  writeActivityFlag : bool;
  flushTriggeredFlag : bool;
  _is_init : bool;
  journalName : string;
  queuePid : Z;
  journalDirectory : string;
  bdbDir : string;
  num_jfiles : Z;
  create_bdb : bool;
  transientList : list Z;
  acceptedList : list Z;
  messageDbs : list bool        (* which pointers are set *)
}.

(** What the environment answers to the calls of one operation: to [txn_begin],
    to [DbTxn::commit] (an error it throws) and to [Db::open]. *)
Record db_answers := mkIO { io_begin : begin_answer; io_commit : option Z; io_open : option Z }.

Module JournalImpl.

Section journal.
Context `{BT : !BTree bt_compare}.
Implicit Types (j : JournalImpl) (pid rid k : Z).

Record world := mkWorld { w_env : DbEnv; w_files : gmap string Db }.
Implicit Type w : world.

Definition set_files (fs : gmap string Db) w : world := mkWorld (w_env w) fs.

Definition set_flags (act fl : bool) j : JournalImpl :=
  mkJournal act fl (_is_init j) (journalName j) (queuePid j) (journalDirectory j) (bdbDir j)
    (num_jfiles j) (create_bdb j) (transientList j) (acceptedList j) (messageDbs j).
Definition set_lists (tr ac : list Z) j : JournalImpl :=
  mkJournal (writeActivityFlag j) (flushTriggeredFlag j) (_is_init j) (journalName j) (queuePid j)
    (journalDirectory j) (bdbDir j) (num_jfiles j) (create_bdb j) tr ac (messageDbs j).
Definition set_dbs (init : bool) (dbs : list bool) j : JournalImpl :=
  mkJournal (writeActivityFlag j) (flushTriggeredFlag j) init (journalName j) (queuePid j)
    (journalDirectory j) (bdbDir j) (num_jfiles j) (create_bdb j) (transientList j) (acceptedList j) dbs.

(** The constructor. The member [create_bdb] is initialised with [true] whatever
    the argument of the same name is; the argument decides on [num_jfiles]. *)
Definition create (journalId : string) (queuePid : Z) (journalDirectory bdbDir : string)
    (num_jfiles : Z) (create_bdb_arg : bool) : JournalImpl :=
  let n := if create_bdb_arg then num_jfiles else 0 in
  mkJournal false true false journalId queuePid journalDirectory bdbDir n true [] []
    (replicate (Z.to_nat n) false).

(** *** Names *)

Definition getSubDbName j (sid : Z) : string := journalName j +:+ "_s" +:+ num_str 10 3 sid +:+ ".db".
Definition getSubDbPath j (sid : Z) : string := journalDirectory j +:+ getSubDbName j sid.
Definition getJournalDirPath j : string := bdbDir j +:+ journalDirectory j.

(** [for (int k=0;k<num_jfiles;k++)] *)
Definition jfiles j : list Z := map Z.of_nat (seq 0 (Z.to_nat (num_jfiles j))).

(** *** Opening and deleting *)

(** One turn of [init_message_db]: open database [k], creating it if needed, in a
    transaction of its own. [io] is what the environment answers. *)
Definition open_db (io : db_answers) j k w : result unit * world :=
  let body := match io_open io with Some n => Throw (DbException n) | None => Ret tt end in
  let '(r, e) := TxnCtxt.with_txn (io_begin io) (io_commit io) false body (w_env w) in
  match r with
  | Throw x => (Throw x, mkWorld e (w_files w))
  | Ret _ =>
      (Ret tt, mkWorld e (match w_files w !! getSubDbPath j k with
                          | Some _ => w_files w
                          | None => <[getSubDbPath j k := db_created]> (w_files w)
                          end))
  end.

Fixpoint open_all (io : db_answers) j (ks : list Z) (dbs : list bool) w :
    result (list bool) * world :=
  match ks with
  | [] => (Ret dbs, w)
  | k :: ks' =>
      let '(r, w) := open_db io j k w in
      match r with
      | Throw x => (Throw x, w)
      | Ret _ => open_all io j ks' (<[Z.to_nat k := true]> dbs) w
      end
  end.

Definition init_message_db (io : db_answers) j w : result JournalImpl * world :=
  if _is_init j then (Ret j, w)
  else
    let '(r, w) := open_all io j (jfiles j) (messageDbs j) w in
    match r with
    | Throw x => (Throw x, w)
    | Ret dbs => (Ret (set_dbs true dbs j), w)
    end.

(** [initialize()] *)
Definition initialize := init_message_db.

(** [delete_jrnl_files()], less the removal of the directory, which is
    [jdir::delete_dir] of [getJournalDirPath]. *)
Definition delete_jrnl_files j w : JournalImpl * world :=
  foldl (fun (jw : JournalImpl * world) k =>
           if bool_decide (messageDbs jw.1 !! Z.to_nat k = Some true)
           then (set_dbs (_is_init jw.1) (<[Z.to_nat k := false]> (messageDbs jw.1)) jw.1,
                 set_files (delete (getSubDbPath j k) (w_files jw.2)) jw.2)
           else jw) (j, w) (jfiles j).

(** *** Access to one database *)

(** [messageDbs[rid%num_jfiles]]: the path of the database, or what goes wrong. *)
Definition shard j rid : result string :=
  if num_jfiles j =? 0 then Throw (Undefined "division by zero")
  else let k := rid mod num_jfiles j in
       if bool_decide (messageDbs j !! Z.to_nat k = Some true) then Ret (getSubDbPath j k)
       else Throw (Undefined "null database").

(** The database behind an open handle. *)
Definition db_at (path : string) w : result Db :=
  match w_files w !! path with
  | Some d => Ret d
  | None => Throw (Undefined "closed database")
  end.

(** [store_msg(db,pid,p)] *)
Definition store_msg (io : db_answers) (path : string) pid (p : list byte) j w :
    result bool * JournalImpl * world :=
  if negb (create_bdb j) then (Ret false, j, w)
  else
    let j := set_flags true (flushTriggeredFlag j) j in
    let body := let! d := db_at path w in db_put d pid p in
    let '(r, e) := TxnCtxt.with_txn (io_begin io) (io_commit io) true body (w_env w) in
    match r with
    | Throw x => (Throw x, j, mkWorld e (w_files w))
    | Ret (st, d') =>
        (Ret (negb (bool_decide (st = DB_KEYEXIST))), j, mkWorld e (<[path := d']> (w_files w)))
    end.

(** [remove_msg(db,pid)] *)
Definition remove_msg (io : db_answers) (path : string) pid j w :
    result unit * JournalImpl * world :=
  if negb (create_bdb j) then (Ret tt, j, w)
  else
    let j := set_flags true (flushTriggeredFlag j) j in
    let body := let! d := db_at path w in db_del d pid in
    let '(r, e) := TxnCtxt.with_txn (io_begin io) (io_commit io) true body (w_env w) in
    match r with
    | Throw x => (Throw x, j, mkWorld e (w_files w))
    | Ret (_, d') => (Ret tt, j, mkWorld e (<[path := d']> (w_files w)))
    end.

(** [catch (const DbException&) { THROW_STORE_EXCEPTION(msg) }] *)
Definition catch_db {A} (msg : string) (r : result A) : result A :=
  match r with
  | Throw (DbException _) => Throw (StoreException msg)
  | r => r
  end.

Definition enqueue_data (io : db_answers) (data_buff : list byte) (this_data_len : nat)
    pid j w : result unit * JournalImpl * world :=
  if negb (create_bdb j) then (Ret tt, j, w)
  else match shard j pid with
       | Throw x => (catch_db "Error storing the message" (Throw x), j, w)
       | Ret path =>
           let '(r, j, w) := store_msg io path pid (take this_data_len data_buff) j w in
           (catch_db "Error storing the message" (let! _ := r in Ret tt), j, w)
       end.

Definition dequeue_data (io : db_answers) pid j w : result unit * JournalImpl * world :=
  if negb (create_bdb j) then (Ret tt, j, w)
  else match shard j pid with
       | Throw x => (catch_db "Error removing the message" (Throw x), j, w)
       | Ret path =>
           let '(r, j, w) := remove_msg io path pid j w in
           (catch_db "Error removing the message" r, j, w)
       end.

Definition is_enqueued rid j w : result bool :=
  if negb (create_bdb j) then Ret false
  else let! path := shard j rid in
       let! d := db_at path w in
       let! v := db_get d rid in
       Ret (bool_decide (is_Some v)).

(** *** Reading content *)

(** [data.append(p,n)] with [p] pointing at offset [start] of a block. *)
Definition read_block (buf : list byte) (start n : Z) : result (list byte) :=
  if start + n <=? Z.of_nat (length buf)
  then Ret (take (Z.to_nat n) (drop (Z.to_nat start) buf))
  else Throw (Undefined "read outside the message").

(** [loadMsgContent(rid,data,length,offset)]: whether the message was found, and
    the data. [getSize()] is a 32-bit number, [offset] and [length] are [size_t]. *)
Definition loadMsgContent `{Framing} rid (data : list byte) (length offset : Z) j w :
    result (bool * list byte) :=
  if negb (create_bdb j) then Ret (false, data)
  else
    let! path := shard j rid in
    let preambleLength := 4 + 1 in
    let! d := db_at path w in
    let! v := db_get d rid in
    match v with
    | None => Ret (false, data)
    | Some value =>
        let size := u32 (Z.of_nat (List.length value)) in
        let headerSize := get_long (drop 1 value) in
        let contentOffset := u32 (headerSize + preambleLength) in
        let contentSize := u32 (size - contentOffset) in
        let! chunk :=
          (if size <? add64 (add64 contentOffset offset) length
           then read_block value (contentOffset + offset) (sub64 contentSize offset)
           else read_block value (contentOffset + offset) length) in
        Ret (true, data ++ chunk)
    end.

(** *** Recovery *)

(** The loop of [recoverMessages]: one cursor per database, visited in turn until
    every cursor has reported its end. *)
Fixpoint rr_loop {A} (fuel n sindex doneCnt : nat) (cursors : list (list A)) (cursorsDone : list bool)
    (recovered : list A) : option (list A) :=
  match fuel with
  | O => None
  | S fuel' =>
      if (doneCnt <? n)%nat then
        if bool_decide (cursorsDone !! sindex = Some false) then
          match cursors !! sindex with
          | Some (row :: rows) =>
              rr_loop fuel' n ((sindex + 1) mod n) doneCnt (<[sindex := rows]> cursors) cursorsDone
                (recovered ++ [row])
          | _ =>
              rr_loop fuel' n ((sindex + 1) mod n) (doneCnt + 1) cursors (<[sindex := true]> cursorsDone)
                recovered
          end
        else rr_loop fuel' n ((sindex + 1) mod n) doneCnt cursors cursorsDone recovered
      else Some recovered
  end.

(** Enough turns for [n] cursors over [total] rows. *)
Definition rr_fuel (n total : nat) : nat := S (n * S total).

Definition rr_all {A} (cursors : list (list A)) : option (list A) :=
  rr_loop (rr_fuel (length cursors) (length (concat cursors))) (length cursors) 0 0 cursors
    (replicate (length cursors) false) [].

Definition rows_of j w k : list (Z * list byte) :=
  match w_files w !! getSubDbPath j k with
  | Some d => db_scan d
  | None => []
  end.

Definition recoverMessages (io : db_answers) j w :
    result (JournalImpl * option (list (Z * list byte))) * world :=
  match init_message_db io j w with
  | (Throw x, w) => (Throw x, w)
  | (Ret j, w) =>
      if negb (create_bdb j) then (Ret (j, Some []), w)
      else (Ret (j, rr_all (map (rows_of j w) (jfiles j))), w)
  end.

Definition register_as_transient (trList : list Z) j : JournalImpl :=
  set_flags true (flushTriggeredFlag j) (set_lists (trList ++ transientList j) (acceptedList j) j).
Definition register_as_accepted (acList : list Z) j : JournalImpl :=
  set_flags true (flushTriggeredFlag j) (set_lists (transientList j) (acList ++ acceptedList j) j).

(** The deletion loop of both [discard_*] methods. *)
Fixpoint del_each (ids : list Z) j w : result unit * world :=
  match ids with
  | [] => (Ret tt, w)
  | id :: ids' =>
      match (let! path := shard j id in let! d := db_at path w in
             let! sd := db_del d id in Ret (path, sd.2)) with
      | Throw x => (Throw x, w)
      | Ret (path, d') => del_each ids' j (set_files (<[path := d']> (w_files w)) w)
      end
  end.

Definition discard_transient_message j w : result JournalImpl * world :=
  if create_bdb j then
    match transientList j with
    | [] => (Ret j, w)
    | ids => match del_each ids j w with
             | (Throw x, w) => (Throw x, w)
             | (Ret _, w) => (Ret (set_lists [] (acceptedList j) j), w)
             end
    end
  else (Ret (set_lists [] (acceptedList j) j), w).

Definition discard_accepted_message j w : result JournalImpl * world :=
  if create_bdb j then
    match acceptedList j with
    | [] => (Ret j, w)
    | ids => match del_each ids j w with
             | (Throw x, w) => (Throw x, w)
             | (Ret _, w) => (Ret (set_lists (transientList j) [] j), w)
             end
    end
  else (Ret (set_lists (transientList j) [] j), w).

Definition recover_complete j w : result JournalImpl * world :=
  match discard_transient_message j w with
  | (Throw x, w) => (Throw x, w)
  | (Ret j, w) => discard_accepted_message j w
  end.

(** *** Flushing *)

(** [flush()]: the [sync] calls are commented out, so it always succeeds. *)
Definition flush j : bool := true.

(** [flushFire()]: the new flags, and whether [flush] was called. *)
Definition flushFire j : JournalImpl * bool :=
  if writeActivityFlag j then (set_flags false false j, false)
  else if negb (flushTriggeredFlag j) then (set_flags (writeActivityFlag j) true j, true)
  else (j, false).

(** The transaction entry points are not implemented. *)
Definition txn_abort : result unit :=
  Throw (JException (jexception.thrown jerrno.JERR__NOTIMPL "BdbMessageStoreImpl" "txn_abort")).
Definition txn_commit : result unit :=
  Throw (JException (jexception.thrown jerrno.JERR__NOTIMPL "BdbMessageStoreImpl" "txn_commit")).

End journal.

End JournalImpl.
