(* ===== verification/JournalSpec.v ===== *)
(** The journal implements a map from message ids to stored bytes.

    The invariant [jwf] says that the databases of an open journal exist and that
    database [k] only holds ids congruent to [k], all of them within a window of
    [2^31] ids, which is where the comparison function orders them. *)
From S2P Require Import Prelude Format Jerrno Bdb TxnCtxt Framing Journal.
From Stdlib Require Import ZArith Lia.
Import JournalImpl.

(** ** The comparison function *)

Definition in_window (lo k : Z) : Prop := is_u64 k /\ lo <= k < lo + 2 ^ 31.

Lemma bt_compare_small a b : - 2 ^ 31 <= a - b < 2 ^ 31 -> bt_compare a b = a - b.
Proof. apply int_of_diff_small. Qed.

Lemma window_sane lo (P : Z -> Prop) : (forall k, P k -> in_window lo k) -> sane bt_compare P.
Proof.
  intros HP. split; intros; repeat match goal with H : P _ |- _ => apply HP in H end;
    unfold in_window in *; rewrite !bt_compare_small in * by lia; lia.
Qed.

(** On message ids that lie within a window of 2^31 the
    comparison function is a strict total order that agrees with the order of the
    ids, so the databases work as documented. *)
Theorem compare_window lo :
  sane bt_compare (in_window lo) /\
  forall a b, in_window lo a -> in_window lo b -> (bt_compare a b < 0 <-> a < b).
Proof.
  split; [by apply (window_sane lo)|]. unfold in_window. intros a b Ha Hb.
  rewrite bt_compare_small by lia. lia.
Qed.

Lemma compare_window_witness : bt_compare 5 9 < 0 <-> 5 < 9.
Proof. apply (compare_window 5); unfold in_window, is_u64; lia. Defined.

(** Outside such a window it is not an order. Two different
    64-bit ids that differ by a multiple of 2^32 compare equal, and ids 2^31 apart
    each compare below the other. *)
Theorem compare_collides a :
  is_u64 a -> is_u64 (a + 2 ^ 32) ->
  bt_compare a (a + 2 ^ 32) = 0 /\ a <> a + 2 ^ 32 /\
  bt_compare a (a + 2 ^ 31) < 0 /\ bt_compare (a + 2 ^ 31) a < 0.
Proof.
  intros Ha Hb. unfold bt_compare. rewrite !int_of_sub64.
  replace (a - (a + 2 ^ 32)) with (- 2 ^ 32) by lia.
  replace (a - (a + 2 ^ 31)) with (- 2 ^ 31) by lia.
  replace (a + 2 ^ 31 - a) with (2 ^ 31) by lia. repeat split; try lia; done.
Qed.

Lemma compare_collides_witness : bt_compare 1 4294967297 = 0.
Proof. apply (compare_collides 1); unfold is_u64; lia. Defined.

(** ** The round-robin over the cursors *)

Section rr.
Context {A : Type}.
Implicit Types (cs : list (list A)) (dn : list bool) (acc : list A) (n s : nat).

(** Turns until cursor [k] is visited, from position [s]. *)
Definition dist n s k : nat := if decide (s <= k)%nat then (k - s)%nat else (k + n - s)%nat.

Lemma dist_step n s k : (s < n)%nat -> (k < n)%nat ->
  dist n ((s + 1) mod n) k = if decide (k = s) then (n - 1)%nat else (dist n s k - 1)%nat.
Proof.
  intros Hs Hk. unfold dist. destruct (decide (s + 1 = n)%nat) as [E|E].
  - rewrite E, Nat.Div0.mod_same. repeat case_decide; lia.
  - rewrite Nat.mod_small by lia. repeat case_decide; lia.
Qed.

Definition live dn : nat := length (filter (fun b => b = false) dn).

Lemma live_zero dn k b : live dn = 0%nat -> dn !! k = Some b -> b = true.
Proof.
  intros Hl Hk. destruct b; [done|]. exfalso. unfold live in Hl.
  apply length_zero_iff_nil in Hl. apply list_elem_of_lookup_2 in Hk.
  assert (H : false ∈ filter (fun b => b = false) dn) by (by apply list_elem_of_filter).
  rewrite Hl in H. set_solver.
Qed.

Lemma live_insert dn k : dn !! k = Some false -> S (live (<[k := true]> dn)) = live dn.
Proof.
  unfold live. revert k. induction dn as [|b dn IH]; intros k Hk; [done|].
  destruct k as [|k]; simpl in *.
  - injection Hk as ->. rewrite !filter_cons. by rewrite decide_False, decide_True.
  - rewrite !filter_cons. specialize (IH k Hk). case_decide; simpl; by rewrite <- IH.
Qed.

(** The state of the loop: every cursor that is done is exhausted, the counter
    counts the done cursors, and there is fuel for the last visit of each live one. *)
Record rr_inv (fuel n s doneCnt : nat) cs dn : Prop := {
  rr_cs : length cs = n;
  rr_dn : length dn = n;
  rr_s : (n = 0 \/ s < n)%nat;
  rr_cnt : (doneCnt + live dn = n)%nat;
  rr_done : forall k c, dn !! k = Some true -> cs !! k = Some c -> c = [];
  rr_fuel_pos : (0 < fuel)%nat;
  rr_live : forall k c, dn !! k = Some false -> cs !! k = Some c ->
    (dist n s k + n * length c + 1 < fuel)%nat
}.

Lemma concat_insert_tail cs k (x : A) c :
  cs !! k = Some (x :: c) -> concat cs ≡ₚ x :: concat (<[k := c]> cs).
Proof.
  revert k. induction cs as [|d cs IH]; intros [|k] Hk; simplify_eq/=; [done|].
  rewrite (IH k Hk). by rewrite Permutation_middle.
Qed.

Lemma all_nil_concat cs : (forall k c, cs !! k = Some c -> c = []) -> concat cs = [].
Proof.
  intros Hn. induction cs as [|c cs IH]; [done|]. simpl. rewrite (Hn 0%nat c eq_refl).
  apply IH. intros k d Hd. by apply (Hn (S k)).
Qed.

Lemma rr_inv_live fuel n s doneCnt cs dn k c :
  rr_inv (S fuel) n s doneCnt cs dn -> (0 < n)%nat -> dn !! k = Some false -> cs !! k = Some c ->
  k <> s -> (dist n ((s + 1) mod n) k + n * length c + 1 < fuel)%nat.
Proof.
  intros [L1 L2 Hs _ _ _ Hl] Hn Hd Hc Hks. specialize (Hl k c Hd Hc).
  assert (k < n)%nat by (rewrite <- L1; by eapply lookup_lt_Some).
  rewrite dist_step by lia. rewrite decide_False by done. unfold dist in *. case_decide; lia.
Qed.

Lemma rr_inv_fuel fuel n s doneCnt cs dn :
  rr_inv (S fuel) n s doneCnt cs dn -> (doneCnt < n)%nat -> (0 < fuel)%nat.
Proof.
  intros [L1 L2 _ Hc _ _ Hl] Hlt.
  assert (exists k, dn !! k = Some false) as [k Hk].
  { unfold live in *. destruct (filter (fun b => b = false) dn) as [|x l] eqn:Ef; [simpl in Hc; lia|].
    assert (Hx : x ∈ filter (fun b => b = false) dn) by (rewrite Ef; set_solver).
    apply list_elem_of_filter in Hx as [-> Hx]. by apply list_elem_of_lookup in Hx. }
  destruct (cs !! k) as [c|] eqn:Ec.
  - specialize (Hl k c Hk Ec). lia.
  - apply lookup_ge_None in Ec. apply lookup_lt_Some in Hk. lia.
Qed.

(** The turn at a cursor that is at its end, and at one that has a row. *)
Lemma rr_inv_end fuel n s doneCnt cs dn :
  rr_inv (S fuel) n s doneCnt cs dn -> (doneCnt < n)%nat -> dn !! s = Some false -> cs !! s = Some [] ->
  rr_inv fuel n ((s + 1) mod n) (doneCnt + 1) cs (<[s := true]> dn).
Proof.
  intros Hi Hlt Eb Ec. pose proof Hi as [L1 L2 Hs Hc Hd Hp Hl].
  pose proof (lookup_lt_Some _ _ _ Eb). split; rewrite ?length_insert; auto.
  - right. apply Nat.mod_upper_bound. lia.
  - rewrite <- (live_insert dn s Eb) in Hc. lia.
  - intros k c Hk. destruct (decide (k = s)) as [->|]; [congruence|].
    rewrite list_lookup_insert_ne in Hk by done. eauto.
  - by eapply rr_inv_fuel.
  - intros k c Hk Hck. destruct (decide (k = s)) as [->|].
    + rewrite list_lookup_insert_eq in Hk by lia. done.
    + rewrite list_lookup_insert_ne in Hk by done. eapply rr_inv_live; eauto. lia.
Qed.

Lemma rr_inv_row fuel n s doneCnt cs dn row rows :
  rr_inv (S fuel) n s doneCnt cs dn -> (doneCnt < n)%nat -> dn !! s = Some false -> cs !! s = Some (row :: rows) ->
  rr_inv fuel n ((s + 1) mod n) doneCnt (<[s := rows]> cs) dn.
Proof.
  intros Hi Hlt Eb Ec. pose proof Hi as [L1 L2 Hs Hc Hd Hp Hl].
  pose proof (lookup_lt_Some _ _ _ Eb). split; rewrite ?length_insert; auto.
  - right. apply Nat.mod_upper_bound. lia.
  - intros k c Hk Hck. destruct (decide (k = s)) as [->|]; [congruence|].
    rewrite list_lookup_insert_ne in Hck by done. eauto.
  - by eapply rr_inv_fuel.
  - intros k c Hk Hck. destruct (decide (k = s)) as [->|].
    + rewrite list_lookup_insert_eq in Hck by lia. injection Hck as <-.
      rewrite dist_step, decide_True by (lia || done).
      specialize (Hl s _ Eb Ec). simpl in Hl. unfold dist in Hl. case_decide; lia.
    + rewrite list_lookup_insert_ne in Hck by done. eapply rr_inv_live; eauto. lia.
Qed.

Lemma rr_loop_spec fuel n s doneCnt cs dn acc :
  rr_inv fuel n s doneCnt cs dn ->
  exists l, rr_loop fuel n s doneCnt cs dn acc = Some l /\ l ≡ₚ acc ++ concat cs.
Proof.
  revert s doneCnt cs dn acc. induction fuel as [|fuel IH]; intros s doneCnt cs dn acc Hi.
  { pose proof (rr_fuel_pos _ _ _ _ _ _ Hi). lia. }
  pose proof Hi as [L1 L2 Hs Hc Hd Hp Hl]. simpl.
  destruct (Nat.ltb_spec doneCnt n) as [Hlt|Hge].
  2: { exists acc. split; [done|]. rewrite (all_nil_concat cs); [by rewrite app_nil_r|].
       intros k c Hk. destruct (dn !! k) as [b|] eqn:Eb.
       - apply (Hd k c); [|done]. rewrite Eb. f_equal. eapply (live_zero dn k); [lia|done].
       - apply lookup_ge_None in Eb. apply lookup_lt_Some in Hk. lia. }
  assert (Hn : (0 < n)%nat) by lia. destruct Hs as [|Hs]; [lia|].
  assert (Hs' : (n = 0 \/ (s + 1) mod n < n)%nat) by (right; apply Nat.mod_upper_bound; lia).
  assert (Hfuel : (0 < fuel)%nat) by (by apply (rr_inv_fuel fuel n s doneCnt cs dn)).
  case_bool_decide as Eb.
  - destruct (cs !! s) as [[|row rows]|] eqn:Ec.
    + apply IH. by eapply rr_inv_end.
    + destruct (IH ((s + 1) mod n)%nat doneCnt (<[s := rows]> cs) dn (acc ++ [row])) as (l & E & P).
      { by eapply rr_inv_row. }
      exists l. split; [done|]. by rewrite P, (concat_insert_tail cs s row rows), <- app_assoc by done.
    + apply lookup_ge_None in Ec. lia.
  - apply IH. split; auto. intros k c Hk Hck. destruct (decide (k = s)) as [->|]; [done|].
    eapply rr_inv_live; eauto.
Qed.

Lemma live_replicate n : live (replicate n false) = n.
Proof. unfold live. induction n as [|n IH]; [done|]. simpl in *. by rewrite IH. Qed.

(** Every row of every cursor is read exactly once, and the loop ends. *)
Lemma rr_all_spec cs : exists l, rr_all cs = Some l /\ l ≡ₚ concat cs.
Proof.
  unfold rr_all. apply (rr_loop_spec _ _ _ _ cs _ []).
  split; rewrite ?length_replicate; try done.
  - lia.
  - apply live_replicate.
  - intros k c Hk. apply lookup_replicate in Hk as [Hk _]. done.
  - unfold rr_fuel. lia.
  - intros k c Hk Hc. pose proof (lookup_lt_Some _ _ _ Hc).
    assert (length c <= length (concat cs))%nat.
    { clear Hk H. revert k Hc. induction cs as [|d cs IH]; intros [|k] Hc; simplify_eq/=;
        rewrite length_app; [lia|]. apply IH in Hc. lia. }
    unfold rr_fuel, dist. case_decide; nia.
Qed.

End rr.

(** ** The journal as a map *)

Section spec.
Context `{BT : !BTree bt_compare}.
Variable lo : Z.
Implicit Types (j : JournalImpl) (w : world) (pid k x : Z) (io : db_answers).

(** The database of shard [k] only holds ids of that shard, within the window. *)
Definition db_ok j k (d : Db) : Prop :=
  forall x, is_Some (db_map d !! x) -> x mod num_jfiles j = k /\ in_window lo x.

Definition files_ok j (fs : gmap string Db) : Prop :=
  0 < num_jfiles j /\
  forall k d, 0 <= k < num_jfiles j -> fs !! getSubDbPath j k = Some d -> db_ok j k d.

(** An open journal. *)
Definition jwf j w : Prop :=
  files_ok j (w_files w) /\ create_bdb j = true /\ _is_init j = true /\
  messageDbs j = replicate (Z.to_nat (num_jfiles j)) true /\
  forall k, 0 <= k < num_jfiles j -> is_Some (w_files w !! getSubDbPath j k).

(** What is stored under an id. *)
Definition jlookup j (fs : gmap string Db) pid : option (list byte) :=
  match fs !! getSubDbPath j (pid mod num_jfiles j) with
  | Some d => db_map d !! pid
  | None => None
  end.

Lemma sub_path_inj j k k' :
  0 <= k -> 0 <= k' -> getSubDbPath j k = getSubDbPath j k' -> k = k'.
Proof.
  unfold getSubDbPath, getSubDbName. intros Hk Hk' E.
  apply (inj (String.append (journalDirectory j))), (inj (String.append (journalName j))),
    (inj (String.append "_s")) in E.
  assert (String.append (num_str 10 3 k) ".db" = String.append (num_str 10 3 k') ".db" ->
          num_str 10 3 k = num_str 10 3 k') as Hc.
  { generalize (num_str 10 3 k) (num_str 10 3 k'). clear. intros a b E.
    apply (f_equal String.list_ascii_of_string) in E.
    assert (Ha : forall s t, String.list_ascii_of_string (String.append s t) =
              String.list_ascii_of_string s ++ String.list_ascii_of_string t).
    { intros s t. induction s as [|c s IH]; [done|]. simpl. unfold String.append in *. by rewrite IH. }
    rewrite !Ha in E. apply app_inv_tail in E.
    rewrite <- (String.string_of_list_ascii_of_string a), <- (String.string_of_list_ascii_of_string b).
    by rewrite E. }
  apply Hc in E. by apply num_str_inj in E; auto.
Qed.

Lemma shard_ok j w pid :
  jwf j w -> shard j pid = Ret (getSubDbPath j (pid mod num_jfiles j)).
Proof.
  intros ([Hn _] & _ & _ & Hdb & _). unfold shard.
  destruct (Z.eqb_spec (num_jfiles j) 0); [lia|]. rewrite bool_decide_true; [done|].
  rewrite Hdb. apply lookup_replicate_2. pose proof (Z.mod_pos_bound pid (num_jfiles j)). lia.
Qed.

(** The database of an id of an open journal. *)
Lemma db_of j w pid :
  jwf j w -> exists d, w_files w !! getSubDbPath j (pid mod num_jfiles j) = Some d /\
    jlookup j (w_files w) pid = db_map d !! pid /\ db_ok j (pid mod num_jfiles j) d.
Proof.
  intros ([Hn Hf] & _ & _ & _ & Hex). pose proof (Z.mod_pos_bound pid (num_jfiles j) Hn) as Hm.
  destruct (Hex _ Hm) as [d Hd]. exists d. unfold jlookup. rewrite Hd. eauto.
Qed.

Lemma db_keys_sane j k d pid : db_ok j k d -> in_window lo pid -> sane bt_compare (db_keys d pid).
Proof.
  intros Hd Hp. apply (window_sane lo). intros x [->|Hx]; [done|]. by apply Hd.
Qed.

(** Replacing the database of [pid] by one that differs at [pid] only. *)
Lemma jwf_update j w pid d d' (e : DbEnv) (j' : JournalImpl) :
  jwf j w -> in_window lo pid ->
  w_files w !! getSubDbPath j (pid mod num_jfiles j) = Some d ->
  (forall x, x <> pid -> db_map d' !! x = db_map d !! x) ->
  let w' := mkWorld e (<[getSubDbPath j (pid mod num_jfiles j) := d']> (w_files w)) in
  jwf j w' /\
  forall x, jlookup j (w_files w') x = if decide (x = pid) then db_map d' !! pid
                                       else jlookup j (w_files w) x.
Proof.
  intros ([Hn Hf] & Hc & Hi & Hdb & Hex) Hp Hd Hsame w'.
  pose proof (Z.mod_pos_bound pid (num_jfiles j) Hn) as Hm. split.
  - split; [split; [done|]|split_and!; try done].
    + intros k d0 Hk Hl. destruct (decide (k = pid mod num_jfiles j)) as [->|Hne].
      * simpl in Hl. rewrite lookup_insert_eq in Hl. injection Hl as <-.
        intros x Hx. destruct (decide (x = pid)) as [->|Hxp]; [done|].
        rewrite Hsame in Hx by done. by apply (Hf _ d).
      * simpl in Hl. rewrite lookup_insert_ne in Hl; [by eapply Hf|].
        intros E. apply sub_path_inj in E; lia.
    + intros k Hk. simpl. rewrite lookup_insert. case_decide; [by eexists|]. by apply Hex.
  - intros x. unfold jlookup. simpl. case_decide as Ex.
    + subst x. by rewrite lookup_insert_eq.
    + rewrite lookup_insert. case_decide as Ep; [|done].
      assert (Em : x mod num_jfiles j = pid mod num_jfiles j).
      { pose proof (Z.mod_pos_bound x (num_jfiles j) Hn). symmetry. apply (sub_path_inj j); lia || done. }
      rewrite Em, Hd. by apply Hsame.
Qed.

(** Only the flags change in the object. *)
Lemma jwf_flags j w a b : jwf j w -> jwf (set_flags a b j) w.
Proof. done. Qed.

(** A transaction that returns was committed, with the result of its body. *)
Lemma with_txn_ret {A} b c s (r : result A) e a e' :
  TxnCtxt.with_txn b c s r e = (Ret a, e') -> r = Ret a.
Proof. destruct b, c, s, r; unfold TxnCtxt.with_txn; simpl; by intros [= ? ?]; subst. Qed.

Lemma jwf_env j w e : jwf j w -> jwf j (mkWorld e (w_files w)).
Proof. done. Qed.

Lemma catch_db_ret {A} m (r : result A) a : catch_db m r = Ret a -> r = Ret a.
Proof. destruct r as [|[]]; simpl; congruence. Qed.

(** The effect of [enqueue_data]: the data is stored unless the id is already
    there; nothing else changes, and nothing at all when it throws. *)
Lemma enqueue_data_spec io buf n pid j w r j' w' :
  jwf j w -> in_window lo pid -> enqueue_data io buf n pid j w = (r, j', w') ->
  jwf j' w' /\ getSubDbPath j' = getSubDbPath j /\ num_jfiles j' = num_jfiles j /\
  forall x, jlookup j' (w_files w') x =
    match r with
    | Ret _ => if decide (x = pid) then Some (default (take n buf) (jlookup j (w_files w) pid))
               else jlookup j (w_files w) x
    | Throw _ => jlookup j (w_files w) x
    end.
Proof.
  intros Hj Hp. unfold enqueue_data. pose proof Hj as (_ & Hc & _). rewrite Hc. simpl.
  rewrite (shard_ok j w pid Hj). destruct (db_of j w pid Hj) as (d & Hd & Hl & Hok).
  unfold store_msg. rewrite Hc. simpl. unfold db_at. rewrite Hd. simpl.
  destruct (TxnCtxt.with_txn _ _ _ _ _) as [r0 e0] eqn:Et. destruct r0 as [[st d']|x].
  2: { intros [= <- <- <-]. split_and!; try done. by destruct x. }
  intros [= <- <- <-]. apply with_txn_ret in Et.
  pose proof (db_put_law d pid _ st d' (db_keys_sane j _ d pid Hok Hp) Et) as Hlaw.
  destruct (jwf_update j w pid d d' e0 j Hj Hp Hd) as [H1 H2].
  { intros x Hx. destruct (db_map d !! pid); destruct Hlaw as [_ ->]; [done|]. by rewrite lookup_insert_ne. }
  split_and!; try done. intros x. simpl. etransitivity; [apply H2|]. case_decide; [|done].
  rewrite Hl. destruct (db_map d !! pid) eqn:E; destruct Hlaw as [_ ->]; simpl; [done|].
  by rewrite lookup_insert_eq.
Qed.

(** The effect of [dequeue_data]. *)
Lemma dequeue_data_spec io pid j w r j' w' :
  jwf j w -> in_window lo pid -> dequeue_data io pid j w = (r, j', w') ->
  jwf j' w' /\ getSubDbPath j' = getSubDbPath j /\ num_jfiles j' = num_jfiles j /\
  forall x, jlookup j' (w_files w') x =
    match r with
    | Ret _ => if decide (x = pid) then None else jlookup j (w_files w) x
    | Throw _ => jlookup j (w_files w) x
    end.
Proof.
  intros Hj Hp. unfold dequeue_data. pose proof Hj as (_ & Hc & _). rewrite Hc. simpl.
  rewrite (shard_ok j w pid Hj). destruct (db_of j w pid Hj) as (d & Hd & Hl & Hok).
  unfold remove_msg. rewrite Hc. simpl. unfold db_at. rewrite Hd. simpl.
  destruct (TxnCtxt.with_txn _ _ _ _ _) as [r0 e0] eqn:Et. destruct r0 as [[st d']|x].
  2: { intros [= <- <- <-]. split_and!; try done. by destruct x. }
  intros [= <- <- <-]. apply with_txn_ret in Et.
  pose proof (db_del_law d pid st d' (db_keys_sane j _ d pid Hok Hp) Et) as Hlaw.
  destruct (jwf_update j w pid d d' e0 j Hj Hp Hd) as [H1 H2].
  { intros x Hx. destruct (db_map d !! pid); destruct Hlaw as [_ ->]; [|done]. by rewrite lookup_delete_ne. }
  split_and!; try done. intros x. simpl. etransitivity; [apply H2|]. case_decide; [|done].
  destruct (db_map d !! pid) eqn:E; destruct Hlaw as [_ ->]; [apply lookup_delete_eq|done].
Qed.

Lemma is_enqueued_spec pid j w b :
  jwf j w -> in_window lo pid -> is_enqueued pid j w = Ret b ->
  b = bool_decide (is_Some (jlookup j (w_files w) pid)).
Proof.
  intros Hj Hp. unfold is_enqueued. pose proof Hj as (_ & Hc & _). rewrite Hc. simpl.
  rewrite (shard_ok j w pid Hj). destruct (db_of j w pid Hj) as (d & Hd & Hl & Hok).
  simpl. unfold db_at. rewrite Hd. simpl.
  destruct (db_get d pid) as [v|] eqn:E; [|done]. simpl. intros [= <-].
  apply (db_get_law d pid v (db_keys_sane j _ d pid Hok Hp)) in E. by rewrite Hl, E.
Qed.

(** ** Sequences of operations *)

Inductive jop : Type :=
| JEnq (io : db_answers) (pid : Z) (data : list byte)
| JDeq (io : db_answers) (pid : Z).

Definition jop_pid (o : jop) : Z := match o with JEnq _ p _ | JDeq _ p => p end.

(** Run until an operation throws. *)
Fixpoint run_jops (ops : list jop) j w : result (JournalImpl * world) :=
  match ops with
  | [] => Ret (j, w)
  | o :: ops' =>
      let '(r, j', w') := match o with
                          | JEnq io p data => enqueue_data io data (length data) p j w
                          | JDeq io p => dequeue_data io p j w
                          end in
      match r with
      | Throw x => Throw x
      | Ret _ => run_jops ops' j' w'
      end
  end.

(** The specification: one map. *)
Definition jspec (m : gmap Z (list byte)) (o : jop) : gmap Z (list byte) :=
  match o with
  | JEnq _ p data => match m !! p with Some _ => m | None => <[p := data]> m end
  | JDeq _ p => delete p m
  end.

Lemma run_jops_spec ops j w m j' w' :
  jwf j w -> Forall (fun o => in_window lo (jop_pid o)) ops ->
  (forall x, jlookup j (w_files w) x = m !! x) ->
  run_jops ops j w = Ret (j', w') ->
  jwf j' w' /\ forall x, jlookup j' (w_files w') x = foldl jspec m ops !! x.
Proof.
  revert j w m. induction ops as [|o ops IH]; intros j w m Hj Hw Hm Hr; simpl in *.
  { injection Hr as <- <-. done. }
  apply Forall_cons in Hw as [Hp Hw]. destruct o as [io p data|io p]; simpl in *.
  - destruct (enqueue_data io data (length data) p j w) as [[r j1] w1] eqn:E.
    apply enqueue_data_spec in E as (H1 & _ & _ & H2); [|done..].
    destruct r as [u|]; [|done]. apply (IH j1 w1); try done.
    intros x. rewrite H2. case_decide as Ex; rewrite Hm.
    + subst x. destruct (m !! p) eqn:Ep; simpl; [done|]. by rewrite lookup_insert_eq, firstn_all.
    + destruct (m !! p); [done|]. by rewrite lookup_insert_ne.
  - destruct (dequeue_data io p j w) as [[r j1] w1] eqn:E.
    apply dequeue_data_spec in E as (H1 & _ & _ & H2); [|done..].
    destruct r as [u|]; [|done]. apply (IH j1 w1); try done.
    intros x. rewrite H2. case_decide as Ex; subst; [by rewrite lookup_delete_eq|].
    by rewrite lookup_delete_ne, Hm.
Qed.

(** C9: any sequence of stores and removals of messages with
    ids in one window, on a journal of any number of files, acts as on a single
    map in which a store never overwrites: after it, [is_enqueued] answers
    membership in that map. *)
Theorem journal_refines_map ops j w m j' w' :
  jwf j w -> Forall (fun o => in_window lo (jop_pid o)) ops ->
  (forall x, jlookup j (w_files w) x = m !! x) ->
  run_jops ops j w = Ret (j', w') ->
  (forall x, jlookup j' (w_files w') x = foldl jspec m ops !! x) /\
  (forall x b, in_window lo x -> is_enqueued x j' w' = Ret b ->
               b = bool_decide (is_Some (foldl jspec m ops !! x))).
Proof.
  intros Hj Hw Hm Hr. destruct (run_jops_spec ops j w m j' w' Hj Hw Hm Hr) as [H1 H2].
  split; [done|]. intros x b Hx Hb. rewrite <- H2. by apply is_enqueued_spec.
Qed.

(** ** Opening and recovering *)

(** [fs'] extends [fs] by newly created databases. *)
Definition extends (fs fs' : gmap string Db) : Prop :=
  forall p, fs' !! p = fs !! p \/ (fs !! p = None /\ fs' !! p = Some db_created).

Lemma extends_trans fs1 fs2 fs3 : extends fs1 fs2 -> extends fs2 fs3 -> extends fs1 fs3.
Proof.
  intros H1 H2 p. destruct (H1 p) as [E1|[E1 E1']], (H2 p) as [E2|[E2 E2']]; rewrite ?E2; auto.
  right. by rewrite <- E1.
Qed.

Lemma extends_lookup j fs fs' x : extends fs fs' -> jlookup j fs' x = jlookup j fs x.
Proof.
  intros He. unfold jlookup. destruct (He (getSubDbPath j (x mod num_jfiles j))) as [->|[-> ->]]; [done|].
  by rewrite db_created_map, lookup_empty.
Qed.

Lemma extends_ok j fs fs' : extends fs fs' -> files_ok j fs -> files_ok j fs'.
Proof.
  intros He [Hn Hf]. split; [done|]. intros k d Hk Hd.
  destruct (He (getSubDbPath j k)) as [E|[E E']].
  - apply Hf; [done|]. by rewrite <- E.
  - assert (d = db_created) as -> by congruence. intros x Hx. rewrite db_created_map, lookup_empty in Hx.
    by apply is_Some_None in Hx.
Qed.

(** The answers of an environment in which nothing fails. *)
Definition io_fine : db_answers := mkIO BeginOk None None.

Lemma open_db_fine j k w :
  exists w', open_db io_fine j k w = (Ret tt, w') /\ extends (w_files w) (w_files w') /\
    is_Some (w_files w' !! getSubDbPath j k).
Proof.
  unfold open_db. simpl. destruct (w_files w !! getSubDbPath j k) as [d|] eqn:E.
  - eexists. split; [done|]. split; [by left|]. simpl. rewrite E. by eexists.
  - eexists. split; [done|]. simpl. split.
    + intros p. rewrite lookup_insert. case_decide; [|by left]. subst. by right.
    + rewrite lookup_insert_eq. by eexists.
Qed.

Lemma open_all_fine j ks dbs w :
  exists dbs' w', open_all io_fine j ks dbs w = (Ret dbs', w') /\
    extends (w_files w) (w_files w') /\
    (forall k, k ∈ ks -> is_Some (w_files w' !! getSubDbPath j k)) /\
    dbs' = foldl (fun l k => <[Z.to_nat k := true]> l) dbs ks.
Proof.
  revert dbs w. induction ks as [|k ks IH]; intros dbs w; cbn [open_all foldl].
  { exists dbs, w. split_and!; try done; [by left|]. intros k Hk. set_solver. }
  destruct (open_db_fine j k w) as (w1 & E1 & X1 & S1). rewrite E1.
  destruct (IH (<[Z.to_nat k := true]> dbs) w1) as (dbs' & w' & E & X & S & Ed).
  exists dbs', w'. split_and!; try done; [by eapply extends_trans|].
  intros k' [->|Hk']%elem_of_cons; [|by apply S].
  destruct (X (getSubDbPath j k)) as [->|[N _]]; [done|]. rewrite N in S1. by apply is_Some_None in S1.
Qed.

Lemma elem_of_jfiles j k : k ∈ jfiles j <-> 0 <= k < num_jfiles j.
Proof.
  unfold jfiles. rewrite list_elem_of_In, in_map_iff. split.
  - intros (x & <- & Hx). apply in_seq in Hx. lia.
  - intros Hk. exists (Z.to_nat k). split; [lia|]. apply in_seq. lia.
Qed.

Lemma set_all n : foldl (fun l k => <[Z.to_nat k := true]> l) (replicate n false) (map Z.of_nat (seq 0 n)) =
  replicate n true.
Proof.
  assert (Hg : forall m a, foldl (fun l k => <[Z.to_nat k := true]> l)
            (replicate a true ++ replicate m false) (map Z.of_nat (seq a m)) = replicate (a + m) true).
  { induction m as [|m IH]; intros a; simpl; [by rewrite app_nil_r, Nat.add_0_r|].
    rewrite Nat2Z.id. rewrite insert_app_r_alt by by rewrite length_replicate.
    rewrite length_replicate, Nat.sub_diag. simpl.
    rewrite cons_middle, app_assoc. rewrite <- replicate_S_end, (IH (S a)). f_equal. lia. }
  apply (Hg n 0%nat).
Qed.

(** Initialising a new object on well-formed files opens it and changes nothing
    that is stored. *)
Lemma init_fine_full name q dir bdb n w :
  let j := create name q dir bdb n true in
  files_ok j (w_files w) ->
  exists w' j', init_message_db io_fine j w = (Ret j', w') /\ jwf j' w' /\
    create_bdb j' = true /\ jfiles j' = jfiles j /\ getSubDbPath j' = getSubDbPath j /\
    num_jfiles j' = num_jfiles j /\
    (forall x, jlookup j' (w_files w') x = jlookup j (w_files w) x) /\ extends (w_files w) (w_files w').
Proof.
  intros j Hf. unfold init_message_db. simpl.
  destruct (open_all_fine j (jfiles j) (replicate (Z.to_nat n) false) w) as (dbs & w' & E & X & S & Ed).
  rewrite E. exists w', (set_dbs true dbs j). split_and!; try done.
  - split_and!; try done; [apply (extends_ok j (w_files w) (w_files w') X Hf)..| |].
    + simpl. rewrite Ed. apply set_all.
    + intros k Hk. apply S, elem_of_jfiles, Hk.
  - intros x. apply (extends_lookup j). done.
Qed.

Lemma init_fine name q dir bdb n w :
  let j := create name q dir bdb n true in
  files_ok j (w_files w) ->
  exists w' j', init_message_db io_fine j w = (Ret j', w') /\ jwf j' w' /\
    create_bdb j' = true /\ jfiles j' = jfiles j /\ getSubDbPath j' = getSubDbPath j /\
    num_jfiles j' = num_jfiles j /\
    forall x, jlookup j' (w_files w') x = jlookup j (w_files w) x.
Proof.
  intros j Hf. destruct (init_fine_full name q dir bdb n w Hf) as (w' & j' & E & H1 & H2 & H3 & H4 & H5 & H6 & _).
  by exists w', j'.
Qed.

Lemma scan_ok j k d : db_ok j k d -> db_scan d ≡ₚ map_to_list (db_map d).
Proof.
  intros Hd. destruct (decide (db_map d = ∅)) as [E|E].
  - apply (db_scan_law d 0). split; intros a; intros.
    all: unfold db_keys in *; rewrite E in *.
    all: repeat match goal with
         | H : _ \/ is_Some (∅ !! _) |- _ => destruct H as [->|[? H]]; [|by rewrite lookup_empty in H]
         end; done.
  - apply map_choose in E as (x & v & Hx). apply (db_scan_law d x).
    eapply db_keys_sane; [exact Hd|]. apply Hd. by eexists.
Qed.

Lemma rows_spec j w k x v :
  files_ok j (w_files w) -> 0 <= k < num_jfiles j ->
  (x, v) ∈ rows_of j w k <-> (x mod num_jfiles j = k /\ jlookup j (w_files w) x = Some v).
Proof.
  intros [Hn Hf] Hk. unfold rows_of, jlookup.
  destruct (w_files w !! getSubDbPath j k) as [d|] eqn:Ed.
  - pose proof (Hf k d Hk Ed) as Hd. rewrite (scan_ok j k d Hd), elem_of_map_to_list. split.
    + intros Hx. destruct (Hd x) as [Em _]; [by eexists|]. rewrite Em, Ed. done.
    + intros [Em Hx]. by rewrite Em, Ed in Hx.
  - split; [set_solver|]. intros [Em Hx]. by rewrite Em, Ed in Hx.
Qed.

Lemma rows_NoDup j w k : files_ok j (w_files w) -> 0 <= k < num_jfiles j -> NoDup (rows_of j w k).*1.
Proof.
  intros [Hn Hf] Hk. unfold rows_of.
  destruct (w_files w !! getSubDbPath j k) as [d|] eqn:Ed; [|constructor].
  rewrite (scan_ok j k d (Hf k d Hk Ed)). apply NoDup_fst_map_to_list.
Qed.

Lemma all_rows_NoDup j w ks :
  files_ok j (w_files w) -> NoDup ks -> (forall k, k ∈ ks -> 0 <= k < num_jfiles j) ->
  NoDup (concat (map (rows_of j w) ks)).*1.
Proof.
  intros Hf Hn Hk. induction ks as [|k ks IH]; [constructor|]. apply NoDup_cons in Hn as [Hkn Hn].
  cbn [map concat]. rewrite fmap_app. apply NoDup_app. split_and!.
  - apply rows_NoDup; [done|]. apply Hk. set_solver.
  - intros x ([x1 v] & -> & H1)%list_elem_of_fmap ([x2 v2] & E & H2)%list_elem_of_fmap. simpl in E. subst x2.
    apply rows_spec in H1 as [E1 _]; [|done|apply Hk; set_solver].
    apply list_elem_of_In, in_concat in H2 as (rows & Hr & Hx2). apply in_map_iff in Hr as (k2 & <- & Hk2).
    apply list_elem_of_In in Hk2, Hx2. apply rows_spec in Hx2 as [E2 _]; [|done|apply Hk; set_solver].
    apply Hkn. congruence.
  - apply IH; [done|]. intros k' Hk'. apply Hk. set_solver.
Qed.

(** A new object on a queue's files reads back what they hold. *)
Lemma recover_exact_full name q dir bdb n w :
  let j := create name q dir bdb n true in
  files_ok j (w_files w) ->
  exists j' l w', recoverMessages io_fine j w = (Ret (j', Some l), w') /\
    jwf j' w' /\ NoDup l.*1 /\
    (forall x v, (x, v) ∈ l <-> jlookup j (w_files w) x = Some v) /\
    (forall x, jlookup j' (w_files w') x = jlookup j (w_files w) x) /\ extends (w_files w) (w_files w').
Proof.
  intros j Hf. destruct (init_fine_full name q dir bdb n w Hf) as (w' & j' & E & Hj & Hc & Ef & _ & En & El & X).
  unfold recoverMessages, j. rewrite E, Hc. cbn [negb].
  destruct (rr_all_spec (map (rows_of j' w') (jfiles j'))) as (l & Er & P).
  exists j', l, w'. rewrite Er. split; [done|]. split; [done|]. pose proof Hj as [Hf' _].
  assert (Hks : forall k, k ∈ jfiles j' -> 0 <= k < num_jfiles j') by (intros k; apply elem_of_jfiles).
  split_and!; [| |exact El|exact X].
  - rewrite P. apply all_rows_NoDup; [done| |done]. unfold jfiles.
    apply (NoDup_fmap_2 Z.of_nat), NoDup_seq.
  - intros x v. rewrite P, list_elem_of_In, in_concat. rewrite <- El. split.
    + intros (rows & Hr & Hx). apply in_map_iff in Hr as (k & <- & Hk).
      apply list_elem_of_In in Hk, Hx. by apply rows_spec in Hx as [_ Hx]; auto.
    + intros Hx. exists (rows_of j' w' (x mod num_jfiles j')).
      assert (Hm : x mod num_jfiles j' ∈ jfiles j').
      { apply elem_of_jfiles, Z.mod_pos_bound. apply Hf'. }
      split; [apply in_map_iff; eexists; split; [done|by apply list_elem_of_In]|].
      apply list_elem_of_In, rows_spec; auto.
Qed.

Lemma recover_exact name q dir bdb n w :
  let j := create name q dir bdb n true in
  files_ok j (w_files w) ->
  exists j' l w', recoverMessages io_fine j w = (Ret (j', Some l), w') /\
    jwf j' w' /\ NoDup l.*1 /\
    forall x v, (x, v) ∈ l <-> jlookup j (w_files w) x = Some v.
Proof.
  intros j Hf. destruct (recover_exact_full name q dir bdb n w Hf) as (j' & l & w' & E & H1 & H2 & H3 & _).
  by exists j', l, w'.
Qed.


(** ** Content *)

(** Reading a message of an open journal, up to the answer of [Db::get]. *)
Lemma load_eq `{Framing} pid data len offset j w m :
  jwf j w -> in_window lo pid -> msg_ok m ->
  jlookup j (w_files w) pid = Some (msgEncode m).1 ->
  0 <= offset < 2 ^ 62 -> 0 <= len < 2 ^ 62 ->
  (exists d ex, db_get d pid = Throw ex /\ loadMsgContent pid data len offset j w = Throw ex) \/
  loadMsgContent pid data len offset j w =
    let size := Z.of_nat (length (msgEncode m).1) in
    let start := Z.of_nat (5 + length (m_header m)) + offset in
    let! chunk := read_block (msgEncode m).1 start
                    (if size <? start + len then sub64 (Z.of_nat (length (m_content m))) offset else len) in
    Ret (true, data ++ chunk).
Proof.
  intros Hj Hp Hm Hl Ho Hlen. unfold loadMsgContent. pose proof Hj as (_ & Hc & _). rewrite Hc. simpl negb.
  cbn match. rewrite (shard_ok j w pid Hj). destruct (db_of j w pid Hj) as (d & Hd & El & Hok).
  cbn [obind]. unfold db_at. rewrite Hd. cbn [obind].
  destruct (db_get d pid) as [v|x] eqn:Eg; [right|left; by exists d, x].
  apply (db_get_law d pid v (db_keys_sane j _ d pid Hok Hp)) in Eg. cbn [obind].
  rewrite <- El, Hl in Eg. subst v. destruct (stored_fields m Hm) as (Eh & _ & _ & Ls).
  unfold msg_ok in Hm. rewrite Eh, Ls.
  assert (E1 : u32 (Z.of_nat (5 + length (m_header m) + length (m_content m))) =
               Z.of_nat (5 + length (m_header m) + length (m_content m))) by (apply u32_small; lia).
  assert (E2 : u32 (Z.of_nat (length (m_header m)) + (4 + 1)) = Z.of_nat (5 + length (m_header m)))
    by (rewrite u32_small; lia).
  assert (E3 : u32 (Z.of_nat (5 + length (m_header m) + length (m_content m)) -
                    Z.of_nat (5 + length (m_header m))) = Z.of_nat (length (m_content m)))
    by (rewrite u32_small; lia).
  assert (E4 : add64 (add64 (Z.of_nat (5 + length (m_header m))) offset) len =
               Z.of_nat (5 + length (m_header m)) + offset + len)
    by (unfold add64; rewrite (u64_small (_ + offset)), u64_small; unfold is_u64; lia).
  rewrite E1, E2, E3, E4. case_goal; reflexivity.
Qed.

(** Loading part of the content of a stored message
    returns, appended to what was in the string, the requested bytes of the
    content, cut at its end: for any offset within the content and any length,
    and whatever was encoded around it. *)
Theorem load_content_slice `{Framing} pid data len offset j w m :
  jwf j w -> in_window lo pid -> msg_ok m ->
  jlookup j (w_files w) pid = Some (msgEncode m).1 ->
  0 <= offset <= Z.of_nat (length (m_content m)) -> 0 <= len < 2 ^ 62 ->
  (exists d ex, db_get d pid = Throw ex /\ loadMsgContent pid data len offset j w = Throw ex) \/
  loadMsgContent pid data len offset j w =
    Ret (true, data ++ take (Z.to_nat len) (drop (Z.to_nat offset) (m_content m))).
Proof.
  intros Hj Hp Hm Hl Ho Hlen. pose proof Hm as Hm'. unfold msg_ok in Hm'.
  destruct (load_eq pid data len offset j w m) as [Hx|E]; try done; [lia|by left|right].
  rewrite E. destruct (stored_fields m Hm) as (_ & _ & Ec & Ls). rewrite Ls. cbn zeta. unfold read_block.
  rewrite Ls.
  assert (Es : drop (Z.to_nat (Z.of_nat (5 + length (m_header m)) + offset)) (msgEncode m).1 =
               drop (Z.to_nat offset) (m_content m)).
  { rewrite Z2Nat.inj_add, Nat2Z.id by lia. by rewrite <- drop_drop, Ec. }
  rewrite Es. destruct (Z.ltb_spec (Z.of_nat (5 + length (m_header m) + length (m_content m)))
                          (Z.of_nat (5 + length (m_header m)) + offset + len)).
  - assert (sub64 (Z.of_nat (length (m_content m))) offset = Z.of_nat (length (m_content m)) - offset) as ->
      by (apply u64_small; unfold is_u64; lia).
    rewrite (proj2 (Z.leb_le _ _)) by lia. cbn [obind]. do 3 f_equal.
    rewrite !take_ge by (rewrite length_drop; lia). done.
  - rewrite (proj2 (Z.leb_le _ _)) by lia. done.
Qed.

(** An offset beyond the content is not checked: the
    count of bytes to append wraps around and the code reads outside the block. *)
Theorem load_past_end_undefined `{Framing} pid data len offset j w m :
  jwf j w -> in_window lo pid -> msg_ok m ->
  jlookup j (w_files w) pid = Some (msgEncode m).1 ->
  Z.of_nat (length (m_content m)) < offset < 2 ^ 62 -> 0 <= len < 2 ^ 62 ->
  (exists d ex, db_get d pid = Throw ex /\ loadMsgContent pid data len offset j w = Throw ex) \/
  loadMsgContent pid data len offset j w = Throw (Undefined "read outside the message").
Proof.
  intros Hj Hp Hm Hl Ho Hlen. pose proof Hm as Hm'. unfold msg_ok in Hm'.
  destruct (load_eq pid data len offset j w m) as [Hx|E]; try done; [lia|by left|right].
  rewrite E. destruct (stored_fields m Hm) as (_ & _ & _ & Ls). rewrite Ls. cbn zeta. unfold read_block.
  rewrite Ls. rewrite (proj2 (Z.ltb_lt _ _)) by lia.
  assert (sub64 (Z.of_nat (length (m_content m))) offset =
          2 ^ 64 + Z.of_nat (length (m_content m)) - offset) as ->.
  { unfold sub64, u64. symmetry. apply Z.mod_unique with (-1); lia. }
  rewrite (proj2 (Z.leb_gt _ _)) by lia. done.
Qed.

End spec.

(** ** Dummy journals *)

(** A journal created without databases has no
    files but keeps [create_bdb] set, because the constructor initialises the
    member with [true] instead of the argument: every store, removal or lookup on
    it divides by zero instead of doing nothing. *)
Theorem dummy_journal_divides_by_zero `{BT : !BTree bt_compare} name q dir bdb n io buf len pid w :
  let j := create name q dir bdb n false in
  create_bdb j = true /\
  enqueue_data io buf len pid j w = (Throw (Undefined "division by zero"), j, w) /\
  dequeue_data io pid j w = (Throw (Undefined "division by zero"), j, w) /\
  is_enqueued pid j w = Throw (Undefined "division by zero").
Proof. done. Qed.

(** ** The inactivity timer *)

(** The answers of [n] successive firings: whether each one flushed. *)
Fixpoint fires (n : nat) (j : JournalImpl) : list bool :=
  match n with
  | O => []
  | S m => let '(j', b) := flushFire j in b :: fires m j'
  end.

(** After write activity, the first firing of the timer only
    takes note, the second flushes, and no later one does until the next write. *)
Theorem flush_fires_once n j :
  writeActivityFlag j = true -> fires (S (S n)) j = false :: true :: replicate n false.
Proof.
  intros Ha. cbn [fires]. unfold flushFire at 1. rewrite Ha. unfold flushFire at 1. simpl.
  do 2 f_equal. induction n as [|n IH]; [done|]. simpl. by rewrite IH.
Qed.

Lemma flush_fires_once_witness :
  fires 4 (register_as_accepted [5] (create "q" 1 "d/" "b/" 4 true)) = [false; true; false; false].
Proof.
  apply (flush_fires_once 2 (register_as_accepted [5] (create "q" 1 "d/" "b/" 4 true))). reflexivity.
Defined.

(** ** Concrete runs *)

Definition ex_msg : Message := mkMsg [x68] [x61; x62; x63] true.

Section examples.
#[local] Existing Instance wire.
#[local] Instance ex_bt : BTree bt_compare := gmap_btree bt_compare.

Definition ex_w0 : world := mkWorld (mkEnv 0 [] false) ∅.
Definition ex_new : JournalImpl := create "q" 1 "jrnl/" "dat/" 2 true.
Definition ex_opened : result JournalImpl * world := init_message_db io_fine ex_new ex_w0.
Definition ex_j : JournalImpl := match ex_opened.1 with Ret j => j | Throw _ => ex_new end.
Definition ex_w : world := ex_opened.2.
Definition ex_ops : list jop :=
  [JEnq io_fine 10 (msgEncode ex_msg).1; JEnq io_fine 11 [x01]; JDeq io_fine 11].
Definition ex_end : JournalImpl * world :=
  match run_jops ex_ops ex_j ex_w with Ret jw => jw | Throw _ => (ex_j, ex_w) end.

Lemma ex_files_ok : files_ok 0 ex_new (w_files ex_w0).
Proof. split; [done|]. intros k d _ Hd. unfold ex_w0 in Hd. simpl in Hd.
  by rewrite lookup_empty in Hd.
Qed.

Lemma ex_jwf : jwf 0 ex_j ex_w.
Proof.
  destruct (init_fine 0 "q" 1 "jrnl/" "dat/" 2 ex_w0 ex_files_ok) as (w' & j' & E & Hj & _).
  unfold ex_j, ex_w, ex_opened. unfold ex_new. rewrite E. exact Hj.
Qed.

Lemma ex_empty x : jlookup ex_j (w_files ex_w) x = (∅ : gmap Z (list byte)) !! x.
Proof.
  destruct (init_fine 0 "q" 1 "jrnl/" "dat/" 2 ex_w0 ex_files_ok) as (w' & j' & E & _ & _ & _ & _ & _ & El).
  unfold ex_j, ex_w, ex_opened. unfold ex_new. rewrite E. apply El.
Qed.

Lemma ex_window : Forall (fun o => in_window 0 (jop_pid o)) ex_ops.
Proof. repeat constructor; simpl; lia. Qed.

Lemma ex_run : run_jops ex_ops ex_j ex_w = Ret ex_end.
Proof.
  assert (H : match run_jops ex_ops ex_j ex_w with Ret _ => true | Throw _ => false end = true)
    by (vm_compute; reflexivity).
  unfold ex_end. by destruct (run_jops ex_ops ex_j ex_w).
Qed.

Lemma journal_refines_map_witness :
  jlookup ex_end.1 (w_files ex_end.2) 10 = foldl jspec ∅ ex_ops !! 10 /\
  jlookup ex_end.1 (w_files ex_end.2) 11 = foldl jspec ∅ ex_ops !! 11.
Proof.
  split; apply (journal_refines_map 0 ex_ops ex_j ex_w ∅ ex_end.1 ex_end.2).
  - apply ex_jwf.
  - apply ex_window.
  - apply ex_empty.
  - rewrite ex_run. by destruct ex_end.
  - apply ex_jwf.
  - apply ex_window.
  - apply ex_empty.
  - rewrite ex_run. by destruct ex_end.
Defined.


Lemma ex_end_wf : jwf 0 ex_end.1 ex_end.2.
Proof.
  apply (run_jops_spec 0 ex_ops ex_j ex_w ∅ ex_end.1 ex_end.2 ex_jwf ex_window ex_empty).
  rewrite ex_run. by destruct ex_end.
Qed.

Lemma ex_end_lookup : jlookup ex_end.1 (w_files ex_end.2) 10 = Some (msgEncode ex_msg).1.
Proof.
  rewrite (proj2 (run_jops_spec 0 ex_ops ex_j ex_w ∅ ex_end.1 ex_end.2 ex_jwf ex_window ex_empty
                    ltac:(rewrite ex_run; by destruct ex_end))). vm_compute. reflexivity.
Qed.

Lemma load_content_slice_witness :
  (exists d x, db_get (BTree:=ex_bt) d 10 = Throw x /\ loadMsgContent 10 [] 9 1 ex_end.1 ex_end.2 = Throw x) \/
  loadMsgContent 10 [] 9 1 ex_end.1 ex_end.2 = Ret (true, [x62; x63]).
Proof.
  refine (load_content_slice 0 10 [] 9 1 ex_end.1 ex_end.2 ex_msg ex_end_wf _ _ ex_end_lookup _ _);
    unfold in_window, is_u64, msg_ok; simpl; lia.
Defined.

Lemma load_past_end_undefined_witness :
  (exists d x, db_get (BTree:=ex_bt) d 10 = Throw x /\ loadMsgContent 10 [] 9 4 ex_end.1 ex_end.2 = Throw x) \/
  loadMsgContent 10 [] 9 4 ex_end.1 ex_end.2 = Throw (Undefined "read outside the message").
Proof.
  refine (load_past_end_undefined 0 10 [] 9 4 ex_end.1 ex_end.2 ex_msg ex_end_wf _ _ ex_end_lookup _ _);
    unfold in_window, is_u64, msg_ok; simpl; lia.
Defined.

End examples.
