(* ===== verification/Durability.v ===== *)
(** The life of a message through the asynchronous store: lib/BdbStoreProvider.cpp,
    [enqueue], [dequeue], [store] and [async_dequeue], as a step relation over the
    interleavings of the broker's threads and of the two thread pools.

    A state holds what survives a crash, which is the records of the two logs and
    the stored messages, and what does not, which is the tracker, the tasks of the
    pools with the point each has reached, and the next id. The logs are their
    record lists ([LoggerSpec] shows that the logger implements them, cleaning
    included) and the journals their map ([JournalSpec]); the tracker is the
    concrete one of [PidTracker]. Tasks are kept as sets: the pools start them in
    order, so every run of the pools is a run here.

    The theorems say what a crash at any moment leaves: every message that was
    enqueued and not dequeued, and no message that was dequeued. *)
From S2P Require Import Prelude NestedMap PendingOps LogFormat LogExtract PidTracker.
From Stdlib Require Import ZArith Lia.
Import PidTracker.

(** A message on a queue: queue id and message id. *)
Abbreviation mkey := (Z * Z)%type.

(** Where a [store] task is: before [enqueueCheck], before [enqueue_data] (with
    [toExec]), before [log_enqueue_complete], before [addPid]; or ended by an
    exception of [enqueue_data]. *)
Inductive sphase : Type := SCheck | SData (toExec : bool) | SLog | SAdd | SFailed.

(** A [store] task; [si_new] tells an id drawn by this enqueue from the id of a
    message that is already on another queue. *)
Record sitem := mkItem { si_val : PendingAsyncEnqueue; si_new : bool; si_ph : sphase }.

(** Where an [async_dequeue] task is: in the two waits of [waitForPid], before
    [dequeue_data], before [log_dequeue_complete]; or ended by the stop answer or
    an exception. *)
Inductive dphase : Type := DWait | DWaitMain | DData | DLog | DFailed.

Record dsys := mkD {
  d_enq : list (log_rec PendingAsyncEnqueue);
  d_deq : list (log_rec PendingAsyncDequeue);
  d_store : gmap mkey (list byte);
  d_tr : PidTracker;
  d_items : gmap mkey sitem;
  d_deqs : gmap mkey dphase;
  d_next : Z;
  d_out : gset mkey            (* ghost: the messages that [dequeue] was called for *)
}.

Section durability.
Context `{HostEndian, HostAlloc}.
Variable smart : bool.         (* options.enableSmartAsync *)
Variable base : Z.             (* the last id at the start of the session *)
Variable old : gmap mkey (list byte).   (* what was stored at the start of the session *)

Implicit Types (s : dsys) (k : mkey) (q p : Z) (v : PendingAsyncEnqueue).

(** ** Steps *)

(** The tracker calls of [enqueue] and of the smart-async checks. *)
Definition will (q p : Z) (t : PidTracker) : PidTracker :=
  if smart then (willEnqueue p q t).2 else t.
Definition deq_check (q p : Z) (t : PidTracker) : bool * PidTracker :=
  if smart then dequeueCheck p q t else (true, t).
Definition enq_check (q p : Z) (t : PidTracker) : bool * PidTracker :=
  if smart then enqueueCheck p q t else (true, t).

(** [enqueue] on queue [q] of a message with id [p]. *)
Definition do_enqueue (q p : Z) (new : bool) (buf : list byte) (transient : bool) s : dsys :=
  let t := if new then d_tr s else (addDuplicate p q (d_tr s)).2 in
  let v := mkPAE p q buf (Z.of_nat (length buf)) transient in
  mkD (d_enq s ++ [LStart v]) (d_deq s) (d_store s) (will q p t)
      (<[(q, p) := mkItem v new SCheck]> (d_items s)) (d_deqs s)
      (if new then p + 1 else d_next s) (d_out s).

(** [dequeue] *)
Definition do_dequeue (q p : Z) s : dsys :=
  let '(toExec, t) := deq_check q p (d_tr s) in
  if toExec then
    mkD (d_enq s) (d_deq s ++ [LStart (mkPAD p q)]) (d_store s) t (d_items s)
        (<[(q, p) := DWait]> (d_deqs s)) (d_next s) ({[(q, p)]} ∪ d_out s)
  else
    mkD (d_enq s ++ [LComplete p q]) (d_deq s) (d_store s) t (d_items s) (d_deqs s) (d_next s)
        ({[(q, p)]} ∪ d_out s).

Definition set_item k (i : sitem) s : dsys :=
  mkD (d_enq s) (d_deq s) (d_store s) (d_tr s) (<[k := i]> (d_items s)) (d_deqs s) (d_next s) (d_out s).
Definition set_deq k (d : dphase) s : dsys :=
  mkD (d_enq s) (d_deq s) (d_store s) (d_tr s) (d_items s) (<[k := d]> (d_deqs s)) (d_next s) (d_out s).
Definition set_tr (t : PidTracker) s : dsys :=
  mkD (d_enq s) (d_deq s) (d_store s) t (d_items s) (d_deqs s) (d_next s) (d_out s).

(** The four stretches of [store]. *)
Definition store_check (q p : Z) (i : sitem) s : dsys :=
  let '(toExec, t) := enq_check q p (d_tr s) in
  set_item (q, p) (mkItem (si_val i) (si_new i) (SData toExec)) (set_tr t s).
Definition store_data (q p : Z) (toExec : bool) (i : sitem) s : dsys :=
  let st := if toExec then match d_store s !! (q, p) with
                           | Some _ => d_store s
                           | None => <[(q, p) := pae_buff (si_val i)]> (d_store s)
                           end
            else d_store s in
  mkD (d_enq s) (d_deq s) st (d_tr s)
      (<[(q, p) := mkItem (si_val i) (si_new i) SLog]> (d_items s)) (d_deqs s) (d_next s) (d_out s).
Definition store_log (q p : Z) (i : sitem) s : dsys :=
  mkD (d_enq s ++ [LComplete p q]) (d_deq s) (d_store s) (d_tr s)
      (<[(q, p) := mkItem (si_val i) (si_new i) SAdd]> (d_items s)) (d_deqs s) (d_next s) (d_out s).
Definition store_add (q p : Z) s : dsys :=
  mkD (d_enq s) (d_deq s) (d_store s) (addPid p q (d_tr s)).2 (delete (q, p) (d_items s))
      (d_deqs s) (d_next s) (d_out s).

(** The last two stretches of [async_dequeue]. *)
Definition deq_data (q p : Z) s : dsys :=
  mkD (d_enq s) (d_deq s) (delete (q, p) (d_store s)) (d_tr s) (d_items s)
      (<[(q, p) := DLog]> (d_deqs s)) (d_next s) (d_out s).
Definition deq_log (q p : Z) s : dsys :=
  mkD (d_enq s) (d_deq s ++ [LComplete p q]) (d_store s) (d_tr s) (d_items s)
      (delete (q, p) (d_deqs s)) (d_next s) (d_out s).

(** The message was enqueued in this session or before it. *)
Definition enqueued s q p : Prop := starts (d_enq s) q p <> [] \/ is_Some (old !! (q, p)).

(** The steps. The broker enqueues a message on a queue at most once and dequeues
    it at most once, after the enqueue returned. *)
Inductive dstep s : dsys -> Prop :=
| St_enqueue_new q buf tr :
    dstep s (do_enqueue q (d_next s) true buf tr s)
| St_enqueue_dup q p buf tr :
    p < d_next s -> ~ enqueued s q p ->
    dstep s (do_enqueue q p false buf tr s)
| St_dequeue q p :
    enqueued s q p -> (q, p) ∉ d_out s -> dstep s (do_dequeue q p s)
| St_check q p i :
    d_items s !! (q, p) = Some i -> si_ph i = SCheck -> dstep s (store_check q p i s)
| St_data q p i b :
    d_items s !! (q, p) = Some i -> si_ph i = SData b -> dstep s (store_data q p b i s)
| St_data_throws q p i :
    d_items s !! (q, p) = Some i -> si_ph i = SData true ->
    dstep s (set_item (q, p) (mkItem (si_val i) (si_new i) SFailed) s)
| St_log q p i :
    d_items s !! (q, p) = Some i -> si_ph i = SLog -> dstep s (store_log q p i s)
| St_add q p i :
    d_items s !! (q, p) = Some i -> si_ph i = SAdd -> dstep s (store_add q p s)
| St_wait_dup q p :
    d_deqs s !! (q, p) = Some DWait -> qm_mem (dupMap (d_tr s)) q p = false ->
    dstep s (set_deq (q, p) DWaitMain s)
| St_wait_main q p :
    d_deqs s !! (q, p) = Some DWaitMain -> p <= lastPid (mainRecord (d_tr s)) ->
    dstep s (set_deq (q, p) DData s)
| St_redispatch q p :
    d_deqs s !! (q, p) = Some DWaitMain -> dstep s (set_deq (q, p) DWait s)
| St_deq_ends q p d :
    d_deqs s !! (q, p) = Some d -> d = DWait \/ d = DWaitMain \/ d = DData ->
    dstep s (set_deq (q, p) DFailed s)
| St_deq_data q p :
    d_deqs s !! (q, p) = Some DData -> dstep s (deq_data q p s)
| St_deq_log q p :
    d_deqs s !! (q, p) = Some DLog -> dstep s (deq_log q p s).

(** A session starts with empty logs and no task; the messages stored before have
    ids up to [base], to which the tracker was reset. *)
Definition d_init s : Prop :=
  d_enq s = [] /\ d_deq s = [] /\ d_store s = old /\ d_items s = ∅ /\ d_deqs s = ∅ /\
  d_out s = ∅ /\ d_next s = base + 1 /\
  dupMap (d_tr s) = ∅ /\ pendMap (d_tr s) = ∅ /\ mainRecord (d_tr s) = mkPidRecord base ∅ /\
  (forall q p, is_Some (old !! (q, p)) -> p <= base).

Inductive dreach (s0 : dsys) : dsys -> Prop :=
| Dr_refl : dreach s0 s0
| Dr_step s s' : dreach s0 s -> dstep s s' -> dreach s0 s'.

(** ** What a crash leaves *)

Definition enq_pending s q p : option PendingAsyncEnqueue := pending (d_enq s) q p.
Definition deq_pending s q p : option PendingAsyncDequeue := pending (d_deq s) q p.

(** The message a restart should give back: pending dequeues win, then what is
    stored, then the pending enqueues. *)
Definition survives s q p : option (list byte) :=
  match deq_pending s q p with
  | Some _ => None
  | None => match d_store s !! (q, p) with
            | Some b => Some b
            | None => pae_buff <$> enq_pending s q p
            end
  end.

(** ** The life of one message *)

Inductive stage : Type :=
| GNone | GUnwritten (b : list byte) | GWritten (b : list byte) | GRemoved | GCancelled.

(** The enqueue side: what was stored at the start, the start records, completed,
    what is stored, the task, pending in the smart-async map. *)
Inductive eside : option (list byte) -> list PendingAsyncEnqueue -> bool -> option (list byte) ->
    option sitem -> bool -> stage -> Prop :=
| E_none : eside None [] false None None false GNone
| E_old b : eside (Some b) [] false (Some b) None false (GWritten b)
| E_old_removed b : eside (Some b) [] false None None false GRemoved
| E_check v n : eside None [v] false None (Some (mkItem v n SCheck)) smart (GUnwritten (pae_buff v))
| E_data v n : eside None [v] false None (Some (mkItem v n (SData true))) false (GUnwritten (pae_buff v))
| E_failed v n : eside None [v] false None (Some (mkItem v n SFailed)) false (GUnwritten (pae_buff v))
| E_log v n : eside None [v] false (Some (pae_buff v)) (Some (mkItem v n SLog)) false (GWritten (pae_buff v))
| E_add v n : eside None [v] true (Some (pae_buff v)) (Some (mkItem v n SAdd)) false (GWritten (pae_buff v))
| E_done v : eside None [v] true (Some (pae_buff v)) None false (GWritten (pae_buff v))
| E_removed v : eside None [v] true None None false GRemoved
| E_cancelled v n ph : smart = true -> ph = SCheck \/ ph = SData false \/ ph = SLog \/ ph = SAdd ->
    eside None [v] true None (Some (mkItem v n ph)) false GCancelled
| E_cancelled_done v : eside None [v] true None None false GCancelled.

Definition on_journal (g : stage) : Prop := exists b, g = GUnwritten b \/ g = GWritten b.

(** The dequeue side, given the stage and the task of the enqueue side: start
    records, completed, task, dequeue called. *)
Inductive dside : stage -> option sitem -> list PendingAsyncDequeue -> bool -> option dphase -> bool -> Prop :=
| D_none g it : g = GNone \/ on_journal g -> dside g it [] false None false
| D_cancelled it : dside GCancelled it [] false None true
| D_wait g it x d : on_journal g ->
    d = DWait \/ d = DFailed \/ (d = DWaitMain /\ forall i, it = Some i -> si_new i = true) ->
    dside g it [x] false (Some d) true
| D_data b x : dside (GWritten b) None [x] false (Some DData) true
| D_log x : dside GRemoved None [x] false (Some DLog) true
| D_done x : dside GRemoved None [x] true None true.

(** Everything the state says about one message. *)
Record kview := mkView {
  v_es : list PendingAsyncEnqueue; v_ec : bool; v_st : option (list byte); v_it : option sitem;
  v_pend : bool; v_ds : list PendingAsyncDequeue; v_dc : bool; v_dq : option dphase; v_out : bool
}.

Definition view s k : kview :=
  mkView (starts (d_enq s) k.1 k.2) (bool_decide (completed (d_enq s) k.1 k.2)) (d_store s !! k)
         (d_items s !! k) (qm_mem (pendMap (d_tr s)) k.1 k.2)
         (starts (d_deq s) k.1 k.2) (bool_decide (completed (d_deq s) k.1 k.2))
         (d_deqs s !! k) (bool_decide (k ∈ d_out s)).

Definition kok (o : option (list byte)) (w : kview) : Prop :=
  exists g, eside o (v_es w) (v_ec w) (v_st w) (v_it w) (v_pend w) g /\
            dside g (v_it w) (v_ds w) (v_dc w) (v_dq w) (v_out w).

Definition kinv s k : Prop := kok (old !! k) (view s k).

(** The tracker knows every unfinished store. *)
Record tinv s (added : gset Z) : Prop := {
  t_tracks : tracks base added (mainRecord (d_tr s));
  t_added : forall x, x ∈ added -> base < x < d_next s;
  t_new : forall q p i, d_items s !! (q, p) = Some i -> si_new i = true ->
    base < p < d_next s /\ (p ∉ added) /\ qm_mem (dupMap (d_tr s)) q p = false;
  t_dup : forall q p i, d_items s !! (q, p) = Some i -> si_new i = false ->
    qm_mem (dupMap (d_tr s)) q p = true;
  t_uniq : forall q q' p i i', d_items s !! (q, p) = Some i -> d_items s !! (q', p) = Some i' ->
    si_new i = true -> si_new i' = true -> q = q';
  t_next : base < d_next s;
  t_unseen : forall q p, d_next s <= p -> d_items s !! (q, p) = None /\ ~ enqueued s q p /\
    qm_mem (dupMap (d_tr s)) q p = false
}.

Definition dinv s : Prop := (forall k, kinv s k) /\ exists added, tinv s added.

(** ** What the calls do to the tracker *)

Lemma will_pend q p t q' p' :
  qm_mem (pendMap (will q p t)) q' p' =
  if decide ((q, p) = (q', p')) then smart || qm_mem (pendMap t) q' p' else qm_mem (pendMap t) q' p'.
Proof.
  unfold will. destruct smart; simpl; [|by case_decide].
  pose proof (pend_run_mem (PWill p q) t q' p') as E. simpl in E. rewrite E.
  repeat case_decide; naive_solver.
Qed.

Lemma check_pend q p t q' p' :
  qm_mem (pendMap (deq_check q p t).2) q' p' =
    (if decide ((q, p) = (q', p')) then (if smart then false else qm_mem (pendMap t) q' p')
     else qm_mem (pendMap t) q' p') /\
  qm_mem (pendMap (enq_check q p t).2) q' p' =
    (if decide ((q, p) = (q', p')) then (if smart then false else qm_mem (pendMap t) q' p')
     else qm_mem (pendMap t) q' p').
Proof.
  unfold deq_check, enq_check. destruct smart; simpl; [|by repeat case_decide].
  pose proof (pend_run_mem (PDeq p q) t q' p') as E1. pose proof (pend_run_mem (PEnq p q) t q' p') as E2.
  simpl in E1, E2. rewrite E1, E2. split; repeat case_decide; naive_solver.
Qed.

Lemma check_answers q p t :
  (deq_check q p t).1 = negb (smart && qm_mem (pendMap t) q p) /\
  (enq_check q p t).1 = (if smart then qm_mem (pendMap t) q p else true).
Proof.
  unfold deq_check, enq_check. destruct smart; simpl; [|done].
  by rewrite dequeueCheck_mem, enqueueCheck_mem.
Qed.

(** The smart-async calls only touch [pendMap]. *)
Lemma checks_frame q p t :
  (dupMap (will q p t) = dupMap t /\ mainRecord (will q p t) = mainRecord t) /\
  (dupMap (deq_check q p t).2 = dupMap t /\ mainRecord (deq_check q p t).2 = mainRecord t) /\
  (dupMap (enq_check q p t).2 = dupMap t /\ mainRecord (enq_check q p t).2 = mainRecord t).
Proof.
  unfold will, deq_check, enq_check, willEnqueue, dequeueCheck, enqueueCheck.
  destruct smart, (pendMap t !! q); repeat case_goal; done.
Qed.

Lemma addDuplicate_dup q p t q' p' :
  qm_mem (dupMap (addDuplicate p q t).2) q' p' =
    (if decide ((q, p) = (q', p')) then true else qm_mem (dupMap t) q' p') /\
  mainRecord (addDuplicate p q t).2 = mainRecord t /\ pendMap (addDuplicate p q t).2 = pendMap t.
Proof.
  unfold addDuplicate. destruct (dupMap t !! q) as [x|] eqn:E; simpl; (split; [|done]);
    rewrite qm_mem_insert; unfold qm_mem; repeat case_decide; simplify_eq; try done; rewrite ?E;
    first [apply bool_decide_eq_true; set_solver | apply bool_decide_ext; set_solver
          | apply bool_decide_eq_false; set_solver].
Qed.

(** [addPid] of a repeated enqueue forgets it; of a first one it counts it. *)
Lemma addPid_dup_item q p t :
  qm_mem (dupMap t) q p = true ->
  mainRecord (addPid p q t).2 = mainRecord t /\ pendMap (addPid p q t).2 = pendMap t /\
  forall q' p', qm_mem (dupMap (addPid p q t).2) q' p' =
    if decide ((q, p) = (q', p')) then false else qm_mem (dupMap t) q' p'.
Proof.
  unfold addPid, addPid_dup, qm_mem at 1. destruct (dupMap t !! q) as [x|] eqn:E; [|done].
  intros Hx. rewrite Hx. simpl. split_and!; [done..|]. intros q' p'.
  apply bool_decide_eq_true in Hx. case_decide as Hd.
  - unfold qm_mem. case_decide as Hk; simplify_eq.
    + by rewrite lookup_delete_eq.
    + rewrite lookup_delete. case_decide; [|done]. subst q'. rewrite E. symmetry.
      apply bool_decide_eq_false. set_solver.
  - rewrite qm_mem_insert. unfold qm_mem. repeat case_decide; simplify_eq; try done.
    all: first [apply bool_decide_eq_false; set_solver | rewrite E; apply bool_decide_ext; set_solver].
Qed.

Lemma addPid_new_item q p t :
  qm_mem (dupMap t) q p = false ->
  addPid p q t = ((addPid_main p (mainRecord t)).1, set_main (addPid_main p (mainRecord t)).2 t).
Proof.
  unfold addPid, addPid_dup, qm_mem. destruct (dupMap t !! q) as [x|]; [intros ->|intros _];
    simpl; by destruct (addPid_main p (mainRecord t)).
Qed.

(** ** Views of the messages a step does not concern *)

Lemma starts_snoc_other {V} `{!LogKind V} h (r : log_rec V) q p :
  rec_key r <> (q, p) -> starts (h ++ [r]) q p = starts h q p.
Proof.
  intros Hr. rewrite starts_app. destruct r; simpl in *; [|by rewrite app_nil_r].
  rewrite decide_False by done. by rewrite app_nil_r.
Qed.

Lemma completed_snoc {V} `{!LogKind V} h (r : log_rec V) q p :
  bool_decide (completed (h ++ [r]) q p) =
  bool_decide (completed h q p) || match r with
                                   | LStart _ => false
                                   | LComplete p' q' => bool_decide ((q', p') = (q, p))
                                   end.
Proof.
  assert (E : completed (h ++ [r]) q p <-> completed h q p \/ r = LComplete p q).
  { rewrite completed_app. unfold completed. rewrite list_elem_of_singleton. naive_solver. }
  rewrite (bool_decide_ext _ _ E), bool_decide_or. f_equal.
  destruct r; [by apply bool_decide_eq_false|]. apply bool_decide_ext. naive_solver.
Qed.

(** The simplification of views: lookups and log records under [k <> k0]. *)
Ltac view_ne :=
  repeat match goal with
  | |- context [<[?a := _]> _ !! ?b] => rewrite lookup_insert_ne by congruence
  | |- context [delete ?a _ !! ?b] => rewrite lookup_delete_ne by congruence
  | |- context [starts (_ ++ [_]) _ _] => rewrite starts_snoc_other by (simpl; congruence)
  | |- context [bool_decide (completed (_ ++ [_]) _ _)] => rewrite completed_snoc
  | |- context [bool_decide ((?a, ?b) = (?c, ?d))] =>
      rewrite (bool_decide_eq_false_2 ((a, b) = (c, d))) by congruence
  | |- context [decide ((?a, ?b) = (?c, ?d))] => rewrite (decide_False (P := (a, b) = (c, d))) by congruence
  end; rewrite ?orb_false_r.

Lemma out_other k k0 (X : gset mkey) : k <> k0 -> bool_decide (k ∈ ({[k0]} ∪ X)) = bool_decide (k ∈ X).
Proof. intros Hk. apply bool_decide_ext. set_solver. Qed.

Lemma view_enqueue q p new buf tr s k :
  k <> (q, p) -> view (do_enqueue q p new buf tr s) k = view s k.
Proof.
  destruct k as [q' p']. intros Hk. unfold view, do_enqueue. simpl. view_ne. f_equal.
  rewrite will_pend. view_ne. destruct new; [done|]. by destruct (addDuplicate_dup q p (d_tr s) q p) as (_ & _ & ->).
Qed.

Lemma view_dequeue q p s k : k <> (q, p) -> view (do_dequeue q p s) k = view s k.
Proof.
  destruct k as [q' p']. intros Hk. unfold view, do_dequeue.
  destruct (deq_check q p (d_tr s)) as [b t] eqn:Et. destruct (check_pend q p (d_tr s) q' p') as [Ep _].
  rewrite Et in Ep. simpl in Ep. rewrite decide_False in Ep by congruence.
  destruct b; simpl; view_ne; rewrite Ep; f_equal; by apply out_other.
Qed.

Lemma view_check q p i s k : k <> (q, p) -> view (store_check q p i s) k = view s k.
Proof.
  destruct k as [q' p']. intros Hk. unfold view, store_check.
  destruct (enq_check q p (d_tr s)) as [b t] eqn:Et. destruct (check_pend q p (d_tr s) q' p') as [_ Ep].
  rewrite Et in Ep. simpl in Ep. rewrite decide_False in Ep by congruence. simpl. view_ne. by rewrite Ep.
Qed.

Lemma addPid_pend q p t : pendMap (addPid p q t).2 = pendMap t.
Proof.
  destruct (qm_mem (dupMap t) q p) eqn:E; [by apply addPid_dup_item|]. by rewrite addPid_new_item.
Qed.

Lemma view_others q p s k :
  k <> (q, p) ->
  (forall b i, view (store_data q p b i s) k = view s k) /\
  (forall i, view (store_log q p i s) k = view s k) /\
  view (store_add q p s) k = view s k /\
  (forall i, view (set_item (q, p) i s) k = view s k) /\
  (forall d, view (set_deq (q, p) d s) k = view s k) /\
  view (deq_data q p s) k = view s k /\ view (deq_log q p s) k = view s k.
Proof.
  destruct k as [q' p']. intros Hk. unfold view. split_and!; intros; simpl; view_ne; try done.
  - unfold store_data. simpl. f_equal. destruct b; [|done]. destruct (d_store s !! (q, p)); [done|]. by view_ne.
  - by rewrite addPid_pend.
Qed.

(** ** The view of the message a step concerns *)

Definition own_enqueue v n (w : kview) : kview :=
  mkView (v_es w ++ [v]) (v_ec w) (v_st w) (Some (mkItem v n SCheck)) (smart || v_pend w)
         (v_ds w) (v_dc w) (v_dq w) (v_out w).
Definition own_dequeue x (w : kview) : kview :=
  if negb (smart && v_pend w)
  then mkView (v_es w) (v_ec w) (v_st w) (v_it w) (if smart then false else v_pend w)
              (v_ds w ++ [x]) (v_dc w) (Some DWait) true
  else mkView (v_es w) true (v_st w) (v_it w) (if smart then false else v_pend w)
              (v_ds w) (v_dc w) (v_dq w) true.
Definition own_check (i : sitem) (w : kview) : kview :=
  mkView (v_es w) (v_ec w) (v_st w)
         (Some (mkItem (si_val i) (si_new i) (SData (if smart then v_pend w else true))))
         (if smart then false else v_pend w) (v_ds w) (v_dc w) (v_dq w) (v_out w).
Definition own_item (ec : bool) (st : option (list byte)) (it : option sitem) (w : kview) : kview :=
  mkView (v_es w) ec st it (v_pend w) (v_ds w) (v_dc w) (v_dq w) (v_out w).
Definition own_deq (st : option (list byte)) (dc : bool) (dq : option dphase) (w : kview) : kview :=
  mkView (v_es w) (v_ec w) st (v_it w) (v_pend w) (v_ds w) dc dq (v_out w).

Lemma completed_self {V} `{!LogKind V} h q p :
  bool_decide (completed (V:=V) (h ++ [LComplete p q]) q p) = true.
Proof. rewrite completed_snoc. rewrite (bool_decide_eq_true_2 (_ = _)) by done. apply orb_true_r. Qed.

Lemma completed_start {V} `{!LogKind V} h (v : V) q p :
  bool_decide (completed (h ++ [LStart v]) q p) = bool_decide (completed h q p).
Proof. rewrite completed_snoc. apply orb_false_r. Qed.

Lemma starts_self {V} `{!LogKind V} h (v : V) : starts (h ++ [LStart v]) (k_qid v) (k_pid v) =
  starts h (k_qid v) (k_pid v) ++ [v].
Proof. rewrite starts_app. simpl. by rewrite decide_True. Qed.

Lemma starts_complete {V} `{!LogKind V} h p' q' q p : starts (V:=V) (h ++ [LComplete p' q']) q p = starts h q p.
Proof. rewrite starts_app. apply app_nil_r. Qed.

Lemma out_self k (X : gset mkey) : bool_decide (k ∈ ({[k]} ∪ X)) = true.
Proof. apply bool_decide_eq_true. set_solver. Qed.

Lemma view_enqueue_own q p new buf tr s :
  view (do_enqueue q p new buf tr s) (q, p) =
  own_enqueue (mkPAE p q buf (Z.of_nat (length buf)) tr) new (view s (q, p)).
Proof.
  unfold view, do_enqueue, own_enqueue. simpl. rewrite lookup_insert_eq, completed_start.
  set (v := mkPAE p q buf (Z.of_nat (length buf)) tr).
  change q with (k_qid v) at 1. change p with (k_pid v) at 1. rewrite starts_self. simpl. f_equal.
  rewrite will_pend, decide_True by done. f_equal.
  destruct new; [done|]. by destruct (addDuplicate_dup q p (d_tr s) q p) as (_ & _ & ->).
Qed.

Lemma view_dequeue_own q p s :
  view (do_dequeue q p s) (q, p) = own_dequeue (mkPAD p q) (view s (q, p)).
Proof.
  unfold view, do_dequeue, own_dequeue. simpl.
  destruct (deq_check q p (d_tr s)) as [b t] eqn:Et. destruct (check_pend q p (d_tr s) q p) as [Ep _].
  destruct (check_answers q p (d_tr s)) as [Ea _]. rewrite Et in Ep, Ea. simpl in Ep, Ea.
  rewrite decide_True in Ep by done. rewrite <- Ea. destruct b; simpl.
  - rewrite lookup_insert_eq, completed_start, out_self, Ep. f_equal.
    exact (starts_self (V:=PendingAsyncDequeue) (d_deq s) (mkPAD p q)).
  - by rewrite starts_complete, completed_self, out_self, Ep.
Qed.

Lemma view_check_own q p i s :
  view (store_check q p i s) (q, p) = own_check i (view s (q, p)).
Proof.
  unfold view, store_check, own_check. simpl.
  destruct (enq_check q p (d_tr s)) as [b t] eqn:Et. destruct (check_pend q p (d_tr s) q p) as [_ Ep].
  destruct (check_answers q p (d_tr s)) as [_ Ea]. rewrite Et in Ep, Ea. simpl in Ep, Ea.
  rewrite decide_True in Ep by done. simpl. by rewrite lookup_insert_eq, Ep, Ea.
Qed.

Lemma view_others_own q p s (w := view s (q, p)) :
  (forall i, view (set_item (q, p) i s) (q, p) = own_item (v_ec w) (v_st w) (Some i) w) /\
  (forall b i, view (store_data q p b i s) (q, p) =
     own_item (v_ec w) (if b then Some (default (pae_buff (si_val i)) (v_st w)) else v_st w)
       (Some (mkItem (si_val i) (si_new i) SLog)) w) /\
  (forall i, view (store_log q p i s) (q, p) =
     own_item true (v_st w) (Some (mkItem (si_val i) (si_new i) SAdd)) w) /\
  view (store_add q p s) (q, p) = own_item (v_ec w) (v_st w) None w /\
  (forall d, view (set_deq (q, p) d s) (q, p) = own_deq (v_st w) (v_dc w) (Some d) w) /\
  view (deq_data q p s) (q, p) = own_deq None (v_dc w) (Some DLog) w /\
  view (deq_log q p s) (q, p) = own_deq (v_st w) true None w.
Proof.
  unfold w, view, own_item, own_deq. split_and!; intros; simpl;
    rewrite ?lookup_insert_eq, ?lookup_delete_eq, ?starts_complete, ?completed_self, ?addPid_pend; try done.
  unfold store_data. simpl. f_equal. destruct b; [|done].
  destruct (d_store s !! (q, p)) as [x|] eqn:E; simpl; [done|]. by rewrite lookup_insert_eq.
Qed.

(** ** Each step keeps the life of its message well formed *)

Ltac life :=
  repeat match goal with
  | H : kok _ _ |- _ => destruct H as (? & ? & ?)
  | w : kview |- _ => destruct w
  end; simpl in *; simplify_eq;
  match goal with H : eside _ _ _ _ _ _ _ |- _ => inversion H; clear H; subst end; simplify_eq;
  match goal with H : dside _ _ _ _ _ _ |- _ => inversion H; clear H; subst end; simplify_eq/=.

Ltac on_j := unfold on_journal; eauto 6.

(** Find the stage and the constructors that describe the new view. *)
Ltac kok_solve :=
  unfold kok; simpl; eexists; split;
  [econstructor; eauto; fail | econstructor; unfold on_journal in *; naive_solver eauto].

Ltac kok_cases := try (exfalso; unfold on_journal in *; naive_solver; fail); try kok_solve.

Lemma kok_fresh (w : kview) :
  kok None w -> v_es w = [] -> w = mkView [] false None None false [] false None false.
Proof. intros Hk He. life; unfold on_journal in *; naive_solver. Qed.

Lemma kok_enqueue v n (w : kview) : kok None w -> v_es w = [] -> kok None (own_enqueue v n w).
Proof. intros Hk He. rewrite (kok_fresh w Hk He). unfold own_enqueue. simpl.
  rewrite orb_false_r. kok_solve.
Qed.

Lemma kok_dequeue o x (w : kview) :
  kok o w -> v_es w <> [] \/ is_Some o -> v_out w = false -> kok o (own_dequeue x w).
Proof.
  intros Hk He Ho. pose proof (is_Some_None (A:=list byte)) as HN.
  unfold own_dequeue. life; destruct smart eqn:Es; simpl; kok_cases.
  exists (GUnwritten (pae_buff v)). split; [|constructor; on_j].
  pose proof (E_check v n) as HE. by rewrite Es in HE.
Qed.

Lemma kok_check o i (w : kview) :
  kok o w -> v_it w = Some i -> si_ph i = SCheck -> kok o (own_check i w).
Proof.
  intros Hk Hi Hp. unfold own_check. life; destruct smart eqn:Es; simpl; kok_cases.
Qed.

Lemma kok_data o b i (w : kview) :
  kok o w -> v_it w = Some i -> si_ph i = SData b ->
  kok o (own_item (v_ec w) (if b then Some (default (pae_buff (si_val i)) (v_st w)) else v_st w)
           (Some (mkItem (si_val i) (si_new i) SLog)) w).
Proof. intros Hk Hi Hp. unfold own_item. destruct b; life; kok_cases. Qed.

Lemma kok_throws o i (w : kview) :
  kok o w -> v_it w = Some i -> si_ph i = SData true ->
  kok o (own_item (v_ec w) (v_st w) (Some (mkItem (si_val i) (si_new i) SFailed)) w).
Proof. intros Hk Hi Hp. unfold own_item. life; kok_cases. Qed.

Lemma kok_log o i (w : kview) :
  kok o w -> v_it w = Some i -> si_ph i = SLog ->
  kok o (own_item true (v_st w) (Some (mkItem (si_val i) (si_new i) SAdd)) w).
Proof. intros Hk Hi Hp. unfold own_item. life; kok_cases. Qed.

Lemma kok_add o i (w : kview) :
  kok o w -> v_it w = Some i -> si_ph i = SAdd -> kok o (own_item (v_ec w) (v_st w) None w).
Proof. intros Hk Hi Hp. unfold own_item. life; kok_cases. Qed.

Lemma kok_wait_dup o (w : kview) :
  kok o w -> v_dq w = Some DWait -> (forall i, v_it w = Some i -> si_new i = true) ->
  kok o (own_deq (v_st w) (v_dc w) (Some DWaitMain) w).
Proof. intros Hk Hd Hn. unfold own_deq. life; kok_cases. Qed.

Lemma kok_wait_main o (w : kview) :
  kok o w -> v_dq w = Some DWaitMain -> (forall i, v_it w = Some i -> si_new i = false) ->
  kok o (own_deq (v_st w) (v_dc w) (Some DData) w).
Proof. intros Hk Hd Hn. unfold own_deq. life; kok_cases. Qed.

Lemma kok_redispatch o d d' (w : kview) :
  kok o w -> v_dq w = Some d -> d = DWait \/ d = DWaitMain \/ d = DData ->
  d' = DFailed \/ (d = DWaitMain /\ d' = DWait) -> kok o (own_deq (v_st w) (v_dc w) (Some d') w).
Proof. intros Hk Hd Hn Hd'. unfold own_deq. life; kok_cases. Qed.

Lemma kok_deq_data o (w : kview) :
  kok o w -> v_dq w = Some DData -> kok o (own_deq None (v_dc w) (Some DLog) w).
Proof. intros Hk Hd. unfold own_deq. life; kok_cases. Qed.

Lemma kok_deq_log o (w : kview) :
  kok o w -> v_dq w = Some DLog -> kok o (own_deq (v_st w) true None w).
Proof. intros Hk Hd. unfold own_deq. life; kok_cases. Qed.

(** ** The tracker's invariant *)

Lemma tinv_same s s' added :
  tinv s added -> mainRecord (d_tr s') = mainRecord (d_tr s) -> dupMap (d_tr s') = dupMap (d_tr s) ->
  d_next s' = d_next s ->
  (forall q p i', d_items s' !! (q, p) = Some i' ->
     exists i, d_items s !! (q, p) = Some i /\ si_new i = si_new i') ->
  (forall q p, starts (d_enq s') q p = starts (d_enq s) q p) -> tinv s' added.
Proof.
  intros [T A N D U X S] Em Ed En Hi Hs. split; rewrite ?Em, ?Ed, ?En; try done.
  - intros q p i' (i & Hi1 & E)%Hi Hn. apply (N q p i); [done|congruence].
  - intros q p i' (i & Hi1 & E)%Hi Hn. apply (D q p i); [done|congruence].
  - intros q q' p i i' (j & Hj & E)%Hi (j' & Hj' & E')%Hi Hn Hn'.
    apply (U q q' p j j'); congruence.
  - intros q p Hp. destruct (S q p Hp) as (S1 & S2 & S3). split_and!; [|by unfold enqueued; rewrite Hs|done].
    destruct (d_items s' !! (q, p)) as [i'|] eqn:E; [|done]. apply Hi in E as (i & E & _). congruence.
Qed.

(** Rewriting a task to another phase. *)
Lemma items_phase (m : gmap mkey sitem) k i ph q p i' :
  m !! k = Some i -> <[k := mkItem (si_val i) (si_new i) ph]> m !! (q, p) = Some i' ->
  exists i0, m !! (q, p) = Some i0 /\ si_new i0 = si_new i'.
Proof. rewrite lookup_insert. intros Hk. case_decide; subst; [intros [= <-]|]; eauto. Qed.

Lemma tinv_enqueue_new q buf tr s added :
  tinv s added -> tinv (do_enqueue q (d_next s) true buf tr s) added.
Proof.
  intros [T A N D U X S]. destruct (checks_frame q (d_next s) (d_tr s)) as [[Ed Em] _].
  destruct (S q (d_next s) ltac:(lia)) as (S1 & S2 & S3).
  split; simpl; rewrite ?Ed, ?Em; try done.
  - intros x Hx. specialize (A x Hx). lia.
  - intros q' p i. rewrite lookup_insert. case_decide as Hk; [intros [= <-] _; simplify_eq|].
    + split_and!; [lia|lia| |done]. intros Hx%A. lia.
    + intros Hi Hn. destruct (N q' p i Hi Hn) as (N1 & N2 & N3). split_and!; [lia|lia|done|done].
  - intros q' p i. rewrite lookup_insert. case_decide as Hk; [by intros [= <-]|]. eauto.
  - intros q1 q2 p i1 i2. rewrite !lookup_insert. repeat case_decide; simplify_eq; try done.
    + intros _ Hi2. by rewrite (proj1 (S q2 (d_next s) ltac:(lia))) in Hi2.
    + intros Hi1. by rewrite (proj1 (S q1 (d_next s) ltac:(lia))) in Hi1.
    + eauto.
  - lia.
  - intros q' p Hp. destruct (S q' p ltac:(lia)) as (H1 & H2 & H3). split_and!; [|unfold enqueued; simpl|done].
    + rewrite lookup_insert_ne; [done|]. intros [= _ E]. lia.
    + rewrite starts_snoc_other; [done|]. simpl. intros [= _ E]. lia.
Qed.

Lemma tinv_enqueue_dup q p buf tr s added :
  tinv s added -> p < d_next s -> tinv (do_enqueue q p false buf tr s) added.
Proof.
  intros [T A N D U X S] Hp. set (t := (addDuplicate p q (d_tr s)).2).
  destruct (checks_frame q p t) as [[Ed Em] _].
  assert (Eq : forall q' p', qm_mem (dupMap t) q' p' =
             if decide ((q, p) = (q', p')) then true else qm_mem (dupMap (d_tr s)) q' p')
    by (intros; apply addDuplicate_dup).
  assert (Et : mainRecord t = mainRecord (d_tr s)) by apply (addDuplicate_dup q p (d_tr s) q p).
  split; simpl; fold t; rewrite ?Em, ?Ed, ?Et; try done.
  - intros q' p' i. rewrite lookup_insert, Eq. case_decide; [by intros [= <-]|]. eauto.
  - intros q' p' i. rewrite lookup_insert, Eq. case_decide; [done|]. eauto.
  - intros q1 q2 p' i1 i2. rewrite !lookup_insert. repeat case_decide; simplify_eq; try done.
    + by intros [= <-].
    + intros _ [= <-]. done.
    + eauto.
  - intros q' p' Hp'. destruct (S q' p' ltac:(lia)) as (H1 & H2 & H3).
    rewrite Eq, decide_False by (intros [= _ E]; lia). split_and!; [|unfold enqueued; simpl|done].
    + rewrite lookup_insert_ne; [done|]. intros [= _ E]. lia.
    + rewrite starts_snoc_other; [done|]. simpl. intros [= _ E]. lia.
Qed.

Lemma tinv_add_new q p i s added :
  tinv s added -> d_next s <= base + 2 ^ 31 -> d_items s !! (q, p) = Some i -> si_new i = true ->
  tinv (store_add q p s) ({[p]} ∪ added).
Proof.
  intros [T A N D U X S] Hw Hi Hn. destruct (N q p i Hi Hn) as (N1 & N2 & N3).
  pose proof T as (Tb & Tp & Tg & Tn).
  assert (HL : lastPid (mainRecord (d_tr s)) < d_next s).
  { destruct (decide (lastPid (mainRecord (d_tr s)) = base)); [lia|].
    apply A, Tp. lia. }
  destruct (addPid_main_tracks base added (mainRecord (d_tr s)) p T) as [T' _].
  { split; [lia|]. intros x [Hx _]%Tg. specialize (A x Hx). lia. }
  unfold store_add. rewrite addPid_new_item by done. split; simpl; try done.
  - intros x. rewrite elem_of_union, elem_of_singleton. intros [->|Hx]; [lia|by apply A].
  - intros q' p' i'. rewrite lookup_delete. case_decide as Hk; [done|]. intros Hi' Hn'.
    destruct (N q' p' i' Hi' Hn') as (H1 & H2 & H3). split; [done|]. split; [|done].
    rewrite not_elem_of_union, not_elem_of_singleton. split; [|done]. intros ->.
    apply Hk. by rewrite (U q q' p i i').
  - intros q' p' i'. rewrite lookup_delete. case_decide; [done|]. eauto.
  - intros q1 q2 p' i1 i2. rewrite !lookup_delete. repeat case_decide; try done. eauto.
  - intros q' p' Hp'. destruct (S q' p' Hp') as (H1 & H2 & H3). split_and!; try done.
    rewrite lookup_delete. by case_decide.
Qed.

Lemma tinv_add_dup q p i s added :
  tinv s added -> d_items s !! (q, p) = Some i -> si_new i = false -> tinv (store_add q p s) added.
Proof.
  intros [T A N D U X S] Hi Hn. destruct (addPid_dup_item q p (d_tr s) (D q p i Hi Hn)) as (Em & _ & Eq).
  split; simpl; rewrite ?Em; try done.
  - intros q' p' i'. rewrite lookup_delete, Eq. case_decide; [done|]. eauto.
  - intros q' p' i'. rewrite lookup_delete, Eq. case_decide; [done|]. eauto.
  - intros q1 q2 p' i1 i2. rewrite !lookup_delete. repeat case_decide; try done. eauto.
  - intros q' p' Hp'. destruct (S q' p' Hp') as (H1 & H2 & H3). rewrite Eq, lookup_delete.
    split_and!; try done; by case_decide.
Qed.

(** ** Preservation *)

Lemma kinv_own s s' k0 :
  (forall k, kinv s k) -> (forall k, k <> k0 -> view s' k = view s k) -> kinv s' k0 ->
  forall k, kinv s' k.
Proof.
  intros Hk Hv Hown k. destruct (decide (k = k0)) as [->|Hne]; [done|].
  unfold kinv. rewrite Hv by done. apply Hk.
Qed.

Lemma not_enqueued s q p : ~ enqueued s q p -> old !! (q, p) = None /\ starts (d_enq s) q p = [].
Proof.
  unfold enqueued. intros Hn. split; [destruct (old !! (q, p)); [|done]|
    destruct (starts (d_enq s) q p); [done|]]; exfalso; apply Hn; [right; by eexists|by left].
Qed.

Lemma dinv_enqueue q p new buf tr s :
  (forall k, kinv s k) -> ~ enqueued s q p -> forall k, kinv (do_enqueue q p new buf tr s) k.
Proof.
  intros Hk Hn. apply (kinv_own s _ (q, p)); [done|intros; by apply view_enqueue|].
  apply not_enqueued in Hn as [Ho Hs]. specialize (Hk (q, p)). unfold kinv in *. rewrite Ho in *.
  rewrite view_enqueue_own. by apply kok_enqueue.
Qed.

Lemma dinv_dequeue q p s :
  (forall k, kinv s k) -> enqueued s q p -> (q, p) ∉ d_out s -> forall k, kinv (do_dequeue q p s) k.
Proof.
  intros Hk Hq Ho. apply (kinv_own s _ (q, p)); [done|intros; by apply view_dequeue|].
  specialize (Hk (q, p)). unfold kinv in *. rewrite view_dequeue_own.
  apply kok_dequeue; [done|done|]. by apply bool_decide_eq_false.
Qed.

(** Every step keeps every message's life well formed. *)
Lemma kinv_step s s' added :
  (forall k, kinv s k) -> tinv s added -> dstep s s' -> forall k, kinv s' k.
Proof.
  intros Hk [T A N D U X S] Hs.
  destruct Hs as [q buf tr|q p buf tr Hlt Hn|q p Hq Ho|q p i Hi Hp|q p i b Hi Hp|q p i Hi Hp|q p i Hi Hp
    |q p i Hi Hp|q p Hq Hm|q p Hq Hm|q p Hq|q p d Hq Hp|q p Hq|q p Hq];
    [apply dinv_enqueue; [done|apply S; lia] | by apply dinv_enqueue | by apply dinv_dequeue | ..];
    (apply (kinv_own s _ (q, p)); [done| |specialize (Hk (q, p)); unfold kinv in *]);
    try (intros; first [by apply view_check|by apply view_others]);
    rewrite ?view_check_own;
    destruct (view_others_own q p s) as (V1 & V2 & V3 & V4 & V5 & V6 & V7);
    rewrite ?V1, ?V2, ?V3, ?V4, ?V5, ?V6, ?V7.
  - by apply kok_check.
  - by apply kok_data.
  - by apply kok_throws.
  - by eapply kok_log.
  - by eapply kok_add.
  - apply kok_wait_dup; try done. intros i Hi. destruct (si_new i) eqn:E; [done|].
    by rewrite (D q p i Hi E) in Hm.
  - apply kok_wait_main; try done. intros i Hi. destruct (si_new i) eqn:E; [|done].
    destruct (N q p i Hi E) as (N1 & N2 & _). destruct T as (_ & Tp & _), N2. apply Tp. lia.
  - eapply kok_redispatch; [done|done|auto|auto].
  - eapply kok_redispatch; [done|done|auto|auto].
  - by apply kok_deq_data.
  - by apply kok_deq_log.
Qed.

Lemma tinv_step s s' added :
  tinv s added -> d_next s' <= base + 2 ^ 31 -> dstep s s' -> exists added', tinv s' added'.
Proof.
  intros Ht Hw Hs.
  destruct Hs as [q buf tr|q p buf tr Hlt Hn|q p Hq Ho|q p i Hi Hp|q p i b Hi Hp|q p i Hi Hp|q p i Hi Hp
    |q p i Hi Hp|q p Hq Hm|q p Hq Hm|q p Hq|q p d Hq Hp|q p Hq|q p Hq].
  - exists added. by apply tinv_enqueue_new.
  - exists added. by apply tinv_enqueue_dup.
  - exists added. unfold do_dequeue. destruct (checks_frame q p (d_tr s)) as (_ & [Ed Em] & _).
    destruct (deq_check q p (d_tr s)) as [b t]. simpl in *.
    destruct b; eapply tinv_same; simpl; eauto. intros. apply starts_complete.
  - exists added. unfold store_check. destruct (checks_frame q p (d_tr s)) as (_ & _ & [Ed Em]).
    destruct (enq_check q p (d_tr s)) as [b t]. simpl in *.
    eapply tinv_same; simpl; eauto. intros. by eapply items_phase.
  - exists added. eapply tinv_same; simpl; eauto. intros. by eapply items_phase.
  - exists added. eapply tinv_same; simpl; eauto. intros. by eapply items_phase.
  - exists added. eapply tinv_same; simpl; eauto; intros; [by eapply items_phase|apply starts_complete].
  - destruct (si_new i) eqn:En.
    + exists ({[p]} ∪ added). by eapply tinv_add_new.
    + exists added. by eapply tinv_add_dup.
  - exists added. eapply tinv_same; simpl; eauto.
  - exists added. eapply tinv_same; simpl; eauto.
  - exists added. eapply tinv_same; simpl; eauto.
  - exists added. eapply tinv_same; simpl; eauto.
  - exists added. eapply tinv_same; simpl; eauto.
  - exists added. eapply tinv_same; simpl; eauto.
Qed.

Lemma dnext_mono s s' : dstep s s' -> d_next s <= d_next s'.
Proof.
  intros Hs. destruct Hs; simpl; try lia.
  - unfold do_dequeue. destruct (deq_check q p (d_tr s)) as [[] t]; simpl; lia.
  - unfold store_check. destruct (enq_check q p (d_tr s)) as [b t]. simpl. lia.
Qed.

Lemma init_dinv s : d_init s -> dinv s.
Proof.
  intros (E1 & E2 & E3 & E4 & E5 & E6 & E7 & E8 & E9 & E10 & Ho). split.
  - intros [q p]. unfold kinv, view. simpl. rewrite E1, E2, E3, E4, E5, E6, E9.
    unfold qm_mem. rewrite !lookup_empty. rewrite (bool_decide_eq_false_2 (_ ∈ _)) by set_solver.
    rewrite !(bool_decide_eq_false_2 (completed _ _ _)) by (unfold completed; set_solver).
    destruct (old !! (q, p)) as [b|]; kok_solve.
  - exists ∅. split; rewrite ?E4, ?E7, ?E8, ?E10; try done.
    + unfold tracks. simpl. split_and!; [lia|lia|set_solver|set_solver].
    + lia.
    + intros q p Hp. split_and!; [done| |done]. unfold enqueued. rewrite E1.
      intros [Hs|Hs]; [done|]. apply Ho in Hs. lia.
Qed.

Lemma dreach_dinv s0 s : d_init s0 -> dreach s0 s -> d_next s <= base + 2 ^ 31 -> dinv s.
Proof.
  intros Hi Hr. induction Hr as [|s s' Hr IH Hs]; intros Hw; [by apply init_dinv|].
  destruct IH as [Hk [added Ht]]; [pose proof (dnext_mono s s' Hs); lia|]. split.
  - by eapply kinv_step.
  - by eapply tinv_step.
Qed.

(** ** The theorems *)

Lemma pending_starts {V} `{!LogKind V} h q p :
  pending (V:=V) h q p = if bool_decide (completed h q p) then None else head (starts h q p).
Proof.
  unfold pending. case_decide as E; [by rewrite bool_decide_eq_true_2|by rewrite bool_decide_eq_false_2].
Qed.

(** What survives, by the view. *)
Definition survives_view (w : kview) : option (list byte) :=
  match (if v_dc w then None else head (v_ds w)) with
  | Some _ => None
  | None => match v_st w with
            | Some b => Some b
            | None => pae_buff <$> (if v_ec w then None else head (v_es w))
            end
  end.

Lemma survives_eq s q p : survives s q p = survives_view (view s (q, p)).
Proof. unfold survives, deq_pending, enq_pending. by rewrite !pending_starts. Qed.

Lemma kok_survives o (w : kview) :
  kok o w ->
  (v_out w = true -> survives_view w = None) /\
  (v_out w = false -> survives_view w = match v_es w with v :: _ => Some (pae_buff v) | [] => o end).
Proof. intros Hk. unfold survives_view. life; unfold on_journal in *; naive_solver. Qed.

(** C4: take any interleaving of enqueues, dequeues, the store
    and dequeue tasks of the two pools, failing database calls and redispatched
    waits, with the smart-async option on or off, over up to 2^31 ids. Whatever
    moment the broker crashes at, every message whose enqueue was logged and
    whose dequeue was not called is still there, with its bytes: stored, or
    pending in the enqueue log, and not pending in the dequeue log; and so is
    every message stored before the session. *)
Theorem no_message_lost s0 s q p :
  d_init s0 -> dreach s0 s -> d_next s <= base + 2 ^ 31 -> (q, p) ∉ d_out s ->
  (forall v l, starts (d_enq s) q p = v :: l -> survives s q p = Some (pae_buff v)) /\
  (forall b, old !! (q, p) = Some b -> survives s q p = Some b).
Proof.
  intros Hi Hr Hw Ho. destruct (dreach_dinv s0 s Hi Hr Hw) as [Hk _]. specialize (Hk (q, p)).
  destruct (kok_survives _ _ Hk) as [_ Hs]. rewrite survives_eq.
  rewrite Hs by by apply bool_decide_eq_false. simpl. split.
  - intros v l ->. done.
  - intros b Hb. unfold kinv in Hk. rewrite Hb in *. destruct Hk as (g & He & _). simpl in He.
    by inversion He.
Qed.


(** The logs of a session start every key at most once, which is what the
    recovery theorems of the logger ask for. *)
Lemma session_started_once s0 s :
  d_init s0 -> dreach s0 s -> d_next s <= base + 2 ^ 31 ->
  started_once (d_enq s) /\ started_once (d_deq s).
Proof.
  intros Hi Hr Hw. destruct (dreach_dinv s0 s Hi Hr Hw) as [Hk _].
  split; intros q p; specialize (Hk (q, p)); destruct Hk as (g & He & Hd); simpl in *;
    [inversion He|inversion Hd]; simpl; lia.
Qed.

End durability.
