(* ===== verification/DurabilityExamples.v ===== *)
(** Concrete runs of the message life cycle: inputs for the theorems of
    [Durability], and the race after a restart in which a dequeued message comes
    back. *)
From S2P Require Import Prelude NestedMap PendingOps LogFormat LogExtract PidTracker Durability.
From Stdlib Require Import ZArith Lia.
Import PidTracker.

#[local] Existing Instance little_endian.
Definition life_host : HostAlloc := {| vector_max := 2 ^ 62 |}.
#[local] Existing Instance life_host.

Definition life_tracker (base : Z) : PidTracker := set_main (mkPidRecord base ∅) init.

(** A session on an empty store, one enqueue, and its dequeue. *)
Definition life0 : dsys := mkD [] [] ∅ (life_tracker 0) ∅ ∅ 1 ∅.
Definition life1 : dsys := do_enqueue false 3 1 true [x61; x62] false life0.
Definition life2 : dsys := do_dequeue false 3 1 life1.

Lemma life_init : d_init 0 ∅ life0.
Proof.
  unfold d_init. split_and!; try done. intros q p [b Hb]. by rewrite lookup_empty in Hb.
Qed.

Lemma life_reach1 : dreach false ∅ life0 life1.
Proof. eapply Dr_step; [apply Dr_refl|]. apply (St_enqueue_new false ∅ life0 3 [x61; x62] false). Qed.

Lemma life_reach2 : dreach false ∅ life0 life2.
Proof.
  eapply Dr_step; [apply life_reach1|]. apply St_dequeue; [left; done|]. apply not_elem_of_empty.
Qed.

Lemma no_message_lost_witness :
  survives life1 3 1 = Some [x61; x62].
Proof.
  apply (no_message_lost false 0 ∅ life0 life1 3 1 life_init life_reach1)
    with (v := mkPAE 1 3 [x61; x62] 2 false) (l := []).
  - simpl. lia.
  - apply not_elem_of_empty.
  - reflexivity.
Defined.


(** ** After a restart

    [recoverMessages] resets the tracker to the highest id it found stored, and
    schedules the pending enqueues again under their old ids. Here message 7 was
    found stored and message 5 pending in the enqueue log, on queue 3. *)

Definition restart_msg : PendingAsyncEnqueue := mkPAE 5 3 [x61] 1 false.
Definition restarted : dsys :=
  mkD [LStart restart_msg] [] {[ (3, 7) := [x62] ]} (life_tracker 7)
      {[ (3, 5) := mkItem restart_msg true SCheck ]} ∅ 8 ∅.

(** The dequeue of message 5 runs before its store. *)
Definition race1 : dsys := do_dequeue false 3 5 restarted.
Definition race2 : dsys := deq_log 3 5 (deq_data 3 5 (set_deq (3, 5) DData (set_deq (3, 5) DWaitMain race1))).
Definition race3 : dsys := store_check false 3 5 (mkItem restart_msg true SCheck) race2.
Definition race4 : dsys := store_data 3 5 true (mkItem restart_msg true (SData true)) race3.
Definition race5 : dsys := store_add 3 5 (store_log 3 5 (mkItem restart_msg true SLog) race4).

(** After a restart without smart async the tracker says
    that every id up to the highest stored one is on disk, the resurrected ones
    included. The dequeue of a resurrected message does not wait for its store:
    there is a run in which the dequeue removes nothing and is logged as complete,
    the store then writes the message, and the dequeued message survives for good. *)
Theorem restart_race_revives :
  dreach false {[ (3, 7) := [x62] ]} restarted race5 /\
  (3, 5) ∈ d_out race5 /\ d_items race5 = ∅ /\ d_deqs race5 = ∅ /\
  survives race5 3 5 = Some [x61].
Proof.
  split; [|split; [apply elem_of_union_l, elem_of_singleton; done|by vm_compute]].
  eapply Dr_step; [|eapply St_add; [by vm_compute|done]].
  eapply Dr_step; [|apply St_log; [by vm_compute|done]].
  eapply Dr_step; [|apply St_data; [by vm_compute|done]].
  eapply Dr_step; [|apply St_check; [by vm_compute|done]].
  eapply Dr_step; [|apply St_deq_log; by vm_compute].
  eapply Dr_step; [|apply St_deq_data; by vm_compute].
  eapply Dr_step; [|apply St_wait_main; [by vm_compute|vm_compute; discriminate]].
  eapply Dr_step; [|apply St_wait_dup; by vm_compute].
  eapply Dr_step; [apply Dr_refl|]. apply St_dequeue; [left; by vm_compute|apply not_elem_of_empty].
Qed.
