(* ===== verification/Recovery.v ===== *)
(** Model of [decodeAndRecoverMsg] of lib/BdbStoreProvider.cpp: what a restart makes
    of the messages read from one queue's journal and of the pending operations
    read from the logs.

    The first loop goes through all pending enqueues and decides which of them to
    add to the messages read from the journal; the second loop decodes the list
    and hands the messages to the broker. The broker's side ([recoverMessage],
    [loadContent], the UID header) is a parameter; the journal's answer to
    [is_enqueued] is a function, [JournalSpec] says which. *)
From S2P Require Import Prelude NestedMap PendingOps Bdb Framing.
From Stdlib Require Import ZArith Lia.

Record QueueRecoverReport := mkReport {
  rcnt : Z; acnt : Z; aacnt : Z; tcnt : Z; dbcnt : Z; logcnt : Z; wacnt : Z
}.

Definition report0 : QueueRecoverReport := mkReport 0 0 0 0 0 0 0.

Definition inc_aacnt (r : QueueRecoverReport) : QueueRecoverReport :=
  mkReport (rcnt r) (acnt r) (aacnt r + 1) (tcnt r) (dbcnt r) (logcnt r) (wacnt r).
Definition inc_wacnt (r : QueueRecoverReport) : QueueRecoverReport :=
  mkReport (rcnt r) (acnt r) (aacnt r) (tcnt r) (dbcnt r) (logcnt r) (wacnt r + 1).
Definition inc_acnt (r : QueueRecoverReport) : QueueRecoverReport :=
  mkReport (rcnt r) (acnt r + 1) (aacnt r) (tcnt r) (dbcnt r) (logcnt r) (wacnt r).
Definition inc_tcnt (r : QueueRecoverReport) : QueueRecoverReport :=
  mkReport (rcnt r) (acnt r) (aacnt r) (tcnt r + 1) (dbcnt r) (logcnt r) (wacnt r).
Definition inc_rcnt (ape : bool) (r : QueueRecoverReport) : QueueRecoverReport :=
  mkReport (rcnt r + 1) (acnt r) (aacnt r) (tcnt r) (if ape then dbcnt r else dbcnt r + 1)
    (if ape then logcnt r + 1 else logcnt r) (wacnt r).

(** ** The first loop *)

Record escan := mkE {
  e_ae : PendingEnqueueSet;
  e_ad : PendingDequeueSet;
  e_recovered : list (Z * list byte);
  e_penq : gset Z;                           (* penq_recovered *)
  e_first : Z;
  e_transient : list PendingOperationId;     (* transient_async *)
  e_useless : list PendingOperationId;       (* useless_async *)
  e_logged : list PendingOperationId;        (* the log_enqueue_complete calls *)
  e_report : QueueRecoverReport
}.

(** The body for one pending enqueue; [qid] is [jc->pid()]. *)
Definition scan_one (qid : Z) (is_enqueued : Z -> bool) (st : escan) (pae : PendingAsyncEnqueue) : escan :=
  let p := pae_msgId pae in
  let q := pae_queueId pae in
  match nm_get (e_ad st) q p with
  | Some _ =>
      mkE (nm_erase (e_ae st) q p) (nm_erase (e_ad st) q p) (e_recovered st) (e_penq st) (e_first st)
          (e_transient st) (e_useless st ++ [pae_opId pae]) (e_logged st) (inc_aacnt (e_report st))
  | None =>
      if pae_transient pae then
        mkE (nm_erase (e_ae st) q p) (e_ad st) (e_recovered st) (e_penq st) (e_first st)
            (e_transient st ++ [pae_opId pae]) (e_useless st) (e_logged st) (e_report st)
      else if qid =? q then
        let first := if e_first st <? 10 then e_first st + 1 else e_first st in
        if (e_first st <? 10) && is_enqueued p then
          mkE (nm_erase (e_ae st) q p) (e_ad st) (e_recovered st) (e_penq st) first
              (e_transient st) (e_useless st) (e_logged st ++ [pae_opId pae]) (inc_wacnt (e_report st))
        else
          mkE (e_ae st) (e_ad st)
              (e_recovered st ++ [(p, take (Z.to_nat (pae_size pae)) (pae_buff pae))])
              ({[p]} ∪ e_penq st) first (e_transient st) (e_useless st) (e_logged st) (e_report st)
      else st
  end.

(** The loop erases at most the element it is at, so it goes through the elements
    that were there at its start. *)
Definition scan_pending (qid : Z) (is_enqueued : Z -> bool) (aeset : PendingEnqueueSet)
    (adset : PendingDequeueSet) (recovered : list (Z * list byte)) (report : QueueRecoverReport) : escan :=
  foldl (scan_one qid is_enqueued)
        (mkE aeset adset recovered ∅ 0 [] [] [] report) (map snd (nm_list aeset)).

(** ** The second loop *)

Section decode.
Context `{Framing}.
Variable enableAcceptRecoveryFlag : bool.
Variable acceptedFromMongo : list string.
Variable uid_of : list byte -> string.       (* the UID application header *)
Variable loadContent : Z -> bool.            (* RecoverableMessage::loadContent *)

Record dscan := mkDec {
  s_ae : PendingEnqueueSet;
  s_ad : PendingDequeueSet;
  s_penq : gset Z;
  s_lastPid : Z;
  s_maxRid : Z;
  s_transient : list PendingOperationId;
  s_useless : list PendingOperationId;
  s_deqdone : list PendingOperationId;       (* dequeue_completed_async *)
  s_transientMsg : list Z;
  s_innerAccepted : list Z;
  s_asyncAccepted : list Z;
  s_foundMsg : list string;
  s_map : gmap Z (list byte * list byte);    (* messageMap: header and content *)
  s_mq : gmap Z (list Z);                    (* messageQueueMap *)
  s_report : QueueRecoverReport
}.

(** The accepted-while-down branch for a message whose UID was found. *)
Definition accept_one (qid id : Z) (uid : string) (st : dscan) : dscan :=
  let opid := (id, qid) in
  let '(ae, ad, tr, ul, inner) :=
    match nm_get (s_ae st) qid id with
    | Some _ =>
        match nm_get (s_ad st) qid id with
        | Some _ => (nm_erase (s_ae st) qid id, nm_erase (s_ad st) qid id, s_transient st,
                     s_useless st ++ [opid], s_innerAccepted st)
        | None => (nm_erase (s_ae st) qid id, s_ad st, s_transient st ++ [opid], s_useless st,
                   s_innerAccepted st)
        end
    | None => (s_ae st, s_ad st, s_transient st, s_useless st, s_innerAccepted st ++ [id])
    end in
  mkDec ae ad (s_penq st) (s_lastPid st) (s_maxRid st) tr ul (s_deqdone st) (s_transientMsg st) inner
    (s_asyncAccepted st) (s_foundMsg st ++ [uid]) (s_map st) (s_mq st) (inc_acnt (s_report st)).

(** The test for a pending dequeue of the message. *)
Definition check_dequeue (qid id : Z) (st : dscan) : bool * dscan :=
  match nm_get (s_ad st) qid id with
  | Some _ =>
      (true, mkDec (s_ae st) (nm_erase (s_ad st) qid id) (s_penq st) (s_lastPid st) (s_maxRid st)
         (s_transient st) (s_useless st) (s_deqdone st ++ [(id, qid)]) (s_transientMsg st)
         (s_innerAccepted st) (s_asyncAccepted st ++ [id]) (s_foundMsg st) (s_map st) (s_mq st)
         (inc_aacnt (s_report st)))
  | None => (false, st)
  end.

(** Handing a message to the broker. *)
Definition recover_one (qid id : Z) (ape : bool) (raw : list byte) (headerSize : Z) (st : dscan) : dscan :=
  let contentOffset := u32 (headerSize + 5) in
  let contentSize := u32 (u32 (Z.of_nat (length raw)) - contentOffset) in
  if loadContent contentSize then
    let header := take (Z.to_nat headerSize) (drop 5 raw) in
    let content := take (Z.to_nat contentSize) (drop (Z.to_nat contentOffset) raw) in
    mkDec (s_ae st) (s_ad st) (s_penq st) (s_lastPid st) (s_maxRid st) (s_transient st) (s_useless st)
      (s_deqdone st) (s_transientMsg st) (s_innerAccepted st) (s_asyncAccepted st) (s_foundMsg st)
      (<[id := (header, content)]> (s_map st))
      (<[id := default [] (s_mq st !! id) ++ [qid]]> (s_mq st)) (inc_rcnt ape (s_report st))
  else st.

(** The body for one message of the list. *)
Definition decode_one (qid : Z) (st : dscan) (entry : Z * list byte) : dscan :=
  let '(id, raw) := entry in
  let transientFlag := match raw with b :: _ => Z_of_byte b | [] => 0 end in
  if transientFlag =? 0 then
    let ape_recovered := bool_decide (id ∈ s_penq st) in
    let st := mkDec (s_ae st) (s_ad st) (s_penq st ∖ {[id]})
                (if ape_recovered then s_lastPid st else Z.max id (s_lastPid st))
                (Z.max id (s_maxRid st)) (s_transient st) (s_useless st) (s_deqdone st)
                (s_transientMsg st) (s_innerAccepted st) (s_asyncAccepted st) (s_foundMsg st)
                (s_map st) (s_mq st) (s_report st) in
    let headerSize := get_long (drop 1 raw) in
    let uid := uid_of (take (Z.to_nat headerSize) (drop 5 raw)) in
    let accepted := enableAcceptRecoveryFlag && negb (bool_decide (uid = "")) &&
                    bool_decide (uid ∈ acceptedFromMongo) in
    let st := if accepted then accept_one qid id uid st else st in
    let '(dequeued, st) := check_dequeue qid id st in
    if negb accepted && negb dequeued then recover_one qid id ape_recovered raw headerSize st else st
  else
    mkDec (s_ae st) (s_ad st) (s_penq st) (s_lastPid st) (s_maxRid st) (s_transient st) (s_useless st)
      (s_deqdone st) (s_transientMsg st ++ [id]) (s_innerAccepted st) (s_asyncAccepted st)
      (s_foundMsg st) (s_map st) (s_mq st) (inc_tcnt (s_report st)).

(** The whole method for one queue, from the messages its journal returned. *)
Definition decodeAndRecoverMsg (qid : Z) (is_enqueued : Z -> bool) (journal : list (Z * list byte))
    (aeset : PendingEnqueueSet) (adset : PendingDequeueSet) (lastPid : Z)
    (mm : gmap Z (list byte * list byte)) (mq : gmap Z (list Z)) : dscan * list PendingOperationId :=
  let e := scan_pending qid is_enqueued aeset adset journal report0 in
  let st := mkDec (e_ae e) (e_ad e) (e_penq e) lastPid 0 (e_transient e) (e_useless e) [] [] [] [] []
              mm mq (e_report e) in
  (foldl (decode_one qid) st (e_recovered e), e_logged e).

End decode.
