(* ===== verification/RecoverySpec.v ===== *)
(** What [decodeAndRecoverMsg] recovers, compared with what should survive a
    restart. *)
From S2P Require Import Prelude NestedMap PendingOps Bdb Framing Recovery.
From Stdlib Require Import ZArith Lia.

Definition pae_key (v : PendingAsyncEnqueue) : Z * Z := (pae_queueId v, pae_msgId v).

(** The entry that a pending enqueue adds to the list of messages. *)
Definition pae_entry (v : PendingAsyncEnqueue) : Z * list byte :=
  (pae_msgId v, take (Z.to_nat (pae_size v)) (pae_buff v)).

Definition is_none {A} (o : option A) : bool := match o with Some _ => false | None => true end.

Lemma is_none_eq {A} (o : option A) : is_none o = true <-> o = None.
Proof. by destruct o. Qed.

Section scan.
Variable qid : Z.
Variable enq : Z -> bool.
Implicit Types (v w : PendingAsyncEnqueue) (L : list PendingAsyncEnqueue) (st : escan) (ad : PendingDequeueSet).

(** Pending enqueues of this queue that are neither dequeued nor transient, and
    among them those that the journal does not hold yet. *)
Definition counted ad v : bool :=
  is_none (nm_get ad (pae_queueId v) (pae_msgId v)) && negb (pae_transient v) && (qid =? pae_queueId v).
Definition added ad v : bool := counted ad v && negb (enq (pae_msgId v)).

(** The check against the journal is only made for the first ten. *)
Definition few ad (first : Z) L : Prop :=
  first + Z.of_nat (length (List.filter (counted ad) L)) <= 10 \/
  forall v, In v L -> enq (pae_msgId v) = false.

Lemma counted_ext ad ad' L :
  (forall v, In v L -> nm_get ad' (pae_queueId v) (pae_msgId v) = nm_get ad (pae_queueId v) (pae_msgId v)) ->
  List.filter (counted ad') L = List.filter (counted ad) L /\ List.filter (added ad') L = List.filter (added ad) L.
Proof.
  intros Hv. split; apply filter_ext_in; intros v Hin; unfold added, counted; by rewrite Hv.
Qed.

(** One turn of the loop. *)
Lemma scan_one_spec st v :
  (counted (e_ad st) v = true -> (e_first st <? 10) = true \/ enq (pae_msgId v) = false) ->
  let st' := scan_one qid enq st v in
  e_recovered st' = e_recovered st ++ (if added (e_ad st) v then [pae_entry v] else []) /\
  e_penq st' = (if added (e_ad st) v then {[pae_msgId v]} else ∅) ∪ e_penq st /\
  (e_first st' <= e_first st + (if counted (e_ad st) v then 1 else 0)) /\
  (forall q p, nm_get (e_ad st') q p = if decide ((q, p) = pae_key v) then None else nm_get (e_ad st) q p).
Proof.
  intros Hf. unfold scan_one, added, counted.
  destruct (nm_get (e_ad st) (pae_queueId v) (pae_msgId v)) as [x|] eqn:Ed; simpl.
  { split_and!; [by rewrite app_nil_r|set_solver|lia|]. intros q p. rewrite nm_get_erase.
    unfold pae_key. repeat case_decide; naive_solver. }
  assert (Hd : forall q p, nm_get (e_ad st) q p =
            if decide ((q, p) = pae_key v) then None else nm_get (e_ad st) q p)
    by (intros q p; case_decide as E; [by injection E as -> ->|done]).
  destruct (pae_transient v) eqn:Et; simpl.
  { split_and!; [by rewrite app_nil_r|set_solver|lia|done]. }
  destruct (Z.eqb_spec qid (pae_queueId v)); simpl.
  2: { split_and!; [by rewrite app_nil_r|set_solver|lia|done]. }
  destruct (Z.ltb_spec (e_first st) 10); simpl.
  - destruct (enq (pae_msgId v)); simpl; (split_and!; [|set_solver|lia|done]); [by rewrite app_nil_r|done].
  - destruct Hf as [Hf|Hf]; [by unfold counted; rewrite Ed, Et, (proj2 (Z.eqb_eq _ _))|zbool; lia|]. rewrite Hf. simpl. split_and!; [done|set_solver|lia|done].
Qed.

Lemma scan_spec L st :
  NoDup (pae_key <$> L) -> few (e_ad st) (e_first st) L ->
  let st' := foldl (scan_one qid enq) st L in
  e_recovered st' = e_recovered st ++ map pae_entry (List.filter (added (e_ad st)) L) /\
  e_penq st' = list_to_set (map pae_msgId (List.filter (added (e_ad st)) L)) ∪ e_penq st /\
  (forall q p, nm_get (e_ad st') q p =
     if decide ((q, p) ∈ pae_key <$> L) then None else nm_get (e_ad st) q p).
Proof.
  revert st. induction L as [|v L IH]; intros st Hn Hf; cbn [foldl].
  { simpl. split_and!; [by rewrite app_nil_r|set_solver|done]. }
  apply NoDup_cons in Hn as [Hv Hn]. fold (fmap pae_key L) in Hv, Hn.
  destruct (scan_one_spec st v) as (S1 & S2 & S3 & S4).
  { intros Hc. destruct Hf as [Hf|Hf]; [|right; apply Hf; by left]. simpl in Hf. rewrite Hc in Hf.
    simpl in Hf. left. apply Z.ltb_lt. lia. }
  destruct (counted_ext (e_ad st) (e_ad (scan_one qid enq st v)) L) as [E1 E2].
  { intros w Hw. rewrite S4. rewrite decide_False; [done|]. intros E. apply Hv. rewrite <- E.
    apply list_elem_of_fmap. exists w. split; [done|]. by apply list_elem_of_In. }
  destruct (IH (scan_one qid enq st v) Hn) as (I1 & I2 & I3).
  { unfold few in *. rewrite E1. destruct Hf as [Hf|Hf]; [left|right; intros w Hw; apply Hf; by right].
    simpl in Hf. destruct (counted (e_ad st) v); simpl in Hf; lia. }
  rewrite I1, I2, S1, S2, E2. split_and!.
  - simpl. rewrite <- app_assoc. by destruct (added (e_ad st) v).
  - simpl. destruct (added (e_ad st) v); simpl; set_solver.
  - intros q p. rewrite I3, S4. rewrite fmap_cons.
    repeat case_decide; try done; set_solver.
Qed.

End scan.

(** ** The second loop, with the accept-recovery option off *)

Section decode.
Context `{Framing}.
Variable mongo : list string.
Variable uid_of : list byte -> string.
Variable loadContent : Z -> bool.
Variable qid : Z.
Implicit Types (st : dscan) (id : Z) (raw : list byte).

Abbreviation decode := (decode_one false mongo uid_of loadContent qid).

(** The flag byte of a message says that it is not transient. *)
Definition durable raw : bool := match raw with b :: _ => Z_of_byte b =? 0 | [] => true end.

(** The size of the content, as computed, and the decoded message. *)
Definition content_size raw : Z :=
  u32 (u32 (Z.of_nat (length raw)) - u32 (get_long (drop 1 raw) + 5)).
Definition decoded raw : list byte * list byte :=
  (take (Z.to_nat (get_long (drop 1 raw))) (drop 5 raw),
   take (Z.to_nat (content_size raw)) (drop (Z.to_nat (u32 (get_long (drop 1 raw) + 5))) raw)).

(** The message goes to the broker. *)
Definition recovers (ad : PendingDequeueSet) id raw : bool :=
  durable raw && is_none (nm_get ad qid id) && loadContent (content_size raw).

Lemma decode_one_spec st id raw :
  let st' := decode st (id, raw) in
  s_mq st' = (if recovers (s_ad st) id raw then <[id := default [] (s_mq st !! id) ++ [qid]]> (s_mq st)
              else s_mq st) /\
  s_map st' = (if recovers (s_ad st) id raw then <[id := decoded raw]> (s_map st) else s_map st) /\
  (forall id', id' <> id -> nm_get (s_ad st') qid id' = nm_get (s_ad st) qid id').
Proof.
  unfold decode_one, recovers, durable. cbn [negb andb].
  destruct raw as [|b raw']; set (raw := _ : list byte).
  all: try (destruct (Z.eqb_spec (Z_of_byte b) 0) as [Eb|Eb]; [|split_and!; done]); cbn [Z.eqb andb].
  all: unfold check_dequeue; simpl; destruct (nm_get (s_ad st) qid id) as [x|] eqn:Ed; simpl.
  all: try (split_and!; [done..|]; intros id' Hid; rewrite nm_get_erase; case_decide; [congruence|done]).
  all: unfold recover_one, content_size, decoded; simpl.
  all: destruct (loadContent _); simpl; split_and!; done.
Qed.

Lemma decode_spec (R : list (Z * list byte)) st :
  NoDup R.*1 ->
  let st' := foldl decode st R in
  (forall id raw, (id, raw) ∈ R ->
     s_mq st' !! id = (if recovers (s_ad st) id raw then Some (default [] (s_mq st !! id) ++ [qid])
                       else s_mq st !! id) /\
     s_map st' !! id = (if recovers (s_ad st) id raw then Some (decoded raw) else s_map st !! id)) /\
  (forall id, id ∉ R.*1 -> s_mq st' !! id = s_mq st !! id /\ s_map st' !! id = s_map st !! id).
Proof.
  revert st. induction R as [|[id0 raw0] R IH]; intros st Hn; cbn [foldl]; [set_solver|].
  apply NoDup_cons in Hn as [Hid Hn]. simpl in Hid. fold (fmap fst R) in Hid, Hn.
  destruct (decode_one_spec st id0 raw0) as (M1 & M2 & M3).
  destruct (IH (decode st (id0, raw0)) Hn) as [I1 I2].
  assert (Hother : forall id, id <> id0 -> s_mq (decode st (id0, raw0)) !! id = s_mq st !! id /\
                                    s_map (decode st (id0, raw0)) !! id = s_map st !! id).
  { intros id Hne. rewrite M1, M2. destruct (recovers (s_ad st) id0 raw0); [|done].
    by rewrite !lookup_insert_ne. }
  split.
  - intros id raw [Hin|Hin]%elem_of_cons.
    + injection Hin as -> ->. destruct (I2 id0 Hid) as [-> ->]. rewrite M1, M2.
      destruct (recovers (s_ad st) id0 raw0); [|done]. by rewrite !lookup_insert_eq.
    + assert (Hne : id <> id0).
      { intros ->. apply Hid, list_elem_of_fmap. by exists (id0, raw). }
      destruct (I1 id raw Hin) as [-> ->]. destruct (Hother id Hne) as [-> ->].
      unfold recovers. by rewrite M3.
  - intros id Hni. rewrite fmap_cons in Hni. apply not_elem_of_cons in Hni as [Hne Hni].
    destruct (I2 id Hni) as [-> ->]. by apply Hother.
Qed.

(** ** One queue *)

Variables (enq : Z -> bool) (l : list (Z * list byte)) (ae : PendingEnqueueSet) (ad : PendingDequeueSet)
  (lastPid : Z).

Abbreviation result_of := (decodeAndRecoverMsg false mongo uid_of loadContent qid enq l ae ad lastPid ∅ ∅).1.
Abbreviation pend_list := (map snd (nm_list ae)).

(** The sets are keyed by the ids of their values, the journal returned each
    message once and answers [is_enqueued] accordingly, the broker loads every
    content, the flag byte of a pending enqueue is its transient flag, and at most
    ten pending enqueues of the queue need the check against the journal, or none
    of them is stored. *)
Record inputs_ok : Prop := {
  in_keys : forall q p v, nm_get ae q p = Some v -> pae_key v = (q, p);
  in_nodup : NoDup l.*1;
  in_enq : forall id, is_Some (nm_get ae qid id) -> enq id = bool_decide (id ∈ l.*1);
  in_load : forall n, loadContent n = true;
  in_flag : forall id v, nm_get ae qid id = Some v -> durable (pae_entry v).2 = negb (pae_transient v);
  in_few : few qid enq ad 0 pend_list
}.

Lemma pend_list_spec v :
  inputs_ok -> (v ∈ pend_list <-> nm_get ae (pae_queueId v) (pae_msgId v) = Some v).
Proof.
  intros Hin. rewrite list_elem_of_In, in_map_iff. split.
  - intros ([[q p] w] & <- & Hw). apply list_elem_of_In, elem_of_nm_list in Hw. simpl.
    pose proof (in_keys Hin q p w Hw) as E. injection E as -> ->. done.
  - intros Hv. exists (pae_queueId v, pae_msgId v, v). split; [done|].
    by apply list_elem_of_In, elem_of_nm_list.
Qed.

Lemma pend_keys :
  inputs_ok -> (pae_key <$> pend_list) = (nm_list ae).*1.
Proof.
  intros Hin. unfold fmap. rewrite map_map. apply map_ext_in. intros [[q p] v] Hv.
  apply list_elem_of_In, elem_of_nm_list in Hv. simpl. by apply (in_keys Hin).
Qed.

Definition extra : list PendingAsyncEnqueue := List.filter (added qid enq ad) pend_list.

Lemma elem_of_extra v :
  inputs_ok ->
  (v ∈ extra <-> nm_get ae qid (pae_msgId v) = Some v /\ nm_get ad qid (pae_msgId v) = None /\
                 pae_transient v = false /\ (pae_msgId v ∉ l.*1)).
Proof.
  intros Hin. unfold extra. rewrite list_elem_of_In, filter_In, <- list_elem_of_In, pend_list_spec by done.
  unfold added, counted. rewrite !andb_true_iff, is_none_eq, !negb_true_iff, Z.eqb_eq.
  split.
  - intros (Hv & ((Hd & Ht) & Hq) & He). rewrite <- Hq in Hv, Hd.
    by rewrite (in_enq Hin), bool_decide_eq_false in He by eauto.
  - intros (Hv & Hd & Ht & He). pose proof (in_keys Hin _ _ _ Hv) as Ek. injection Ek as Eq. rewrite Eq.
    rewrite (in_enq Hin), bool_decide_eq_false by eauto. done.
Qed.

(** The list that is decoded has every id once. *)
Lemma all_nodup : inputs_ok -> NoDup (l ++ map pae_entry extra).*1.
Proof.
  intros Hin. rewrite fmap_app. apply NoDup_app. split_and!; [apply Hin| |].
  - intros id Hid (e & -> & He)%list_elem_of_fmap. apply list_elem_of_In, in_map_iff in He as (v & <- & Hv).
    apply list_elem_of_In, elem_of_extra in Hv as (_ & _ & _ & Hn); [|done]. by apply Hn.
  - assert (E : (map pae_entry extra).*1 = map pae_msgId extra).
    { unfold fmap. by rewrite map_map. }
    rewrite E. pose proof (nm_list_NoDup ae) as Hk. rewrite <- (pend_keys Hin) in Hk.
    assert (Hs : forall w, w ∈ extra -> pae_queueId w = qid).
    { intros w (Hw & _)%elem_of_extra; [|done]. by pose proof (in_keys Hin _ _ _ Hw) as [= ->]. }
    revert Hk Hs. unfold extra. induction pend_list as [|w L IH]; intros Hk Hs; simpl; [constructor|].
    apply NoDup_cons in Hk as [Hw Hk]. simpl in Hs.
    destruct (added qid enq ad w); simpl; [|by apply IH].
    constructor; [|apply IH; [done|]; intros x Hx; apply Hs; set_solver].
    intros (x & Ex & Hx)%list_elem_of_In%in_map_iff. apply Hw, list_elem_of_fmap. exists x.
    apply list_elem_of_In in Hx as Hx'. split.
    + unfold pae_key. rewrite Ex. f_equal. rewrite (Hs w), (Hs x); [done|set_solver|set_solver].
    + apply filter_In in Hx as [Hx _]. by apply list_elem_of_In.
Qed.

(** What the method puts into the maps it is given. *)
Lemma recover_eq_gen id mm mq :
  let r := (decodeAndRecoverMsg false mongo uid_of loadContent qid enq l ae ad lastPid mm mq).1 in
  inputs_ok ->
  (forall raw, (id, raw) ∈ l ++ map pae_entry extra ->
     durable raw = true -> is_Some (nm_get ae qid id) \/ nm_get ad qid id = None ->
     s_mq r !! id = Some (default [] (mq !! id) ++ [qid]) /\ s_map r !! id = Some (decoded raw)) /\
  (forall raw, (id, raw) ∈ l ++ map pae_entry extra ->
     durable raw = false \/ (nm_get ae qid id = None /\ nm_get ad qid id <> None) ->
     s_mq r !! id = mq !! id /\ s_map r !! id = mm !! id) /\
  (id ∉ (l ++ map pae_entry extra).*1 -> s_mq r !! id = mq !! id /\ s_map r !! id = mm !! id).
Proof.
  intros r Hin. unfold r, decodeAndRecoverMsg, scan_pending. cbn [fst].
  destruct (scan_spec qid enq pend_list (mkE ae ad l ∅ 0 [] [] [] report0)) as (S1 & S2 & S3).
  { rewrite (pend_keys Hin). apply nm_list_NoDup. }
  { apply Hin. }
  simpl in S1, S3. rewrite S1. fold extra.
  set (e := foldl _ _ _) in *.
  match goal with |- context [foldl decode ?st0 _] => set (st := st0) end.
  destruct (decode_spec (l ++ map pae_entry extra) st (all_nodup Hin)) as [D1 D2].
  assert (Had : nm_get (s_ad st) qid id = if decide ((qid, id) ∈ (nm_list ae).*1) then None else nm_get ad qid id)
    by (simpl; rewrite S3, (pend_keys Hin); done).
  assert (Hk : (qid, id) ∈ (nm_list ae).*1 <-> is_Some (nm_get ae qid id)).
  { rewrite list_elem_of_fmap. split.
    - intros ([[q p] v] & E & Hv). injection E as -> ->. apply elem_of_nm_list in Hv. by eexists.
    - intros [v Hv]. exists (qid, id, v). split; [done|]. by apply elem_of_nm_list. }
  split_and!.
  - intros raw Hr Hd Hc. destruct (D1 id raw Hr) as [-> ->]. unfold recovers.
    rewrite Hd, (in_load Hin), Had. case_decide as Ek; simpl; [done|].
    destruct Hc as [Hc|Hc]; [by apply Hk in Hc|]. rewrite Hc. done.
  - intros raw Hr Hc. destruct (D1 id raw Hr) as [-> ->]. unfold recovers. rewrite Had.
    destruct Hc as [->|[Hc1 Hc2]]; [done|]. rewrite decide_False.
    + destruct (nm_get ad qid id); [|done]. simpl. by rewrite andb_false_r.
    + rewrite Hk, Hc1. apply is_Some_None.
  - intros Hni. by apply D2.
Qed.

(** What should survive a restart on this queue: pending dequeues win, then what
    the journal holds, then the pending enqueues. *)
Definition expected (id : Z) : option (list byte) :=
  match nm_get ad qid id with
  | Some _ => None
  | None => match (list_to_map l : gmap Z (list byte)) !! id with
            | Some raw => Some raw
            | None => (fun v => (pae_entry v).2) <$> nm_get ae qid id
            end
  end.

(** An id that the journal does not hold is decoded only for a pending enqueue
    that is neither dequeued nor transient. *)
Lemma not_extra id :
  inputs_ok -> id ∉ l.*1 ->
  (forall v, nm_get ae qid id = Some v -> nm_get ad qid id <> None \/ pae_transient v = true) ->
  id ∉ (l ++ map pae_entry extra).*1.
Proof.
  intros Hin Hl Hv. rewrite fmap_app. intros [Hi|Hi]%elem_of_app; [done|].
  apply list_elem_of_fmap in Hi as ([id' raw] & -> & Hi). simpl in *.
  apply list_elem_of_In, in_map_iff in Hi as (v & [= <- _] & Hi).
  apply list_elem_of_In, elem_of_extra in Hi as (H1 & H2 & H3 & _); [|done].
  destruct (Hv v H1); congruence.
Qed.

(** The messages of those that are not transient. *)
Definition due (id : Z) : option (list byte) :=
  match expected id with Some raw => if durable raw then Some raw else None | None => None end.

(** Let no message of the queue be stored, pending in the enqueue log and pending in the
    dequeue log at once: the method adds exactly what is due to the maps. *)
Lemma decode_due id mm mq :
  let r := (decodeAndRecoverMsg false mongo uid_of loadContent qid enq l ae ad lastPid mm mq).1 in
  inputs_ok ->
  (id ∈ l.*1 -> is_Some (nm_get ae qid id) -> nm_get ad qid id = None) ->
  s_mq r !! id = (match due id with Some _ => Some (default [] (mq !! id) ++ [qid]) | None => mq !! id end) /\
  s_map r !! id = (match due id with Some raw => Some (decoded raw) | None => mm !! id end).
Proof.
  intros r Hin Htri. destruct (recover_eq_gen id mm mq Hin) as (R1 & R2 & R3). fold r in R1, R2, R3.
  pose proof (not_extra id Hin) as Hno. unfold due, expected.
  destruct (list_to_map l !! id) as [raw|] eqn:El.
  - apply elem_of_list_to_map in El; [|apply Hin].
    assert (Hl : id ∈ l.*1) by (apply list_elem_of_fmap; by exists (id, raw)).
    assert (Hr : (id, raw) ∈ l ++ map pae_entry extra) by (apply elem_of_app; by left).
    destruct (nm_get ad qid id) as [x|] eqn:Ed.
    + apply (R2 raw Hr). right. destruct (nm_get ae qid id) eqn:Ee; [|done].
      by specialize (Htri Hl ltac:(by eexists)).
    + destruct (durable raw) eqn:Er; [apply (R1 raw Hr); auto|apply (R2 raw Hr); by left].
  - apply not_elem_of_list_to_map_2 in El. specialize (Hno El).
    destruct (nm_get ad qid id) as [x|] eqn:Ed; [apply R3, Hno; auto|].
    destruct (nm_get ae qid id) as [v|] eqn:Ee; cbn [fmap option_fmap option_map]; [|apply R3, Hno; done].
    pose proof (in_flag Hin id v Ee) as Hf. pose proof (in_keys Hin _ _ _ Ee) as [= Eq Ep].
    rewrite Hf. destruct (pae_transient v) eqn:Et; cbn [negb].
    + apply R3, Hno. intros w [= <-]. by right.
    + apply R1; [|done|by right]. apply elem_of_app. right.
      apply list_elem_of_In, in_map_iff. exists v. split; [by unfold pae_entry; rewrite Ep|].
      apply list_elem_of_In, elem_of_extra; [done|]. by rewrite Ep.
Qed.


(** When a message is stored and both its enqueue and its
    dequeue are pending (the crash came after the store wrote it and before the
    complete was logged, with the dequeue already called), the first loop takes
    the two operations for useless and forgets the dequeue; the second loop then
    hands the dequeued message to the broker. *)
Theorem pending_pair_revives id raw v x :
  inputs_ok -> (id, raw) ∈ l -> durable raw = true ->
  nm_get ae qid id = Some v -> nm_get ad qid id = Some x ->
  expected id = None /\ s_mq result_of !! id = Some [qid].
Proof.
  intros Hin Hl Hd He Hx. destruct (recover_eq_gen id ∅ ∅ Hin) as (R1 & _ & _). split.
  - unfold expected. by rewrite Hx.
  - apply (R1 raw); [apply elem_of_app; by left|done|left; rewrite He; by eexists].
Qed.

(** A message whose content the broker does not want
    loaded, because of its size, is not put in the maps: it is not recovered,
    although it stays in the journal. *)
Theorem unloaded_message_dropped st id raw :
  loadContent (content_size raw) = false ->
  s_mq (decode st (id, raw)) = s_mq st /\ s_map (decode st (id, raw)) = s_map st.
Proof.
  intros Hl. destruct (decode_one_spec st id raw) as (-> & -> & _). unfold recovers. rewrite Hl.
  by rewrite andb_false_r.
Qed.

End decode.

(** ** Concrete runs *)

Section examples.
#[local] Existing Instance wire.

Definition rx_raw : list byte := (msgEncode (mkMsg [x68] [x61; x62] true)).1.
Definition rx_pae (p : Z) : PendingAsyncEnqueue := mkPAE p 3 rx_raw (Z.of_nat (length rx_raw)) false.
Definition rx_ae : PendingEnqueueSet := {[ 3 := {[ 5 := rx_pae 5 ]} ]}.
Definition rx_ad : PendingDequeueSet := {[ 3 := {[ 5 := mkPAD 5 3 ]} ]}.
Definition rx_l : list (Z * list byte) := [(5, rx_raw); (7, rx_raw)].
Definition rx_enq (id : Z) : bool := bool_decide (id ∈ rx_l.*1).

Lemma rx_keys q p v : nm_get rx_ae q p = Some v -> q = 3 /\ p = 5 /\ v = rx_pae 5.
Proof.
  unfold nm_get, rx_ae. rewrite lookup_singleton. case_decide; [|done].
  rewrite lookup_singleton. case_decide; [|done]. intros [= <-]. done.
Qed.

Lemma rx_ok ad : inputs_ok (fun _ => true) 3 rx_enq rx_l rx_ae ad.
Proof.
  split; try done.
  - intros q p v (-> & -> & ->)%rx_keys. done.
  - apply (bool_decide_unpack (NoDup rx_l.*1)). by vm_compute.
  - intros id v (_ & -> & ->)%rx_keys. by vm_compute.
  - left. unfold counted, rx_ae. vm_compute nm_list. simpl. destruct (is_none _); simpl; lia.
Qed.


Lemma pending_pair_revives_witness :
  s_mq (decodeAndRecoverMsg false [] (fun _ => "") (fun _ => true) 3 rx_enq rx_l rx_ae rx_ad 0 ∅ ∅).1 !! 5
    = Some [3].
Proof.
  apply (pending_pair_revives [] (fun _ => "") (fun _ => true) 3 rx_enq rx_l rx_ae rx_ad 0 5 rx_raw
           (rx_pae 5) (mkPAD 5 3) (rx_ok rx_ad)).
  - apply elem_of_cons. by left.
  - reflexivity.
  - reflexivity.
  - reflexivity.
Defined.

Lemma unloaded_message_dropped_witness :
  s_mq (decode_one false [] (fun _ => "") (fun n => n <? 2) 3
          (mkDec ∅ ∅ ∅ 0 0 [] [] [] [] [] [] [] ∅ ∅ report0) (5, rx_raw)) = ∅.
Proof. apply (unloaded_message_dropped [] (fun _ => "") (fun n => n <? 2)). reflexivity. Defined.

(** Eleven messages that are stored and whose enqueues are pending. *)
Definition many_ae : PendingEnqueueSet :=
  {[ 3 := list_to_map (map (fun p => (p, rx_pae p)) (seqZ 1 11)) ]}.
Definition many_l : list (Z * list byte) := map (fun p => (p, rx_raw)) (seqZ 1 11).

(** The check against the journal is only made for
    the first ten pending enqueues of a queue. With eleven enqueues that were
    stored but not logged as complete, the eleventh message is put on its queue
    twice. *)
Theorem eleventh_recovered_twice :
  let r := (decodeAndRecoverMsg false [] (fun _ => "") (fun _ => true) 3
              (fun id => bool_decide (id ∈ many_l.*1)) many_l many_ae ∅ 0 ∅ ∅).1 in
  s_mq r !! 10 = Some [3] /\ s_mq r !! 11 = Some [3; 3].
Proof. vm_compute. done. Qed.

End examples.
