(* ===== verification/Provider.v ===== *)
(** Model of the message path of lib/BdbStoreProvider.cpp on the concrete
    components: the logger of [AsyncLog], the journals of [Journal], the tracker
    and the id sequence.

    [enqueue], [dequeue], [store] and [async_dequeue] are written as in the source,
    with their checks and exceptions; [store] and [async_dequeue] are also cut into
    the stretches between which other threads run. A pool is the list of its
    waiting tasks; whether [schedule] accepts a task is an argument. The timing
    is left out; the management calls are added in [QmfProvider]. *)
From S2P Require Import Prelude Format Jerrno IdSequence NestedMap PidTracker PendingOps.
From S2P Require Import LogFormat LogExtract AsyncLog Bdb TxnCtxt Framing Journal.
From Stdlib Require Import ZArith Lia.

(** A task of the enqueue pool and one of the dequeue pool; the journal pointer is
    the id of its queue. *)
Record store_task := mkStore {
  st_jc : option Z; st_buff : list byte; st_size : Z; st_pid : Z; st_transient : bool
}.
Record deq_task := mkDeq { dt_msgId : Z; dt_jc : Z }.

Section provider.
Context `{HostEndian, HostAlloc, Framing, BT : !BTree bt_compare}.

Record Provider := mkProv {
  isInit : bool;
  enableSmartAsync : bool;
  messageIdSequence : IdSequence.t;
  tracker : PidTracker;
  aologger : AsyncOperationLogger;
  journalList : gmap Z JournalImpl;
  world : JournalImpl.world;
  enqueuePool : list store_task;
  dequeuePool : list deq_task
}.

Implicit Types (pv : Provider) (pid qid : Z).

Definition set_seq (x : IdSequence.t) pv : Provider :=
  mkProv (isInit pv) (enableSmartAsync pv) x (tracker pv) (aologger pv) (journalList pv) (world pv)
    (enqueuePool pv) (dequeuePool pv).
Definition set_tracker (x : PidTracker) pv : Provider :=
  mkProv (isInit pv) (enableSmartAsync pv) (messageIdSequence pv) x (aologger pv) (journalList pv)
    (world pv) (enqueuePool pv) (dequeuePool pv).
Definition set_log (x : AsyncOperationLogger) pv : Provider :=
  mkProv (isInit pv) (enableSmartAsync pv) (messageIdSequence pv) (tracker pv) x (journalList pv)
    (world pv) (enqueuePool pv) (dequeuePool pv).
Definition set_journal (q : Z) (j : JournalImpl) (w : JournalImpl.world) pv : Provider :=
  mkProv (isInit pv) (enableSmartAsync pv) (messageIdSequence pv) (tracker pv) (aologger pv)
    (<[q := j]> (journalList pv)) w (enqueuePool pv) (dequeuePool pv).
Definition set_pools (e : list store_task) (d : list deq_task) pv : Provider :=
  mkProv (isInit pv) (enableSmartAsync pv) (messageIdSequence pv) (tracker pv) (aologger pv)
    (journalList pv) (world pv) e d.

(** [checkInit()] of a provider that the front end has: it is initialised, so nothing
    happens. [Lifecycle.checkInit] is the whole method. *)
Definition checkInit pv : Provider :=
  mkProv true (enableSmartAsync pv) (messageIdSequence pv) (tracker pv) (aologger pv)
    (journalList pv) (world pv) (enqueuePool pv) (dequeuePool pv).

(** *** enqueue *)

(** The persistence id: a new one, or the one the message has. *)
Definition assign_id (queueId messageId : Z) pv : Z * Provider :=
  if messageId =? 0 then
    let '(id, seq) := IdSequence.next (messageIdSequence pv) in (id, set_seq seq pv)
  else (messageId, set_tracker (PidTracker.addDuplicate messageId queueId (tracker pv)).2 pv).

(** [enqueue(ctxt,msg,queue)]: the persistence id the message has after it. *)
Definition enqueue (accepts : bool) (queueName : string) (queueId messageId : Z) (jc : option Z)
    (msg : Message) pv : result Z * Provider :=
  let pv := checkInit pv in
  if queueId =? 0 then (Throw (StoreException ("Queue not created: " +:+ queueName)), pv)
  else
    let '(id, pv) := assign_id queueId messageId pv in
    let '(buff, size) := msgEncode msg in
    let transient := negb (m_persistent msg) in
    let pv := set_log (AsyncOperationLogger.log_enqueue_start id queueId buff size transient (aologger pv)).2 pv in
    let pv := if enableSmartAsync pv
              then set_tracker (PidTracker.willEnqueue id queueId (tracker pv)).2 pv else pv in
    if accepts
    then (Ret id, set_pools (enqueuePool pv ++ [mkStore jc buff size id transient]) (dequeuePool pv) pv)
    else (Throw (StoreException "Unable to dispatch the enqueue!"), pv).

(** *** dequeue *)

Definition dequeue (accepts : bool) (queueName : string) (queueId messageId : Z) (jc : Z) pv :
    result unit * Provider :=
  let pv := checkInit pv in
  if messageId =? 0 then (Throw (StoreException "Error dequeuing message, persistence id not set"), pv)
  else if queueId =? 0 then (Throw (StoreException ("Queue not created: " +:+ queueName)), pv)
  else
    let '(toExec, t) := if enableSmartAsync pv
                        then PidTracker.dequeueCheck messageId queueId (tracker pv)
                        else (true, tracker pv) in
    let pv := set_tracker t pv in
    if toExec then
      let pv := set_log (AsyncOperationLogger.log_dequeue_start messageId queueId (aologger pv)).2 pv in
      if accepts
      then (Ret tt, set_pools (enqueuePool pv) (dequeuePool pv ++ [mkDeq messageId jc]) pv)
      else (Throw (StoreException "Unable to dispatch the dequeue!"), pv)
    else (Ret tt, set_log (AsyncOperationLogger.log_enqueue_complete messageId queueId (aologger pv)).2 pv).

(** *** store *)

(** [if (enableSmartAsync) toExec = tracker.enqueueCheck(pid,jc->pid())] *)
Definition store_check_p (q pid : Z) pv : bool * Provider :=
  if enableSmartAsync pv then
    let '(b, t) := PidTracker.enqueueCheck pid q (tracker pv) in (b, set_tracker t pv)
  else (true, pv).

(** [if (toExec) jc->enqueue_data(...)] *)
Definition store_data_p (io : db_answers) (q pid : Z) (buff : list byte) (size : Z) (toExec : bool) pv :
    result unit * Provider :=
  if toExec then
    match journalList pv !! q with
    | None => (Throw (Undefined "null journal"), pv)
    | Some j =>
        let '(r, j, w) := JournalImpl.enqueue_data io buff (Z.to_nat size) pid j (world pv) in
        (r, set_journal q j w pv)
    end
  else (Ret tt, pv).

Definition store_log_p (q pid : Z) pv : Provider :=
  set_log (AsyncOperationLogger.log_enqueue_complete pid q (aologger pv)).2 pv.
Definition store_add_p (q pid : Z) pv : Provider :=
  set_tracker (PidTracker.addPid pid q (tracker pv)).2 pv.

(** [store(jc,buff,size,pid,transient)]: only a [jexception] would be caught. *)
Definition store (io : db_answers) (t : store_task) pv : result unit * Provider :=
  match st_jc t with
  | None => (Throw (StoreException "BdbStoreProvider::store() failed: queue NULL."), pv)
  | Some q =>
      let '(toExec, pv) := store_check_p q (st_pid t) pv in
      match store_data_p io q (st_pid t) (st_buff t) (st_size t) toExec pv with
      | (Throw x, pv) => (Throw x, pv)
      | (Ret _, pv) => (Ret tt, store_add_p q (st_pid t) (store_log_p q (st_pid t) pv))
      end
  end.

(** *** async_dequeue *)

Definition deq_data_p (io : db_answers) (q pid : Z) pv : result unit * Provider :=
  match journalList pv !! q with
  | None => (Throw (Undefined "null journal"), pv)
  | Some j =>
      let '(r, j, w) := JournalImpl.dequeue_data io pid j (world pv) in
      (r, set_journal q j w pv)
  end.
Definition deq_log_p (q pid : Z) pv : Provider :=
  set_log (AsyncOperationLogger.log_dequeue_complete pid q (aologger pv)).2 pv.

(** [async_dequeue(msgId,jc)]; [obs] is what [waitForPid] sees of the tracker, and
    [None] is a thread that is still waiting. *)
Definition async_dequeue (io : db_answers) (obs : list PidTracker) (accepts : bool) (t : deq_task) pv :
    option (result unit * Provider) :=
  match PidTracker.waitForPid (dt_msgId t) (dt_jc t) obs with
  | None => None
  | Some r =>
      if r =? -1 then
        if accepts then Some (Ret tt, set_pools (enqueuePool pv) (dequeuePool pv ++ [t]) pv)
        else Some (Throw (StoreException "Unable to redispatch the dequeue!"), pv)
      else if r =? -2 then Some (Ret tt, pv)
      else match deq_data_p io (dt_jc t) (dt_msgId t) pv with
           | (Throw x, pv) => Some (Throw x, pv)
           | (Ret _, pv) => Some (Ret tt, deq_log_p (dt_jc t) (dt_msgId t) pv)
           end
  end.

(** *** loadContent *)

(** The answers of the successive [waitForPid] calls are in [waits]; the loop goes
    on while they are negative and not the stop code. *)
Fixpoint wait_loop (waits : list Z) : option Z :=
  match waits with
  | [] => None
  | r :: rest => if r <? 0 then if r =? -2 then Some r else wait_loop rest else Some r
  end.

Definition loadContent (waits : list Z) (queueName : string) (jc : option Z) (messageId : Z) (data : list byte)
    (offset length : Z) pv : option (result (list byte)) :=
  if negb (messageId =? 0) then
    match wait_loop waits with
    | None => None
    | Some r =>
        if r =? -2 then Some (Ret data)
        else
          match jc ≫= fun q => journalList pv !! q with
          | None => Some (Throw (StoreException ("Queue " +:+ queueName +:+ ": loadContent() failed: Message " +:+
                                   pretty messageId +:+ " not enqueued")))
          | Some j =>
              match JournalImpl.loadMsgContent messageId data length offset j (world pv) with
              | Ret (true, data) => Some (Ret data)
              | Ret (false, _) =>
                  Some (Throw (StoreException ("Queue " +:+ queueName +:+ ": loadContent() failed: Message " +:+
                                 pretty messageId +:+ " is extern or not enqueued")))
              | Throw (JException e) =>
                  Some (Throw (StoreException ("Queue " +:+ queueName +:+ ": loadContent() failed: " +:+
                                 jexception.what e)))
              | Throw x => Some (Throw x)
              end
          end
    end
  else Some (Throw (StoreException "Cannot load content. Message not known to store!")).

(** *** Directories *)

(** [bHash]: characters are signed; the sum is kept in 32 bits. *)
Definition char_val (c : Ascii.ascii) : Z :=
  let n := Z.of_nat (Ascii.nat_of_ascii c) in if n <? 128 then n else n - 256.
Definition bHash (str : string) : Z :=
  foldl (fun h c => u32 (33 * h + char_val c)) 0 (String.list_ascii_of_string str).

Definition getJrnlBaseDir : string := "jrnl/".
Definition getBdbBaseDir (storeDir : string) : string := storeDir +:+ "/" +:+ "bdbstore" +:+ "/dat/".
Definition getAsyncEnvDir (storeDir : string) : string := storeDir +:+ "/" +:+ "bdbstore" +:+ "/async/".
Definition getJrnlHashDir (queueName : string) : string :=
  getJrnlBaseDir +:+ num_str 16 4 (bHash queueName mod 29) +:+ "/" +:+ queueName +:+ "/".

(** The journal object that [create] and [recoverQueues] make for a queue. *)
Definition queue_journal (storeDir queueName : string) (qid num_jfiles : Z) : JournalImpl :=
  JournalImpl.create queueName qid (getJrnlHashDir queueName) (getBdbBaseDir storeDir) num_jfiles true.

(** The transaction and content entry points that are not implemented. *)
Definition notImplemented (fn : string) : result unit :=
  Throw (JException (jexception.thrown jerrno.JERR__NOTIMPL "BdbStoreProvider" fn)).
Definition stage := notImplemented "stage".
Definition destroy_msg := notImplemented "destroy".
Definition appendContent := notImplemented "appendContent".
Definition begin := notImplemented "begin".
Definition prepare := notImplemented "prepare".
Definition commit := notImplemented "commit".
Definition abort := notImplemented "abort".
Definition collectPreparedXids := notImplemented "collectPreparedXids".

End provider.
