(* ===== verification/ProviderSpec.v ===== *)
(** The provider implements the message life cycle of [Durability]: the relation
    [refines] between the two and a lemma for every handler and stretch that it is
    preserved; and the files of different queues are different. *)
From S2P Require Import Prelude Format Jerrno IdSequence NestedMap PidTracker PendingOps.
From S2P Require Import LogFormat LogExtract AsyncLog LogSystem LogRecovery LoggerSpec.
From S2P Require Import Bdb TxnCtxt Framing Journal JournalSpec Durability Recovery RecoverySpec Provider.
From Stdlib Require Import ZArith Lia.

(** ** Queues use distinct files *)

Lemma str_app_inj_len (a b c d : string) :
  String.length a = String.length b -> a +:+ c = b +:+ d -> a = b /\ c = d.
Proof.
  revert b. induction a as [|x a IH]; intros [|y b] Hl E; simpl in *; try done.
  injection E as -> E. destruct (IH b) as [-> ->]; [lia|done|done].
Qed.

Lemma num_str_4 n : 0 <= n < 29 -> String.length (num_str 16 4 n) = 4%nat.
Proof.
  intros Hn. assert (Hall : forallb (fun k => (String.length (num_str 16 4 (Z.of_nat k)) =? 4)%nat) (seq 0 29) = true)
    by by vm_compute.
  rewrite forallb_forall in Hall. specialize (Hall (Z.to_nat n)). rewrite Z2Nat.id in Hall by lia.
  apply Nat.eqb_eq, Hall, in_seq. lia.
Qed.

(** The database files of two queues with different
    names never coincide, whichever characters the names contain and whichever
    hash directory they fall in, as long as a queue has at most a thousand files. *)
Theorem queues_use_distinct_files sd sd' name name' q q' n n' k k' :
  0 <= k < 1000 -> 0 <= k' < 1000 ->
  JournalImpl.getSubDbPath (queue_journal sd name q n) k =
  JournalImpl.getSubDbPath (queue_journal sd' name' q' n') k' -> name = name' /\ k = k'.
Proof.
  assert (H3 : forall k, 0 <= k < 1000 -> String.length (num_str 10 3 k) = 3%nat).
  { intros x Hx. assert (Hall : forallb (fun k => (String.length (num_str 10 3 (Z.of_nat k)) =? 3)%nat) (seq 0 1000) = true)
      by by vm_compute.
    rewrite forallb_forall in Hall. specialize (Hall (Z.to_nat x)). rewrite Z2Nat.id in Hall by lia.
    apply Nat.eqb_eq, Hall, in_seq. lia. }
  intros Hk Hk' E. unfold JournalImpl.getSubDbPath, JournalImpl.getSubDbName in E. simpl in E.
  unfold getJrnlHashDir in E. rewrite !string_app_assoc in E.
  apply (inj (String.append getJrnlBaseDir)) in E.
  apply str_app_inj_len in E as [_ E];
    [|rewrite !num_str_4; [done|apply Z.mod_pos_bound; lia..]].
  apply (inj (String.append "/")) in E.
  assert (Hl : String.length name = String.length name').
  { pose proof (f_equal String.length E) as El. repeat rewrite !string_app_length in El.
    rewrite (H3 k Hk), (H3 k' Hk') in El. simpl in El. lia. }
  apply str_app_inj_len in E as [-> E]; [|done]. split; [done|].
  apply (inj (String.append "/")), (inj (String.append name')), (inj (String.append "_s")) in E.
  apply str_app_inj_len in E as [E _]; [|by rewrite !H3]. apply num_str_inj in E; [done|auto|lia|lia].
Qed.

Lemma queues_use_distinct_files_witness :
  JournalImpl.getSubDbPath (queue_journal "/s" "a" 1 4) 2 <> JournalImpl.getSubDbPath (queue_journal "/s" "b" 2 4) 2.
Proof.
  intros E. apply (queues_use_distinct_files "/s" "/s" "a" "b" 1 2 4 4 2 2) in E; [|lia|lia].
  destruct E as [E _]. discriminate E.
Defined.

#[local] Arguments msgEncode : simpl never.

Lemma bool_cases (b : bool) : b = true \/ b = false.
Proof. destruct b; auto. Qed.

Section refinement.
Context `{HostEndian, HostAlloc, Framing, BT : !BTree bt_compare}.
Variable lo : Z.          (* the least id of the window of the session *)
Variable smart : bool.    (* options.enableSmartAsync *)
Implicit Types (pv : Provider) (s : dsys) (q p : Z).

(** ** The relation between the provider and the life cycle *)

Record refines pv s : Prop := {
  rf_smart : enableSmartAsync pv = smart;
  rf_log : both_inv (aologger pv) (d_enq s) (d_deq s);
  rf_tr : tracker pv = d_tr s;
  rf_seq : IdSequence.id (messageIdSequence pv) = d_next s;
  rf_journal : forall q j, journalList pv !! q = Some j ->
    jwf lo j (world pv) /\ forall p, jlookup j (JournalImpl.w_files (world pv)) p = d_store s !! (q, p);
  rf_disjoint : forall q q' j j' k k', q <> q' -> journalList pv !! q = Some j -> journalList pv !! q' = Some j' ->
    JournalImpl.getSubDbPath j k <> JournalImpl.getSubDbPath j' k'
}.

(** A journal whose files are untouched. *)
Lemma jwf_frame j w w' :
  (forall k, JournalImpl.w_files w' !! JournalImpl.getSubDbPath j k =
             JournalImpl.w_files w !! JournalImpl.getSubDbPath j k) ->
  jwf lo j w -> jwf lo j w' /\
  forall p, jlookup j (JournalImpl.w_files w') p = jlookup j (JournalImpl.w_files w) p.
Proof.
  intros Hf ([Hn Ho] & Hc & Hi & Hd & Hx). split.
  - split; [split; [done|]|split_and!; try done].
    + intros k d Hk. rewrite Hf. by apply Ho.
    + intros k Hk. rewrite Hf. by apply Hx.
  - intros p. unfold jlookup. by rewrite Hf.
Qed.

Lemma data_frame j w path :
  (forall k, path <> JournalImpl.getSubDbPath j k) ->
  (forall io b n pid r j' w', JournalImpl.enqueue_data io b n pid j w = (r, j', w') ->
     JournalImpl.w_files w' !! path = JournalImpl.w_files w !! path) /\
  (forall io pid r j' w', JournalImpl.dequeue_data io pid j w = (r, j', w') ->
     JournalImpl.w_files w' !! path = JournalImpl.w_files w !! path).
Proof.
  intros Hp. split.
  - intros io b n pid r j' w'. unfold JournalImpl.enqueue_data, JournalImpl.store_msg.
    destruct (negb (create_bdb j)); [by intros [= <- <- <-]|]. unfold JournalImpl.shard.
    destruct (num_jfiles j =? 0); [by intros [= <- <- <-]|].
    destruct (bool_decide _); [|by intros [= <- <- <-]].
    destruct (TxnCtxt.with_txn _ _ _ _ _) as [[[st d']|x] e]; intros [= <- <- <-]; simpl; [|done].
    rewrite lookup_insert_ne; [done|]. apply not_eq_sym, Hp.
  - intros io pid r j' w'. unfold JournalImpl.dequeue_data, JournalImpl.remove_msg.
    destruct (negb (create_bdb j)); [by intros [= <- <- <-]|]. unfold JournalImpl.shard.
    destruct (num_jfiles j =? 0); [by intros [= <- <- <-]|].
    destruct (bool_decide _); [|by intros [= <- <- <-]].
    destruct (TxnCtxt.with_txn _ _ _ _ _) as [[[st d']|x] e]; intros [= <- <- <-]; simpl; [|done].
    rewrite lookup_insert_ne; [done|]. apply not_eq_sym, Hp.
Qed.

(** Replacing one journal and the files it uses. *)
Lemma refines_journal pv s q j j' w' st' :
  refines pv s -> journalList pv !! q = Some j ->
  JournalImpl.getSubDbPath j' = JournalImpl.getSubDbPath j ->
  jwf lo j' w' -> (forall p, jlookup j' (JournalImpl.w_files w') p = st' !! (q, p)) ->
  (forall q' p, q' <> q -> st' !! (q', p) = d_store s !! (q', p)) ->
  (forall path, (forall k, path <> JournalImpl.getSubDbPath j k) ->
     JournalImpl.w_files w' !! path = JournalImpl.w_files (world pv) !! path) ->
  refines (set_journal q j' w' pv)
    (mkD (d_enq s) (d_deq s) st' (d_tr s) (d_items s) (d_deqs s) (d_next s) (d_out s)).
Proof.
  intros [Ra Rl Rt Rs Rj Rd] Hj Hpath Hw Hl Hst Hfr. split; try done; simpl.
  - intros q' j1. rewrite lookup_insert. case_decide as Eq; [subst q'; intros [= <-]; done|].
    intros Hj1. destruct (Rj q' j1 Hj1) as [W1 L1].
    destruct (jwf_frame j1 (world pv) w') as [W2 L2]; [|done|].
    + intros k. apply Hfr. intros k'. eapply Rd; [|exact Hj1|exact Hj]. done.
    + split; [done|]. intros p. rewrite L2, L1. by rewrite Hst.
  - intros q1 q2 j1 j2 k k' Hne. rewrite !lookup_insert.
    repeat case_decide; subst; try done; intros; simplify_eq; rewrite ?Hpath; eauto.
Qed.

(** ** The stretches of the handlers *)

(** A new message: [enqueue] draws the next id, logs and schedules. *)
Lemma sim_enqueue_new pv s nm q jc msg :
  refines pv s -> q <> 0 -> is_u64 q -> 0 < d_next s < 2 ^ 64 - 1 -> msg_ok msg ->
  Z.of_nat (length (msgEncode msg).1) <= vector_max ->
  let buf := (msgEncode msg).1 in
  let s' := do_enqueue smart q (d_next s) true buf (negb (m_persistent msg)) s in
  started_once (d_enq s') -> started_once (d_deq s') ->
  exists pv', enqueue true nm q 0 jc msg pv = (Ret (d_next s), pv') /\ refines pv' s'.
Proof.
  intros [Ra Rl Rt Rs Rj Rd] Hq Hu Hn Hm Hv buf s' He Hd. unfold enqueue, assign_id.
  pose proof (msgEncode_eq msg Hm) as Em. subst s' buf.
  destruct (msgEncode msg) as [b sz]. cbn [fst snd] in *.
  assert (Hsz : sz = Z.of_nat (length b)).
  { apply pair_eq in Em as [-> ->]. rewrite !length_app, put_long_length. simpl. lia. }
  rewrite (proj2 (Z.eqb_neq q 0)) by done. simpl. unfold IdSequence.next. simpl. rewrite Rs.
  destruct (Z.eqb_spec (d_next s) 0); [lia|]. subst sz.
  set (v := mkPAE (d_next s) q b (Z.of_nat (length b)) (negb (m_persistent msg))).
  destruct (run_call_inv (EnqStart v) (aologger pv) (d_enq s) (d_deq s)) as (l' & E & Hb); try done.
  { unfold call_ok, valid_enqueue, is_u64. simpl. unfold is_u64, msg_ok in *.
    apply pair_eq in Em as [_ Em]. split_and!; lia. }
  { simpl. by rewrite app_nil_r. }
  simpl in E. injection E as E. simpl deq_recs in Hb. rewrite app_nil_r in Hb.
  eexists. split; [reflexivity|].
  assert (Hid : u64 (d_next s + 1) = d_next s + 1) by (apply u64_small; unfold is_u64; lia).
  destruct (bool_cases smart) as [Es|Es]; split; simpl; rewrite ?Ra, ?Es; simpl; try congruence; try done;
    try (by rewrite E); try (unfold will; by rewrite Es, Rt).
Qed.

(** A message that is on another queue already: the id is kept. *)
Lemma sim_enqueue_dup pv s nm q p jc msg :
  refines pv s -> q <> 0 -> p <> 0 -> is_u64 q -> is_u64 p -> msg_ok msg ->
  Z.of_nat (length (msgEncode msg).1) <= vector_max ->
  let s' := do_enqueue smart q p false (msgEncode msg).1 (negb (m_persistent msg)) s in
  started_once (d_enq s') -> started_once (d_deq s') ->
  exists pv', enqueue true nm q p jc msg pv = (Ret p, pv') /\ refines pv' s'.
Proof.
  intros [Ra Rl Rt Rs Rj Rd] Hq Hp Uq Up Hm Hv s' He Hd. unfold enqueue, assign_id.
  pose proof (msgEncode_eq msg Hm) as Em. subst s'.
  destruct (msgEncode msg) as [b sz]. cbn [fst snd] in *.
  assert (Hsz : sz = Z.of_nat (length b)).
  { apply pair_eq in Em as [-> ->]. rewrite !length_app, put_long_length. simpl. lia. }
  rewrite (proj2 (Z.eqb_neq q 0)), (proj2 (Z.eqb_neq p 0)) by done. simpl. subst sz.
  set (v := mkPAE p q b (Z.of_nat (length b)) (negb (m_persistent msg))).
  destruct (run_call_inv (EnqStart v) (aologger pv) (d_enq s) (d_deq s)) as (l' & E & Hb); try done.
  { unfold call_ok, valid_enqueue, is_u64. simpl. unfold is_u64, msg_ok in *.
    apply pair_eq in Em as [_ Em]. split_and!; lia. }
  { simpl. by rewrite app_nil_r. }
  simpl in E. injection E as E. simpl deq_recs in Hb. rewrite app_nil_r in Hb.
  eexists. split; [reflexivity|].
  destruct (bool_cases smart) as [Es|Es]; split; simpl; rewrite ?Ra, ?Es; simpl; try congruence; try done;
    try (by rewrite E); try (unfold will; by rewrite Es, Rt).
Qed.

(** [dequeue] *)
Lemma sim_dequeue pv s nm q p jc :
  refines pv s -> q <> 0 -> p <> 0 -> is_u64 q -> is_u64 p ->
  let s' := do_dequeue smart q p s in
  started_once (d_enq s') -> started_once (d_deq s') ->
  exists pv', dequeue true nm q p jc pv = (Ret tt, pv') /\ refines pv' s'.
Proof.
  intros [Ra Rl Rt Rs Rj Rd] Hq Hp Uq Up s' He Hd. unfold dequeue.
  destruct (Z.eqb_spec p 0); [done|]. destruct (Z.eqb_spec q 0); [done|]. simpl.
  unfold s', do_dequeue, deq_check in *. rewrite Rt, Ra.
  destruct (if smart then PidTracker.dequeueCheck p q (d_tr s) else (true, d_tr s))
    as [b t] eqn:Ec.
  destruct b; simpl in *.
  - destruct (run_call_inv (DeqStart (mkPAD p q)) (aologger pv) (d_enq s) (d_deq s)) as (l' & E & Hb); try done.
    { simpl. by rewrite app_nil_r. }
    simpl in E. injection E as E. simpl enq_recs in Hb. rewrite app_nil_r in Hb.
    eexists. split; [reflexivity|]. split; simpl; try done. by rewrite E.
  - destruct (run_call_inv (EnqComplete p q) (aologger pv) (d_enq s) (d_deq s)) as (l' & E & Hb); try done.
    { simpl. by rewrite app_nil_r. }
    simpl in E. injection E as E. simpl deq_recs in Hb. rewrite app_nil_r in Hb.
    eexists. split; [reflexivity|]. split; simpl; try done. by rewrite E.
Qed.


(** Only these parts of the life-cycle state matter. *)
Lemma refines_ext pv s s' :
  refines pv s -> d_enq s' = d_enq s -> d_deq s' = d_deq s -> d_tr s' = d_tr s -> d_next s' = d_next s ->
  d_store s' = d_store s -> refines pv s'.
Proof. intros [Ra Rl Rt Rs Rj Rd] E1 E2 E3 E4 E5. by split; rewrite ?E1, ?E2, ?E3, ?E4, ?E5. Qed.

Lemma sim_check pv s q p i :
  refines pv s ->
  (store_check_p q p pv).1 = (enq_check smart q p (d_tr s)).1 /\
  refines (store_check_p q p pv).2 (store_check smart q p i s).
Proof.
  intros [Ra Rl Rt Rs Rj Rd]. unfold store_check_p, store_check, enq_check. rewrite Rt, Ra.
  destruct (bool_cases smart) as [Es|Es]; rewrite !Es; [|done].
  destruct (PidTracker.enqueueCheck p q (d_tr s)) as [b t]. done.
Qed.

Lemma sim_add pv s q p : refines pv s -> refines (store_add_p q p pv) (store_add q p s).
Proof. intros [Ra Rl Rt Rs Rj Rd]. split; simpl; try done. by rewrite Rt. Qed.

(** The two completion records. *)
Lemma sim_logs pv s q p i :
  refines pv s -> is_u64 q -> is_u64 p ->
  started_once (d_enq s) -> started_once (d_deq s) ->
  refines (store_log_p q p pv) (store_log q p i s) /\ refines (deq_log_p q p pv) (deq_log q p s).
Proof.
  intros [Ra Rl Rt Rs Rj Rd] Uq Up He Hd. split.
  - destruct (run_call_inv (EnqComplete p q) (aologger pv) (d_enq s) (d_deq s)) as (l' & E & Hb); try done.
    { intros q' p'. simpl. rewrite starts_complete. apply He. }
    { simpl. by rewrite app_nil_r. }
    simpl in E. injection E as E. simpl deq_recs in Hb. rewrite app_nil_r in Hb.
    split; simpl; try done. by rewrite E.
  - destruct (run_call_inv (DeqComplete p q) (aologger pv) (d_enq s) (d_deq s)) as (l' & E & Hb); try done.
    { simpl. by rewrite app_nil_r. }
    { intros q' p'. simpl. rewrite starts_complete. apply Hd. }
    simpl in E. injection E as E. simpl enq_recs in Hb. rewrite app_nil_r in Hb.
    split; simpl; try done. by rewrite E.
Qed.

(** The database calls: they do what the life cycle says or, when they throw,
    change nothing of what is stored. *)
Lemma sim_data pv s io q p i b r pv' :
  refines pv s -> is_Some (journalList pv !! q) -> in_window lo p ->
  pae_size (si_val i) = Z.of_nat (length (pae_buff (si_val i))) ->
  store_data_p io q p (pae_buff (si_val i)) (pae_size (si_val i)) b pv = (r, pv') ->
  refines pv' (match r with
               | Ret _ => store_data q p b i s
               | Throw _ => set_item (q, p) (mkItem (si_val i) (si_new i) SFailed) s
               end) /\ (b = false -> r = Ret tt).
Proof.
  intros R [j Hj] Hw Hsz. unfold store_data_p. destruct b.
  2: { intros [= <- <-]. split; [|done]. by eapply refines_ext. }
  rewrite Hj. destruct (JournalImpl.enqueue_data _ _ _ _ _ _) as [[r0 j'] w'] eqn:E. intros [= <- <-].
  split; [|done]. pose proof (rf_journal _ _ R q j Hj) as [Wj Lj].
  destruct (enqueue_data_spec _ _ _ _ _ _ _ _ _ _ Wj Hw E) as (W' & Hp & Hn & L').
  rewrite Hsz, Nat2Z.id, take_ge in L' by lia.
  eapply refines_ext; [eapply (refines_journal pv s q j j' w'
      (match r0 with
       | Ret _ => match d_store s !! (q, p) with
                  | Some _ => d_store s
                  | None => <[(q, p) := pae_buff (si_val i)]> (d_store s)
                  end
       | Throw _ => d_store s
       end)); try done|..]; try (by destruct r0).
  - intros x. rewrite L', !Lj. destruct r0; [|done].
    destruct (d_store s !! (q, p)) as [b|] eqn:Es; simpl; [by case_decide; subst|].
    rewrite lookup_insert. repeat case_decide; naive_solver.
  - intros q' x Hne. destruct r0; [|done]. destruct (d_store s !! (q, p)); [done|].
    rewrite lookup_insert_ne; [done|]. by intros [= -> _].
  - intros path Hpath. by eapply (proj1 (data_frame j (world pv) path Hpath)).
Qed.

Lemma sim_deq_data pv s io q p r pv' :
  refines pv s -> is_Some (journalList pv !! q) -> in_window lo p ->
  deq_data_p io q p pv = (r, pv') ->
  refines pv' (match r with Ret _ => deq_data q p s | Throw _ => set_deq (q, p) DFailed s end).
Proof.
  intros R [j Hj] Hw. unfold deq_data_p.
  rewrite Hj. destruct (JournalImpl.dequeue_data _ _ _ _) as [[r0 j'] w'] eqn:E. intros [= <- <-].
  pose proof (rf_journal _ _ R q j Hj) as [Wj Lj].
  destruct (dequeue_data_spec _ _ _ _ _ _ _ _ Wj Hw E) as (W' & Hp & Hn & L').
  eapply refines_ext; [eapply (refines_journal pv s q j j' w'
      (match r0 with Ret _ => delete (q, p) (d_store s) | Throw _ => d_store s end)); try done|..];
    try (by destruct r0).
  - intros x. rewrite L', !Lj. destruct r0; [|done].
    rewrite lookup_delete. repeat case_decide; naive_solver.
  - intros q' x Hne. destruct r0; [|done]. rewrite lookup_delete_ne; [done|]. by intros [= -> _].
  - intros path Hpath. by eapply (proj2 (data_frame j (world pv) path Hpath)).
Qed.

End refinement.
