(* ===== verification/CrashRestart.v ===== *)
(** End to end: every run of the provider's handlers, cut where threads interleave,
    is a run of the life cycle of [Durability]; and a restart after a crash of the
    provider reads back exactly the messages that were enqueued and not dequeued. *)
From S2P Require Import Prelude Format Jerrno IdSequence NestedMap PidTracker PendingOps.
From S2P Require Import LogFormat LogExtract AsyncLog LogSystem LogRecovery LoggerSpec.
From S2P Require Import Bdb TxnCtxt Framing Journal JournalSpec Durability Recovery RecoverySpec Provider ProviderSpec.
From Stdlib Require Import ZArith Lia.

(** ** The buffers of a session have the sizes that are logged for them *)

Definition sized (v : PendingAsyncEnqueue) : Prop := pae_size v = Z.of_nat (length (pae_buff v)).

Section sizes.
Context `{HostEndian, HostAlloc}.
Variable smart : bool.
Variables (base : Z) (old : gmap mkey (list byte)).
Implicit Types (s : dsys) (q p : Z).

Definition sizes_ok s : Prop :=
  (forall v, LStart v ∈ d_enq s -> sized v) /\
  (forall k i, d_items s !! k = Some i -> sized (si_val i)).

Lemma sizes_phase s k i i' :
  sizes_ok s -> d_items s !! k = Some i -> si_val i' = si_val i ->
  forall k' x, <[k := i']> (d_items s) !! k' = Some x -> sized (si_val x).
Proof.
  intros [_ Hi] Hk Hv k' x. rewrite lookup_insert. case_decide; [|apply Hi].
  intros [= <-]. rewrite Hv. by apply (Hi k).
Qed.

Lemma sizes_snoc_complete s p q (h := d_enq s) :
  sizes_ok s -> forall v, LStart v ∈ h ++ [LComplete p q] -> sized v.
Proof. intros [He _] v. rewrite elem_of_app, list_elem_of_singleton. intros [Hv|Hv]; [by apply He|done]. Qed.

Lemma sizes_step s s' : sizes_ok s -> dstep smart old s s' -> sizes_ok s'.
Proof.
  intros Hs Hd. pose proof Hs as [He Hi].
  assert (Hsnoc : forall q p new b t, sizes_ok (do_enqueue smart q p new b t s)).
  { intros q p new b t. split; simpl.
    - intros v. rewrite elem_of_app, list_elem_of_singleton. intros [Hv|[= ->]]; [by apply He|done].
    - intros k i. rewrite lookup_insert. case_decide; [by intros [= <-]|apply Hi]. }
  destruct Hd as [q buf tr|q p buf tr Hlt Hn|q p Hq Ho|q p i Hk Hp|q p i b Hk Hp|q p i Hk Hp|q p i Hk Hp
    |q p i Hk Hp|q p Hq Hm|q p Hq Hm|q p Hq|q p d Hq Hp|q p Hq|q p Hq]; try apply Hsnoc; try done.
  - unfold do_dequeue. destruct (deq_check smart q p (d_tr s)) as [[] t]; split; simpl; try done.
    by apply sizes_snoc_complete.
  - unfold store_check. destruct (enq_check smart q p (d_tr s)) as [b t]. split; simpl; [done|].
    by eapply sizes_phase.
  - split; simpl; [done|]. by eapply sizes_phase.
  - split; simpl; [done|]. by eapply sizes_phase.
  - split; simpl; [by apply sizes_snoc_complete|]. by eapply sizes_phase.
  - split; simpl; [done|]. intros k x. rewrite lookup_delete. case_decide; [done|apply Hi].
Qed.

Lemma sizes_reach s0 s : d_init base old s0 -> dreach smart old s0 s -> sizes_ok s.
Proof.
  intros Hi Hr. induction Hr as [|s s' Hr IH Hs]; [|by eapply sizes_step].
  destruct Hi as (E1 & _ & _ & E4 & _). split; rewrite ?E1, ?E4; [|done].
  intros v Hv. by apply not_elem_of_nil in Hv.
Qed.

End sizes.

Lemma pending_elem `{HostEndian} {V} `{!LogKind V} (h : list (log_rec V)) q p v : pending h q p = Some v -> LStart v ∈ h.
Proof.
  unfold pending. case_decide; [done|]. intros Hv.
  assert (Hin : v ∈ starts h q p) by (destruct (starts h q p); simplify_eq/=; set_solver).
  unfold starts in Hin. apply list_elem_of_omap in Hin as (r & Hr & E).
  destruct r as [w|]; [|done]. case_decide; [|done]. by injection E as ->.
Qed.

(** ** Runs of the provider *)

Section runs.
Context `{HostEndian, HostAlloc, Framing, BT : !BTree bt_compare}.
Variable lo : Z.
Variable smart : bool.
Variables (base : Z) (old : gmap mkey (list byte)).
Implicit Types (pv : Provider) (s : dsys) (q p : Z).

Abbreviation refines := (refines lo smart).

(** A stretch of a handler that the provider runs. What it computes is the
    provider's; the other state records the point each task has reached and the
    history of the session. The broker enqueues encodable messages on created
    queues, and ids stay in one window of 2^31. A cleaner thread may run. *)
Inductive pstep pv s : Provider -> dsys -> Prop :=
| Ps_enqueue_new nm q jc msg p pv' :
    q <> 0 -> is_u64 q -> msg_ok msg -> Z.of_nat (length (msgEncode msg).1) <= vector_max ->
    enqueue true nm q 0 jc msg pv = (Ret p, pv') ->
    pstep pv s pv' (do_enqueue smart q (d_next s) true (msgEncode msg).1 (negb (m_persistent msg)) s)
| Ps_enqueue_dup nm q jc msg p pv' :
    q <> 0 -> is_u64 q -> p <> 0 -> is_u64 p -> msg_ok msg ->
    Z.of_nat (length (msgEncode msg).1) <= vector_max ->
    p < d_next s -> ~ enqueued old s q p ->
    enqueue true nm q p jc msg pv = (Ret p, pv') ->
    pstep pv s pv' (do_enqueue smart q p false (msgEncode msg).1 (negb (m_persistent msg)) s)
| Ps_dequeue nm q jc p pv' :
    q <> 0 -> is_u64 q -> p <> 0 -> is_u64 p -> enqueued old s q p -> (q, p) ∉ d_out s ->
    dequeue true nm q p jc pv = (Ret tt, pv') -> pstep pv s pv' (do_dequeue smart q p s)
| Ps_check q p i b pv' :
    d_items s !! (q, p) = Some i -> si_ph i = SCheck -> store_check_p q p pv = (b, pv') ->
    pstep pv s pv' (store_check smart q p i s)
| Ps_data q p i b io pv' :
    d_items s !! (q, p) = Some i -> si_ph i = SData b -> is_Some (journalList pv !! q) -> in_window lo p ->
    store_data_p io q p (pae_buff (si_val i)) (pae_size (si_val i)) b pv = (Ret tt, pv') ->
    pstep pv s pv' (store_data q p b i s)
| Ps_data_throws q p i b io x pv' :
    d_items s !! (q, p) = Some i -> si_ph i = SData b -> is_Some (journalList pv !! q) -> in_window lo p ->
    store_data_p io q p (pae_buff (si_val i)) (pae_size (si_val i)) b pv = (Throw x, pv') ->
    pstep pv s pv' (set_item (q, p) (mkItem (si_val i) (si_new i) SFailed) s)
| Ps_log q p i :
    d_items s !! (q, p) = Some i -> si_ph i = SLog -> is_u64 q -> is_u64 p ->
    pstep pv s (store_log_p q p pv) (store_log q p i s)
| Ps_add q p i :
    d_items s !! (q, p) = Some i -> si_ph i = SAdd -> pstep pv s (store_add_p q p pv) (store_add q p s)
| Ps_wait_dup q p :
    d_deqs s !! (q, p) = Some DWait -> PidTracker.qm_mem (PidTracker.dupMap (tracker pv)) q p = false ->
    pstep pv s pv (set_deq (q, p) DWaitMain s)
| Ps_wait_main q p :
    d_deqs s !! (q, p) = Some DWaitMain -> p <= PidTracker.lastPid (PidTracker.mainRecord (tracker pv)) ->
    pstep pv s pv (set_deq (q, p) DData s)
| Ps_redispatch q p :
    d_deqs s !! (q, p) = Some DWaitMain -> pstep pv s pv (set_deq (q, p) DWait s)
| Ps_stopped q p d :
    d_deqs s !! (q, p) = Some d -> d = DWait \/ d = DWaitMain -> pstep pv s pv (set_deq (q, p) DFailed s)
| Ps_deq_data q p io pv' :
    d_deqs s !! (q, p) = Some DData -> is_Some (journalList pv !! q) -> in_window lo p ->
    deq_data_p io q p pv = (Ret tt, pv') -> pstep pv s pv' (deq_data q p s)
| Ps_deq_throws q p io x pv' :
    d_deqs s !! (q, p) = Some DData -> is_Some (journalList pv !! q) -> in_window lo p ->
    deq_data_p io q p pv = (Throw x, pv') -> pstep pv s pv' (set_deq (q, p) DFailed s)
| Ps_deq_log q p :
    d_deqs s !! (q, p) = Some DLog -> is_u64 q -> is_u64 p ->
    pstep pv s (deq_log_p q p pv) (deq_log q p s)
| Ps_clean x l :
    enq_recs x = [] -> deq_recs x = [] -> call_ok x -> run_call x (aologger pv) = Some l ->
    pstep pv s (set_log l pv) s.

Inductive prun pv0 (s0 : dsys) : Provider -> dsys -> Prop :=
| Pr_refl : prun pv0 s0 pv0 s0
| Pr_step pv s pv' s' : prun pv0 s0 pv s -> pstep pv s pv' s' -> prun pv0 s0 pv' s'.

(** A stretch of the provider is a step of the life cycle, or invisible there. *)
Lemma pstep_dstep pv s pv' s' :
  refines pv s -> pstep pv s pv' s' -> dstep smart old s s' \/ s' = s.
Proof.
  intros R Hs. destruct Hs as [ | | | | 
    | ? ? ? b ? ? ? Hi Hph Hj Hw E | | | | | | | | | |]; try (left; econstructor; eauto; fail).
  - left. destruct b; [by eapply St_data_throws|by unfold store_data_p in E].
  - left. eapply St_wait_dup; [done|]. by rewrite <- (rf_tr _ _ _ _ R).
  - left. eapply St_wait_main; [done|]. by rewrite <- (rf_tr _ _ _ _ R).
  - left. eapply St_deq_ends; [done|tauto].
  - by right.
Qed.

(** ... and keeps the relation. *)
Lemma pstep_refines pv s pv' s' :
  refines pv s -> sizes_ok s -> 0 < d_next s -> d_next s' < 2 ^ 64 ->
  started_once (d_enq s) -> started_once (d_deq s) -> started_once (d_enq s') -> started_once (d_deq s') ->
  pstep pv s pv' s' -> refines pv' s'.
Proof.
  intros R [_ Hz] Hn Hn' He Hd He' Hd' Hs.
  destruct Hs as [nm q jc msg p pv' Hq Uq Hm Hv E|nm q jc msg p pv' Hq Uq Hp Up Hm Hv Hl Hne E
    |nm q jc p pv' Hq Uq Hp Up _ _ E|q p i b pv' _ _ E|q p i b io pv' Hi _ Hj Hw E|q p i b io x pv' Hi _ Hj Hw E
    |q p i _ _ Uq Up|q p i _ _|q p _ _|q p _ _|q p _|q p d _ _|q p io pv' _ Hj Hw E|q p io x pv' _ Hj Hw E
    |q p _ Uq Up|x l Ee Ed Hx E]; try (by eapply refines_ext).
  - simpl in Hn'.
    destruct (sim_enqueue_new lo smart pv s nm q jc msg R Hq Uq ltac:(lia) Hm Hv He' Hd') as (pv1 & E1 & R1).
    rewrite E in E1. by injection E1 as -> ->.
  - destruct (sim_enqueue_dup lo smart pv s nm q p jc msg R Hq Hp Uq Up Hm Hv He' Hd') as (pv1 & E1 & R1).
    rewrite E in E1. by injection E1 as ->.
  - destruct (sim_dequeue lo smart pv s nm q p jc R Hq Hp Uq Up He' Hd') as (pv1 & E1 & R1).
    rewrite E in E1. by injection E1 as ->.
  - pose proof (proj2 (sim_check lo smart pv s q p i R)) as R1. by rewrite E in R1.
  - by eapply (sim_data lo smart pv s io q p i b _ pv' R Hj Hw (Hz _ _ Hi)) in E as [E _].
  - by eapply (sim_data lo smart pv s io q p i b _ pv' R Hj Hw (Hz _ _ Hi)) in E as [E _].
  - by apply sim_logs.
  - by apply sim_add.
  - by eapply sim_deq_data in E.
  - by eapply sim_deq_data in E.
  - by eapply (sim_logs lo smart pv s q p (mkItem (mkPAE 0 0 [] 0 false) true SCheck)).
  - destruct (run_call_inv x (aologger pv) (d_enq s) (d_deq s)) as (l' & E1 & Hb).
    { apply R. } { done. } { by rewrite Ee, app_nil_r. } { by rewrite Ed, app_nil_r. }
    rewrite E in E1. injection E1 as <-. rewrite Ee, Ed, !app_nil_r in Hb.
    destruct R as [Ra Rl Rt Rs Rj Rd]. by split.
Qed.

(** From any moment of a session. *)
Lemma prun_sim_from s00 pv0 s0 pv s :
  0 <= base -> base + 2 ^ 31 < 2 ^ 64 -> d_init base old s00 -> dreach smart old s00 s0 -> refines pv0 s0 ->
  prun pv0 s0 pv s -> d_next s <= base + 2 ^ 31 -> dreach smart old s00 s /\ refines pv s.
Proof.
  intros Hb Hb' Hi R00 R0 Hr. induction Hr as [|pv s pv' s' Hr IH Hs]; intros Hw; [done|].
  assert (Hm : d_next s <= d_next s').
  { destruct Hs; simpl; try lia.
    - unfold do_dequeue. destruct (deq_check smart q p (d_tr s)) as [[] t]; simpl; lia.
    - unfold store_check. destruct (enq_check smart q p (d_tr s)) as [b0 t]. simpl. lia. }
  destruct IH as [Hd R]; [lia|].
  assert (Hd' : dreach smart old s00 s').
  { destruct (pstep_dstep pv s pv' s' R Hs) as [Hst| ->]; [by eapply Dr_step|done]. }
  split; [done|].
  destruct (session_started_once smart base old s00 s Hi Hd) as [O1 O2]; [lia|].
  destruct (session_started_once smart base old s00 s' Hi Hd' Hw) as [O3 O4].
  destruct (dreach_dinv smart base old s00 s Hi Hd) as [_ [added Ht]]; [lia|].
  pose proof (t_next _ _ _ _ Ht). eapply (pstep_refines pv s); try done; [by eapply sizes_reach|lia|lia].
Qed.

Lemma prun_sim pv0 s0 pv s :
  0 <= base -> base + 2 ^ 31 < 2 ^ 64 -> d_init base old s0 -> refines pv0 s0 -> prun pv0 s0 pv s ->
  d_next s <= base + 2 ^ 31 -> dreach smart old s0 s /\ refines pv s.
Proof. intros Hb Hb' Hi. apply prun_sim_from; [done|done|done|constructor]. Qed.

(** What the session's history says of a message: enqueued and not dequeued. *)
Definition history s q p : option (list byte) :=
  if bool_decide ((q, p) ∈ d_out s) then None
  else match starts (d_enq s) q p with
       | v :: _ => Some (pae_buff v)
       | [] => old !! (q, p)
       end.

Lemma survives_history s0 s q p :
  d_init base old s0 -> dreach smart old s0 s -> d_next s <= base + 2 ^ 31 -> survives s q p = history s q p.
Proof.
  intros Hi Hr Hw. destruct (dreach_dinv smart base old s0 s Hi Hr Hw) as [Hk _]. specialize (Hk (q, p)).
  destruct (kok_survives _ _ _ Hk) as [Ht Hf]. rewrite survives_eq. unfold history.
  change (v_out (view s (q, p))) with (bool_decide ((q, p) ∈ d_out s)) in *.
  destruct (bool_decide ((q, p) ∈ d_out s)); [by apply Ht|]. by rewrite Hf.
Qed.

(** The recovery's view of what survives is the life cycle's. *)
Lemma expected_survives s q (l : list (Z * list byte)) ae ad p :
  sizes_ok s -> NoDup l.*1 -> (forall x v, (x, v) ∈ l <-> d_store s !! (q, x) = Some v) ->
  (forall q p, nm_get ae q p = pending (d_enq s) q p) ->
  (forall q p, nm_get ad q p = pending (d_deq s) q p) ->
  expected q l ae ad p = survives s q p.
Proof.
  intros [Hz _] Hn Hl He Hd. unfold expected, survives, deq_pending, enq_pending. rewrite Hd, He.
  destruct (pending (d_deq s) q p); [done|].
  destruct (d_store s !! (q, p)) as [b|] eqn:Es.
  - apply Hl in Es. by rewrite (elem_of_list_to_map_1 l p b Hn Es).
  - destruct (list_to_map l !! p) as [b|] eqn:El.
    { apply elem_of_list_to_map_2, Hl in El. congruence. }
    destruct (pending (d_enq s) q p) as [v|] eqn:Ep; [|done]. simpl. f_equal.
    apply pending_elem, Hz in Ep. rewrite Ep, Nat2Z.id. by rewrite take_ge.
Qed.


End runs.

(** ** A concrete run: one message enqueued on queue 1, then a crash *)

#[local] Existing Instance little_endian.
Definition crash_host : HostAlloc := {| vector_max := 2 ^ 62 |}.
#[local] Existing Instance crash_host.
#[local] Existing Instance wire.
#[local] Instance crash_bt : BTree bt_compare := gmap_btree bt_compare.

Definition crash_msg : Message := mkMsg [x68] [x61; x62] true.
Definition crash_s0 : dsys := mkD [] [] ∅ (PidTracker.set_main (PidTracker.mkPidRecord 0 ∅) PidTracker.init) ∅ ∅ 1 ∅.
Definition crash_pv0 : Provider :=
  mkProv true false IdSequence.init (d_tr crash_s0) (AsyncOperationLogger.create "async" ∅)
    {[1 := ex_j]} ex_w [] [].
Definition crash_pv1 : Provider := (enqueue true "q" 1 0 (Some 1) crash_msg crash_pv0).2.
Definition crash_s1 : dsys := do_enqueue false 1 1 true (msgEncode crash_msg).1 false crash_s0.

Lemma crash_init : d_init 0 ∅ crash_s0.
Proof. unfold d_init. split_and!; try done. intros q p [b Hb]. by rewrite lookup_empty in Hb. Qed.

Lemma crash_refines : refines 0 false crash_pv0 crash_s0.
Proof.
  split; try done.
  - apply create_inv; intros i t; apply lookup_empty.
  - intros q j. unfold crash_pv0. simpl. rewrite lookup_singleton. case_decide as Eq; [|done].
    subst q. intros [= <-]. split; [apply ex_jwf|]. intros p. rewrite ex_empty, lookup_empty. done.
  - intros q q' j j' k k' Hne. simpl. rewrite !lookup_singleton. repeat case_decide; congruence.
Qed.

Lemma crash_enqueue : (enqueue true "q" 1 0 (Some 1) crash_msg crash_pv0).1 = Ret 1.
Proof. reflexivity. Qed.

Lemma crash_run : prun 0 false ∅ crash_pv0 crash_s0 crash_pv1 crash_s1.
Proof.
  eapply Pr_step; [apply Pr_refl|].
  apply (Ps_enqueue_new 0 false ∅ crash_pv0 crash_s0 "q" 1 (Some 1) crash_msg 1).
  - lia.
  - unfold is_u64. lia.
  - unfold msg_ok. simpl. lia.
  - vm_compute. discriminate.
  - unfold crash_pv1. rewrite <- crash_enqueue. apply surjective_pairing.
Qed.

