(* ===== verification/Posix.v ===== *)
(** The directory calls of the operating system that lib/jrnl/jdir.cpp uses:
    [stat], [mkdir], [opendir] with [readdir], [rename], [unlink] and [rmdir].

    A file system maps paths, lists of names from the root, to the type of the
    file there. Symbolic links and the name ".." are left out; so are permissions,
    except that a directory may be read-only, which makes the calls that change it
    fail. *)
From S2P Require Import Prelude.
From Stdlib Require Import ZArith Lia Ascii.

Abbreviation path := (list string).

Inductive node : Type := Dir | Reg | Oth.
#[export] Instance node_eq_dec : EqDecision node.
Proof. solve_decision. Defined.

Inductive errno : Type := ENOENT | EEXIST | ENOTDIR | EACCES | ENOTEMPTY | EINVAL | EISDIR.
#[export] Instance errno_eq_dec : EqDecision errno.
Proof. solve_decision. Defined.

Definition errno_val (e : errno) : Z :=
  match e with
  | ENOENT => 2 | EACCES => 13 | EEXIST => 17 | ENOTDIR => 20 | EISDIR => 21 | EINVAL => 22 | ENOTEMPTY => 39
  end.

(** ** Paths *)

(** The names between slashes; [cur] is the part of the first name read so far. *)
Fixpoint split_slash (cur : string) (s : string) : list string :=
  match s with
  | EmptyString => [cur]
  | String c s' => if Ascii.eqb c "/" then cur :: split_slash "" s'
                   else split_slash (cur +:+ String c "") s'
  end.

Definition real_name (n : string) : bool := negb (String.eqb n "") && negb (String.eqb n ".").
Definition comps (s : string) : path := List.filter real_name (split_slash "" s).
Definition absolute (s : string) : bool :=
  match s with String c _ => Ascii.eqb c "/" | EmptyString => false end.

(** A name that can be an entry of a directory. *)
Fixpoint no_slash (s : string) : bool :=
  match s with String c s' => negb (Ascii.eqb c "/") && no_slash s' | EmptyString => true end.
Definition good_name (n : string) : bool := real_name n && no_slash n.

Record Fs := mkFs {
  fs_nodes : gmap path node;
  fs_cwd : path;
  fs_readonly : path -> bool
}.

Definition set_nodes (m : gmap path node) (fs : Fs) : Fs := mkFs m (fs_cwd fs) (fs_readonly fs).

Section calls.
Implicit Types (fs : Fs) (p : path) (s : string).

Definition resolve fs s : path := (if absolute s then [] else fs_cwd fs) ++ comps s.

(** The root is always there. *)
Definition node_at fs p : option node := match p with [] => Some Dir | _ => fs_nodes fs !! p end.

(** Walking down from [at_]: every name but the last must lead to a directory. *)
Fixpoint walk fs (at_ : path) (rest : path) : errno + node :=
  match node_at fs at_, rest with
  | None, _ => inl ENOENT
  | Some n, [] => inr n
  | Some Dir, c :: rest' => walk fs (at_ ++ [c]) rest'
  | Some _, _ :: _ => inl ENOTDIR
  end.

Definition stat fs s : errno + node := if String.eqb s "" then inl ENOENT else walk fs [] (resolve fs s).

Definition parent p : path := removelast p.

(** The directory that holds the last name of a path, which must be writable. *)
Definition holder fs p : errno + path :=
  match walk fs [] (parent p) with
  | inl e => inl e
  | inr Dir => if fs_readonly fs (parent p) then inl EACCES else inr (parent p)
  | inr _ => inl ENOTDIR
  end.

Definition mkdir fs s : option errno * Fs :=
  if String.eqb s "" then (Some ENOENT, fs)
  else match walk fs [] (resolve fs s) with
       | inr _ => (Some EEXIST, fs)
       | inl ENOENT =>
           match holder fs (resolve fs s) with
           | inl e => (Some e, fs)
           | inr _ => (None, set_nodes (<[resolve fs s := Dir]> (fs_nodes fs)) fs)
           end
       | inl e => (Some e, fs)
       end.

(** The names in a directory, in the order of the map; "." and ".." are skipped by
    every caller. *)
Definition under p q : bool := bool_decide (take (length p) q = p).
Definition child_of p (q : path) : option string :=
  if under p q then match drop (length p) q with [c] => Some c | _ => None end else None.
Definition children fs p : list string := omap (fun qn => child_of p qn.1) (map_to_list (fs_nodes fs)).

(** [opendir] and the entries that [readdir] gives. *)
Definition opendir fs s : errno + list string :=
  match stat fs s with
  | inl e => inl e
  | inr Dir => inr (children fs (resolve fs s))
  | inr _ => inl ENOTDIR
  end.

Definition unlink fs s : option errno * Fs :=
  match stat fs s with
  | inl e => (Some e, fs)
  | inr Dir => (Some EISDIR, fs)
  | inr _ => match holder fs (resolve fs s) with
             | inl e => (Some e, fs)
             | inr _ => (None, set_nodes (delete (resolve fs s) (fs_nodes fs)) fs)
             end
  end.

Definition rmdir fs s : option errno * Fs :=
  match stat fs s with
  | inl e => (Some e, fs)
  | inr Dir =>
      if bool_decide (children fs (resolve fs s) = []) then
        match resolve fs s with
        | [] => (Some EACCES, fs)
        | _ => match holder fs (resolve fs s) with
               | inl e => (Some e, fs)
               | inr _ => (None, set_nodes (delete (resolve fs s) (fs_nodes fs)) fs)
               end
        end
      else (Some ENOTEMPTY, fs)
  | inr _ => (Some ENOTDIR, fs)
  end.

(** [rename] to a name that is not in use, which is the only use made of it: the
    file moves with everything below it. A directory cannot move below itself. *)
Definition moved (old new q : path) : path :=
  if under old q then new ++ drop (length old) q else q.
Definition rename fs sold snew : option errno * Fs :=
  match stat fs sold with
  | inl e => (Some e, fs)
  | inr _ =>
      let old := resolve fs sold in
      let new := resolve fs snew in
      if under old new then (Some EINVAL, fs)
      else match stat fs snew with
           | inr _ => (Some EEXIST, fs)
           | inl ENOENT =>
               match holder fs old, holder fs new with
               | inl e, _ | _, inl e => (Some e, fs)
               | inr _, inr _ =>
                   (None, set_nodes (list_to_map (map (fun qn => (moved old new qn.1, qn.2))
                                                      (map_to_list (fs_nodes fs)))) fs)
               end
           | inl e => (Some e, fs)
           end
  end.

(** ** Well-formed file systems *)

(** Every file is in a directory and has a name; the current directory exists. *)
Record fs_wf fs : Prop := {
  wf_root : fs_nodes fs !! [] = None;
  wf_parent : forall p c n, fs_nodes fs !! (p ++ [c]) = Some n -> node_at fs p = Some Dir;
  wf_name : forall p c n, fs_nodes fs !! (p ++ [c]) = Some n -> good_name c = true;
  wf_cwd : node_at fs (fs_cwd fs) = Some Dir
}.

Lemma node_at_nodes fs p n : node_at fs p = Some n -> p <> [] -> fs_nodes fs !! p = Some n.
Proof. by destruct p. Qed.

(** Everything above a file is a directory. *)
Lemma wf_above fs p q n : fs_wf fs -> node_at fs (p ++ q) = Some n -> q <> [] -> node_at fs p = Some Dir.
Proof.
  intros Hw. revert n. induction q as [|c q IH] using rev_ind; intros n Hn Hq; [done|].
  rewrite app_assoc in Hn. apply node_at_nodes in Hn; [|by destruct (p ++ q)].
  apply (wf_parent fs Hw) in Hn. destruct (decide (q = [])) as [->|Hq']; [by rewrite app_nil_r in Hn|].
  by eapply IH.
Qed.

Lemma walk_inr fs a r n :
  fs_wf fs -> (walk fs a r = inr n <-> node_at fs (a ++ r) = Some n).
Proof.
  intros Hw. revert a. induction r as [|c r IH]; intros a; cbn [walk].
  - rewrite app_nil_r. destruct (node_at fs a) as [[]|]; naive_solver.
  - destruct (node_at fs a) as [[]|] eqn:Ea; [by rewrite IH, <- app_assoc|..].
    all: split; [done|]; intros Hn; apply wf_above in Hn; [congruence|done|done].
Qed.

(** No file is in the way of [p]. *)
Definition clear_way fs p : Prop := forall q r, p = q ++ r -> node_at fs q = Some Dir \/ node_at fs q = None.

Lemma walk_enoent fs a r :
  clear_way fs (a ++ r) -> node_at fs (a ++ r) = None -> walk fs a r = inl ENOENT.
Proof.
  revert a. induction r as [|c r IH]; intros a Hc Hn; cbn [walk].
  - rewrite app_nil_r in Hn. by rewrite Hn.
  - destruct (Hc a (c :: r) eq_refl) as [->| ->]; [|done].
    apply IH; by rewrite <- app_assoc.
Qed.

(** ** Names and paths *)

Lemma split_slash_app cur (a b : string) :
  split_slash cur (a +:+ String "/" b) = split_slash cur a ++ split_slash "" b.
Proof.
  revert cur. induction a as [|c a IH]; intros cur; [done|]. simpl.
  destruct (Ascii.eqb c "/"); simpl; by rewrite IH.
Qed.

Lemma split_slash_name cur b : no_slash b = true -> split_slash cur b = [cur +:+ b].
Proof.
  revert cur. induction b as [|c b IH]; intros cur Hb; simpl in *; [by rewrite string_app_nil_r|].
  apply andb_true_iff in Hb as [Hc Hb]. apply negb_true_iff in Hc. rewrite Hc, IH by done.
  by rewrite string_app_assoc.
Qed.

Lemma comps_name b : no_slash b = true -> comps b = if real_name b then [b] else [].
Proof. intros Hb. unfold comps. by rewrite split_slash_name. Qed.

Lemma comps_slash (a b : string) : comps (a +:+ String "/" b) = comps a ++ comps b.
Proof. unfold comps. by rewrite split_slash_app, List.filter_app. Qed.

Lemma resolve_slash fs (a b : string) :
  a <> "" -> resolve fs (a +:+ String "/" b) = resolve fs a ++ comps b.
Proof.
  intros Ha. unfold resolve. rewrite comps_slash, app_assoc.
  by destruct a.
Qed.

Lemma resolve_child fs (a c : string) :
  a <> "" -> good_name c = true -> resolve fs (a +:+ String "/" c) = resolve fs a ++ [c].
Proof.
  intros Ha [Hr Hs]%andb_true_iff. rewrite resolve_slash by done. by rewrite comps_name, Hr.
Qed.

End calls.
