(* ===== verification/Jdir.v ===== *)
(** Model of lib/jrnl/jdir.cpp: the directory operations of the store, on the
    operating system calls of [Posix].

    Each function returns or throws a journal exception, together with the file
    system it leaves. [closedir] of a directory that was opened does not fail, so
    [close_dir] is not shown; [check_err] is only called in commented-out code.
    [strerror] is a parameter, as it only goes into the texts. *)
From S2P Require Import Prelude Format Jerrno Bdb Posix.
From Stdlib Require Import ZArith Lia Ascii.

(** [s.substr(0,fdp)] for [fdp = s.find_last_of('/')], when there is a slash. *)
Fixpoint before_last_slash (s : string) : option string :=
  match s with
  | EmptyString => None
  | String c s' =>
      match before_last_slash s' with
      | Some p => Some (String c p)
      | None => if Ascii.eqb c "/" then Some "" else None
      end
  end.

(** [strtol(s,0,16)]: blanks, a sign, and "0x" before a digit are skipped. *)
Definition is_space (c : ascii) : bool :=
  let n := nat_of_ascii c in ((n =? 32) || ((9 <=? n) && (n <=? 13)))%nat.
Fixpoint skip_space (s : string) : string :=
  match s with
  | String c s' => if is_space c then skip_space s' else s
  | EmptyString => s
  end.
Definition skip_0x (s : string) : string :=
  match s with
  | String "0" (String ("x" | "X") (String d t)) =>
      match char_digit 16 d with Some _ => String d t | None => s end
  | _ => s
  end.
Definition strtol16 (s : string) : Z :=
  match skip_space s with
  | String "-" s' => - strtol 16 (skip_0x s') 0
  | String "+" s' => strtol 16 (skip_0x s') 0
  | s' => strtol 16 (skip_0x s') 0
  end.

Module jdir.
Section jdir.
Variable strerror : errno -> string.
Implicit Types (fs : Fs) (dirname base_filename : string).

(** [FORMAT_SYSERR(errno)] *)
Definition syserr (e : errno) : string :=
  " errno=" +:+ pretty (errno_val e) +:+ " (" +:+ strerror e +:+ ")".
Definition quoted (what name : string) : string :=
  what +:+ String (ascii_of_nat 34) "" +:+ name +:+ String (ascii_of_nat 34) "".
Definition fail {A} (code : Z) (info fn : string) : result A :=
  Throw (JException (jexception.thrown_info code info "jdir" fn)).

Definition is_dir (name : string) fs : result bool :=
  match stat fs name with
  | inl e => fail jerrno.JERR_JDIR_STAT (quoted "file=" name +:+ syserr e) "is_dir"
  | inr n => Ret (bool_decide (n = Dir))
  end.

Definition exists_ (name : string) fs : result bool :=
  match stat fs name with
  | inl ENOENT => Ret false
  | inl e => fail jerrno.JERR_JDIR_STAT (quoted "file=" name +:+ syserr e) "is_dir"
  | inr _ => Ret true
  end.

(** [create_dir(dirname)]; the name gets shorter with each nested call, so its
    length is enough fuel. *)
Fixpoint create_dir_loop (fuel : nat) dirname fs : result unit * Fs :=
  match fuel with
  | O => (Ret tt, fs)
  | S fuel' =>
      let '(r, fs) :=
        match before_last_slash dirname with
        | None => (Ret tt, fs)
        | Some parent_dir =>
            match exists_ parent_dir fs with
            | Throw x => (Throw x, fs)
            | Ret true => (Ret tt, fs)
            | Ret false => create_dir_loop fuel' parent_dir fs
            end
        end in
      match r with
      | Throw x => (Throw x, fs)
      | Ret _ =>
          match mkdir fs dirname with
          | (None, fs) | (Some EEXIST, fs) => (Ret tt, fs)
          | (Some e, fs) => (fail jerrno.JERR_JDIR_MKDIR (quoted "dir=" dirname +:+ syserr e) "create_dir", fs)
          end
      end
  end.
Definition create_dir dirname fs : result unit * Fs := create_dir_loop (S (String.length dirname)) dirname fs.

(** The prefix of a backup directory's name and the number behind it, for an entry
    of the right length. *)
Definition bak_prefix base_filename : string := "_" +:+ base_filename +:+ ".bak.".
Definition bak_number base_filename (entry : string) : option Z :=
  let n := String.length base_filename in
  if (String.length entry =? n + 10)%nat then
    if String.eqb (String.substring 0 (n + 6) entry) (bak_prefix base_filename)
    then Some (strtol16 (String.substring (n + 6) 4 entry)) else None
  else None.
Definition bak_max base_filename (entries : list string) : Z :=
  foldl (fun dir_num entry => match bak_number base_filename entry with
                              | Some k => if dir_num <? k then k else dir_num
                              | None => dir_num
                              end) 0 entries.

Definition create_bak_dir dirname base_filename fs : result string * Fs :=
  match opendir fs dirname with
  | inl e => (fail jerrno.JERR_JDIR_OPENDIR (quoted "dir=" dirname +:+ syserr e) "create_bak_dir", fs)
  | inr entries =>
      let dn := dirname +:+ "/" +:+ bak_prefix base_filename +:+ num_str 16 4 (bak_max base_filename entries + 1) in
      match mkdir fs dn with
      | (None, fs) => (Ret dn, fs)
      | (Some e, fs) => (fail jerrno.JERR_JDIR_MKDIR (quoted "dir=" dn +:+ syserr e) "create_bak_dir", fs)
      end
  end.

(** The loop of [clear_dir]; [bak_dir] is set once a file to move was found. *)
Fixpoint clear_loop dirname base_filename (entries : list string) (bak_dir : option string) fs :
    result unit * Fs :=
  match entries with
  | [] => (Ret tt, fs)
  | entry :: rest =>
      let n := String.length base_filename in
      if (n <? String.length entry)%nat && String.eqb (String.substring 0 n entry) base_filename then
        let '(r, fs) := match bak_dir with
                        | Some b => (Ret b, fs)
                        | None => create_bak_dir dirname base_filename fs
                        end in
        match r with
        | Throw x => (Throw x, fs)
        | Ret b =>
            let oldname := dirname +:+ "/" +:+ entry in
            let newname := b +:+ "/" +:+ entry in
            match rename fs oldname newname with
            | (None, fs) => clear_loop dirname base_filename rest (Some b) fs
            | (Some e, fs) =>
                (fail jerrno.JERR_JDIR_FMOVE (quoted "file=" oldname +:+ quoted " dest=" newname +:+ syserr e)
                   "clear_dir", fs)
            end
        end
      else clear_loop dirname base_filename rest bak_dir fs
  end.

Definition clear_dir dirname base_filename (create_flag : bool) fs : result unit * Fs :=
  match opendir fs dirname with
  | inl e =>
      if bool_decide (e = ENOENT) && create_flag then create_dir dirname fs
      else (fail jerrno.JERR_JDIR_OPENDIR (quoted "dir=" dirname +:+ syserr e) "clear_dir", fs)
  | inr entries => clear_loop dirname base_filename entries None fs
  end.

(** [push_down]: the named entry moves into a new backup directory. *)
Definition push_down dirname (target_dir bak_dir_base : string) fs : result string * Fs :=
  match create_bak_dir dirname bak_dir_base fs with
  | (Throw x, fs) => (Throw x, fs)
  | (Ret bak_dir_name, fs) =>
      match opendir fs dirname with
      | inl e => (fail jerrno.JERR_JDIR_OPENDIR (quoted "dir=" dirname +:+ syserr e) "push_down", fs)
      | inr entries =>
          if bool_decide (target_dir ∈ entries) then
            let oldname := dirname +:+ "/" +:+ target_dir in
            let newname := bak_dir_name +:+ "/" +:+ target_dir in
            match rename fs oldname newname with
            | (None, fs) => (Ret bak_dir_name, fs)
            | (Some e, fs) =>
                (fail jerrno.JERR_JDIR_FMOVE (quoted "file=" oldname +:+ quoted " dest=" newname +:+ syserr e)
                   "push_down", fs)
            end
          else (Ret bak_dir_name, fs)
      end
  end.

Definition verify_dir dirname base_filename fs : result unit :=
  let! d := is_dir dirname fs in
  if negb d then fail jerrno.JERR_JDIR_NOTDIR (quoted "dir=" dirname) "verify_dir"
  else
    let! e := exists_ (dirname +:+ "/" +:+ base_filename) fs in
    if negb e then fail jerrno.JERR_JDIR_NOSUCHFILE (dirname +:+ "/" +:+ base_filename) "verify_dir"
    else Ret tt.

(** One entry of [delete_dir]'s loop; [rec] is the nested call. The text of the
    last exception also gives the mode of the file, which is left out. *)
Definition delete_entry (rec : string -> Fs -> result unit * Fs) dirname (st : result unit * Fs) (entry : string) :
    result unit * Fs :=
  match st with
  | (Throw x, fs) => (Throw x, fs)
  | (Ret _, fs) =>
      let full_name := dirname +:+ String "/" entry in
      match stat fs full_name with
      | inl e => (fail jerrno.JERR_JDIR_STAT (quoted "stat: file=" full_name +:+ syserr e) "delete_dir", fs)
      | inr Reg =>
          match unlink fs full_name with
          | (None, fs) => (Ret tt, fs)
          | (Some e, fs) =>
              (fail jerrno.JERR_JDIR_UNLINK (quoted "unlink: file=" entry +:+ syserr e) "delete_dir", fs)
          end
      | inr Dir => rec full_name fs
      | inr Oth =>
          (fail jerrno.JERR_JDIR_BADFTYPE (quoted "file=" entry +:+ " is not a dir, file or slink.") "delete_dir", fs)
      end
  end.

(** [delete_dir(dirname,children_only)]: one level of directories per unit of fuel. *)
Fixpoint delete_dir_loop (fuel : nat) dirname (children_only : bool) fs : result unit * Fs :=
  match fuel with
  | O => (Ret tt, fs)
  | S fuel' =>
      match opendir fs dirname with
      | inl ENOENT => (Ret tt, fs)
      | inl e => (fail jerrno.JERR_JDIR_OPENDIR (quoted "dir=" dirname +:+ syserr e) "delete_dir", fs)
      | inr entries =>
          match foldl (delete_entry (fun d fs => delete_dir_loop fuel' d false fs) dirname) (Ret tt, fs) entries with
          | (Throw x, fs) => (Throw x, fs)
          | (Ret _, fs) =>
              if children_only then (Ret tt, fs)
              else match rmdir fs dirname with
                   | (None, fs) => (Ret tt, fs)
                   | (Some e, fs) =>
                       (fail jerrno.JERR_JDIR_RMDIR (quoted "dir=" dirname +:+ syserr e) "delete_dir", fs)
                   end
          end
      end
  end.

(** The depth of the file system is enough. *)
Definition delete_dir dirname (children_only : bool) fs : result unit * Fs :=
  delete_dir_loop (S (max_list (map (fun qn => length qn.1) (map_to_list (fs_nodes fs))))) dirname children_only fs.

End jdir.
End jdir.
