(* ===== verification/JdirSpec.v ===== *)
(** What the directory operations of [Jdir] do to the file system. *)
From S2P Require Import Prelude Format Jerrno Bdb Posix Jdir.
From Stdlib Require Import ZArith Lia Ascii.
Import jdir.

Section spec.
Variable strerror : errno -> string.
Implicit Types (fs : Fs) (s : string) (p q : path).

Definition writable fs : Prop := forall p, fs_readonly fs p = false.
Definition same_place fs fs' : Prop := fs_cwd fs' = fs_cwd fs /\ fs_readonly fs' = fs_readonly fs.

Lemma prefix_snoc q p (c : string) : q `prefix_of` p ++ [c] <-> q `prefix_of` p \/ q = p ++ [c].
Proof.
  split; [|intros [Hq| ->]; [by apply prefix_app_r|done]]. intros [k Hk].
  destruct k as [|x k _] using rev_ind; [right; by rewrite app_nil_r in Hk|].
  left. exists k. rewrite app_assoc in Hk. by apply app_inj_tail in Hk as [-> _].
Qed.

(** *** One directory *)

Lemma node_at_insert fs p n q :
  p <> [] -> node_at (set_nodes (<[p := n]> (fs_nodes fs)) fs) q = if decide (q = p) then Some n else node_at fs q.
Proof.
  intros Hp. unfold node_at. simpl. destruct q as [|c q]; [by rewrite decide_False by done|].
  rewrite lookup_insert. by repeat case_decide; subst.
Qed.

Lemma insert_dir_wf fs p c :
  fs_wf fs -> node_at fs p = Some Dir -> good_name c = true -> node_at fs (p ++ [c]) = None ->
  fs_wf (set_nodes (<[p ++ [c] := Dir]> (fs_nodes fs)) fs).
Proof.
  intros [Wr Wp Wn Wc] Hp Hc Hn. assert (Hne : p ++ [c] <> []) by by destruct p.
  split.
  - simpl. by rewrite lookup_insert_ne.
  - intros p' c' n. simpl. rewrite lookup_insert, node_at_insert by done. case_decide as E.
    + apply app_inj_tail in E as [<- <-]. intros _. case_decide; [done|]. done.
    + intros H. case_decide; [done|]. by eapply Wp.
  - intros p' c' n. simpl. rewrite lookup_insert. case_decide as E; [by apply app_inj_tail in E as [<- <-]|apply Wn].
  - rewrite node_at_insert by done. case_decide; done.
Qed.

Lemma mkdir_spec fs s :
  fs_wf fs -> s <> "" -> clear_way fs (resolve fs s) -> writable fs ->
  (node_at fs (resolve fs s) = Some Dir \/ exists p c, resolve fs s = p ++ [c] /\ good_name c = true /\ node_at fs p = Some Dir) ->
  exists e fs', mkdir fs s = (e, fs') /\ (e = None \/ e = Some EEXIST) /\ fs_wf fs' /\ same_place fs fs' /\
    forall q, node_at fs' q = if decide (q = resolve fs s) then Some Dir else node_at fs q.
Proof.
  intros Hw Hs Hc Hr Hp. unfold mkdir. rewrite (proj2 (String.eqb_neq s "")) by done.
  destruct (Hc (resolve fs s) [] ltac:(by rewrite app_nil_r)) as [E|E].
  - rewrite (proj2 (walk_inr fs [] (resolve fs s) Dir Hw) E). eexists _, _. split_and!; [done|by right|done|done|].
    intros q. by case_decide; subst.
  - rewrite (walk_enoent fs [] (resolve fs s)) by done.
    destruct Hp as [Hp|(p & c & Hp & Hg & Hd)]; [congruence|].
    unfold holder, parent. rewrite Hp, removelast_last.
    rewrite (proj2 (walk_inr fs [] p Dir Hw) Hd), Hr. eexists _, _. split_and!; [done|by left| |done|].
    + apply insert_dir_wf; [done..|]. by rewrite <- Hp.
    + intros q. apply node_at_insert. by destruct p.
Qed.

(** *** create_dir *)

Lemma before_last_slash_spec s :
  match before_last_slash s with
  | Some a => exists b, s = a +:+ String "/" b /\ no_slash b = true
  | None => no_slash s = true
  end.
Proof.
  induction s as [|c s IH]; [done|]. simpl. destruct (before_last_slash s) as [a|].
  - destruct IH as (b & -> & Hb). by exists b.
  - destruct (Ascii.eqb_spec c "/"); simpl; [|done]. subst. by exists s.
Qed.

(** A name leads to a path whose last step is a good name, below the rest. *)
Lemma resolve_last fs a b :
  a <> "" -> no_slash b = true ->
  resolve fs (a +:+ String "/" b) = resolve fs a \/
  (good_name b = true /\ resolve fs (a +:+ String "/" b) = resolve fs a ++ [b]).
Proof.
  intros Ha Hb. rewrite resolve_slash, comps_name by done. unfold good_name. rewrite Hb.
  destruct (real_name b); [by right|left; by rewrite app_nil_r].
Qed.

(** The condition on absolute names: the first directory is there already. *)
Definition anchored fs s : Prop :=
  absolute s = true -> before_last_slash s <> Some "" /\
    match comps s with c :: _ => node_at fs [c] = Some Dir | [] => True end.

Lemma clear_prefix fs p q : clear_way fs (p ++ q) -> clear_way fs p.
Proof. intros Hc a b ->. apply (Hc a (b ++ q)). by rewrite <- app_assoc. Qed.

Lemma anchored_parent fs a b :
  fs_wf fs -> a <> "" -> anchored fs (a +:+ String "/" b) -> node_at fs (resolve fs a) <> Some Dir -> anchored fs a.
Proof.
  intros Hw Ha Hn Hne Hab. assert (Hs : absolute (a +:+ String "/" b) = true) by by destruct a.
  destruct (Hn Hs) as [_ Hc]. rewrite comps_slash in Hc.
  assert (Hra : resolve fs a = comps a) by (unfold resolve; by rewrite Hab). rewrite Hra in Hne.
  destruct (comps a) as [|c r] eqn:Ec; [by destruct Hne|]. simpl in Hc. split; [|done].
  intros Hb. pose proof (before_last_slash_spec a) as Hl. rewrite Hb in Hl. destruct Hl as (x & -> & Hx).
  rewrite comps_slash, (comps_name x) in Ec by done. change (comps "") with ([] : path) in Ec.
  destruct (real_name x); [|done]. by injection Ec as <- <-.
Qed.

Lemma dirs_above fs p q : fs_wf fs -> node_at fs p = Some Dir -> q `prefix_of` p -> node_at fs q = Some Dir.
Proof.
  intros Hw Hp [k Hk]. destruct (decide (k = [])) as [->|Hk'].
  - rewrite app_nil_r in Hk. by rewrite <- Hk.
  - eapply wf_above; [done| |exact Hk']. by rewrite <- Hk.
Qed.

(** Everything up to [p] is a directory and nothing else changed. *)
Definition made (p : path) fs fs' : Prop :=
  fs_wf fs' /\ same_place fs fs' /\
  forall q, node_at fs' q = if decide (q `prefix_of` p) then Some Dir else node_at fs q.

Lemma made_already fs p : fs_wf fs -> node_at fs p = Some Dir -> made p fs fs.
Proof. intros Hw Hp. split_and!; [done..|]. intros q. case_decide; [by eapply dirs_above|done]. Qed.

(** The last directory, when the one above it is there. *)
Lemma mkdir_last fs fs1 s p :
  fs_wf fs -> s <> "" -> clear_way fs (resolve fs s) -> writable fs -> made p fs fs1 ->
  (resolve fs s = p \/ exists c, good_name c = true /\ resolve fs s = p ++ [c]) ->
  exists e fs2, mkdir fs1 s = (e, fs2) /\ (e = None \/ e = Some EEXIST) /\ made (resolve fs s) fs fs2.
Proof.
  intros Hw Hs Hc Hr (W1 & [S1 S2] & N1) Hp.
  assert (Hres : resolve fs1 s = resolve fs s) by (unfold resolve; by rewrite S1).
  assert (Hd : node_at fs1 p = Some Dir) by (by rewrite N1, decide_True).
  destruct (mkdir_spec fs1 s) as (e & fs2 & -> & He & W2 & [P1 P2] & N2); try done.
  { rewrite Hres. intros q r Hq. rewrite N1. case_decide; [by left|]. by apply (Hc q r). }
  { intros x. rewrite S2. apply Hr. }
  { rewrite Hres. destruct Hp as [->|(c & Hg & ->)]; [by left|right; by exists p, c]. }
  exists e, fs2. split_and!; [done..|]. split; [done|]. split; [split; congruence|].
  intros q. rewrite N2, N1, Hres. destruct Hp as [->|(c & Hg & ->)].
  - repeat case_decide; subst; done.
  - pose proof (prefix_snoc q p c). repeat case_decide; tauto.
Qed.

Lemma create_dir_loop_spec fuel s fs :
  (String.length s < fuel)%nat -> fs_wf fs -> s <> "" -> clear_way fs (resolve fs s) -> writable fs -> anchored fs s ->
  exists fs', create_dir_loop strerror fuel s fs = (Ret tt, fs') /\ made (resolve fs s) fs fs'.
Proof.
  revert s fs. induction fuel as [|fuel IH]; intros s fs Hf Hw Hs Hc Hr Ha; [lia|]. cbn [create_dir_loop].
  pose proof (before_last_slash_spec s) as Hl. destruct (before_last_slash s) as [a|] eqn:Eb.
  - destruct Hl as (b & -> & Hb).
    assert (Hane : a <> "") by (intros ->; by destruct (Ha eq_refl)).
    assert (Hca : clear_way fs (resolve fs a))
      by (eapply clear_prefix; rewrite <- (resolve_slash fs a b) by done; exact Hc).
    (* the parent directory is there, or is made *)
    assert (Hmid : exists fs1, match exists_ strerror a fs with
                               | Throw x => (Throw x, fs)
                               | Ret true => (Ret tt, fs)
                               | Ret false => create_dir_loop strerror fuel a fs
                               end = (Ret tt, fs1) /\ made (resolve fs a) fs fs1).
    { unfold exists_, stat. rewrite (proj2 (String.eqb_neq a "")) by done.
      destruct (Hca (resolve fs a) [] ltac:(by rewrite app_nil_r)) as [E|E].
      - rewrite (proj2 (walk_inr fs [] _ Dir Hw) E). exists fs. split; [done|by apply made_already].
      - rewrite (walk_enoent fs [] _) by done. apply IH; try done.
        + rewrite string_app_length in Hf. simpl in Hf. lia.
        + eapply anchored_parent; [done|done|exact Ha|]. by rewrite E. }
    destruct Hmid as (fs1 & -> & Hm).
    destruct (mkdir_last fs fs1 (a +:+ String "/" b) (resolve fs a)) as (e & fs2 & -> & He & H2); try done.
    { destruct (resolve_last fs a b Hane Hb) as [->|[Hg ->]]; [by left|right; by exists b]. }
    exists fs2. split; [by destruct He as [-> | ->]|done].
  - destruct (mkdir_last fs fs s (fs_cwd fs)) as (e & fs2 & -> & He & H2); try done.
    { apply made_already; [done|apply Hw]. }
    { assert (Hab : absolute s = false) by (destruct s as [|c s]; [done|]; simpl in *; by destruct (Ascii.eqb c "/")).
      unfold resolve. rewrite Hab, comps_name by done.
      destruct (real_name s) eqn:En; [|left; by rewrite app_nil_r].
      right. exists s. unfold good_name. by rewrite En, Hl. }
    exists fs2. split; [by destruct He as [-> | ->]|done].
Qed.

(** On a file system where nothing on the way is a plain file
    and the first directory of an absolute name is there, [create_dir] returns; the
    directory and all those above it are there afterwards, nothing else changed,
    and a second call changes nothing. *)
Theorem create_dir_makes s fs :
  fs_wf fs -> s <> "" -> clear_way fs (resolve fs s) -> writable fs -> anchored fs s ->
  exists fs', create_dir strerror s fs = (Ret tt, fs') /\ fs_wf fs' /\
    (forall q, node_at fs' q = if decide (q `prefix_of` resolve fs s) then Some Dir else node_at fs q) /\
    exists fs'', create_dir strerror s fs' = (Ret tt, fs'') /\ forall q, node_at fs'' q = node_at fs' q.
Proof.
  intros Hw Hs Hc Hr Ha.
  destruct (create_dir_loop_spec (S (String.length s)) s fs) as (fs' & E & W & [P1 P2] & N); try done; [lia|].
  exists fs'. split_and!; [done..|].
  assert (Er : resolve fs' s = resolve fs s) by (unfold resolve; by rewrite P1).
  destruct (create_dir_loop_spec (S (String.length s)) s fs') as (fs'' & E' & _ & _ & N'); try done; [lia|..].
  - rewrite Er. intros q r Hq. rewrite N, decide_True; [by left|]. rewrite Hq. by exists r.
  - intros q. rewrite P2. apply Hr.
  - intros Hab. destruct (Ha Hab) as [H1 H2]. split; [done|]. destruct (comps s); [done|].
    rewrite N. by case_decide.
  - exists fs''. split; [done|]. intros q. rewrite N', Er, N. by case_decide.
Qed.

(** A directory directly below the root can never be made,
    whether it is there or not: the name of its parent is empty, which is taken for
    a directory that does not exist. *)
Theorem create_dir_top_level name fs :
  no_slash name = true ->
  create_dir strerror (String "/" name) fs =
  (fail jerrno.JERR_JDIR_MKDIR (quoted "dir=" "" +:+ syserr strerror ENOENT) "create_dir", fs).
Proof.
  intros Hn. unfold create_dir. cbn [String.length create_dir_loop].
  assert (E : before_last_slash (String "/" name) = Some "").
  { simpl. pose proof (before_last_slash_spec name) as Hl. destruct (before_last_slash name) as [a|]; [|done].
    destruct Hl as (b & -> & _). exfalso. clear -Hn. induction a as [|c a IH]; simpl in Hn; [done|].
    apply IH. by apply andb_true_iff in Hn as [_ Hn]. }
  by rewrite E.
Qed.

(** *** delete_dir *)

Lemma child_of_spec p q c : child_of p q = Some c <-> q = p ++ [c].
Proof.
  unfold child_of, under. case_bool_decide as E.
  - split.
    + destruct (drop (length p) q) as [|x [|y l]] eqn:Ed; try done. intros [= ->].
      rewrite <- (take_drop (length p) q), E. by rewrite Ed.
    + intros ->. by rewrite drop_app_length.
  - split; [done|]. intros ->. by rewrite take_app_length in E.
Qed.

Lemma elem_of_children fs p c : c ∈ children fs p <-> is_Some (fs_nodes fs !! (p ++ [c])).
Proof.
  unfold children. rewrite list_elem_of_omap. split.
  - intros ([q n] & Hq & E). apply child_of_spec in E. simpl in E. subst.
    apply elem_of_map_to_list in Hq. by exists n.
  - intros [n Hn]. exists (p ++ [c], n). split; [by apply elem_of_map_to_list|]. by apply child_of_spec.
Qed.

Lemma children_NoDup fs p : NoDup (children fs p).
Proof.
  unfold children. pose proof (NoDup_fst_map_to_list (fs_nodes fs)) as Hn. revert Hn.
  induction (map_to_list (fs_nodes fs)) as [|[q n] L IH]; intros Hn; [constructor|].
  apply NoDup_cons in Hn as [Hq Hn]. fold (fmap fst L) in Hq, Hn. cbn [omap list_omap fst].
  destruct (child_of p q) as [c|] eqn:E; [|by apply IH]. constructor; [|by apply IH].
  apply child_of_spec in E. subst q. rewrite list_elem_of_omap. intros ([q' n'] & Hin & E').
  apply child_of_spec in E'. simpl in E'. subst q'. apply Hq, list_elem_of_fmap. by exists (p ++ [c], n').
Qed.

Lemma node_at_delete fs p q :
  p <> [] -> node_at (set_nodes (delete p (fs_nodes fs)) fs) q = if decide (q = p) then None else node_at fs q.
Proof.
  intros Hp. unfold node_at. simpl. destruct q as [|c q]; [by rewrite decide_False by done|].
  rewrite lookup_delete. by repeat case_decide; subst.
Qed.

(** Removing a file or an empty directory that is not the current one. *)
Lemma delete_node_wf fs p :
  fs_wf fs -> p <> [] -> (forall c, fs_nodes fs !! (p ++ [c]) = None) -> fs_cwd fs <> p ->
  fs_wf (set_nodes (delete p (fs_nodes fs)) fs).
Proof.
  intros [Wr Wp Wn Wc] Hp Hc Hcwd. split.
  - simpl. by rewrite lookup_delete_ne.
  - intros p' c' n. simpl. rewrite lookup_delete, node_at_delete by done. case_decide; [done|]. intros Hn.
    case_decide as E; [subst p'; by rewrite Hc in Hn|by eapply Wp].
  - intros p' c' n. simpl. rewrite lookup_delete. case_decide; [done|apply Wn].
  - rewrite node_at_delete by done. by rewrite decide_False.
Qed.

(** [fs'] is [fs] without what is below [p], and with [p] only if it is kept. *)
Definition cleared (kept : bool) p fs fs' : Prop :=
  fs_wf fs' /\ same_place fs fs' /\
  forall q, node_at fs' q =
    if decide (p `prefix_of` q) then (if decide (q = p) then (if kept then node_at fs p else None) else None)
    else node_at fs q.

Lemma stat_at fs s n : fs_wf fs -> s <> "" -> (stat fs s = inr n <-> node_at fs (resolve fs s) = Some n).
Proof.
  intros Hw Hs. unfold stat. rewrite (proj2 (String.eqb_neq s "")) by done. by apply (walk_inr fs []).
Qed.

Lemma holder_ok fs p c : fs_wf fs -> writable fs -> node_at fs p = Some Dir -> holder fs (p ++ [c]) = inr p.
Proof.
  intros Hw Hr Hp. unfold holder, parent. rewrite removelast_last, (proj2 (walk_inr fs [] p Dir Hw) Hp). by rewrite Hr.
Qed.

Lemma unlink_spec fs s p c :
  fs_wf fs -> writable fs -> s <> "" -> resolve fs s = p ++ [c] -> node_at fs (p ++ [c]) = Some Reg ->
  exists fs', unlink fs s = (None, fs') /\ cleared false (p ++ [c]) fs fs'.
Proof.
  intros Hw Hr Hs Hp Hn. assert (Hne : p ++ [c] <> []) by by destruct p.
  assert (Hd : node_at fs p = Some Dir) by (eapply wf_above; [done|exact Hn|done]).
  unfold unlink. rewrite (proj2 (stat_at fs s Reg Hw Hs)) by by rewrite Hp.
  rewrite Hp, holder_ok by done. eexists. split; [done|].
  assert (Hbelow : forall q k, q = (p ++ [c]) ++ k -> k <> [] -> node_at fs q = None).
  { intros q k -> Hk. destruct (node_at fs ((p ++ [c]) ++ k)) eqn:E; [|done].
    pose proof (wf_above fs (p ++ [c]) k _ Hw E Hk). congruence. }
  split; [|split; [done|]].
  - apply delete_node_wf; try done.
    + intros x. specialize (Hbelow ((p ++ [c]) ++ [x]) [x] eq_refl). unfold node_at in Hbelow.
      destruct ((p ++ [c]) ++ [x]) eqn:E; [by destruct p|]. by apply Hbelow.
    + intros E. pose proof (wf_cwd fs Hw) as Hc. rewrite E in Hc. congruence.
  - intros q. rewrite node_at_delete by done. repeat case_decide; subst; try done.
    destruct H0 as [k Hk]. apply (Hbelow q k); [done|]. intros ->. by rewrite app_nil_r in Hk.
Qed.

Lemma rmdir_spec fs s p c :
  fs_wf fs -> writable fs -> s <> "" -> resolve fs s = p ++ [c] -> node_at fs (p ++ [c]) = Some Dir ->
  (forall x, fs_nodes fs !! ((p ++ [c]) ++ [x]) = None) -> fs_cwd fs <> p ++ [c] ->
  rmdir fs s = (None, set_nodes (delete (p ++ [c]) (fs_nodes fs)) fs).
Proof.
  intros Hw Hr Hs Hp Hn He Hc. assert (Hd : node_at fs p = Some Dir) by (eapply wf_above; [done|exact Hn|done]).
  unfold rmdir. rewrite (proj2 (stat_at fs s Dir Hw Hs)) by by rewrite Hp. rewrite Hp.
  rewrite bool_decide_eq_true_2.
  - rewrite holder_ok by done. by destruct p.
  - destruct (children fs (p ++ [c])) as [|x l] eqn:E; [done|].
    assert (Hx : x ∈ children fs (p ++ [c])) by (rewrite E; set_solver).
    apply elem_of_children in Hx as [n Hx]. by rewrite He in Hx.
Qed.

(** A directory that can be deleted with everything below it, over at most [n]
    levels. *)
Definition deletable (n : nat) fs p : Prop :=
  p <> [] /\ node_at fs p = Some Dir /\ ~ p `prefix_of` fs_cwd fs /\
  forall q k, node_at fs q = Some k -> p `prefix_of` q -> k <> Oth /\ (length q < length p + n)%nat.

(** The entries of [p] that are in [L] are gone. *)
Definition without (p : path) (L : list string) fs fs' : Prop :=
  fs_wf fs' /\ same_place fs fs' /\
  forall q, node_at fs' q = if decide (Exists (fun c => (p ++ [c]) `prefix_of` q) L) then None else node_at fs q.

Lemma snoc_not_prefix p (c : string) : ~ (p ++ [c]) `prefix_of` p.
Proof. apply prefix_snoc_not. Qed.

Lemma snoc_prefix_inj p (c c' : string) : (p ++ [c]) `prefix_of` (p ++ [c']) -> c = c'.
Proof. intros [k Hk]. rewrite <- app_assoc in Hk. apply app_inv_head in Hk. by injection Hk. Qed.

(** One entry. *)
Lemma delete_entry_spec n rec d p c fs :
  (forall fs d, fs_wf fs -> writable fs -> d <> "" -> deletable n fs (resolve fs d) ->
     exists fs', rec d fs = (Ret tt, fs') /\ cleared false (resolve fs d) fs fs') ->
  fs_wf fs -> writable fs -> d <> "" -> resolve fs d = p -> deletable (S n) fs p ->
  is_Some (fs_nodes fs !! (p ++ [c])) ->
  exists fs', delete_entry strerror rec d (Ret tt, fs) c = (Ret tt, fs') /\ cleared false (p ++ [c]) fs fs'.
Proof.
  intros Hrec Hw Hr Hd Hp (Hp1 & Hp2 & Hp3 & Hp4) [k Hk].
  assert (Hg : good_name c = true) by by eapply wf_name.
  assert (Hne : d +:+ String "/" c <> "") by by destruct d.
  assert (Hrs : resolve fs (d +:+ String "/" c) = p ++ [c]) by (rewrite resolve_child by done; by rewrite Hp).
  assert (Hnk : node_at fs (p ++ [c]) = Some k) by (unfold node_at; destruct (p ++ [c]) eqn:E; [by destruct p|done]).
  destruct (Hp4 (p ++ [c]) k Hnk (prefix_app_r p p [c] ltac:(done))) as [Ho _].
  unfold delete_entry. rewrite (proj2 (stat_at fs _ k Hw Hne)) by by rewrite Hrs.
  destruct k; [|destruct (unlink_spec fs _ p c Hw Hr Hne Hrs Hnk) as (fs' & -> & Hcl); by exists fs'|done].
  rewrite <- Hrs. apply Hrec; try done. rewrite Hrs. split_and!; [by destruct p|done| |].
  - intros Hc. apply Hp3. by eapply prefix_app_l.
  - intros q k Hq Hpre. destruct (Hp4 q k Hq (prefix_app_l _ _ _ Hpre)) as [Hk1 Hk2].
    split; [done|]. rewrite length_app. simpl. lia.
Qed.

Lemma delete_entries_spec n rec d p L fs :
  (forall fs d, fs_wf fs -> writable fs -> d <> "" -> deletable n fs (resolve fs d) ->
     exists fs', rec d fs = (Ret tt, fs') /\ cleared false (resolve fs d) fs fs') ->
  fs_wf fs -> writable fs -> d <> "" -> resolve fs d = p -> deletable (S n) fs p -> NoDup L ->
  (forall c, c ∈ L -> is_Some (fs_nodes fs !! (p ++ [c]))) ->
  exists fs', foldl (delete_entry strerror rec d) (Ret tt, fs) L = (Ret tt, fs') /\ without p L fs fs'.
Proof.
  intros Hrec. revert fs. induction L as [|c L IH]; intros fs Hw Hr Hd Hp Hdel Hn HL.
  { exists fs. split; [done|]. split; [done|]. split; [done|]. intros q.
    rewrite decide_False; [done|]. by inversion 1. }
  apply NoDup_cons in Hn as [Hc Hn]. cbn [foldl].
  destruct (delete_entry_spec n rec d p c fs) as (fs1 & -> & W1 & [S1 S2] & N1); try done; [apply HL; set_solver|].
  assert (N1' : forall q, node_at fs1 q = if decide ((p ++ [c]) `prefix_of` q) then None else node_at fs q)
    by (intros q; rewrite N1; by repeat case_decide).
  pose proof Hdel as (Hp1 & Hp2 & Hp3 & Hp4).
  destruct (IH fs1) as (fs2 & -> & W2 & [T1 T2] & N2); try done.
  - intros q. rewrite S2. apply Hr.
  - unfold resolve. by rewrite S1.
  - split_and!; [done| |by rewrite S1|].
    + rewrite N1', decide_False; [done|apply snoc_not_prefix].
    + intros q k. rewrite N1'. case_decide; [done|]. apply Hp4.
  - intros c' Hc'. specialize (HL c' ltac:(set_solver)). destruct HL as [n' HL].
    assert (E : node_at fs1 (p ++ [c']) = Some n').
    { rewrite N1', decide_False; [by destruct p|]. intros Hpre%snoc_prefix_inj. by subst. }
    exists n'. apply node_at_nodes; [done|]. by destruct p.
  - exists fs2. split; [done|]. split; [done|]. split; [split; congruence|].
    intros q. rewrite N2, N1'. pose proof (Exists_cons (fun c0 => (p ++ [c0]) `prefix_of` q) c L).
    repeat case_decide; tauto.
Qed.

(** Without its entries a directory is empty. *)
Lemma without_children p fs fs1 q :
  fs_wf fs -> p <> [] -> without p (children fs p) fs fs1 ->
  node_at fs1 q = if decide (p `prefix_of` q) then (if decide (q = p) then node_at fs p else None) else node_at fs q.
Proof.
  intros Hw Hp1 (_ & _ & N1). rewrite N1. case_decide as E.
  - apply Exists_exists in E as (c & _ & Hpre). rewrite decide_True by by eapply prefix_app_l.
    rewrite decide_False; [done|]. intros ->. by apply snoc_not_prefix in Hpre.
  - case_decide as Hpre; [|done]. case_decide as Eq; [by subst|]. destruct Hpre as [[|c k] Hq].
    { by rewrite app_nil_r in Hq. }
    assert (Hq' : q = (p ++ [c]) ++ k) by (by rewrite <- app_assoc).
    destruct (node_at fs q) as [x|] eqn:En; [|done]. exfalso. apply E, Exists_exists. exists c.
    split; [|by exists k]. apply elem_of_children.
    destruct (decide (k = [])) as [->|Hk].
    + rewrite app_nil_r in Hq'. subst q. exists x. apply node_at_nodes; [done|by destruct p].
    + exists Dir. apply node_at_nodes; [|by destruct p]. eapply wf_above; [done| |exact Hk]. by rewrite <- Hq'.
Qed.

Lemma delete_dir_loop_spec n d fs :
  fs_wf fs -> writable fs -> d <> "" -> deletable n fs (resolve fs d) ->
  forall kept, exists fs', delete_dir_loop strerror n d kept fs = (Ret tt, fs') /\ cleared kept (resolve fs d) fs fs'.
Proof.
  revert d fs. induction n as [|n IH]; intros d fs Hw Hr Hd Hdel kept.
  { destruct Hdel as (_ & H1 & _ & H2). destruct (H2 _ _ H1 ltac:(done)). lia. }
  pose proof Hdel as (Hp1 & Hp2 & Hp3 & Hp4). cbn [delete_dir_loop].
  unfold opendir. rewrite (proj2 (stat_at fs d Dir Hw Hd) Hp2).
  destruct (delete_entries_spec n (fun d fs => delete_dir_loop strerror n d false fs) d (resolve fs d)
              (children fs (resolve fs d)) fs) as (fs1 & -> & W1 & [S1 S2] & N1); try done.
  { intros. by apply IH. }
  { apply children_NoDup. }
  { intros c. apply elem_of_children. }
  set (p := resolve fs d) in *.
  pose proof (fun q => without_children p fs fs1 q Hw Hp1 (conj W1 (conj (conj S1 S2) N1))) as N1'.
  destruct kept.
  { exists fs1. split; [done|]. split; [done|]. by split. }
  assert (Hr1 : resolve fs1 d = p) by (unfold p, resolve; by rewrite S1). clearbody p.
  destruct (exists_last Hp1) as (p0 & c & ->).
  assert (He : forall x, fs_nodes fs1 !! ((p0 ++ [c]) ++ [x]) = None).
  { intros x. destruct (fs_nodes fs1 !! ((p0 ++ [c]) ++ [x])) eqn:E; [|done].
    assert (En : node_at fs1 ((p0 ++ [c]) ++ [x]) = None).
    { rewrite N1', decide_True by by apply prefix_app_r. rewrite decide_False; [done|].
      intros Ex%(f_equal length). rewrite !length_app in Ex. simpl in Ex. lia. }
    unfold node_at in En. destruct ((p0 ++ [c]) ++ [x]) eqn:El; [by destruct p0|congruence]. }
  assert (Hc1 : fs_cwd fs1 <> p0 ++ [c]) by (rewrite S1; intros Ec; apply Hp3; by rewrite Ec).
  rewrite (rmdir_spec fs1 d p0 c); try done.
  - eexists. split; [done|]. split; [|split; [done|]].
    + by apply delete_node_wf.
    + intros q. rewrite node_at_delete by by destruct p0. rewrite N1'.
      destruct (decide (q = p0 ++ [c])) as [->|]; [by rewrite decide_True|]. by repeat case_decide.
  - intros q. rewrite S2. apply Hr.
  - rewrite N1', decide_True, decide_True; done.
Qed.

(** C39: [delete_dir] of a directory that holds only plain files
    and directories, at any depth, returns; the directory and everything below it
    is gone and nothing else changed. With [children_only] the directory itself
    stays. *)
Theorem delete_dir_removes d fs children_only :
  fs_wf fs -> writable fs -> d <> "" ->
  let p := resolve fs d in
  p <> [] -> node_at fs p = Some Dir -> ~ p `prefix_of` fs_cwd fs ->
  (forall q, p `prefix_of` q -> node_at fs q <> Some Oth) ->
  exists fs', delete_dir strerror d children_only fs = (Ret tt, fs') /\ fs_wf fs' /\
    forall q, node_at fs' q =
      if decide (p `prefix_of` q) then (if decide (q = p) then (if children_only then Some Dir else None) else None)
      else node_at fs q.
Proof.
  intros Hw Hr Hd p Hp Hn Hc Ho.
  destruct (delete_dir_loop_spec (S (max_list (map (fun qn => length qn.1) (map_to_list (fs_nodes fs))))) d fs)
    with (kept := children_only) as (fs' & E & W & _ & N); try done.
  - fold p. split_and!; [done..|]. intros q k Hq Hpre. split; [intros ->; by apply (Ho q)|].
    destruct (decide (q = [])) as [->|Hq0]; [simpl; lia|].
    apply node_at_nodes in Hq; [|done].
    assert (Hm : (length q <= max_list (map (fun qn => length qn.1) (map_to_list (fs_nodes fs))))%nat).
    { apply elem_of_map_to_list, list_elem_of_In in Hq.
      apply (max_list_elem_of_le (length q)), list_elem_of_In, in_map_iff. by exists (q, k). }
    lia.
  - exists fs'. split; [done|]. split; [done|]. intros q. rewrite N. fold p. by rewrite Hn.
Qed.

End spec.

(** ** Concrete runs *)

Definition no_text (e : errno) : string := "".
Definition var_fs : Fs :=
  mkFs (<[["var"; "q"; "f.db"] := Reg]> (<[["var"; "q"] := Dir]> {[["var"] := Dir]})) ["var"] (fun _ => false).

Lemma var_lookup p n :
  fs_nodes var_fs !! p = Some n -> (p, n) ∈ [(["var"; "q"; "f.db"], Reg); (["var"; "q"], Dir); (["var"], Dir)].
Proof.
  unfold var_fs. simpl. rewrite !lookup_insert, lookup_singleton.
  repeat case_decide; subst; intros; simplify_eq; set_solver.
Qed.

Lemma var_wf : fs_wf var_fs.
Proof.
  assert (Hs : forall p c (l : path), p ++ [c] = l -> p = removelast l /\ c = List.last l "").
  { intros p c l <-. by rewrite removelast_last, last_last. }
  split; try done.
  - intros p c n Hn. apply var_lookup in Hn. rewrite !elem_of_cons in Hn.
    destruct Hn as [[= E _]|[[= E _]|[[= E _]|Hn]]]; [..|by apply not_elem_of_nil in Hn];
      apply Hs in E as [-> _]; done.
  - intros p c n Hn. apply var_lookup in Hn. rewrite !elem_of_cons in Hn.
    destruct Hn as [[= E _]|[[= E _]|[[= E _]|Hn]]]; [..|by apply not_elem_of_nil in Hn];
      apply Hs in E as [_ ->]; done.
Qed.

Lemma var_clear_way p : p = ["var"; "a"; "b"] -> clear_way var_fs p.
Proof.
  intros -> q r Hq. destruct q as [|x [|y [|z [|w q]]]]; simplify_eq/=; auto.
Qed.

Lemma create_dir_makes_witness :
  exists fs', create_dir no_text "/var/a/b/" var_fs = (Ret tt, fs') /\ fs_wf fs' /\
    (forall q, node_at fs' q = if decide (q `prefix_of` ["var"; "a"; "b"]) then Some Dir else node_at var_fs q) /\
    exists fs'', create_dir no_text "/var/a/b/" fs' = (Ret tt, fs'') /\ forall q, node_at fs'' q = node_at fs' q.
Proof.
  apply (create_dir_makes no_text "/var/a/b/" var_fs).
  - apply var_wf.
  - discriminate.
  - by apply var_clear_way.
  - intros p. reflexivity.
  - intros _. split; [vm_compute; discriminate|reflexivity].
Defined.

Lemma create_dir_top_level_witness :
  create_dir no_text "/var" var_fs =
  (fail jerrno.JERR_JDIR_MKDIR (quoted "dir=" "" +:+ syserr no_text ENOENT) "create_dir", var_fs).
Proof. apply (create_dir_top_level no_text "var" var_fs). reflexivity. Defined.

Lemma delete_dir_removes_witness :
  exists fs', delete_dir no_text "q" false var_fs = (Ret tt, fs') /\ fs_wf fs' /\
    forall q, node_at fs' q =
      if decide (["var"; "q"] `prefix_of` q) then (if decide (q = ["var"; "q"]) then None else None)
      else node_at var_fs q.
Proof.
  apply (delete_dir_removes no_text "q" var_fs false).
  - apply var_wf.
  - intros p. reflexivity.
  - discriminate.
  - discriminate.
  - reflexivity.
  - intros [k Hk]. discriminate Hk.
  - intros q [k ->] Hq. apply node_at_nodes in Hq; [|done]. apply var_lookup in Hq.
    rewrite !elem_of_cons in Hq. destruct Hq as [Hq|[Hq|[Hq|Hq]]]; [discriminate Hq..|].
    by apply not_elem_of_nil in Hq.
Defined.
