(* ===== verification/JdirBak.v ===== *)
(** Backup directories: [create_bak_dir], [push_down] and [clear_dir] of lib/jrnl/jdir.cpp. A
    backup directory is called [_base.bak.XXXX], where [XXXX] counts up in hexadecimal. *)
From S2P Require Import Prelude Format Jerrno Bdb Posix Jdir JdirSpec.
From Stdlib Require Import ZArith Lia Ascii.
Import jdir.

(** ** Numbers of four digits *)

Lemma hex4_length k : 0 <= k < 65536 -> String.length (num_str 16 4 k) = 4%nat.
Proof. intros Hk. apply num_str_length; simpl; lia. Qed.

(** [strtol] has nothing to skip before hexadecimal digits. *)
Definition is_hex (c : ascii) : Prop := is_Some (char_digit 16 c).

Lemma hex_space c : is_hex c -> is_space c = false.
Proof. intros [d Hd]. destruct c as [[] [] [] [] [] [] [] []]; vm_compute in Hd |- *; done. Qed.

Lemma hex_skip_0x c1 c2 t : is_hex c2 -> skip_0x (String c1 (String c2 t)) = String c1 (String c2 t).
Proof.
  intros [d Hd]. destruct (ascii_dec c1 "0") as [->|Hne].
  - destruct c2 as [[] [] [] [] [] [] [] []]; vm_compute in Hd; try done.
  - destruct c1 as [[] [] [] [] [] [] [] []]; done.
Qed.

Lemma hex_strtol16 l : Forall is_hex l -> strtol16 (String.string_of_list_ascii l) = strtol 16 (String.string_of_list_ascii l) 0.
Proof.
  intros Hl. assert (Hx : skip_0x (String.string_of_list_ascii l) = String.string_of_list_ascii l).
  { destruct Hl as [|c1 l1 Hc1 Hl1]; [done|]. destruct Hl1 as [|c2 l2 Hc2 _]; [|by apply hex_skip_0x].
    destruct c1 as [[] [] [] [] [] [] [] []]; done. }
  unfold strtol16. destruct Hl as [|c l Hc Hl]; [done|]. cbn [String.string_of_list_ascii] in *.
  replace (skip_space (String c (String.string_of_list_ascii l))) with (String c (String.string_of_list_ascii l))
    by (cbn [skip_space]; by rewrite hex_space).
  destruct (ascii_dec c "-") as [->|H1]; [by destruct Hc|]. destruct (ascii_dec c "+") as [->|H2]; [by destruct Hc|].
  transitivity (strtol 16 (skip_0x (String c (String.string_of_list_ascii l))) 0); [|by rewrite Hx].
  destruct c as [[] [] [] [] [] [] [] []]; done.
Qed.

Lemma hex4_hex k : 0 <= k -> Forall is_hex (setw 4 (num_chars 16 k)).
Proof.
  intros Hk. apply Forall_app. split; [apply Forall_replicate; by eexists|]. unfold num_chars. apply Forall_fmap.
  destruct (digits_spec 16 k) as [_ F]; [lia|done|]. eapply Forall_impl; [exact F|]. intros d Hd. exists d.
  apply char_digit_char; auto.
Qed.

Lemma hex4_value k : 0 <= k -> strtol16 (num_str 16 4 k) = k.
Proof.
  intros Hk. unfold num_str. rewrite hex_strtol16 by by apply hex4_hex. by apply (strtol_num_str 16 4 k); [auto|].
Qed.

(** ** Names *)

Lemma substring_0 (a b : string) : String.substring 0 (String.length a) (a +:+ b) = a.
Proof. induction a as [|c a IH]; [by destruct b|]. simpl. f_equal. exact IH. Qed.

Lemma substring_all (b : string) : String.substring 0 (String.length b) b = b.
Proof. induction b as [|c b IH]; [done|]. simpl. by f_equal. Qed.

Lemma substring_app (a b : string) : String.substring (String.length a) (String.length b) (a +:+ b) = b.
Proof. induction a as [|c a IH]; [apply substring_all|]. simpl. exact IH. Qed.

Definition bak_name (base : string) (k : Z) : string := bak_prefix base +:+ num_str 16 4 k.

Lemma bak_prefix_length base : String.length (bak_prefix base) = (String.length base + 6)%nat.
Proof. unfold bak_prefix. rewrite !string_app_length. simpl. lia. Qed.

Lemma bak_number_name base k : 0 <= k < 65536 -> bak_number base (bak_name base k) = Some k.
Proof.
  intros Hk. unfold bak_number, bak_name. rewrite string_app_length, bak_prefix_length, hex4_length by done.
  rewrite (proj2 (Nat.eqb_eq _ _)) by lia. rewrite <- bak_prefix_length, substring_0, String.eqb_refl.
  pose proof (substring_app (bak_prefix base) (num_str 16 4 k)) as Hs. rewrite hex4_length in Hs by done.
  rewrite Hs. by rewrite hex4_value by lia.
Qed.

(** [bak_max] is the largest number of an entry. *)
Lemma bak_max_spec base L :
  0 <= bak_max base L /\ (forall e k, e ∈ L -> bak_number base e = Some k -> k <= bak_max base L).
Proof.
  unfold bak_max. assert (G : forall d, d <= foldl (fun dir_num entry => match bak_number base entry with
      | Some k => if dir_num <? k then k else dir_num | None => dir_num end) d L /\
    (forall e k, e ∈ L -> bak_number base e = Some k -> k <= foldl (fun dir_num entry => match bak_number base entry with
      | Some k => if dir_num <? k then k else dir_num | None => dir_num end) d L)); [|destruct (G 0); split; [lia|done]].
  induction L as [|e L IH]; intros d; cbn [foldl]; [split; [done|]; intros e k He; by apply not_elem_of_nil in He|].
  set (d' := match bak_number base e with Some k => if d <? k then k else d | None => d end).
  assert (Hd : d <= d') by (unfold d'; destruct (bak_number base e); [|lia]; destruct (Z.ltb_spec d z); lia).
  destruct (IH d') as [I1 I2]. split; [lia|]. intros x k [->|Hx]%elem_of_cons Hk; [|by eapply I2].
  transitivity d'; [|done]. unfold d'. rewrite Hk. destruct (Z.ltb_spec d k); lia.
Qed.

(** The next name is not in use. *)
Lemma bak_name_fresh base L : bak_max base L < 65535 -> bak_name base (bak_max base L + 1) ∉ L.
Proof.
  intros Hm Hin. destruct (bak_max_spec base L) as [H0 H1].
  specialize (H1 _ _ Hin (bak_number_name base (bak_max base L + 1) ltac:(lia))). lia.
Qed.

Lemma no_slash_app (a b : string) : no_slash (a +:+ b) = no_slash a && no_slash b.
Proof. induction a as [|c a IH]; [done|]. simpl. by rewrite IH, andb_assoc. Qed.

Lemma hex_no_slash l : Forall is_hex l -> no_slash (String.string_of_list_ascii l) = true.
Proof.
  induction 1 as [|c l [d Hd] _ IH]; [done|]. simpl. rewrite IH, andb_true_r.
  destruct (Ascii.eqb_spec c "/"); [by subst|done].
Qed.

Lemma bak_name_good base k : no_slash base = true -> 0 <= k -> good_name (bak_name base k) = true.
Proof.
  intros Hb Hk. unfold good_name, bak_name, bak_prefix. rewrite !no_slash_app, Hb.
  unfold num_str. rewrite hex_no_slash by by apply hex4_hex. done.
Qed.

Section bak.
Variable strerror : errno -> string.
Implicit Types (fs : Fs) (s d base : string) (p q r old new : path).

(** ** rename *)

(** What was at [old] is at [new], nothing is left at [old] and nothing else changed. *)
Definition relocated old new fs fs' : Prop :=
  fs_wf fs' /\ same_place fs fs' /\ (forall r, node_at fs' (new ++ r) = node_at fs (old ++ r)) /\
  forall q, ~ new `prefix_of` q -> node_at fs' q = if decide (old `prefix_of` q) then None else node_at fs q.

Lemma under_prefix p q : under p q = true <-> p `prefix_of` q.
Proof.
  unfold under. rewrite bool_decide_eq_true. split; [intros E|intros [k ->]; by rewrite take_app_length].
  exists (drop (length p) q). by rewrite <- E at 1; rewrite take_drop.
Qed.

Lemma moved_under old new r : moved old new (old ++ r) = new ++ r.
Proof. unfold moved. rewrite (proj2 (under_prefix _ _)) by by eexists. by rewrite drop_app_length. Qed.

Lemma moved_apart old new q : ~ old `prefix_of` q -> moved old new q = q.
Proof. intros Hq. unfold moved. destruct (under old q) eqn:E; [by apply under_prefix in E|done]. Qed.

(** Nothing is below a name that is not in use. *)
Lemma nothing_below fs p q : fs_wf fs -> node_at fs p = None -> p `prefix_of` q -> node_at fs q = None.
Proof.
  intros Hw Hp [k ->]. destruct (node_at fs (p ++ k)) eqn:E; [|done].
  destruct (decide (k = [])) as [->|Hk]; [by rewrite app_nil_r in E; congruence|].
  apply wf_above in E; [congruence|done|done].
Qed.

Lemma snoc_app_nonempty p (c : string) r : (p ++ [c]) ++ r <> [].
Proof. by destruct p. Qed.

Definition move_nodes old new fs : gmap path node :=
  list_to_map (map (fun qn => (moved old new qn.1, qn.2)) (map_to_list (fs_nodes fs))).

Lemma move_nodes_spec old new fs q n :
  fs_wf fs -> node_at fs new = None ->
  (move_nodes old new fs !! q = Some n <-> exists q0, fs_nodes fs !! q0 = Some n /\ moved old new q0 = q).
Proof.
  intros Hw Hn. unfold move_nodes. rewrite <- elem_of_list_to_map.
  - rewrite list_elem_of_fmap. split.
    + intros ([q0 n0] & [= -> ->] & Hq). exists q0. by apply elem_of_map_to_list in Hq.
    + intros (q0 & Hq & <-). exists (q0, n). split; [done|]. by apply elem_of_map_to_list.
  - rewrite <- list_fmap_compose. apply NoDup_fmap_2_strong; [|apply NoDup_map_to_list].
    assert (Hnew : forall a x, fs_nodes fs !! a = Some x -> a <> [] /\ ~ new `prefix_of` a).
    { intros a x Ha. assert (a <> []) by (intros ->; by rewrite (wf_root _ Hw) in Ha). split; [done|]. intros Hp.
      pose proof (nothing_below fs new a Hw Hn Hp) as E. by destruct a; simplify_eq/=. }
    intros [a x] [b y] Ha%elem_of_map_to_list Hb%elem_of_map_to_list. cbn [compose fst snd]. intros E.
    assert (Hab : a = b); [|subst; congruence]. apply Hnew in Ha as Ha', Hb as Hb'.
    destruct (decide (old `prefix_of` a)) as [[k ->]|Oa], (decide (old `prefix_of` b)) as [[l ->]|Ob];
      rewrite ?moved_under, ?moved_apart in E by done.
    + by apply app_inv_head in E as ->.
    + destruct Hb' as [_ []]. rewrite <- E. by eexists.
    + destruct Ha' as [_ []]. rewrite E. by eexists.
    + done.
Qed.

Section move.
Context (fs : Fs) (p : path) (c : string) (p' : path) (c' : string).
Let old := p ++ [c].
Let new := p' ++ [c'].
Let fs' := set_nodes (move_nodes old new fs) fs.
Context (Hw : fs_wf fs) (Hn : node_at fs new = None).

Lemma file_not_below_new q k : fs_nodes fs !! q = Some k -> ~ new `prefix_of` q.
Proof using Hw Hn.
  intros Hq Hpre. pose proof (nothing_below fs new q Hw Hn Hpre) as E. destruct q; [|by simplify_eq/=].
  by rewrite (wf_root _ Hw) in Hq.
Qed.

Lemma moved_file q k :
  q <> [] -> (node_at fs' q = Some k <-> exists q0, fs_nodes fs !! q0 = Some k /\ moved old new q0 = q).
Proof using Hw Hn. intros Hq. rewrite <- (move_nodes_spec old new fs q k Hw Hn). by destruct q. Qed.

Lemma moved_below r : node_at fs' (new ++ r) = node_at fs (old ++ r).
Proof using Hw Hn.
  apply option_eq. intros k. rewrite moved_file by apply snoc_app_nonempty. split.
  - intros (q0 & Hq & E). destruct (decide (old `prefix_of` q0)) as [[l ->]|Oq].
    + rewrite moved_under in E. apply app_inv_head in E as ->.
      destruct (old ++ r) eqn:E; [by apply snoc_app_nonempty in E|done].
    + rewrite moved_apart in E by done. destruct (file_not_below_new q0 k Hq). rewrite E. by eexists.
  - intros Hk. exists (old ++ r). split; [apply node_at_nodes; [done|apply snoc_app_nonempty]|apply moved_under].
Qed.

Lemma moved_elsewhere q :
  ~ new `prefix_of` q -> node_at fs' q = if decide (old `prefix_of` q) then None else node_at fs q.
Proof using Hw Hn.
  intros Hq. destruct q as [|x q].
  { rewrite decide_False; [done|]. intros [k Hk]. symmetry in Hk. by apply snoc_app_nonempty in Hk. }
  apply option_eq. intros k. rewrite moved_file by done. split.
  - intros (q0 & Hk & E). destruct (decide (old `prefix_of` q0)) as [[l ->]|Oq].
    + rewrite moved_under in E. destruct Hq. rewrite <- E. by eexists.
    + rewrite moved_apart in E by done. subst q0. by rewrite decide_False.
  - case_decide as O; [done|]. intros Hk. exists (x :: q). split; [done|by apply moved_apart].
Qed.

(** Where a file of the new file system comes from. *)
Lemma moved_source a x k :
  fs_nodes fs' !! (a ++ [x]) = Some k ->
  (a = p' /\ x = c') \/ (exists l, a = new ++ l /\ fs_nodes fs !! ((old ++ l) ++ [x]) = Some k) \/
  (fs_nodes fs !! (a ++ [x]) = Some k /\ ~ old `prefix_of` a ++ [x]).
Proof using Hw Hn.
  intros (q0 & Hq & E)%(move_nodes_spec old new fs _ _ Hw Hn). destruct (decide (old `prefix_of` q0)) as [[l ->]|Oq].
  - rewrite moved_under in E. destruct l as [|y l _] using rev_ind.
    + rewrite app_nil_r in E. apply app_inj_tail in E as [-> ->]. by left.
    + rewrite app_assoc in E. apply app_inj_tail in E as [<- <-]. right; left. exists l. by rewrite <- app_assoc.
  - rewrite moved_apart in E by done. subst q0. by right; right.
Qed.

(** Moving a file or a directory to a name that is not in use in a directory. *)
Lemma move_relocates :
  good_name c' = true -> node_at fs p' = Some Dir -> ~ old `prefix_of` p' -> ~ old `prefix_of` fs_cwd fs ->
  relocated old new fs fs'.
Proof using Hw Hn.
  intros Hg Hp' Hnp Hcwd. split_and!; [|done|apply moved_below|apply moved_elsewhere]. split.
  - destruct (fs_nodes fs' !! []) as [k|] eqn:E; [|done].
    apply (move_nodes_spec old new fs _ _ Hw Hn) in E as (q0 & Hq & E).
    destruct (decide (old `prefix_of` q0)) as [[l ->]|Oq].
    + rewrite moved_under in E. by apply snoc_app_nonempty in E.
    + rewrite moved_apart in E by done. subst. by rewrite (wf_root _ Hw) in Hq.
  - intros a x k [[-> ->]|[(l & -> & Hk)|[Hk Oq]]]%moved_source.
    + rewrite moved_elsewhere by apply snoc_not_prefix. by rewrite decide_False.
    + rewrite moved_below. by apply (wf_parent _ Hw) in Hk.
    + rewrite moved_elsewhere by (intros Hpre; by apply (file_not_below_new _ _ Hk), prefix_app_r).
      rewrite decide_False by (intros Hpre; by apply Oq, prefix_app_r). by apply (wf_parent _ Hw) in Hk.
  - intros a x k [[-> ->]|[(l & -> & Hk)|[Hk Oq]]]%moved_source; [done|by apply (wf_name _ Hw) in Hk..].
  - change (node_at fs' (fs_cwd fs) = Some Dir).
    rewrite moved_elsewhere; [by rewrite decide_False; [apply (wf_cwd _ Hw)|]|].
    intros Hpre. pose proof (nothing_below fs new _ Hw Hn Hpre) as E. pose proof (wf_cwd _ Hw). congruence.
Qed.
End move.

Lemma clear_new fs p (c : string) :
  fs_wf fs -> node_at fs p = Some Dir -> node_at fs (p ++ [c]) = None -> clear_way fs (p ++ [c]).
Proof.
  intros Hw Hp Hn q r E. destruct (decide (q = p ++ [c])) as [->|Hq]; [by right|left].
  assert (Hpre : q `prefix_of` p ++ [c]) by (by eexists).
  apply prefix_snoc in Hpre as [Hpre|?]; [by eapply dirs_above|done].
Qed.

(** [rename] of a file or a directory to a name that is not in use. *)
Lemma rename_spec fs sold snew p c p' c' n :
  fs_wf fs -> writable fs -> sold <> "" -> snew <> "" -> resolve fs sold = p ++ [c] -> resolve fs snew = p' ++ [c'] ->
  good_name c' = true -> node_at fs (p ++ [c]) = Some n -> node_at fs p' = Some Dir ->
  ~ (p ++ [c]) `prefix_of` p' -> ~ (p ++ [c]) `prefix_of` fs_cwd fs -> node_at fs (p' ++ [c']) = None ->
  exists fs', rename fs sold snew = (None, fs') /\ relocated (p ++ [c]) (p' ++ [c']) fs fs'.
Proof.
  intros Hw Hr Ho Hs Ro Rn Hg Hold Hd Hnp Hcwd Hnew. unfold rename.
  rewrite (proj2 (stat_at fs sold n Hw Ho)) by by rewrite Ro. rewrite Ro, Rn.
  destruct (under (p ++ [c]) (p' ++ [c'])) eqn:E.
  { apply under_prefix, prefix_snoc in E as [E|E]; [done|]. congruence. }
  unfold stat. rewrite (proj2 (String.eqb_neq snew "")), Rn by done.
  rewrite (walk_enoent fs [] (p' ++ [c'])) by (done || by apply clear_new).
  rewrite !holder_ok; try done; [|by eapply wf_above]. eexists. split; [done|]. by apply move_relocates.
Qed.

(** ** create_bak_dir *)

(** The name of the next backup directory. *)
Definition next_bak fs p base : string := bak_name base (bak_max base (children fs p) + 1).

Lemma opendir_dir fs d : fs_wf fs -> d <> "" -> node_at fs (resolve fs d) = Some Dir ->
  opendir fs d = inr (children fs (resolve fs d)).
Proof. intros Hw Hd Hp. unfold opendir. by rewrite (proj2 (stat_at fs d Dir Hw Hd) Hp). Qed.

(** A backup directory whose number is one more than the largest in use is made, and
    nothing else changes. *)
Theorem create_bak_dir_new d base fs :
  fs_wf fs -> writable fs -> d <> "" -> no_slash base = true ->
  let p := resolve fs d in
  node_at fs p = Some Dir -> bak_max base (children fs p) < 65535 ->
  exists fs', create_bak_dir strerror d base fs = (Ret (d +:+ "/" +:+ next_bak fs p base), fs') /\
    fs_wf fs' /\ same_place fs fs' /\ node_at fs (p ++ [next_bak fs p base]) = None /\
    forall q, node_at fs' q = if decide (q = p ++ [next_bak fs p base]) then Some Dir else node_at fs q.
Proof.
  intros Hw Hr Hd Hb p Hp Hm. unfold create_bak_dir. rewrite opendir_dir by done. fold p.
  set (nm := next_bak fs p base). destruct (bak_max_spec base (children fs p)) as [Hm0 _].
  assert (Hg : good_name nm = true) by (apply bak_name_good; [done|lia]).
  assert (Hres : resolve fs (d +:+ "/" +:+ nm) = p ++ [nm]) by by apply (resolve_child fs d nm).
  assert (Hn : node_at fs (p ++ [nm]) = None).
  { destruct (node_at fs (p ++ [nm])) eqn:E; [|done]. apply node_at_nodes in E; [|by destruct p].
    destruct (bak_name_fresh base (children fs p) Hm). by apply elem_of_children. }
  change (d +:+ "/" +:+ bak_prefix base +:+ num_str 16 4 (bak_max base (children fs p) + 1)) with (d +:+ "/" +:+ nm).
  unfold mkdir. rewrite (proj2 (String.eqb_neq _ "")), Hres by by destruct d.
  rewrite (walk_enoent fs [] (p ++ [nm])) by (done || by apply clear_new).
  rewrite holder_ok by done. eexists. split; [done|]. split_and!; [by apply insert_dir_wf|done|done|].
  intros q. apply node_at_insert. by destruct p.
Qed.

(** The number has four digits only up to 65535: the directory made after that is not
    counted, so every later call asks for it again and throws. *)
Theorem create_bak_dir_exhausted d base fs :
  fs_wf fs -> d <> "" -> no_slash base = true ->
  let p := resolve fs d in
  let dn := d +:+ "/" +:+ bak_name base 65536 in
  node_at fs p = Some Dir -> bak_max base (children fs p) = 65535 -> node_at fs (p ++ [bak_name base 65536]) = Some Dir ->
  create_bak_dir strerror d base fs =
  (fail jerrno.JERR_JDIR_MKDIR (quoted "dir=" dn +:+ syserr strerror EEXIST) "create_bak_dir", fs).
Proof.
  intros Hw Hd Hb p dn Hp Hm Hn. unfold create_bak_dir. rewrite opendir_dir by done. fold p. rewrite Hm.
  change (d +:+ "/" +:+ bak_prefix base +:+ num_str 16 4 (65535 + 1)) with dn.
  assert (Hres : resolve fs dn = p ++ [bak_name base 65536]).
  { apply (resolve_child fs d (bak_name base 65536)); [done|]. apply bak_name_good; [done|lia]. }
  unfold mkdir. rewrite (proj2 (String.eqb_neq dn "")) by by destruct d.
  by rewrite (proj2 (walk_inr fs [] (resolve fs dn) Dir Hw)) by by rewrite Hres.
Qed.

(** ** push_down *)

(** An entry [c] of the directory moves into its subdirectory [nm]. *)
Lemma move_into fs d nm c n :
  fs_wf fs -> writable fs -> d <> "" -> let p := resolve fs d in
  good_name nm = true -> node_at fs (p ++ [nm]) = Some Dir -> c <> nm -> node_at fs (p ++ [c]) = Some n ->
  node_at fs ((p ++ [nm]) ++ [c]) = None -> ~ (p ++ [c]) `prefix_of` fs_cwd fs ->
  exists fs', rename fs (d +:+ "/" +:+ c) ((d +:+ "/" +:+ nm) +:+ "/" +:+ c) = (None, fs') /\
    relocated (p ++ [c]) ((p ++ [nm]) ++ [c]) fs fs'.
Proof.
  intros Hw Hr Hd p Hg Hnm Hne Hc Hfree Hcwd.
  assert (Hgc : good_name c = true) by (apply node_at_nodes in Hc; [by eapply wf_name|by destruct p]).
  eapply rename_spec; try done; try by destruct d.
  - by apply (resolve_child fs d c).
  - transitivity (resolve fs (d +:+ "/" +:+ nm) ++ [c]).
    + apply (resolve_child fs (d +:+ "/" +:+ nm) c); [by destruct d|done].
    + f_equal. by apply (resolve_child fs d nm).
  - by intros ?%snoc_prefix_inj.
Qed.

(** The backup directory [nm] has been made in the directory [p]. *)
Definition with_bak p (nm : string) fs fs1 : Prop :=
  fs_wf fs1 /\ same_place fs fs1 /\ node_at fs (p ++ [nm]) = None /\
  forall q, node_at fs1 q = if decide (q = p ++ [nm]) then Some Dir else node_at fs q.

Lemma with_bak_entry p nm fs fs1 c : with_bak p nm fs fs1 -> c <> nm -> node_at fs1 (p ++ [c]) = node_at fs (p ++ [c]).
Proof. intros (_ & _ & _ & N) Hc. rewrite N, decide_False; [done|]. by intros [_ ?]%app_inj_tail. Qed.

Lemma entry_node fs p c : c ∈ children fs p <-> is_Some (node_at fs (p ++ [c])).
Proof. rewrite elem_of_children. unfold node_at. destruct (p ++ [c]) eqn:E; [by destruct p|done]. Qed.

(** [push_down] of an entry makes a backup directory and moves the entry into it, with
    everything below it. Nothing else changes. *)
Theorem push_down_moves d target base fs :
  fs_wf fs -> writable fs -> d <> "" -> no_slash base = true ->
  let p := resolve fs d in
  let nm := next_bak fs p base in
  node_at fs p = Some Dir -> bak_max base (children fs p) < 65535 ->
  target ∈ children fs p -> ~ (p ++ [target]) `prefix_of` fs_cwd fs ->
  exists fs', push_down strerror d target base fs = (Ret (d +:+ "/" +:+ nm), fs') /\ fs_wf fs' /\
    node_at fs' (p ++ [nm]) = Some Dir /\
    (forall r, node_at fs' (((p ++ [nm]) ++ [target]) ++ r) = node_at fs ((p ++ [target]) ++ r)) /\
    forall q, ~ (p ++ [nm]) `prefix_of` q ->
      node_at fs' q = if decide ((p ++ [target]) `prefix_of` q) then None else node_at fs q.
Proof.
  intros Hw Hr Hd Hb p nm Hp Hm Ht Hcwd. unfold push_down.
  destruct (create_bak_dir_new d base fs) as (fs1 & -> & HB); try done.
  fold p nm in HB |- *. fold (with_bak p nm fs fs1) in HB. pose proof HB as (W1 & [C1 R1] & Hfree & N1).
  assert (Hp1 : resolve fs1 d = p) by (unfold p, resolve; by rewrite C1).
  assert (Hne : target <> nm) by (intros ->; by apply entry_node in Ht as [n E]; rewrite Hfree in E).
  assert (Hpn : node_at fs1 p = Some Dir).
  { rewrite N1, decide_False; [done|]. intros E. apply (f_equal length) in E. rewrite length_app in E. simpl in E. lia. }
  rewrite opendir_dir by (by rewrite ?Hp1). rewrite Hp1.
  apply entry_node in Ht as [n Ht]. rewrite <- (with_bak_entry p nm fs fs1) in Ht by done.
  rewrite bool_decide_eq_true_2 by by apply entry_node.
  destruct (move_into fs1 d nm target n) as (fs2 & -> & W2 & _ & A & B); rewrite ?Hp1, ?C1; try done.
  - intros x. by rewrite R1.
  - apply bak_name_good; [done|]. destruct (bak_max_spec base (children fs p)). lia.
  - by rewrite N1, decide_True.
  - rewrite N1. rewrite decide_False; [by apply (nothing_below fs (p ++ [nm])); [..|by eexists]|]. 
    intros E. apply (f_equal length) in E. rewrite length_app in E. simpl in E. lia.
  - rewrite Hp1 in A, B. exists fs2. split; [done|]. split; [done|]. split; [|split].
    + rewrite B by apply snoc_not_prefix. rewrite decide_False by by intros ?%snoc_prefix_inj.
      by rewrite N1, decide_True.
    + intros r. rewrite A, N1, decide_False; [done|]. intros E. apply Hne.
      apply (snoc_prefix_inj p target nm). by eexists.
    + intros q Hq. rewrite B by (intros [k ->]; apply Hq; rewrite <- app_assoc; by eexists).
      case_decide; [done|]. rewrite N1, decide_False; [done|]. by intros ->.
Qed.

(** ** clear_dir *)

(** The test of [clear_dir] on an entry: it starts with the base name and is longer. *)
Definition has_base base (entry : string) : bool :=
  (String.length base <? String.length entry)%nat && String.eqb (String.substring 0 (String.length base) entry) base.

(** The entries [L] of [p] are in the backup directory [nm], with everything below them. *)
Definition swept p (nm : string) (L : list string) fs fs' : Prop :=
  fs_wf fs' /\ same_place fs fs' /\
  (forall c r, c ∈ L -> node_at fs' (((p ++ [nm]) ++ [c]) ++ r) = node_at fs ((p ++ [c]) ++ r)) /\
  forall q, (forall c, c ∈ L -> ~ ((p ++ [nm]) ++ [c]) `prefix_of` q) ->
    node_at fs' q = if decide (Exists (fun c => (p ++ [c]) `prefix_of` q) L) then None else node_at fs q.

(** The entries [L] can be moved into [nm]. *)
Definition movable p (nm : string) (L : list string) fs : Prop :=
  node_at fs (p ++ [nm]) = Some Dir /\
  forall c, c ∈ L -> c <> nm /\ is_Some (node_at fs (p ++ [c])) /\ node_at fs ((p ++ [nm]) ++ [c]) = None /\
    ~ (p ++ [c]) `prefix_of` fs_cwd fs.

Lemma snoc_prefix_app p (c c' : string) r : (p ++ [c]) `prefix_of` (p ++ [c']) ++ r -> c = c'.
Proof. intros [k Hk]. rewrite <- !app_assoc in Hk. apply app_inv_head in Hk. by injection Hk. Qed.

Lemma snoc2_prefix_app p (nm c c' : string) r : ((p ++ [nm]) ++ [c]) `prefix_of` (p ++ [c']) ++ r -> nm = c'.
Proof. intros [k Hk]. apply (snoc_prefix_app p nm c' r). exists ([c] ++ k). by rewrite Hk, <- app_assoc. Qed.

Lemma snoc_prefix_app2 p (nm c c' : string) r : (p ++ [c]) `prefix_of` ((p ++ [nm]) ++ [c']) ++ r -> c = nm.
Proof. intros H. apply (snoc_prefix_app p c nm ([c'] ++ r)). by rewrite app_assoc. Qed.

(** One entry less to move. *)
Lemma movable_next p nm c L fs fs1 :
  movable p nm (c :: L) fs -> c ∉ L -> relocated (p ++ [c]) ((p ++ [nm]) ++ [c]) fs fs1 -> movable p nm L fs1.
Proof.
  intros [Hnm HL] Hc (_ & [C1 _] & _ & B). destruct (HL c) as (Hcn & _); [set_solver|].
  split.
  - rewrite B by apply snoc_not_prefix. by rewrite decide_False by by intros ?%snoc_prefix_inj.
  - intros c' Hc'. assert (Hcc : c <> c') by by intros ->. destruct (HL c') as (Hn' & Hs' & Hf' & Hw'); [set_solver|].
    rewrite <- (app_nil_r (p ++ [c'])), <- (app_nil_r ((p ++ [nm]) ++ [c'])).
    rewrite !B, !decide_False, !app_nil_r, C1; [done|..].
    + by intros ?%snoc_prefix_app2.
    + rewrite app_nil_r. by intros ?%snoc_prefix_inj.
    + by intros ?%snoc_prefix_app.
    + intros ?%snoc2_prefix_app. by symmetry in H.
Qed.

(** Moving [c] and then the entries [L] moves them all. *)
Lemma swept_cons p nm c L fs fs1 fs2 :
  nm ∉ c :: L -> c ∉ L -> relocated (p ++ [c]) ((p ++ [nm]) ++ [c]) fs fs1 -> swept p nm L fs1 fs2 ->
  swept p nm (c :: L) fs fs2.
Proof.
  intros Hnm Hc (_ & [C1 R1] & A & B) (W2 & [C2 R2] & S2 & N2). split; [done|]. split; [split; congruence|]. split.
  - intros c' r [->|Hc']%elem_of_cons.
    + rewrite N2.
      * rewrite decide_False; [apply A|]. intros (x & Hx & E%snoc_prefix_app2)%Exists_exists. subst. set_solver.
      * intros x Hx E%snoc_prefix_app. by subst.
    + rewrite S2 by done. rewrite B by (intros E%snoc2_prefix_app; set_solver).
      rewrite decide_False; [done|]. intros E%snoc_prefix_app. by subst.
  - intros q Hq. rewrite N2 by (intros x Hx; apply Hq; set_solver). rewrite B by (apply Hq; set_solver).
    pose proof (Exists_cons (fun c => (p ++ [c]) `prefix_of` q) c L). repeat case_decide; tauto.
Qed.

Lemma clear_loop_moves p d base nm L fs :
  d <> "" -> good_name nm = true -> resolve fs d = p -> fs_wf fs -> writable fs -> NoDup L ->
  movable p nm (filter (fun c => has_base base c) L) fs ->
  exists fs', clear_loop strerror d base L (Some (d +:+ "/" +:+ nm)) fs = (Ret tt, fs') /\
    swept p nm (filter (fun c => has_base base c) L) fs fs'.
Proof.
  intros Hd Hg. revert fs. induction L as [|c L IH]; intros fs Hp Hw Hr Hnd Hmv.
  { exists fs. split; [done|]. split_and!; [done|done|set_solver|]. intros q _. by rewrite decide_False by by intros ?%Exists_nil. }
  apply NoDup_cons in Hnd as [Hc Hnd]. cbn [clear_loop]. fold (has_base base c).
  destruct (has_base base c) eqn:Eb.
  2:{ rewrite filter_cons_False in Hmv |- * by (rewrite Eb; simpl; tauto). by apply IH. }
  rewrite filter_cons_True in Hmv |- * by (rewrite Eb; simpl; tauto).
  assert (HcL : c ∉ filter (fun c => has_base base c) L) by (rewrite list_elem_of_filter; tauto).
  pose proof Hmv as [Hnm HL]. destruct (HL c) as (Hcn & [n Hn] & Hf & Hcwd); [set_solver|].
  destruct (move_into fs d nm c n) as (fs1 & -> & HR); rewrite ?Hp; try done. rewrite Hp in HR.
  pose proof HR as (W1 & [C1 R1] & _). destruct (IH fs1) as (fs2 & -> & HS); try done.
  - unfold resolve in Hp |- *. by rewrite C1.
  - intros x. by rewrite R1.
  - by eapply movable_next.
  - exists fs2. split; [done|]. eapply swept_cons; try done. intros Hin. by destruct (HL nm Hin).
Qed.

(** The backup directory is only made when there is an entry to move. *)
Lemma clear_loop_start d base L fs b fs1 :
  create_bak_dir strerror d base fs = (Ret b, fs1) ->
  clear_loop strerror d base L None fs =
  if decide (filter (fun c => has_base base c) L = []) then (Ret tt, fs) else clear_loop strerror d base L (Some b) fs1.
Proof.
  intros Hb. induction L as [|c L IH]; [done|]. cbn [clear_loop]. fold (has_base base c).
  destruct (has_base base c) eqn:Eb.
  - rewrite filter_cons_True by (rewrite Eb; simpl; tauto). by rewrite Hb.
  - rewrite filter_cons_False by (rewrite Eb; simpl; tauto). exact IH.
Qed.

(** [clear_dir] moves the entries that start with the base name, and only those, into
    one new backup directory, with everything below them; without such an entry it
    changes nothing. *)
Theorem clear_dir_moves d base create_flag fs :
  fs_wf fs -> writable fs -> d <> "" -> no_slash base = true ->
  let p := resolve fs d in
  let nm := next_bak fs p base in
  let L := filter (fun c => has_base base c) (children fs p) in
  node_at fs p = Some Dir -> bak_max base (children fs p) < 65535 ->
  (forall c, c ∈ L -> ~ (p ++ [c]) `prefix_of` fs_cwd fs) ->
  exists fs', clear_dir strerror d base create_flag fs = (Ret tt, fs') /\ fs_wf fs' /\
    (L = [] -> fs' = fs) /\
    (L <> [] -> node_at fs' (p ++ [nm]) = Some Dir) /\
    (forall c r, c ∈ L -> node_at fs' (((p ++ [nm]) ++ [c]) ++ r) = node_at fs ((p ++ [c]) ++ r)) /\
    forall q, ~ (p ++ [nm]) `prefix_of` q ->
      node_at fs' q = if decide (Exists (fun c => (p ++ [c]) `prefix_of` q) L) then None else node_at fs q.
Proof.
  intros Hw Hr Hd Hb p nm L Hp Hm Hcwd. unfold clear_dir. rewrite opendir_dir by done. fold p.
  destruct (create_bak_dir_new d base fs) as (fs1 & Hbak & HB); try done.
  fold p nm in Hbak, HB. fold (with_bak p nm fs fs1) in HB. rewrite (clear_loop_start _ _ _ _ _ _ Hbak). fold L.
  case_decide as EL.
  { exists fs. rewrite EL. split_and!; [done..|set_solver|]. intros q _. by rewrite decide_False by by intros ?%Exists_nil. }
  pose proof HB as (W1 & [C1 R1] & Hfree & N1).
  assert (HL : forall c, c ∈ L -> c <> nm /\ is_Some (node_at fs (p ++ [c]))).
  { intros c [_ Hc]%list_elem_of_filter. apply entry_node in Hc. split; [|done]. intros ->. by rewrite Hfree in Hc; destruct Hc. }
  assert (Hmv : movable p nm L fs1).
  { split; [by rewrite N1, decide_True|]. intros c Hc. destruct (HL c Hc) as [Hne Hs].
    rewrite (with_bak_entry p nm fs fs1), C1 by done. split_and!; [done..| |by apply Hcwd].
    rewrite N1, decide_False; [by apply (nothing_below fs (p ++ [nm])); [..|by eexists]|].
    intros E. apply (f_equal length) in E. rewrite length_app in E. simpl in E. lia. }
  destruct (clear_loop_moves p d base nm (children fs p) fs1) as (fs2 & -> & W2 & _ & A & B); try done.
  - apply bak_name_good; [done|]. destruct (bak_max_spec base (children fs p)). lia.
  - unfold p, resolve. by rewrite C1.
  - intros x. by rewrite R1.
  - apply children_NoDup.
  - fold L in A, B. exists fs2. split_and!; [done|done|done|..].
    + intros _. rewrite B by (intros; apply snoc_not_prefix).
      rewrite decide_False by (intros (x & Hx & E%snoc_prefix_inj)%Exists_exists; by destruct (HL x Hx)).
      by rewrite N1, decide_True.
    + intros c r Hc. rewrite A, N1, decide_False by (done || (intros E; destruct (HL c Hc) as [[] _];
        apply (snoc_prefix_inj p); by eexists)). done.
    + intros q Hq. rewrite B by (intros c _ [k ->]; apply Hq; rewrite <- app_assoc; by eexists).
      case_decide; [done|]. rewrite N1, decide_False; [done|]. by intros ->.
Qed.
End bak.

(** ** A concrete run *)

(** The file of /var/q goes to /var/q/_f.bak.0001. *)
Lemma clear_dir_moves_witness :
  exists fs', clear_dir no_text "q" "f" false var_fs = (Ret tt, fs') /\ fs_wf fs' /\
    node_at fs' ["var"; "q"; "_f.bak.0001"; "f.db"] = Some Reg /\ node_at fs' ["var"; "q"; "f.db"] = None.
Proof.
  destruct (clear_dir_moves no_text "q" "f" false var_fs) as (fs' & E & W & _ & _ & A & B).
  - apply var_wf.
  - intros p. reflexivity.
  - discriminate.
  - reflexivity.
  - reflexivity.
  - vm_compute. reflexivity.
  - intros c _ [k Hk]. discriminate Hk.
  - exists fs'. split; [exact E|]. split; [exact W|]. split.
    + transitivity (node_at var_fs ((resolve var_fs "q" ++ ["f.db"]) ++ [])); [|reflexivity].
      rewrite <- (A "f.db" []); [reflexivity|]. vm_compute. constructor.
    + rewrite B; [reflexivity|]. intros [k Hk]. discriminate Hk.
Defined.

(** A directory that holds the backups ffff and 10000. *)
Definition full_fs : Fs :=
  mkFs (<[["d"; "_f.bak.10000"] := Dir]> (<[["d"; "_f.bak.ffff"] := Dir]> {[["d"] := Dir]})) [] (fun _ => false).

Lemma full_wf : fs_wf full_fs.
Proof.
  assert (HL : forall q n, fs_nodes full_fs !! q = Some n ->
    q = ["d"; "_f.bak.10000"] \/ q = ["d"; "_f.bak.ffff"] \/ q = ["d"]).
  { intros q n. unfold full_fs. simpl. rewrite !lookup_insert, lookup_singleton. repeat case_decide; auto. done. }
  split; try done.
  - intros p c n [E|[E|E]]%HL; apply (f_equal (@removelast string)) in E; rewrite removelast_last in E; by subst.
  - intros p c n [E|[E|E]]%HL; apply (f_equal (fun l => List.last l "")) in E; rewrite last_last in E; by subst.
Qed.

Lemma create_bak_dir_exhausted_witness :
  exists x, create_bak_dir no_text "/d" "f" full_fs = (Throw x, full_fs).
Proof.
  eexists. rewrite (create_bak_dir_exhausted no_text "/d" "f" full_fs); [reflexivity|..].
  - apply full_wf.
  - discriminate.
  - reflexivity.
  - reflexivity.
  - vm_compute. reflexivity.
  - reflexivity.
Defined.
