(* ===== verification/Config.v ===== *)
(** Model of the configuration side of lib/BdbStoreProvider.cpp: creating,
    destroying and recovering queues, exchanges, general items and bindings, with
    lib/BindingDbt.cpp and the directory and journal of a queue.

    A broker object is what the store sees of it: its persistence id, its name and
    its encoding. The databases are those of [Bdb]; [io] gives what the environment
    answers to the transaction calls. The texts of the exceptions are given without
    the source position that the macro adds; [db_what] is the text of a database
    exception. *)
From S2P Require Import Prelude Format Jerrno IdSequence Bdb TxnCtxt Framing Journal Posix Jdir PidTracker.
From S2P Require Import LogFormat LogExtract AsyncLog Provider.
From Stdlib Require Import ZArith Lia.

Record Persistable := mkPersistable { p_id : Z; p_name : string; p_bytes : list byte }.
Definition setPersistenceId (id : Z) (p : Persistable) : Persistable := mkPersistable id (p_name p) (p_bytes p).

Section config.
Context `{HostEndian, Framing}.
Context {BT : BTree bt_compare} {KT : BTree key_compare} {DT : DupTree key_compare}.
Variable db_what : Z -> string.
Variable strerror : errno -> string.

Abbreviation EntDb := (@Db key_compare KT).

Implicit Types (p : Persistable) (e : DbEnv) (io : db_answers).

(** ** Objects of one kind *)

(** [BufferValue(p)]: the encoding of the object. *)
Definition BufferValue p : list byte := p_bytes p.

(** [create(db,seq,p)]: the object with its new id, or [None] when the id is in
    use. The id is drawn even when the call fails. *)
Definition create_obj io (db : EntDb) (seq : IdSequence.t) p e :
    result (option Persistable) * EntDb * IdSequence.t * DbEnv :=
  let '(id, seq) := IdSequence.next seq in
  let '(r, e) := TxnCtxt.with_txn (io_begin io) (io_commit io) true (db_put db id (BufferValue p)) e in
  match r with
  | Throw x => (Throw x, db, seq, e)
  | Ret (st, db') =>
      (Ret (if bool_decide (st = DB_KEYEXIST) then None else Some (setPersistenceId id p)), db', seq, e)
  end.

(** [destroy(db,p)]: the status is not looked at. *)
Definition destroy_obj (db : EntDb) p : result EntDb :=
  let! sd := db_del db (p_id p) in Ret sd.2.

(** The loop of [recoverConfigs], [recoverExchanges] and [recoverQueues] over the
    cursor, for objects that are all recovered: the largest id, from 1. *)
Definition max_id (rows : list (Z * list byte)) : Z := foldl (fun m kv => Z.max kv.1 m) 1 rows.

(** [recoverConfigs]: the objects with their ids. *)
Definition recoverConfigs (db : EntDb) (seq : IdSequence.t) : list (Z * list byte) * IdSequence.t :=
  (db_scan db, IdSequence.reset (u64 (max_id (db_scan db) + 1)) seq).

(** [recoverExchanges]: the broker may decline an exchange, which then is not in the
    map; its id counts all the same. *)
Definition recoverExchanges (accepts : list byte -> bool) (db : EntDb) (seq : IdSequence.t) :
    gmap Z (list byte) * IdSequence.t :=
  (foldl (fun m kv => if accepts kv.2 then <[kv.1 := kv.2]> m else m) ∅ (db_scan db),
   IdSequence.reset (u64 (max_id (db_scan db) + 1)) seq).

(** ** Bindings *)

(** [BindingDbt]: queue id, queue name, key and arguments. *)
Definition binding_size (q : Persistable) (k : string) (a : FieldTable) : Z :=
  u32 (8 + Z.of_nat (String.length (p_name q)) + 1 + Z.of_nat (String.length k) + 1 +
       Z.of_nat (length (put_table a))).
Definition BindingDbt (q : Persistable) (k : string) (a : FieldTable) : list byte :=
  take (Z.to_nat (binding_size q k a))
    (put_longlong (p_id q) ++ put_shortstr (p_name q) ++ put_shortstr k ++ put_table a).

(** [put(db,txn,key,value)] *)
Definition put (db : DupDb) (key : Z) (value : list byte) : result DupDb :=
  match dup_put db key value with
  | Ret (DB_KEYEXIST, _) => Throw (StoreException "duplicate data")
  | Ret (_, db') => Ret db'
  | Throw (DbException n) => Throw (StoreException (db_what n))
  | Throw x => Throw x
  end.

(** [bind(e,q,k,a)] *)
Definition bind io (ex q : Persistable) (k : string) (a : FieldTable) (db : DupDb) e : result DupDb * DbEnv :=
  TxnCtxt.with_txn (io_begin io) (io_commit io) true (put db (p_id ex) (BindingDbt q k a)) e.

(** The fields of a stored binding. *)
Definition binding_queue (v : list byte) : Z := get_longlong v.
Definition binding_names (v : list byte) : string * string * FieldTable :=
  let '(name, rest) := get_shortstr (drop 8 v) in
  let '(key, rest) := get_shortstr rest in
  (name, key, get_table rest).
Definition short (v : list byte) : bool := (length v <? 8)%nat.

(** A cursor loop that deletes the pairs that [del] selects. *)
Fixpoint delete_loop (del : Z -> list byte -> bool) (rows : list (Z * list byte)) (db : DupDb) : result DupDb :=
  match rows with
  | [] => Ret db
  | (k, v) :: rest =>
      if short v then Throw (StoreException "Not enough data for binding")
      else if del k v then let! db' := dup_cdel db k v in delete_loop del rest db'
      else delete_loop del rest db
  end.

(** [catch (const std::exception& e) THROW_STORE_EXCEPTION_2(msg, e.what())]. *)
Definition exn_what (x : exn) : option string :=
  match x with
  | DbException n => Some (db_what n)
  | StoreException t => Some t
  | JException j => Some (jexception.what j)
  | Undefined _ => None
  end.
Definition catch_std {A} (msg : string) (r : result A) : result A :=
  match r with
  | Throw x => match exn_what x with
               | Some t => Throw (StoreException (msg +:+ ": " +:+ t))
               | None => Throw x
               end
  | r => r
  end.

(** A transaction that begins before the [try]. *)
Definition delete_txn io (body : result DupDb) e : result DupDb * DbEnv :=
  let '(r, e) := TxnCtxt.with_txn (io_begin io) (io_commit io) true body e in
  (match io_begin io with
   | BeginOk => catch_std "Error deleting bindings" r
   | _ => r
   end, e).

(** [deleteBindingsForQueue(queue)] *)
Definition deleteBindingsForQueue io (q : Persistable) (db : DupDb) e : result DupDb * DbEnv :=
  delete_txn io (delete_loop (fun _ v => p_id q =? binding_queue v) (dup_scan db) db) e.

(** [deleteBinding(exchange,queue,bkey)], which is [unbind]. *)
Definition deleteBinding io (ex q : Persistable) (bkey : string) (db : DupDb) e : result DupDb * DbEnv :=
  delete_txn io
    (delete_loop (fun _ v => (p_id q =? binding_queue v) && bool_decide (bkey = (binding_names v).1.2))
       (map (fun v => (p_id ex, v)) (dup_dups db (p_id ex))) db) e.

(** [create(exchange)] and [create(general)]: an object that has an id is refused,
    and a database error is given the text of the call. *)
Definition create_named (already exists_ failed : string) io (db : EntDb) (seq : IdSequence.t) p e :
    result Persistable * EntDb * IdSequence.t * DbEnv :=
  if negb (p_id p =? 0) then (Throw (StoreException already), db, seq, e)
  else
    let '(r, db, seq, e) := create_obj io db seq p e in
    (match r with
     | Throw (DbException n) => Throw (StoreException (failed +:+ ": " +:+ db_what n))
     | Throw x => Throw x
     | Ret None => Throw (StoreException exists_)
     | Ret (Some p) => Ret p
     end, db, seq, e).

Definition create_exchange io (db : EntDb) (seq : IdSequence.t) (ex : Persistable) e :
    result Persistable * EntDb * IdSequence.t * DbEnv :=
  create_named ("Exchange already created: " +:+ p_name ex) ("Exchange already exists: " +:+ p_name ex)
    ("Error creating exchange named " +:+ p_name ex) io db seq ex e.

Definition create_config io (db : EntDb) (seq : IdSequence.t) p e :
    result Persistable * EntDb * IdSequence.t * DbEnv :=
  create_named "General configuration item already created" "General configuration already exists"
    "Error creating general configuration" io db seq p e.

(** [destroy(general)] *)
Definition destroy_config (db : EntDb) p : result EntDb := destroy_obj db p.

(** [destroy(exchange)]: the exchange, then its bindings. *)
Definition destroy_exchange (ex : Persistable) (edb : EntDb) (db : DupDb) : result (EntDb * DupDb) :=
  let! edb' := destroy_obj edb ex in
  let! sd := dup_del db (p_id ex) in
  Ret (edb', sd.2).

(** [recoverBindings]: what is bound, in order, and the database without the stale
    bindings. *)
Record bound := mkBound { b_exchange : Z; b_queue : string; b_key : string; b_args : FieldTable }.
Fixpoint recover_loop (exchangeMap queueMap : gset Z) (rows : list (Z * list byte)) (acc : list bound) (db : DupDb) :
    result (list bound) * DupDb :=
  match rows with
  | [] => (Ret acc, db)
  | (k, v) :: rest =>
      if short v then (Throw (StoreException "Not enough data for binding"), db)
      else
        let '(name, key, args) := binding_names v in
        if bool_decide (k ∈ exchangeMap) && bool_decide (binding_queue v ∈ queueMap)
        then recover_loop exchangeMap queueMap rest (acc ++ [mkBound k name key args]) db
        else match dup_cdel db k v with
             | Throw x => (Throw x, db)
             | Ret db' => recover_loop exchangeMap queueMap rest acc db'
             end
  end.
Definition recoverBindings (exchangeMap queueMap : gset Z) (db : DupDb) : result (list bound) * DupDb :=
  recover_loop exchangeMap queueMap (dup_scan db) [] db.

(** ** Queues *)

(** What creating and destroying queues touches. *)
Record QueueStore := mkQS {
  qs_db : EntDb;
  qs_seq : IdSequence.t;
  qs_bindings : DupDb;
  qs_journals : gmap Z JournalImpl;
  qs_world : JournalImpl.world;
  qs_fs : Fs
}.
Implicit Types (st : QueueStore).

Variables (storeDir : string) (num_jfiles : Z).

Definition set_env e st : QueueStore :=
  mkQS (qs_db st) (qs_seq st) (qs_bindings st) (qs_journals st)
    (JournalImpl.mkWorld e (JournalImpl.w_files (qs_world st))) (qs_fs st).
Definition set_db (db : EntDb) (seq : IdSequence.t) st : QueueStore :=
  mkQS db seq (qs_bindings st) (qs_journals st) (qs_world st) (qs_fs st).
Definition set_bindings (db : DupDb) st : QueueStore :=
  mkQS (qs_db st) (qs_seq st) db (qs_journals st) (qs_world st) (qs_fs st).
Definition set_queue_fs (fs : Fs) st : QueueStore :=
  mkQS (qs_db st) (qs_seq st) (qs_bindings st) (qs_journals st) (qs_world st) fs.
Definition set_queue_world (w : JournalImpl.world) st : QueueStore :=
  mkQS (qs_db st) (qs_seq st) (qs_bindings st) (qs_journals st) w (qs_fs st).
Definition set_journals (m : gmap Z JournalImpl) st : QueueStore :=
  mkQS (qs_db st) (qs_seq st) (qs_bindings st) m (qs_world st) (qs_fs st).

(** The journal of a queue with its id. *)
Definition journal_of (q : Persistable) : JournalImpl := queue_journal storeDir (p_name q) (p_id q) num_jfiles.

(** [create(queue)]: the queue with its id, and its journal object when it got one;
    a queue without a name is ignored. [iod] answers the creation of the record and
    [ioj] the opening of the message databases. *)
Definition create_queue (iod ioj : db_answers) (q : Persistable) st :
    result (Persistable * option JournalImpl) * QueueStore :=
  if negb (p_id q =? 0) then (Throw (StoreException ("Queue already created: " +:+ p_name q)), st)
  else if String.eqb (p_name q) "" then (Ret (q, None), st)
  else
    let '(r, db, seq, e) := create_obj iod (qs_db st) (qs_seq st) q (JournalImpl.w_env (qs_world st)) in
    let st := set_env e (set_db db seq st) in
    match r with
    | Throw (DbException _) => (Throw (StoreException ("Error creating queue named  " +:+ p_name q)), st)
    | Throw x => (Throw x, st)
    | Ret None => (Throw (StoreException ("Queue already exists: " +:+ p_name q)), st)
    | Ret (Some q) =>
        let dir := getBdbBaseDir storeDir +:+ getJrnlHashDir (p_name q) in
        match jdir.create_dir strerror dir (qs_fs st) with
        | (Throw x, fs) => (Throw x, set_queue_fs fs st)
        | (Ret _, fs) =>
            let st := set_queue_fs fs st in
            match JournalImpl.initialize ioj (journal_of q) (qs_world st) with
            | (Throw (JException x), w) =>
                (Throw (StoreException ("Queue " +:+ p_name q +:+ ": create() failed: " +:+ jexception.what x)),
                 set_queue_world w st)
            | (Throw x, w) => (Throw x, set_queue_world w st)
            | (Ret j, w) => (Ret (q, Some j), set_journals (<[p_id q := j]> (qs_journals st)) (set_queue_world w st))
            end
        end
    end.

(** [destroy(queue)], for a queue with or without a journal. *)
Definition destroy_queue (io : db_answers) (q : Persistable) (jq : option JournalImpl) st :
    result unit * QueueStore :=
  match destroy_obj (qs_db st) q with
  | Throw x => (Throw x, st)
  | Ret db =>
      let st := set_db db (qs_seq st) st in
      match deleteBindingsForQueue io q (qs_bindings st) (JournalImpl.w_env (qs_world st)) with
      | (Throw x, e) => (Throw x, set_env e st)
      | (Ret bdb, e) =>
          let st := set_bindings bdb (set_env e st) in
          match jq with
          | None => (Ret tt, st)
          | Some j =>
              let '(j, w) := JournalImpl.delete_jrnl_files j (qs_world st) in
              let st := set_queue_world w st in
              match jdir.delete_dir strerror (JournalImpl.getJournalDirPath j) false (qs_fs st) with
              | (Throw x, fs) => (Throw x, set_queue_fs fs st)
              | (Ret _, fs) => (Ret tt, set_journals (delete (p_id q) (qs_journals st)) (set_queue_fs fs st))
              end
          end
      end
  end.

(** [recoverQueues]: a queue whose name is empty ends the loop. [name_of] is the
    name that the broker reads from the encoding. *)
Fixpoint recover_queues_loop (name_of : list byte -> string) (rows : list (Z * list byte))
    (queueMap : gmap Z string) (journals : gmap Z JournalImpl) (maxQueueId : Z) :
    gmap Z string * gmap Z JournalImpl * Z :=
  match rows with
  | [] => (queueMap, journals, maxQueueId)
  | (id, v) :: rest =>
      let queueName := name_of v in
      if String.eqb queueName "" then (queueMap, journals, maxQueueId)
      else recover_queues_loop name_of rest (<[id := queueName]> queueMap)
             (<[id := queue_journal storeDir queueName id num_jfiles]> journals) (Z.max id maxQueueId)
  end.
Definition recoverQueues (name_of : list byte -> string) st : gmap Z string * QueueStore :=
  let '(queueMap, journals, m) := recover_queues_loop name_of (db_scan (qs_db st)) ∅ (qs_journals st) 1 in
  (queueMap, set_journals journals (set_db (qs_db st) (IdSequence.reset (u64 (m + 1)) (qs_seq st)) st)).

(** [flush(queue)]: nothing without a journal; the answer of the journal's flush is
    not looked at. *)
Definition flush (jq : option JournalImpl) : result unit :=
  match jq with
  | None => Ret tt
  | Some j => let _ := JournalImpl.flush j in Ret tt
  end.

End config.
