(* ===== verification/ConfigSpec.v ===== *)
(** What the configuration side of the store guarantees: ids are never reused
    while an object lives, recovery gives back exactly what was created and not
    destroyed, and bindings follow their exchanges and queues. *)
From S2P Require Import Prelude Format Jerrno IdSequence Bdb TxnCtxt Framing Journal Posix Jdir PidTracker.
From S2P Require Import LogFormat LogExtract AsyncLog Provider JournalSpec JdirSpec Config.
From Stdlib Require Import ZArith Lia.

Section objects.
Context `{HostEndian, Framing}.
Context {KT : BTree key_compare}.
Implicit Types (p : Persistable) (e : DbEnv) (io : db_answers) (m : gmap Z (list byte)).

Abbreviation EntDb := (@Db key_compare KT).

(** ** Objects of one kind *)

(** The runs of one kind of object: creations that may fail, destructions and
    restarts, with the map of the objects that exist. *)
Inductive erun : nat -> EntDb -> IdSequence.t -> DbEnv -> gmap Z (list byte) -> Prop :=
| Er_start e : erun 0 db_created IdSequence.init e ∅
| Er_create n db seq e m io p r db' seq' e' :
    erun n db seq e m -> create_obj io db seq p e = (r, db', seq', e') ->
    erun (S n) db' seq' e' (match r with Ret (Some p') => <[p_id p' := p_bytes p]> m | _ => m end)
| Er_destroy n db seq e m p db' :
    erun n db seq e m -> is_u64 (p_id p) -> destroy_obj db p = Ret db' -> erun (S n) db' seq e (delete (p_id p) m)
| Er_restart n db seq e m e' :
    erun n db seq e m -> erun (S n) db (recoverConfigs db seq).2 e' m.

(** The ids in use are below the counter. *)
Definition ent_inv (n : nat) (db : EntDb) (seq : IdSequence.t) m : Prop :=
  db_map db = m /\ 0 < IdSequence.id seq <= 2 + Z.of_nat n /\
  forall id, is_Some (m !! id) -> 0 < id < IdSequence.id seq.

Lemma ent_keys_sane n db seq m k :
  ent_inv n db seq m -> is_u64 k -> Z.of_nat n < 2 ^ 64 - 2 -> sane key_compare (db_keys db k).
Proof.
  intros (Hm & Hs & Hi) Hk Hn. eapply sane_sub; [|apply key_compare_sane].
  intros x [->|Hx]; [done|]. rewrite Hm in Hx. apply Hi in Hx. unfold is_u64 in *. lia.
Qed.

Lemma max_id_spec (rows : list (Z * list byte)) a :
  a <= foldl (fun (x : Z) kv => Z.max kv.1 x) a rows /\
  (forall k (v : list byte), (k, v) ∈ rows -> k <= foldl (fun (x : Z) kv => Z.max kv.1 x) a rows) /\
  (forall b, a <= b -> (forall k v, (k, v) ∈ rows -> k <= b) -> foldl (fun (x : Z) kv => Z.max kv.1 x) a rows <= b).
Proof.
  revert a. induction rows as [|[k v] rows IH]; intros a; simpl.
  { split_and!; [lia|set_solver|done]. }
  destruct (IH (Z.max k a)) as (I1 & I2 & I3). split_and!.
  - lia.
  - intros k' v' [Hk|Hk]%elem_of_cons; [injection Hk as -> ->; lia|by eapply I2].
  - intros b Ha Hb. apply I3; [|set_solver]. specialize (Hb k v ltac:(set_solver)). lia.
Qed.

(** Creating an object under the counter's id. *)
Lemma create_obj_spec n db seq m io p e r db' seq' e' :
  ent_inv n db seq m -> Z.of_nat n < 2 ^ 64 - 3 -> create_obj io db seq p e = (r, db', seq', e') ->
  ent_inv (S n) db' seq' (match r with Ret (Some p') => <[p_id p' := p_bytes p]> m | _ => m end) /\
  r <> Ret None /\
  forall p', r = Ret (Some p') -> p' = setPersistenceId (IdSequence.id seq) p /\ m !! IdSequence.id seq = None.
Proof.
  intros Hinv Hn. pose proof Hinv as (Hm & Hs & Hi). unfold create_obj, IdSequence.next.
  rewrite (proj2 (Z.eqb_neq (IdSequence.id seq) 0)) by lia. set (i := IdSequence.id seq) in *.
  assert (Hu : u64 (i + 1) = i + 1) by (apply u64_small; unfold is_u64; lia). rewrite Hu.
  assert (Hfresh : m !! i = None).
  { destruct (m !! i) eqn:E; [|done]. assert (is_Some (m !! i)) as Hx%Hi by by eexists. lia. }
  assert (Hkeep : forall db', db_map db' = m -> ent_inv (S n) db' (IdSequence.mk (i + 1)) m).
  { intros d Hd. split; [done|]. simpl. split; [lia|]. intros id Hid%Hi. lia. }
  destruct (TxnCtxt.with_txn _ _ _ _ _) as [[[st d']|x] e1] eqn:Et; intros [= <- <- <- <-].
  2: { split; [by apply Hkeep|]. by split. }
  apply with_txn_ret in Et.
  pose proof (db_put_law db i _ st d' ltac:(eapply ent_keys_sane; [done|unfold is_u64; lia|lia]) Et) as Hlaw.
  rewrite Hm, Hfresh in Hlaw. destruct Hlaw as [-> Hd']. rewrite bool_decide_eq_false_2 by done.
  split_and!; [|done|by intros p' [= <-]]. simpl. split; [done|]. simpl. split; [lia|].
  intros id. rewrite lookup_insert. case_decide; [subst; lia|]. intros Hid%Hi. lia.
Qed.

Lemma erun_inv n db seq e m : erun n db seq e m -> Z.of_nat n < 2 ^ 64 - 2 -> ent_inv n db seq m.
Proof.
  intros Hr. induction Hr as [e|n db seq e m io p r db' seq' e' Hr IH E|n db seq e m p db' Hr IH Hp E
    |n db seq e m e' Hr IH]; intros Hn.
  - split; [apply db_created_map|]. simpl. split; [lia|]. intros id Hid. rewrite lookup_empty in Hid. by destruct Hid.
  - eapply create_obj_spec; [apply IH; lia|lia|done].
  - destruct (IH ltac:(lia)) as (Hm & Hs & Hi). unfold destroy_obj in E.
    destruct (db_del db (p_id p)) as [[st d]|x] eqn:Ed; [|done]. injection E as <-. simpl.
    pose proof (db_del_law db (p_id p) st d ltac:(eapply ent_keys_sane; [by apply IH; lia|done|lia]) Ed) as Hlaw.
    rewrite Hm in Hlaw. split; [|split; [lia|]].
    + destruct (m !! p_id p) eqn:Em; [by destruct Hlaw|]. destruct Hlaw as [_ ->]. by rewrite delete_id.
    + intros id. rewrite lookup_delete. case_decide; [by intros []|]. apply Hi.
  - destruct (IH ltac:(lia)) as (Hm & Hs & Hi). simpl. destruct (max_id_spec (db_scan db) 1) as (M1 & M2 & M3).
    assert (Hscan : forall k v, (k, v) ∈ db_scan db <-> m !! k = Some v).
    { intros k v. rewrite (db_scan_law db 1) by (eapply ent_keys_sane; [by apply IH; lia|unfold is_u64; lia|lia]).
      by rewrite Hm, elem_of_map_to_list. }
    assert (Hb : max_id (db_scan db) <= Z.max 1 (IdSequence.id seq - 1)).
    { apply M3; [lia|]. intros k v Hk. apply Hscan in Hk. assert (is_Some (m !! k)) as Hx%Hi by by eexists. lia. }
    assert (Hu : u64 (max_id (db_scan db) + 1) = max_id (db_scan db) + 1)
      by (apply u64_small; unfold is_u64, max_id in *; lia).
    unfold ent_inv. simpl. rewrite Hu. unfold max_id in *. split; [done|]. split; [lia|].
    intros id Hid. split; [by apply Hi|]. destruct Hid as [v Hv]. apply Hscan, M2 in Hv. lia.
Qed.


End objects.

Section bindings.
Context `{HostEndian, Framing}.
Context {DT : DupTree key_compare}.
Implicit Types (q ex : Persistable) (e : DbEnv) (io : db_answers) (db : DupDb) (v : list byte).

(** ** Bindings *)

(** Names and keys that a short string can hold. *)
Definition bind_ok q (k : string) (a : FieldTable) : Prop :=
  is_u64 (p_id q) /\ (String.length (p_name q) < 256)%nat /\ (String.length k < 256)%nat /\
  Z.of_nat (length (put_table a)) < 2 ^ 31.

(** A stored binding, read back. *)
Lemma binding_roundtrip q k a :
  bind_ok q k a ->
  binding_queue (BindingDbt q k a) = p_id q /\ binding_names (BindingDbt q k a) = (p_name q, k, a) /\
  short (BindingDbt q k a) = false.
Proof.
  intros (Hq & Hn & Hk & Ha).
  assert (E : BindingDbt q k a = put_longlong (p_id q) ++ put_shortstr (p_name q) ++ put_shortstr k ++ put_table a).
  { unfold BindingDbt, binding_size. apply take_ge. unfold u32. rewrite Z.mod_small by lia.
    rewrite !length_app, put_longlong_length, !put_shortstr_length by done. lia. }
  rewrite E. pose proof (put_longlong_length (p_id q)) as Hl. split_and!.
  - unfold binding_queue. by apply get_put_longlong.
  - unfold binding_names. rewrite <- Hl, drop_app_length, !get_put_shortstr by done.
    by rewrite <- (app_nil_r (put_table a)), get_put_table.
  - unfold short. apply Nat.ltb_ge. rewrite length_app. lia.
Qed.

(** Every stored pair is a binding of an exchange. *)
Definition bindings_ok db : Prop :=
  forall k v, (k, v) ∈ dup_set db -> is_u64 k /\ exists q b a, bind_ok q b a /\ v = BindingDbt q b a.

Lemma dup_sane db k : bindings_ok db -> is_u64 k -> sane key_compare (dup_keys db k).
Proof.
  intros Hb Hk. eapply sane_sub; [|apply key_compare_sane].
  intros x [->|[v Hv]]; [done|]. by apply Hb in Hv as [Hx _].
Qed.

Lemma bindings_ok_sub db db' : bindings_ok db -> dup_set db' ⊆ dup_set db -> bindings_ok db'.
Proof. intros Hb Hs k v Hv. by apply Hb, Hs. Qed.

Lemma bindings_ok_filter (P : Z * list byte -> Prop) `{!forall kv, Decision (P kv)} db db' :
  bindings_ok db -> dup_set db' = filter P (dup_set db) -> bindings_ok db'.
Proof.
  intros Hb E. eapply bindings_ok_sub; [done|]. rewrite E. intros kv. by rewrite elem_of_filter; intros [_ ?].
Qed.

(** A deleting loop over rows that are stored. *)
Lemma delete_loop_spec del rows db db' :
  bindings_ok db -> NoDup rows -> (forall k v, (k, v) ∈ rows -> (k, v) ∈ dup_set db) ->
  delete_loop del rows db = Ret db' ->
  dup_set db' = filter (fun kv => ~ (kv ∈ rows /\ del kv.1 kv.2 = true)) (dup_set db).
Proof.
  revert db. induction rows as [|[k v] rows IH]; intros db Hb Hn Hr; cbn [delete_loop].
  { intros [= <-]. apply set_eq. intros kv. rewrite elem_of_filter. set_solver. }
  apply NoDup_cons in Hn as [Hk Hn]. pose proof (Hr k v ltac:(set_solver)) as Hin.
  destruct (Hb k v Hin) as (Hu & q & b & a & Hok & Ev).
  rewrite Ev, (proj2 (proj2 (binding_roundtrip q b a Hok))), <- Ev.
  destruct (del k v) eqn:Ed.
  - destruct (dup_cdel db k v) as [d|] eqn:Ec; [|done]. simpl. intros E.
    pose proof (dup_cdel_law db k v d (dup_sane db k Hb Hu) Ec) as Hd.
    rewrite (IH d); [|eapply bindings_ok_sub; [done|set_solver]|done| |done].
    + apply set_eq. intros [k' v']. rewrite Hd, !elem_of_filter, elem_of_difference, elem_of_singleton, elem_of_cons.
      destruct (decide ((k', v') = (k, v))) as [[= -> ->]|Hne]; simpl; [naive_solver|].
      split; [naive_solver|]. intros [H1 H2]. split_and!; [naive_solver|done|done].
    + intros k' v' Hkv. rewrite Hd. apply elem_of_difference. split; [apply Hr; set_solver|].
      rewrite elem_of_singleton. intros E'. by rewrite E' in Hkv.
  - intros E. rewrite (IH db); [|done|done|intros; apply Hr; set_solver|done].
    apply set_eq. intros [k' v']. rewrite !elem_of_filter, elem_of_cons. split; [|naive_solver].
    intros [H1 H2]. split; [|done]. intros [[[= -> ->]|H3] H4]; [simpl in H4; congruence|by apply H1].
Qed.

(** *** Recovery *)

(** A binding whose exchange and queue were recovered, and what it binds. *)
Definition live (exs qs : gset Z) (kv : Z * list byte) : Prop := kv.1 ∈ exs /\ binding_queue kv.2 ∈ qs.
#[export] Instance live_dec exs qs kv : Decision (live exs qs kv).
Proof. unfold live. apply _. Defined.
Definition as_bound (kv : Z * list byte) : bound :=
  mkBound kv.1 (binding_names kv.2).1.1 (binding_names kv.2).1.2 (binding_names kv.2).2.

Lemma recover_loop_spec exs qs rows acc db :
  (forall d k v, exists d', dup_cdel (DupTree:=DT) d k v = Ret d') ->
  bindings_ok db -> NoDup rows -> (forall k v, (k, v) ∈ rows -> (k, v) ∈ dup_set db) ->
  exists db', recover_loop exs qs rows acc db = (Ret (acc ++ map as_bound (filter (live exs qs) rows)), db') /\
    dup_set db' = filter (fun kv => ~ (kv ∈ rows /\ ~ live exs qs kv)) (dup_set db).
Proof.
  intros Hc. revert acc db. induction rows as [|[k v] rows IH]; intros acc db Hb Hn Hr; cbn [recover_loop].
  { exists db. rewrite app_nil_r. split; [done|]. apply set_eq. intros kv. rewrite elem_of_filter. set_solver. }
  apply NoDup_cons in Hn as [Hk Hn]. pose proof (Hr k v ltac:(set_solver)) as Hin.
  destruct (Hb k v Hin) as (Hu & q & b & a & Hok & Ev).
  rewrite Ev, (proj2 (proj2 (binding_roundtrip q b a Hok))), <- Ev.
  destruct (binding_names v) as [[name key] args] eqn:En. rewrite filter_cons.
  destruct (decide (live exs qs (k, v))) as [Hl|Hl].
  - pose proof Hl as [L1 L2]. simpl in L1, L2. rewrite !bool_decide_eq_true_2 by done. simpl.
    destruct (IH (acc ++ [mkBound k name key args]) db) as (db' & E & Hd); [done|done|intros; apply Hr; set_solver|].
    exists db'. rewrite E. split.
    + rewrite <- app_assoc. unfold as_bound at 2. simpl. by rewrite En.
    + rewrite Hd. apply set_eq. intros [k' v']. rewrite !elem_of_filter, elem_of_cons. split; [|naive_solver].
      intros [H1 H2]. split; [|done]. intros [[[= -> ->]|H3] H4]; [done|by apply H1].
  - assert (Eb : bool_decide (k ∈ exs) && bool_decide (binding_queue v ∈ qs) = false).
    { apply not_true_iff_false. rewrite andb_true_iff, !bool_decide_eq_true. done. }
    rewrite Eb. destruct (Hc db k v) as [d Ec]. rewrite Ec.
    pose proof (dup_cdel_law db k v d (dup_sane db k Hb Hu) Ec) as Hd.
    destruct (IH acc d) as (db' & E & Hd'); [eapply bindings_ok_sub; [done|set_solver]|done| |].
    { intros k' v' Hkv. rewrite Hd. apply elem_of_difference. split; [apply Hr; set_solver|].
      rewrite elem_of_singleton. intros E'. by rewrite E' in Hkv. }
    exists db'. rewrite E. split; [done|]. rewrite Hd'. apply set_eq. intros [k' v'].
    rewrite Hd, !elem_of_filter, elem_of_difference, elem_of_singleton, elem_of_cons.
    destruct (decide ((k', v') = (k, v))) as [[= -> ->]|Hne]; [naive_solver|].
    split; [naive_solver|]. intros [H1 H2]. split_and!; [naive_solver|done|done].
Qed.


(** *** Operations *)

Variable db_what : Z -> string.

Lemma catch_std_ret {A} m (r : result A) a : catch_std db_what m r = Ret a -> r = Ret a.
Proof. destruct r as [|x]; simpl; [done|]. by destruct (exn_what db_what x). Qed.

Lemma delete_txn_ret io (body : result DupDb) e db e' :
  delete_txn db_what io body e = (Ret db, e') -> body = Ret db.
Proof.
  unfold delete_txn. destruct (TxnCtxt.with_txn _ _ _ _ _) as [r e1] eqn:E. intros [= Er _].
  assert (Hr : r = Ret db) by (destruct (io_begin io); [by eapply catch_std_ret|done|done]).
  subst r. by eapply with_txn_ret.
Qed.

Lemma deleteBindingsForQueue_spec io q db e db' e' :
  bindings_ok db -> is_u64 (p_id q) -> deleteBindingsForQueue db_what io q db e = (Ret db', e') ->
  dup_set db' = filter (fun kv => binding_queue kv.2 <> p_id q) (dup_set db).
Proof.
  intros Hb Hq. unfold deleteBindingsForQueue. intros Hr%delete_txn_ret.
  pose proof (dup_scan_law db (p_id q) (dup_sane db _ Hb Hq)) as Hscan.
  apply delete_loop_spec in Hr; [|done|rewrite Hscan; apply NoDup_elements|
    by intros k' v'; rewrite Hscan, elem_of_elements].
  rewrite Hr. apply set_eq. intros kv. rewrite !elem_of_filter, Hscan, elem_of_elements, Z.eqb_eq. naive_solver.
Qed.

Lemma deleteBinding_spec io ex q k db e db' e' :
  bindings_ok db -> is_u64 (p_id ex) -> deleteBinding db_what io ex q k db e = (Ret db', e') ->
  dup_set db' = filter (fun kv => ~ (kv.1 = p_id ex /\ binding_queue kv.2 = p_id q /\ (binding_names kv.2).1.2 = k))
                  (dup_set db).
Proof.
  intros Hb Hx. unfold deleteBinding. intros Hr%delete_txn_ret.
  destruct (dup_dups_law db (p_id ex) (dup_sane db _ Hb Hx)) as [Hnd Hdup].
  assert (Hrows : forall k' v', (k', v') ∈ map (fun v => (p_id ex, v)) (dup_dups db (p_id ex)) <->
                   k' = p_id ex /\ (k', v') ∈ dup_set db).
  { intros k' v'. rewrite list_elem_of_In, in_map_iff. split.
    - intros (v & [= <- <-] & Hv). split; [done|]. by apply Hdup, list_elem_of_In.
    - intros [-> Hv]. exists v'. split; [done|]. by apply list_elem_of_In, Hdup. }
  apply delete_loop_spec in Hr; [|done| |by intros k' v' [_ Hv]%Hrows].
  - rewrite Hr. apply set_eq. intros [k' v']. rewrite !elem_of_filter, Hrows. simpl.
    rewrite andb_true_iff, Z.eqb_eq, bool_decide_eq_true. naive_solver.
  - apply NoDup_fmap_2; [by intros x y [= ->]|done].
Qed.


End bindings.

Section queues.
Context `{HostEndian, Framing}.
Context {BT : BTree bt_compare} {KT : BTree key_compare} {DT : DupTree key_compare}.
Variable db_what : Z -> string.
Variable strerror : errno -> string.
Variables (storeDir : string) (num_jfiles : Z) (lo : Z).
Implicit Types (q : Persistable) (st : QueueStore) (j : JournalImpl).

(** ** Queues *)

Abbreviation create_queue := (create_queue strerror storeDir num_jfiles).
Abbreviation destroy_queue := (destroy_queue db_what strerror).
Definition queue_dir q : string := getBdbBaseDir storeDir +:+ getJrnlHashDir (p_name q).

Lemma create_obj_fine (db : @Db key_compare KT) seq q e n m :
  ent_inv n db seq m -> Z.of_nat n < 2 ^ 64 - 3 ->
  is_Some (match db_put db (IdSequence.id seq) (p_bytes q) with Ret r => Some r | Throw _ => None end) ->
  exists db' seq' e', create_obj io_fine db seq q e = (Ret (Some (setPersistenceId (IdSequence.id seq) q)), db', seq', e') /\
    db_map db' = <[IdSequence.id seq := p_bytes q]> m /\ m !! IdSequence.id seq = None.
Proof.
  intros Hinv Hn [r Hr]. destruct (create_obj io_fine db seq q e) as [[[r' db'] seq'] e'] eqn:E.
  destruct (create_obj_spec n db seq m io_fine q e r' db' seq' e' Hinv Hn E) as ((Hm & _) & Hne & Hp).
  destruct r' as [[p'|]|x]; [|done|].
  - destruct (Hp p' eq_refl) as [-> Hf]. by exists db', seq', e'.
  - exfalso. pose proof Hinv as (_ & Hs & _). unfold create_obj, IdSequence.next in E.
    rewrite (proj2 (Z.eqb_neq (IdSequence.id seq) 0)) in E by lia. simpl in E. unfold BufferValue in E.
    destruct (db_put db (IdSequence.id seq) (p_bytes q)) as [[s d]|y]; [|done]. by unfold TxnCtxt.with_txn in E.
Qed.

(** Creating a named queue on a store whose environment
    answers gives it an unused id, records it under that id, makes its directory and
    leaves an open and empty journal in the list under the same id. *)
Theorem create_queue_ready n st m q :
  ent_inv n (qs_db st) (qs_seq st) m -> Z.of_nat n < 2 ^ 64 - 3 -> p_id q = 0 -> p_name q <> "" -> 0 < num_jfiles ->
  is_Some (match db_put (qs_db st) (IdSequence.id (qs_seq st)) (p_bytes q) with Ret r => Some r | Throw _ => None end) ->
  (forall k, JournalImpl.w_files (qs_world st) !! JournalImpl.getSubDbPath (journal_of storeDir num_jfiles q) k = None) ->
  fs_wf (qs_fs st) -> clear_way (qs_fs st) (resolve (qs_fs st) (queue_dir q)) -> writable (qs_fs st) ->
  anchored (qs_fs st) (queue_dir q) ->
  let id := IdSequence.id (qs_seq st) in
  exists j st', create_queue io_fine io_fine q st = (Ret (setPersistenceId id q, Some j), st') /\
    m !! id = None /\ db_map (qs_db st') = <[id := p_bytes q]> m /\
    qs_journals st' = <[id := j]> (qs_journals st) /\
    jwf lo j (qs_world st') /\ (forall x, jlookup j (JournalImpl.w_files (qs_world st')) x = None) /\
    node_at (qs_fs st') (resolve (qs_fs st) (queue_dir q)) = Some Dir.
Proof.
  intros Hinv Hn Hq Hname Hjf Hput Hfiles Hw Hclear Hwr Hanch id. unfold Config.create_queue.
  rewrite Hq. cbn [Z.eqb negb]. rewrite (proj2 (String.eqb_neq (p_name q) "")) by done.
  destruct (create_obj_fine (qs_db st) (qs_seq st) q (JournalImpl.w_env (qs_world st)) n m Hinv Hn Hput)
    as (db' & seq' & e' & -> & Hm & Hf).
  cbn [setPersistenceId p_name set_env set_db qs_fs].
  destruct (create_dir_loop_spec strerror (S (String.length (queue_dir q))) (queue_dir q) (qs_fs st))
    as (fs' & Ed & _ & _ & Nd); try done; [lia|by unfold queue_dir, getBdbBaseDir; destruct storeDir|].
  unfold jdir.create_dir, queue_dir in *. rewrite Ed. cbn [set_queue_fs qs_world].
  destruct (init_fine lo (p_name q) id (getJrnlHashDir (p_name q)) (getBdbBaseDir storeDir) num_jfiles
              (JournalImpl.mkWorld e' (JournalImpl.w_files (qs_world st)))) as (w' & j & Ei & Hj & _ & _ & _ & _ & El).
  { split; [done|]. intros k d _ Hd. simpl in Hd. change (JournalImpl.getSubDbPath _ k) with
      (JournalImpl.getSubDbPath (journal_of storeDir num_jfiles q) k) in Hd. by rewrite Hfiles in Hd. }
  unfold JournalImpl.initialize, journal_of, queue_journal. cbn [p_name p_id setPersistenceId set_env set_db qs_world].
  fold id. rewrite Ei.
  eexists j, _. split; [reflexivity|]. cbn [set_journals set_queue_world set_queue_fs set_env set_db qs_db qs_journals qs_world qs_fs].
  split_and!; try done.
  - intros x. rewrite El. unfold jlookup. simpl.
    change (JournalImpl.getSubDbPath _ (x mod num_jfiles)) with
      (JournalImpl.getSubDbPath (journal_of storeDir num_jfiles q) (x mod num_jfiles)). by rewrite Hfiles.
  - rewrite Nd. by rewrite decide_True.
Qed.

(** The files that [delete_jrnl_files] removes. *)
Lemma delete_files_loop j0 (L : list Z) (jw : JournalImpl * JournalImpl.world) :
  NoDup L -> (forall k, k ∈ L -> 0 <= k /\ messageDbs jw.1 !! Z.to_nat k = Some true) ->
  forall path, JournalImpl.w_files
    (foldl (fun (jw : JournalImpl * JournalImpl.world) k =>
              if bool_decide (messageDbs jw.1 !! Z.to_nat k = Some true)
              then (JournalImpl.set_dbs (_is_init jw.1) (<[Z.to_nat k := false]> (messageDbs jw.1)) jw.1,
                    JournalImpl.set_files (delete (JournalImpl.getSubDbPath j0 k) (JournalImpl.w_files jw.2)) jw.2)
              else jw) jw L).2 !! path =
    if decide (Exists (fun k => path = JournalImpl.getSubDbPath j0 k) L) then None
    else JournalImpl.w_files jw.2 !! path.
Proof.
  revert jw. induction L as [|k L IH]; intros jw Hn Hk path; cbn [foldl].
  { rewrite decide_False; [done|]. by inversion 1. }
  apply NoDup_cons in Hn as [Hni Hn]. destruct (Hk k ltac:(set_solver)) as [Hk0 Hkt].
  rewrite (bool_decide_eq_true_2 (_ = Some true)) by done. rewrite IH; [|done|].
  - simpl. rewrite lookup_delete.
    pose proof (Exists_cons (fun k => path = JournalImpl.getSubDbPath j0 k) k L).
    destruct (decide (path = JournalImpl.getSubDbPath j0 k)) as [->|Hne]; repeat case_decide; naive_solver.
  - intros k' Hk'. destruct (Hk k' ltac:(set_solver)) as [H1 H2]. split; [done|]. simpl.
    rewrite list_lookup_insert_ne; [done|]. intros E. apply Hni. by replace k with k' by lia.
Qed.

(** C38: destroying a queue that has an open journal removes its
    record, the bindings to it, its journal from the list and the message databases
    of the journal; the records, bindings, journals and message databases of the
    other queues stay. *)
Theorem destroy_queue_clean io q j st st' n m :
  ent_inv n (qs_db st) (qs_seq st) m -> Z.of_nat n < 2 ^ 64 - 2 -> is_u64 (p_id q) -> bindings_ok (qs_bindings st) ->
  messageDbs j = replicate (Z.to_nat (Journal.num_jfiles j)) true ->
  destroy_queue io q (Some j) st = (Ret tt, st') ->
  db_map (qs_db st') = delete (p_id q) m /\
  dup_set (qs_bindings st') = filter (fun kv => binding_queue kv.2 <> p_id q) (dup_set (qs_bindings st)) /\
  qs_journals st' = delete (p_id q) (qs_journals st) /\
  forall path, JournalImpl.w_files (qs_world st') !! path =
    if decide (Exists (fun k => path = JournalImpl.getSubDbPath j k) (JournalImpl.jfiles j)) then None
    else JournalImpl.w_files (qs_world st) !! path.
Proof.
  intros Hinv Hn Hu Hb Hdbs. unfold Config.destroy_queue, destroy_obj.
  destruct (db_del (qs_db st) (p_id q)) as [[s d]|x] eqn:Ed; [|done]. simpl.
  destruct (deleteBindingsForQueue db_what io q (qs_bindings st) (JournalImpl.w_env (qs_world st)))
    as [[bdb|x] e] eqn:Eb; [|done].
  destruct (JournalImpl.delete_jrnl_files j _) as [j' w'] eqn:Ej. simpl.
  destruct (jdir.delete_dir _ _ _ _) as [[u|x] fs'] eqn:Ef; [|done]. intros [= <-]. simpl. split_and!.
  - pose proof (db_del_law (qs_db st) (p_id q) s d ltac:(by eapply ent_keys_sane) Ed) as Hlaw.
    destruct Hinv as (Hm & _). rewrite Hm in Hlaw.
    destruct (m !! p_id q) eqn:E; destruct Hlaw as [_ ->]; [done|by rewrite delete_id].
  - by eapply deleteBindingsForQueue_spec.
  - done.
  - intros path. unfold JournalImpl.delete_jrnl_files in Ej. apply (f_equal snd) in Ej. simpl in Ej. rewrite <- Ej.
    etransitivity; [apply delete_files_loop|done].
    + unfold JournalImpl.jfiles. apply (NoDup_fmap_2 Z.of_nat), NoDup_seq.
    + intros k Hk. simpl. apply elem_of_jfiles in Hk. split; [lia|]. rewrite Hdbs.
      apply lookup_replicate. split; [done|lia].
Qed.

End queues.
