(* ===== verification/ConfigExamples.v ===== *)
(** Concrete objects, bindings and queues at which the theorems of [ConfigSpec]
    are applied. *)
From S2P Require Import Prelude Format Jerrno IdSequence Bdb TxnCtxt Framing Journal Posix Jdir PidTracker.
From S2P Require Import LogFormat LogExtract AsyncLog Provider JournalSpec JdirSpec Config ConfigSpec.
From Stdlib Require Import ZArith Lia.

#[local] Existing Instance little_endian.
#[local] Existing Instance wire.
#[local] Instance cfg_bt : BTree bt_compare := gmap_btree bt_compare.
#[local] Instance cfg_kt : BTree key_compare := gmap_btree key_compare.
#[local] Instance cfg_dt : DupTree key_compare := gset_dup key_compare.

Definition cfg_env : DbEnv := mkEnv 0 [] false.
Definition cfg_queue : Persistable := mkPersistable 0 "q" [x71].
Definition cfg_made : result (option Persistable) * @Db key_compare cfg_kt * IdSequence.t * DbEnv :=
  create_obj io_fine db_created IdSequence.init cfg_queue cfg_env.

Lemma cfg_run : exists m, erun 1 cfg_made.1.1.2 cfg_made.1.2 cfg_made.2 m.
Proof.
  eexists. apply (Er_create 0 db_created IdSequence.init cfg_env ∅ io_fine cfg_queue cfg_made.1.1.1); [apply Er_start|].
  fold cfg_made. by destruct cfg_made as [[[r d] s] e].
Qed.


(** An exchange with id 5 and a queue with id 7. *)
Definition cfg_ex : Persistable := mkPersistable 5 "e" [].
Definition cfg_q7 : Persistable := mkPersistable 7 "q" [].
Definition cfg_args : @FieldTable wire := tt.
Definition cfg_none : DupDb := dup_created.
Definition cfg_what (n : Z) : string := "".
Definition cfg_bound : result DupDb * DbEnv := bind cfg_what io_fine cfg_ex cfg_q7 "k" cfg_args cfg_none cfg_env.
Definition cfg_db : DupDb := match cfg_bound.1 with Ret d => d | Throw _ => cfg_none end.

Lemma cfg_bind_ok : bind_ok cfg_q7 "k" cfg_args.
Proof. unfold bind_ok, is_u64. simpl. lia. Qed.

Lemma cfg_none_ok : bindings_ok cfg_none.
Proof. intros k v Hv. unfold cfg_none in Hv. simpl in Hv. by apply not_elem_of_empty in Hv. Qed.

Lemma cfg_bound_eq : cfg_bound = (Ret cfg_db, cfg_bound.2).
Proof. reflexivity. Qed.


Lemma cfg_db_ok : bindings_ok cfg_db.
Proof.
  intros k v Hv. assert (E : (k, v) = (5, BindingDbt cfg_q7 "k" cfg_args)).
  { assert (Hs : dup_set cfg_db = {[(5, BindingDbt cfg_q7 "k" cfg_args)]} ∪ ∅) by reflexivity.
    rewrite Hs in Hv. set_solver. }
  injection E as -> ->. split; [unfold is_u64; lia|]. exists cfg_q7, "k", cfg_args. split; [apply cfg_bind_ok|done].
Qed.


(** A store on a directory with nothing in it. *)
Definition cfg_fs : Fs := mkFs {[["s"] := Dir]} [] (fun _ => false).
Definition cfg_store : QueueStore :=
  mkQS db_created IdSequence.init cfg_none ∅ (JournalImpl.mkWorld cfg_env ∅) cfg_fs.

Lemma cfg_fs_lookup p n : fs_nodes cfg_fs !! p = Some n -> p = ["s"] /\ n = Dir.
Proof. unfold cfg_fs. simpl. rewrite lookup_singleton. case_decide; naive_solver. Qed.

Lemma cfg_fs_wf : fs_wf cfg_fs.
Proof.
  split; try done.
  - intros p c n [E _]%cfg_fs_lookup. by destruct p as [|x [|y p]].
  - intros p c n [E _]%cfg_fs_lookup. destruct p as [|x [|y p]]; [by injection E as ->|done|done].
Qed.

Lemma cfg_clear p : clear_way cfg_fs p.
Proof.
  intros q r _. destruct (node_at cfg_fs q) as [n|] eqn:E; [left|by right].
  destruct q as [|x q]; [done|]. by apply cfg_fs_lookup in E as [_ ->].
Qed.

Lemma create_queue_ready_witness :
  exists j st', create_queue no_text "/s" 4 io_fine io_fine cfg_queue cfg_store =
                  (Ret (setPersistenceId 1 cfg_queue, Some j), st') /\
    (∅ : gmap Z (list byte)) !! 1 = None /\ db_map (qs_db st') = <[1 := [x71]]> ∅ /\
    qs_journals st' = <[1 := j]> ∅ /\
    jwf 0 j (qs_world st') /\ (forall x, jlookup j (JournalImpl.w_files (qs_world st')) x = None) /\
    node_at (qs_fs st') (resolve cfg_fs (queue_dir "/s" cfg_queue)) = Some Dir.
Proof.
  apply (create_queue_ready no_text "/s" 4 0 0 cfg_store ∅ cfg_queue).
  - split; [reflexivity|]. split; [simpl; lia|]. intros id [v Hv]. by rewrite lookup_empty in Hv.
  - lia.
  - reflexivity.
  - discriminate.
  - lia.
  - by eexists.
  - intros k. apply lookup_empty.
  - apply cfg_fs_wf.
  - apply cfg_clear.
  - intros p. reflexivity.
  - intros _. split; [vm_compute; discriminate|vm_compute; reflexivity].
Defined.

(** Destroying the queue just created. *)
Definition cfg_created : result (Persistable * option JournalImpl) * QueueStore :=
  create_queue no_text "/s" 4 io_fine io_fine cfg_queue cfg_store.
Definition cfg_journal : JournalImpl :=
  match cfg_created.1 with Ret (_, Some j) => j | _ => journal_of "/s" 4 cfg_queue end.
Definition cfg_destroyed : result unit * QueueStore :=
  destroy_queue cfg_what no_text io_fine (setPersistenceId 1 cfg_queue) (Some cfg_journal) cfg_created.2.

Lemma cfg_destroyed_ret : cfg_destroyed = (Ret tt, cfg_destroyed.2).
Proof.
  assert (E : match cfg_destroyed.1 with Ret _ => true | Throw _ => false end = true) by (vm_compute; reflexivity).
  destruct cfg_destroyed as [[[]|x] s]; [done|discriminate E].
Qed.

Lemma cfg_created_inv : ent_inv 1 (qs_db cfg_created.2) (qs_seq cfg_created.2) {[1 := [x71]]}.
Proof.
  split; [reflexivity|]. split; [vm_compute; done|]. intros id [v Hv].
  rewrite lookup_singleton in Hv. case_decide; [subst|done]. by vm_compute.
Qed.

Lemma destroy_queue_clean_witness :
  db_map (qs_db cfg_destroyed.2) = delete 1 {[1 := [x71]]}.
Proof.
  apply (destroy_queue_clean cfg_what no_text io_fine (setPersistenceId 1 cfg_queue) cfg_journal cfg_created.2
           cfg_destroyed.2 1 {[1 := [x71]]}).
  - apply cfg_created_inv.
  - lia.
  - unfold is_u64. simpl. lia.
  - apply cfg_none_ok.
  - vm_compute. reflexivity.
  - exact cfg_destroyed_ret.
Defined.
