(* ===== verification/Resurrect.v ===== *)
(** Model of [recoverMessages] of lib/BdbStoreProvider.cpp: the restart of the
    message side as a whole.

    The pending operations are read from the logs, each queue's journal is decoded,
    messages that are done with are deleted, the id sequence and the tracker are
    reset, and what is left of the pending operations is given to the pools again.
    [alloc] is [malloc]; [accepts] is the answer of [schedule]; the broker's side is
    the parameters of [Recovery]. *)
From S2P Require Import Prelude Format Jerrno IdSequence NestedMap PidTracker PendingOps.
From S2P Require Import LogFormat LogExtract AsyncLog LogSystem LoggerSpec Bdb TxnCtxt Framing Journal Recovery Provider.
From Stdlib Require Import ZArith Lia.

(** [if (a == 0) a = b; else if (b - a < 2^63) a = b;] on unsigned 64-bit numbers. *)
Definition later_id (a b : Z) : Z := if a =? 0 then b else if sub64 b a <? two63 then b else a.

Section resurrect.
Context `{HostEndian, HostAlloc, Framing, BT : !BTree bt_compare}.
Variable enableAcceptRecoveryFlag : bool.
Variable acceptedFromMongo : list string.
Variable uid_of : list byte -> string.
Variable loadMsg : Z -> bool.
Variable alloc : nat -> option (list byte).
Variable io : db_answers.
Implicit Types (pv : Provider).

(** The state of the loop over the recovered queues. *)
Record rstate := mkR {
  r_pv : Provider;
  r_ae : PendingEnqueueSet;
  r_ad : PendingDequeueSet;
  r_map : gmap Z (list byte * list byte);
  r_mq : gmap Z (list Z);
  r_highest : Z;
  r_last : Z
}.

(** The records that [decodeAndRecoverMsg] logs for a queue: first the single ones,
    during its first loop, then the three lists. *)
Definition log_decoded (s : dscan) (logged : list PendingOperationId) (l : AsyncOperationLogger) :
    AsyncOperationLogger :=
  let mass n ids := alloc (n * length ids)%nat in
  let l := (AsyncOperationLogger.complete_each AsyncOperationLogger.log_enqueue_complete logged l).2 in
  let l := (AsyncOperationLogger.log_mass_enqueue_complete (mass enqCompleteSize (s_transient s)) (s_transient s) l).2 in
  let l := (AsyncOperationLogger.log_mass_dequeue_complete (mass deqCompleteSize (s_deqdone s)) (s_deqdone s) l).2 in
  (AsyncOperationLogger.log_mass_enqueue_dequeue_complete (mass enqCompleteSize (s_useless s))
     (mass deqCompleteSize (s_useless s)) (s_useless s) l).2.

(** The first loop of [decodeAndRecoverMsg] ends with the exception of the first
    [is_enqueued] call that throws. *)
Fixpoint scan_throws (qid : Z) (is_enqueued : Z -> result bool) (st : escan) (l : list PendingAsyncEnqueue) :
    option exn :=
  match l with
  | [] => None
  | pae :: l =>
      let asked := negb (bool_decide (is_Some (nm_get (e_ad st) (pae_queueId pae) (pae_msgId pae)))) &&
                   negb (pae_transient pae) && (qid =? pae_queueId pae) && (e_first st <? 10) in
      match (if asked then is_enqueued (pae_msgId pae) else Ret false) with
      | Throw x => Some x
      | Ret b => scan_throws qid is_enqueued (scan_one qid (fun _ => b) st pae) l
      end
  end.

(** What leaves [decodeAndRecoverMsg] when something in it throws. *)
Definition decode_rethrow {A} (name : string) (x : exn) : result A :=
  match x with
  | JException x =>
      Throw (StoreException ("Queue " +:+ name +:+ ": recoverMessages() failed: " +:+ jexception.what x))
  | x => Throw x
  end.

(** One queue: [decodeAndRecoverMsg] and the two comparisons. *)
Definition recover_queue (name_q : string * Z) (r : result rstate) : result rstate :=
  let! st := r in
  let '(name, q) := name_q in
  let pv := r_pv st in
  match journalList pv !! q with
  | None => Throw (Undefined "null journal")
  | Some j =>
      match JournalImpl.recoverMessages io j (world pv) with
      | (Throw x, _) => decode_rethrow name x
      | (Ret (_, None), _) => Throw (Undefined "no result")
      | (Ret (j, Some recovered), w) =>
          match scan_throws q (fun id => JournalImpl.is_enqueued id j w)
                  (mkE (r_ae st) (r_ad st) recovered ∅ 0 [] [] [] report0) (map snd (nm_list (r_ae st))) with
          | Some x => decode_rethrow name x
          | None =>
          let is_enqueued id := match JournalImpl.is_enqueued id j w with Ret b => b | Throw _ => false end in
          let '(s, logged) := decodeAndRecoverMsg enableAcceptRecoveryFlag acceptedFromMongo uid_of loadMsg q is_enqueued
                                recovered (r_ae st) (r_ad st) 0 (r_map st) (r_mq st) in
          let j := JournalImpl.register_as_transient (s_transientMsg s) j in
          let j := JournalImpl.register_as_accepted (s_innerAccepted s) j in
          let j := JournalImpl.register_as_accepted (s_asyncAccepted s) j in
          let pv := set_log (log_decoded s logged (aologger pv)) (set_journal q j w pv) in
          Ret (mkR pv (s_ae s) (s_ad s) (s_map s) (s_mq s) (later_id (r_highest st) (s_maxRid s))
                 (later_id (r_last st) (s_lastPid s)))
          end
      end
  end.

(** The second loop over the queues: the deletions, which [recover_complete] tries
    once more, and [compact_message_database], which does nothing. *)
Definition finish_queue (name_q : string * Z) (r : result Provider) : result Provider :=
  let! pv := r in
  match journalList pv !! name_q.2 with
  | None => Throw (Undefined "null journal")
  | Some j =>
      let '(r1, w) := JournalImpl.discard_transient_message j (world pv) in
      let! j := r1 in
      let '(r2, w) := JournalImpl.discard_accepted_message j w in
      let! j := r2 in
      let '(r3, w) := JournalImpl.recover_complete j w in
      let! j := r3 in
      Ret (set_journal name_q.2 j w pv)
  end.

(** One pending enqueue of the first resurrecting loop. *)
Definition resurrect_enq (accepts : bool) (st : PendingDequeueSet * list PendingOperationId * Provider)
    (pae : PendingAsyncEnqueue) : PendingDequeueSet * list PendingOperationId * Provider :=
  let '(ad, useless, pv) := st in
  match nm_get ad (pae_queueId pae) (pae_msgId pae) with
  | Some _ => (nm_erase ad (pae_queueId pae) (pae_msgId pae), useless ++ [pae_opId pae], pv)
  | None =>
      match journalList pv !! pae_queueId pae with
      | None => (ad, useless, pv)
      | Some _ =>
          let pv := if enableSmartAsync pv
                    then set_tracker (PidTracker.willEnqueue (pae_msgId pae) (pae_queueId pae) (tracker pv)).2 pv
                    else pv in
          let t := mkStore (Some (pae_queueId pae)) (pae_buff pae) (pae_size pae) (pae_msgId pae) (pae_transient pae) in
          (ad, useless, if accepts then set_pools (enqueuePool pv ++ [t]) (dequeuePool pv) pv else pv)
      end
  end.

(** One pending dequeue of the second. *)
Definition resurrect_deq (accepts : bool) (pv : Provider) (pad : PendingAsyncDequeue) : Provider :=
  match journalList pv !! pad_queueId pad with
  | None => pv
  | Some _ =>
      if accepts then set_pools (enqueuePool pv) (dequeuePool pv ++ [mkDeq (pad_msgId pad) (pad_queueId pad)]) pv
      else pv
  end.

Definition resurrect (accepts : bool) (ae : PendingEnqueueSet) (ad : PendingDequeueSet) pv : Provider :=
  let '(ad, useless, pv) := foldl (resurrect_enq accepts) (ad, [], pv) (map snd (nm_list ae)) in
  let pv := foldl (resurrect_deq accepts) pv (map snd (nm_list ad)) in
  set_log (AsyncOperationLogger.log_mass_enqueue_dequeue_complete (alloc (enqCompleteSize * length useless)%nat)
             (alloc (deqCompleteSize * length useless)%nat) useless (aologger pv)).2 pv.

(** [recoverMessages]: the messages and their queues for the broker, and the
    provider. [recovered] are the queues that [recoverQueues] found; [None] is an
    exception of the log readers. *)
Definition recoverMessages (accepts : bool) (recovered : list (string * Z)) pv :
    option (result (gmap Z (list byte * list byte) * gmap Z (list Z) * Provider)) :=
  match restart (aologger pv) with
  | None => None
  | Some (ae, ad, l) =>
      Some (let! r := foldl (fun r q => recover_queue q r) (Ret (mkR (set_log l pv) ae ad ∅ ∅ 0 0)) recovered in
            let! pv := foldl (fun r q => finish_queue q r) (Ret (r_pv r)) recovered in
            let pv := set_seq (IdSequence.reset (u64 (r_highest r + 1)) (messageIdSequence pv)) pv in
            let pv := set_tracker (PidTracker.reset (r_last r) (tracker pv)) pv in
            Ret (r_map r, r_mq r, resurrect accepts (r_ae r) (r_ad r) pv))
  end.

End resurrect.
