(* ===== verification/ResurrectSpec.v ===== *)
(** What the restart gives back to the pools. *)
From S2P Require Import Prelude Format Jerrno IdSequence NestedMap PidTracker PendingOps.
From S2P Require Import LogFormat LogExtract AsyncLog LogSystem LoggerSpec Bdb TxnCtxt Framing Journal Recovery Provider.
From S2P Require Import RecoverySpec Resurrect.
From Stdlib Require Import ZArith Lia.

Section spec.
Context `{HostEndian, HostAlloc, Framing, BT : !BTree bt_compare}.
Variable alloc : nat -> option (list byte).
Implicit Types (pv : Provider) (ae : PendingEnqueueSet) (ad : PendingDequeueSet) (q p : Z).

Definition store_of (v : PendingAsyncEnqueue) : store_task :=
  mkStore (Some (pae_queueId v)) (pae_buff v) (pae_size v) (pae_msgId v) (pae_transient v).
Definition deq_of (v : PendingAsyncDequeue) : deq_task := mkDeq (pad_msgId v) (pad_queueId v).

(** The pending enqueues that are stored again. *)
Definition again ad pv (v : PendingAsyncEnqueue) : bool :=
  is_none (nm_get ad (pae_queueId v) (pae_msgId v)) && negb (is_none (journalList pv !! pae_queueId v)).

(** Dropping the key of [v] and then those of [L]. *)
Lemma drop_keys {A} (L : list PendingAsyncEnqueue) v (o o' : Z -> Z -> option A) q p :
  (forall q p, o' q p = if decide ((q, p) = pae_key v) then None else o q p) ->
  (if decide ((q, p) ∈ pae_key <$> L) then None else o' q p) =
  (if decide ((q, p) ∈ pae_key v :: (pae_key <$> L)) then None else o q p).
Proof.
  intros Ho. rewrite Ho. pose proof (elem_of_cons (pae_key <$> L) (q, p) (pae_key v)) as Hc.
  repeat case_decide; tauto.
Qed.

Lemma enq_loop L ad useless pv :
  NoDup (pae_key <$> L) ->
  let '(ad', useless', pv') := foldl (resurrect_enq true) (ad, useless, pv) L in
  enqueuePool pv' = enqueuePool pv ++ map store_of (List.filter (again ad pv) L) /\
  dequeuePool pv' = dequeuePool pv /\ journalList pv' = journalList pv /\
  forall q p, nm_get ad' q p = if decide ((q, p) ∈ pae_key <$> L) then None else nm_get ad q p.
Proof.
  revert ad useless pv. induction L as [|v L IH]; intros ad useless pv Hn; cbn [foldl].
  { simpl. split_and!; [by rewrite app_nil_r|done..]. }
  apply NoDup_cons in Hn as [Hv Hn]. fold (fmap pae_key L) in Hv, Hn. rewrite fmap_cons.
  assert (Hext : forall ad1 pv1, journalList pv1 = journalList pv ->
            (forall q p, (q, p) <> pae_key v -> nm_get ad1 q p = nm_get ad q p) ->
            List.filter (again ad1 pv1) L = List.filter (again ad pv) L).
  { intros ad1 pv1 Ej Ea. apply filter_ext_in. intros x Hx. unfold again. rewrite Ej, Ea; [done|].
    intros E. apply Hv. rewrite <- E. apply list_elem_of_fmap. exists x. split; [done|]. by apply list_elem_of_In. }
  cbn [List.filter resurrect_enq].
  change (again ad pv v) with (is_none (nm_get ad (pae_queueId v) (pae_msgId v)) &&
                               negb (is_none (journalList pv !! pae_queueId v))).
  destruct (nm_get ad (pae_queueId v) (pae_msgId v)) as [x|] eqn:Ea; cbn [is_none andb].
  - specialize (IH (nm_erase ad (pae_queueId v) (pae_msgId v)) (useless ++ [pae_opId v]) pv Hn).
    destruct (foldl _ _ L) as [[ad' u'] pv']. destruct IH as (I1 & I2 & I3 & I4). split_and!; try done.
    + rewrite I1. f_equal. f_equal. apply Hext; [done|]. intros q p Hne. rewrite nm_get_erase.
      case_decide; [|done]. exfalso. naive_solver.
    + intros q p. rewrite I4. apply (drop_keys L v (nm_get ad)). intros q' p'. rewrite nm_get_erase.
      unfold pae_key. repeat case_decide; naive_solver.
  - destruct (journalList pv !! pae_queueId v) as [j|] eqn:Ej; cbn [is_none negb].
    + set (pv1 := if enableSmartAsync pv then _ else pv).
      assert (E1 : journalList pv1 = journalList pv /\ enqueuePool pv1 = enqueuePool pv /\ dequeuePool pv1 = dequeuePool pv)
        by (unfold pv1; by destruct (enableSmartAsync pv)).
      destruct E1 as (E1 & E2 & E3).
      specialize (IH ad useless (set_pools (enqueuePool pv1 ++ [store_of v]) (dequeuePool pv1) pv1) Hn).
      fold (store_of v). destruct (foldl _ _ L) as [[ad' u'] pv']. destruct IH as (I1 & I2 & I3 & I4).
      simpl in I1, I2, I3. split_and!; try congruence.
      * rewrite I1, E2, <- app_assoc. simpl. f_equal. f_equal. f_equal. by apply Hext.
      * intros q p. rewrite I4. apply (drop_keys L v (nm_get ad)). intros q' p'.
        case_decide as E; [injection E as -> ->; done|done].
    + specialize (IH ad useless pv Hn). destruct (foldl _ _ L) as [[ad' u'] pv']. destruct IH as (I1 & I2 & I3 & I4).
      split_and!; try done. intros q p. rewrite I4. apply (drop_keys L v (nm_get ad)). intros q' p'.
      case_decide as E; [injection E as -> ->; done|done].
Qed.

Lemma deq_loop L pv :
  let pv' := foldl (resurrect_deq true) pv L in
  enqueuePool pv' = enqueuePool pv /\ journalList pv' = journalList pv /\
  dequeuePool pv' = dequeuePool pv ++ map deq_of (List.filter (fun v => negb (is_none (journalList pv !! pad_queueId v))) L).
Proof.
  revert pv. induction L as [|v L IH]; intros pv; cbn [foldl List.filter].
  { simpl. by rewrite app_nil_r. }
  unfold resurrect_deq at 2 4 6. destruct (journalList pv !! pad_queueId v) as [j|] eqn:Ej; cbn [is_none negb]; [|apply IH].
  destruct (IH (set_pools (enqueuePool pv) (dequeuePool pv ++ [mkDeq (pad_msgId v) (pad_queueId v)]) pv)) as (I1 & I2 & I3).
  rewrite I1, I2, I3. simpl. by rewrite <- app_assoc.
Qed.

(** C12: the restart schedules a store for exactly those pending
    enqueues that have no pending dequeue and whose queue is known, with the logged
    bytes, and a dequeue for exactly those pending dequeues that have no pending
    enqueue and whose queue is known; what was scheduled before stays. *)
Theorem resurrect_exact ae ad pv :
  (forall q p v, nm_get ae q p = Some v -> pae_key v = (q, p)) ->
  (forall q p v, nm_get ad q p = Some v -> (pad_queueId v, pad_msgId v) = (q, p)) ->
  let pv' := resurrect alloc true ae ad pv in
  (forall t, t ∈ enqueuePool pv' <-> t ∈ enqueuePool pv \/
     exists q p v, nm_get ae q p = Some v /\ nm_get ad q p = None /\ is_Some (journalList pv !! q) /\
       t = mkStore (Some q) (pae_buff v) (pae_size v) p (pae_transient v)) /\
  (forall t, t ∈ dequeuePool pv' <-> t ∈ dequeuePool pv \/
     exists q p, is_Some (nm_get ad q p) /\ nm_get ae q p = None /\ is_Some (journalList pv !! q) /\ t = mkDeq p q).
Proof.
  intros He Hd. unfold resurrect.
  assert (Ek : pae_key <$> map snd (nm_list ae) = (nm_list ae).*1).
  { unfold fmap. rewrite map_map. apply map_ext_in. intros [[q p] v] Hv.
    apply list_elem_of_In, elem_of_nm_list in Hv. simpl. by apply He. }
  pose proof (enq_loop (map snd (nm_list ae)) ad [] pv) as HL. rewrite Ek in HL.
  specialize (HL (nm_list_NoDup ae)). destruct (foldl _ _ _) as [[ad' u'] pv1].
  destruct HL as (L1 & L2 & L3 & L4). destruct (deq_loop (map snd (nm_list ad')) pv1) as (M1 & M2 & M3).
  cbn [set_log enqueuePool dequeuePool]. rewrite M1, M3, L1, L2, L3.
  assert (Hin : forall q p, (q, p) ∈ (nm_list ae).*1 <-> is_Some (nm_get ae q p)).
  { intros q p. rewrite list_elem_of_fmap. split.
    - intros ([[q' p'] v] & [= -> ->] & Hv). apply elem_of_nm_list in Hv. by eexists.
    - intros [v Hv]. exists (q, p, v). split; [done|]. by apply elem_of_nm_list. }
  assert (Hj : forall q, negb (is_none (journalList pv !! q)) = true <-> is_Some (journalList pv !! q)).
  { intros q. destruct (journalList pv !! q); simpl; split; try done; by intros []. }
  split; intros t; rewrite elem_of_app; apply or_iff_compat_l;
    rewrite list_elem_of_In, in_map_iff; setoid_rewrite filter_In; setoid_rewrite in_map_iff.
  - split.
    + intros (v & <- & ([[q p] v'] & E & Hv) & Hag). simpl in E. subst v'.
      apply list_elem_of_In, elem_of_nm_list in Hv. pose proof (He q p v Hv) as [= E1 E2].
      unfold again in Hag. rewrite E1, E2, andb_true_iff, is_none_eq, Hj in Hag.
      destruct Hag. exists q, p, v. unfold store_of. rewrite E1, E2. by split_and!.
    + intros (q & p & v & Hv & Ha & Hq & ->). exists v. pose proof (He q p v Hv) as [= E1 E2]. unfold store_of, again.
      rewrite E1, E2, andb_true_iff, is_none_eq, Hj. split_and!; try done.
      exists (q, p, v). split; [done|]. by apply list_elem_of_In, elem_of_nm_list.
  - split.
    + intros (v & <- & ([[q p] v'] & E & Hv) & Hq). simpl in E. subst v'.
      apply list_elem_of_In, elem_of_nm_list in Hv. rewrite L4 in Hv. case_decide as Hk; [done|]. rewrite Hin in Hk.
      pose proof (Hd q p v Hv) as [= E1 E2]. rewrite E1, Hj in Hq. exists q, p. unfold deq_of. rewrite E1, E2.
      split_and!; [by eexists| |done|done]. destruct (nm_get ae q p); [|done]. exfalso. apply Hk. by eexists.
    + intros (q & p & [v Hv] & Ha & Hq & ->). exists v. pose proof (Hd q p v Hv) as [= E1 E2]. unfold deq_of.
      rewrite E1, E2, Hj. split_and!; try done. exists (q, p, v). split; [done|]. apply list_elem_of_In, elem_of_nm_list.
      rewrite L4, decide_False; [done|]. rewrite Hin, Ha. apply is_Some_None.
Qed.

End spec.
