(* ===== verification/ResurrectExamples.v ===== *)
(** A crash after which the first new message is deleted again: the provider's own
    methods, run one after the other. *)
From S2P Require Import Prelude Format Jerrno IdSequence NestedMap PidTracker PendingOps.
From S2P Require Import LogFormat LogExtract AsyncLog LogSystem LoggerSpec Bdb TxnCtxt Framing Journal JournalSpec.
From S2P Require Import Recovery Provider RecoverySpec Resurrect ResurrectSpec.
From Stdlib Require Import ZArith Lia.

#[local] Existing Instance little_endian.
Definition ghost_host : HostAlloc := {| vector_max := 2 ^ 62 |}.
#[local] Existing Instance ghost_host.
#[local] Existing Instance wire.
#[local] Instance ghost_bt : BTree bt_compare := gmap_btree bt_compare.

(** A store with one queue, of id 3. *)
Definition ghost_new : JournalImpl := queue_journal "/s" "q" 3 2.
Definition ghost_open : result JournalImpl * JournalImpl.world :=
  JournalImpl.initialize io_fine ghost_new (JournalImpl.mkWorld (mkEnv 0 [] false) ∅).
Definition ghost0 : Provider :=
  mkProv true false IdSequence.init PidTracker.init (AsyncOperationLogger.create "async" ∅)
    {[3 := match ghost_open.1 with Ret j => j | Throw _ => ghost_new end]} ghost_open.2 [] [].

Definition stored (pv : Provider) (p : Z) : result bool :=
  match journalList pv !! 3 with
  | Some j => JournalImpl.is_enqueued p j (world pv)
  | None => Throw (Undefined "null journal")
  end.

(** The first session: a message is enqueued, stored and dequeued; the crash comes
    when it has been deleted, before the dequeue is logged as complete. *)
Definition old_msg : Message := mkMsg [x68] [x61] true.
Definition ghost1 : Provider := (enqueue true "q" 3 0 (Some 3) old_msg ghost0).2.
Definition old_task : store_task := mkStore (Some 3) (msgEncode old_msg).1 (msgEncode old_msg).2 1 false.
Definition ghost2 : Provider := (store io_fine old_task ghost1).2.
Definition ghost3 : Provider := (dequeue true "q" 3 1 3 ghost2).2.
Definition ghost4 : Provider := (deq_data_p io_fine 3 1 ghost3).2.

(** The restart, with the files as the crash left them. *)
Definition reborn0 : Provider :=
  mkProv true false IdSequence.init PidTracker.init (AsyncOperationLogger.create "async" (logFS (aologger ghost4)))
    {[3 := ghost_new]} (world ghost4) [] [].
Definition reborn : option (result (gmap Z (list byte * list byte) * gmap Z (list Z) * Provider)) :=
  recoverMessages false [] (fun _ => "") (fun _ => true) (fun n => Some (memset0 n)) io_fine true [("q", 3)] reborn0.
Definition reborn1 : Provider :=
  match reborn with Some (Ret (_, _, pv)) => pv | _ => reborn0 end.
Definition reborn_messages : option (list Z) :=
  match reborn with Some (Ret (m, _, _)) => Some (map fst (map_to_list m)) | _ => None end.

(** The second session: a new message, its store, and then the resurrected dequeue. *)
Definition new_msg : Message := mkMsg [x68] [x62] true.
Definition new_task : store_task := mkStore (Some 3) (msgEncode new_msg).1 (msgEncode new_msg).2 1 false.
Definition reborn2 : Provider := (enqueue true "q" 3 0 (Some 3) new_msg reborn1).2.
Definition reborn3 : Provider := (store io_fine new_task reborn2).2.
Definition eaten : option (result unit * Provider) :=
  async_dequeue io_fine [tracker reborn3; tracker reborn3] true (mkDeq 1 3) reborn3.
Definition reborn4 : Provider := match eaten with Some (_, pv) => pv | None => reborn3 end.

Definition returned {A} (r : result A) : bool := match r with Ret _ => true | Throw _ => false end.

(** A crash between the deletion of a message and the
    record that its dequeue is complete leaves a pending dequeue. The restart
    resurrects it, but starts the ids again after the largest one it still finds: a
    new message gets the id of the dequeued one, and once it is stored the old
    dequeue deletes it. No dequeue of the new message was ever asked for. *)
Theorem stale_dequeue_eats_message :
  stored ghost3 1 = Ret true /\ stored ghost4 1 = Ret false /\
  reborn_messages = Some [] /\ dequeuePool reborn1 = [mkDeq 1 3] /\
  (enqueue true "q" 3 0 (Some 3) new_msg reborn1).1 = Ret 1 /\ enqueuePool reborn2 = [new_task] /\
  stored reborn3 1 = Ret true /\
  match eaten with Some (r, _) => returned r | None => false end = true /\ stored reborn4 1 = Ret false.
Proof. split_and!; vm_compute; reflexivity. Qed.

(** One pending dequeue of the known queue, and nothing else. *)
Definition one_dequeue : PendingDequeueSet := nm_insert ∅ 3 1 (mkPAD 1 3).

Lemma resurrect_exact_witness :
  mkDeq 1 3 ∈ dequeuePool (resurrect (fun n => Some (memset0 n)) true ∅ one_dequeue ghost0).
Proof.
  apply (resurrect_exact (fun n => Some (memset0 n)) ∅ one_dequeue ghost0).
  - intros q p v Hv. by rewrite nm_get_empty in Hv.
  - intros q p v. unfold one_dequeue. rewrite nm_get_insert, nm_get_empty.
    case_decide as E; [|done]. intros [= <-]. naive_solver.
  - right. exists 3, 1. split_and!; [by eexists|apply nm_get_empty|by eexists|reflexivity].
Defined.
