(* ===== verification/ThreadPool.v ===== *)
(** Model of the thread pool in lib/ext/boost/threadpool: the scheduling policies,
    the task adaptors, the pool core with its monitor, the worker threads, the size
    and shutdown policies.

    The monitor's critical sections are functions on the state. A condition variable
    is the set of the threads asleep on it: [notify_all] wakes them all, [notify_one]
    one of them, which is an argument; a woken thread has to take the lock again.
    Threads are the elements of two lists: the workers, each at one point of
    [worker_thread::run], and the clients, each with the calls it still has to make.
    The three counters are [size_t] and wrap around. *)
From S2P Require Import Prelude.
From Stdlib Require Import ZArith Lia.

(** ** Scheduling policies

    What the pool relies on: a bag of tasks from which [top] and [pop] take the same
    one. *)
Class Scheduler (T : Type) := {
  sched : Type;
  sched_new : sched;
  push : T -> sched -> bool * sched;
  pop : sched -> sched;
  top : sched -> option T;
  tasks_size : sched -> nat;
  tasks_empty : sched -> bool;
  tasks_clear : sched -> sched;
  contents : sched -> list T;
  sched_new_contents : contents sched_new = [];
  push_law : forall t s, (push t s).1 = true /\ contents (push t s).2 ≡ₚ t :: contents s;
  top_law : forall s, contents s <> [] -> exists t, top s = Some t /\ contents s ≡ₚ t :: contents (pop s);
  size_law : forall s, tasks_size s = length (contents s);
  empty_law : forall s, tasks_empty s = true <-> contents s = [];
  clear_law : forall s, contents (tasks_clear s) = []
}.

#[local] Obligation Tactic := idtac.

(** [empty()] of the standard containers. *)
Definition no_tasks {A} (l : list A) : bool := match l with [] => true | _ => false end.

(** [fifo_scheduler]: a deque, pushed at the back. *)
#[program] Definition fifo_scheduler (T : Type) : Scheduler T := {|
  sched := list T;
  sched_new := [];
  push := fun t s => (true, s ++ [t]);
  pop := fun s => tail s;
  top := fun s => head s;
  tasks_size := fun s => length s;
  tasks_empty := fun s => no_tasks s;
  tasks_clear := fun _ => [];
  contents := fun s => s
|}.
Next Obligation. done. Qed.
Next Obligation. intros T t s. split; [done|]. simpl. by rewrite Permutation_app_comm. Qed.
Next Obligation. intros T [|t s] Hs; [done|]. by exists t. Qed.
Next Obligation. done. Qed.
Next Obligation. by intros T []. Qed.
Next Obligation. done. Qed.

(** [lifo_scheduler]: a deque, pushed at the front. *)
#[program] Definition lifo_scheduler (T : Type) : Scheduler T := {|
  sched := list T;
  sched_new := [];
  push := fun t s => (true, t :: s);
  pop := fun s => tail s;
  top := fun s => head s;
  tasks_size := fun s => length s;
  tasks_empty := fun s => no_tasks s;
  tasks_clear := fun _ => [];
  contents := fun s => s
|}.
Next Obligation. done. Qed.
Next Obligation. done. Qed.
Next Obligation. intros T [|t s] Hs; [done|]. by exists t. Qed.
Next Obligation. done. Qed.
Next Obligation. by intros T []. Qed.
Next Obligation. done. Qed.

(** [prio_task_func]: a priority, an [unsigned int], and a function; its order. *)
Record prio_task_func (T : Type) := mkPrio { m_priority : Z; m_function : T }.
Arguments mkPrio {T}.
Arguments m_priority {T}.
Arguments m_function {T}.

Definition prio_lt {T} (a b : prio_task_func T) : bool := m_priority a <? m_priority b.

(** [prio_scheduler]: a [std::priority_queue], kept as a list in which no task is
    below one that comes after it. *)
Fixpoint prio_push {T} (t : prio_task_func T) (s : list (prio_task_func T)) : list (prio_task_func T) :=
  match s with
  | [] => [t]
  | x :: s' => if prio_lt x t then t :: s else x :: prio_push t s'
  end.

Lemma prio_push_perm {T} (t : prio_task_func T) s : prio_push t s ≡ₚ t :: s.
Proof.
  induction s as [|x s IH]; [done|]. simpl. destruct (prio_lt x t); [done|]. rewrite IH. apply Permutation_swap.
Qed.

(** [clear] pops until the queue is empty. *)
Fixpoint prio_clear {T} (s : list (prio_task_func T)) : list (prio_task_func T) :=
  match s with [] => [] | _ :: s' => prio_clear s' end.

#[program] Definition prio_scheduler (T : Type) : Scheduler (prio_task_func T) := {|
  sched := list (prio_task_func T);
  sched_new := [];
  push := fun t s => (true, prio_push t s);
  pop := fun s => tail s;
  top := fun s => head s;
  tasks_size := fun s => length s;
  tasks_empty := fun s => no_tasks s;
  tasks_clear := fun s => prio_clear s;
  contents := fun s => s
|}.
Next Obligation. done. Qed.
Next Obligation. intros T t s. split; [done|]. apply prio_push_perm. Qed.
Next Obligation. intros T [|t s] Hs; [done|]. by exists t. Qed.
Next Obligation. done. Qed.
Next Obligation. by intros T []. Qed.
Next Obligation. intros T s. induction s as [|x s IH]; [done|apply IH]. Qed.

(** ** The pool *)

Section pool.
Context {T : Type} `{Scheduler T}.

Record pool_core := mkPool {
  m_worker_count : Z;
  m_target_worker_count : Z;
  m_active_worker_count : Z;
  m_scheduler : sched;
  m_terminate_all_workers : bool;
  m_terminated_workers : list nat
}.

(** Where a worker is: about to call [execute_task]; asleep on
    [m_task_or_terminate_workers_event], or notified and waiting for the lock; in a
    task; past [execute_task] with [false]; unwinding with an exception; gone. *)
Inductive wphase : Type :=
| WEnter | WSleep | WWoken | WRun (t : T) | WExit | WDying | WGone.

(** The calls of a client. [OJoin] is the second half of [terminate_all_workers],
    [OTimed] is [wait] with a time limit. *)
Inductive cop : Type :=
| OSched (t : T) | OClear | OResize (worker_count : Z) | OWait (task_threshold : Z) | OTimed (task_threshold : Z)
| OTerm (wait : bool) | OJoin.

(** A client asleep on [m_worker_idle_or_terminated_event] is in its first call. *)
Record client := mkClient { c_ops : list cop; c_asleep : bool }.

Record tsys := mkSys { t_pool : pool_core; t_ws : list wphase; t_cs : list client }.

Implicit Types (p : pool_core) (ws : list wphase) (cs : list client) (s : tsys).

Definition pool_new : pool_core := mkPool 0 0 0 (tasks_clear sched_new) false [].

(** Inspection. *)
Definition size p : Z := m_worker_count p.
Definition active p : Z := m_active_worker_count p.
Definition pending p : nat := tasks_size (m_scheduler p).
Definition empty p : bool := tasks_empty (m_scheduler p).

Definition set_counts (c a : Z) p : pool_core :=
  mkPool c (m_target_worker_count p) a (m_scheduler p) (m_terminate_all_workers p) (m_terminated_workers p).
Definition set_target (n : Z) p : pool_core :=
  mkPool (m_worker_count p) n (m_active_worker_count p) (m_scheduler p) (m_terminate_all_workers p)
    (m_terminated_workers p).
Definition set_sched (q : sched) p : pool_core :=
  mkPool (m_worker_count p) (m_target_worker_count p) (m_active_worker_count p) q (m_terminate_all_workers p)
    (m_terminated_workers p).
Definition set_terminated (b : bool) (l : list nat) p : pool_core :=
  mkPool (m_worker_count p) (m_target_worker_count p) (m_active_worker_count p) (m_scheduler p) b l.
Definition more_active p : pool_core := set_counts (m_worker_count p) (add64 (m_active_worker_count p) 1) p.
Definition less_active p : pool_core := set_counts (m_worker_count p) (sub64 (m_active_worker_count p) 1) p.

(** *** Notification *)

Definition woken (x : wphase) : wphase := match x with WSleep => WWoken | x => x end.
Definition notify_all (ws : list wphase) : list wphase := map woken ws.
Definition notify_one (pick : nat) (ws : list wphase) : list wphase :=
  match ws !! pick with Some WSleep => <[pick := WWoken]> ws | _ => ws end.
Definition notify_clients (cs : list client) : list client := map (fun c => mkClient (c_ops c) false) cs.

(** *** Changing the number of workers *)

(** The [while] loop of [resize]; [avail] threads can be created before
    [thread_resource_error]. *)
Fixpoint spawn_loop (avail : nat) p ws : bool * pool_core * list wphase :=
  if m_worker_count p <? m_target_worker_count p then
    match avail with
    | O => (false, p, ws)
    | S avail' =>
        spawn_loop avail' (set_counts (add64 (m_worker_count p) 1) (add64 (m_active_worker_count p) 1) p) (ws ++ [WEnter])
    end
  else (true, p, ws).

Definition resize (avail : nat) (worker_count : Z) p ws : bool * pool_core * list wphase :=
  if m_terminate_all_workers p then (false, p, ws)
  else
    let p := set_target worker_count p in
    if m_worker_count p <=? m_target_worker_count p then spawn_loop avail p ws
    else (true, p, notify_all ws).

(** [thread_pool(initial_threads)] with the policy [static_size]. *)
Definition thread_pool (avail : nat) (initial_threads : Z) : tsys :=
  let '(_, p, ws) := resize avail initial_threads pool_new [] in mkSys p ws [].

(** [static_size::worker_died_unexpectedly] *)
Definition policy_worker_died (avail : nat) (new_worker_count : Z) p ws : bool * pool_core * list wphase :=
  resize avail (add64 new_worker_count 1) p ws.

Definition worker_gone p : pool_core :=
  set_counts (sub64 (m_worker_count p) 1) (sub64 (m_active_worker_count p) 1) p.

Definition worker_died_unexpectedly (avail i : nat) s : tsys :=
  let p := worker_gone (t_pool s) in
  let ws := <[i := WGone]> (t_ws s) in
  let cs := notify_clients (t_cs s) in
  if m_terminate_all_workers p then mkSys (set_terminated true (m_terminated_workers p ++ [i]) p) ws cs
  else let '(_, p, ws) := policy_worker_died avail (m_worker_count p) p ws in mkSys p ws cs.

Definition worker_destructed (i : nat) s : tsys :=
  let p := worker_gone (t_pool s) in
  let p := if m_terminate_all_workers p then set_terminated true (m_terminated_workers p ++ [i]) p else p in
  mkSys p (<[i := WGone]> (t_ws s)) (notify_clients (t_cs s)).

(** *** execute_task *)

Definition set_worker (i : nat) (x : wphase) s : tsys := mkSys (t_pool s) (<[i := x]> (t_ws s)) (t_cs s).

Definition too_many p : bool := m_target_worker_count p <? m_worker_count p.

(** The [while] loop up to the next wait, and fetching the task. *)
Definition fetch (i : nat) s : tsys :=
  let p := t_pool s in
  if tasks_empty (m_scheduler p) then
    if too_many p then set_worker i WExit s
    else mkSys (less_active p) (<[i := WSleep]> (t_ws s)) (notify_clients (t_cs s))
  else match top (m_scheduler p) with
       | Some t => mkSys (set_sched (pop (m_scheduler p)) p) (<[i := WRun t]> (t_ws s)) (t_cs s)
       | None => s
       end.

(** From the call to the first wait, and from a wake-up to the next. *)
Definition enter (i : nat) s : tsys := if too_many (t_pool s) then set_worker i WExit s else fetch i s.
Definition wake (i : nat) s : tsys := fetch i (mkSys (more_active (t_pool s)) (t_ws s) (t_cs s)).

(** *** The calls of a client *)

(** [while] conditions of [wait] and of [terminate_all_workers]. *)
Definition must_wait (task_threshold : Z) p : bool :=
  if task_threshold =? 0 then negb (m_active_worker_count p =? 0) || negb (tasks_empty (m_scheduler p))
  else task_threshold <? add64 (m_active_worker_count p) (Z.of_nat (tasks_size (m_scheduler p))).

Definition set_client (c : nat) (x : client) s : tsys := mkSys (t_pool s) (t_ws s) (<[c := x]> (t_cs s)).

Definition schedule (pick : nat) (task : T) p ws : bool * pool_core * list wphase :=
  let '(ok, q) := push task (m_scheduler p) in
  if ok then (true, set_sched q p, notify_one pick ws) else (false, set_sched q p, ws).

Definition clear p : pool_core := set_sched (tasks_clear (m_scheduler p)) p.

(** The first half of [terminate_all_workers]. *)
Definition terminate_all_workers p ws : pool_core * list wphase :=
  (set_target 0 (set_terminated true (m_terminated_workers p) p), notify_all ws).

(** One call of client [c], whose further calls are [rest]; [pick] and [avail] are
    as above. A call that has to wait leaves the client asleep in it. *)
Definition run_op (pick avail c : nat) (op : cop) (rest : list cop) s : tsys :=
  let p := t_pool s in
  let ws := t_ws s in
  let next p ws := mkSys p ws (<[c := mkClient rest false]> (t_cs s)) in
  let asleep := set_client c (mkClient (op :: rest) true) s in
  match op with
  | OSched t => let '(_, p, ws) := schedule pick t p ws in next p ws
  | OClear => next (clear p) ws
  | OResize n => let '(_, p, ws) := resize avail n p ws in next p ws
  | OWait thr | OTimed thr => if must_wait thr p then asleep else next p ws
  | OTerm wait =>
      let '(p, ws) := terminate_all_workers p ws in
      mkSys p ws (<[c := mkClient (if wait then OJoin :: rest else rest) false]> (t_cs s))
  | OJoin => if 0 <? m_active_worker_count p then asleep
             else next (set_terminated (m_terminate_all_workers p) [] p) ws
  end.

(** The shutdown policies. *)
Definition wait_for_all_tasks : list cop := [OWait 0; OTerm true].
Definition wait_for_active_tasks : list cop := [OClear; OWait 0; OTerm true].
Definition immediately : list cop := [OClear; OTerm false].

(** ** Steps *)

(** What a step shows to the outside. *)
Inductive event : Type := EScheduled (t : T) | EStarted (t : T) | EDone (t : T) | EThrew (t : T) | ECleared.

Definition started (i : nat) s : list event :=
  match t_ws s !! i with Some (WRun t) => [EStarted t] | _ => [] end.

(** The steps of the workers. A task returns or throws when [ends] allows it. *)
Inductive wstep (ends : T -> Prop) s : list event -> tsys -> Prop :=
| W_enter i : t_ws s !! i = Some WEnter -> wstep ends s (started i (enter i s)) (enter i s)
| W_wake i : t_ws s !! i = Some WWoken -> wstep ends s (started i (wake i s)) (wake i s)
| W_return i t : t_ws s !! i = Some (WRun t) -> ends t -> wstep ends s [EDone t] (set_worker i WEnter s)
| W_throw i t : t_ws s !! i = Some (WRun t) -> ends t -> wstep ends s [EThrew t] (set_worker i WDying s)
| W_die avail i : t_ws s !! i = Some WDying -> wstep ends s [] (worker_died_unexpectedly avail i s)
| W_exit i : t_ws s !! i = Some WExit -> wstep ends s [] (worker_destructed i s).

(** [notify_one] wakes a sleeping worker when there is one. *)
Definition pick_ok (pick : nat) ws : Prop := WSleep ∈ ws -> ws !! pick = Some WSleep.

Definition op_events (op : cop) : list event :=
  match op with OSched t => [EScheduled t] | OClear => [ECleared] | _ => [] end.

(** The steps of the clients. *)
Inductive cstep s : list event -> tsys -> Prop :=
| C_call pick avail c op rest :
    t_cs s !! c = Some (mkClient (op :: rest) false) -> pick_ok pick (t_ws s) ->
    cstep s (op_events op) (run_op pick avail c op rest s)
| C_timeout c thr rest :
    t_cs s !! c = Some (mkClient (OTimed thr :: rest) true) -> cstep s [] (set_client c (mkClient rest false) s).

Definition sstep (ends : T -> Prop) s (es : list event) s' : Prop := wstep ends s es s' \/ cstep s es s'.

(** The sizes a client may ask for fit in a [size_t]. *)
Definition op_ok (op : cop) : Prop :=
  match op with OResize n => is_u64 n | OWait n | OTimed n => 0 <= n | _ => True end.

(** All steps: those of the threads there are, new clients, and spurious wake-ups. *)
Inductive tstep (ends : T -> Prop) s : list event -> tsys -> Prop :=
| T_threads es s' : sstep ends s es s' -> tstep ends s es s'
| T_client ops : Forall op_ok ops -> tstep ends s [] (mkSys (t_pool s) (t_ws s) (t_cs s ++ [mkClient ops false]))
| T_spurious i : t_ws s !! i = Some WSleep -> tstep ends s [] (set_worker i WWoken s)
| T_spurious_client c ops :
    t_cs s !! c = Some (mkClient ops true) -> tstep ends s [] (set_client c (mkClient ops false) s).

(** The runs of a pool, with the events in order. *)
Inductive treach (ends : T -> Prop) (avail : nat) (n : Z) : list event -> tsys -> Prop :=
| treach_new : treach ends avail n [] (thread_pool avail n)
| treach_step es s es' s' :
    treach ends avail n es s -> tstep ends s es' s' -> treach ends avail n (es ++ es') s'.

End pool.

Arguments pool_core T {_}.
Arguments wphase : clear implicits.
Arguments cop : clear implicits.
Arguments client : clear implicits.
Arguments tsys T {_}.
Arguments event : clear implicits.
