(* ===== verification/PoolSpec.v ===== *)
(** What the thread pool guarantees: its counters are exact and never wrap around, a
    task is started once and in the order of the policy, no wake-up is lost, its
    threads come to rest, and at rest nothing is left to do. *)
From S2P Require Import Prelude ThreadPool.
From Stdlib Require Import ZArith Lia.

(** ** Sums over the workers *)

Section sums.
Context {A : Type}.
Implicit Types (f g : A -> Z) (l : list A).

Definition sum_of f l : Z := foldr (fun x a => f x + a) 0 l.

Lemma sum_app f l k : sum_of f (l ++ k) = sum_of f l + sum_of f k.
Proof. induction l as [|x l IH]; simpl; [done|]. rewrite IH. lia. Qed.

Lemma sum_insert f l i x y : l !! i = Some x -> sum_of f (<[i := y]> l) = sum_of f l - f x + f y.
Proof.
  revert i. induction l as [|z l IH]; intros [|i] E; simplify_eq/=; [lia|]. rewrite (IH i) by done. lia.
Qed.

Lemma sum_map f (h : A -> A) l : sum_of f (map h l) = sum_of (fun x => f (h x)) l.
Proof. induction l as [|x l IH]; simpl; [done|]. by rewrite IH. Qed.

Lemma sum_sub f g l : sum_of (fun x => f x - g x) l = sum_of f l - sum_of g l.
Proof. induction l as [|x l IH]; simpl; [done|]. rewrite IH. lia. Qed.

Lemma sum_add f g l : sum_of (fun x => f x + g x) l = sum_of f l + sum_of g l.
Proof. induction l as [|x l IH]; simpl; [done|]. rewrite IH. lia. Qed.

Lemma sum_ext f g l : (forall x, x ∈ l -> f x = g x) -> sum_of f l = sum_of g l.
Proof. induction l as [|x l IH]; intros E; simpl; [done|]. rewrite IH by set_solver. rewrite E by set_solver. done. Qed.

Lemma sum_le f g l : (forall x, f x <= g x) -> sum_of f l <= sum_of g l.
Proof. intros E. induction l as [|x l IH]; simpl; [done|]. specialize (E x). lia. Qed.

Lemma sum_nonneg f l : (forall x, 0 <= f x) -> 0 <= sum_of f l.
Proof. intros E. induction l as [|x l IH]; simpl; [done|]. specialize (E x). lia. Qed.

Lemma sum_elem f l x : (forall x, 0 <= f x) -> x ∈ l -> f x <= sum_of f l.
Proof.
  intros E. induction l as [|y l IH]; intros Hx; [by apply elem_of_nil in Hx|]. simpl.
  pose proof (sum_nonneg f l E). apply elem_of_cons in Hx as [->|Hx]; [lia|]. specialize (IH Hx). specialize (E y). lia.
Qed.

(** A sum of zeros and ones that is positive counts something. *)
Lemma sum_pos f l : 0 < sum_of f l -> exists x, x ∈ l /\ 0 < f x.
Proof.
  induction l as [|x l IH]; simpl; [lia|]. intros Hs. destruct (decide (0 < f x)).
  - exists x. set_solver.
  - destruct IH as (y & Hy & Hf); [lia|]. exists y. set_solver.
Qed.

End sums.

Section spec.
Context {T : Type} `{Scheduler T}.
Implicit Types (p : pool_core T) (ws : list (wphase T)) (s : tsys T) (cs : list (client T)) (t : T).

Definition live (x : wphase T) : Z := match x with WGone => 0 | _ => 1 end.
Definition awake (x : wphase T) : Z := match x with WSleep | WWoken | WGone => 0 | _ => 1 end.
Definition sleeping (x : wphase T) : Z := match x with WSleep => 1 | _ => 0 end.
Definition looking (x : wphase T) : Z := match x with WEnter | WWoken => 1 | _ => 0 end.

Definition queue s : list T := contents (m_scheduler (t_pool s)).

(** The invariant. [extra] workers are counted as active besides those that are. *)
Record pinv_at (extra : Z) s : Prop := {
  pi_count : m_worker_count (t_pool s) = sum_of live (t_ws s);
  pi_active : m_active_worker_count (t_pool s) = sum_of awake (t_ws s) + extra;
  pi_bound : sum_of live (t_ws s) < 2 ^ 64;
  pi_target : is_u64 (m_target_worker_count (t_pool s));
  pi_many : m_target_worker_count (t_pool s) < sum_of live (t_ws s) -> sum_of sleeping (t_ws s) = 0;
  pi_wake : 0 < sum_of sleeping (t_ws s) -> Z.of_nat (length (queue s)) <= sum_of looking (t_ws s);
  pi_term : m_terminate_all_workers (t_pool s) = true -> m_target_worker_count (t_pool s) = 0;
  pi_clients : (exists c, c ∈ t_cs s /\ c_asleep c = true) ->
    sum_of live (t_ws s) = 0 \/ sum_of sleeping (t_ws s) < sum_of live (t_ws s);
  pi_ops : Forall (fun c => Forall op_ok (c_ops c)) (t_cs s)
}.

Definition pinv := pinv_at 0.

Lemma weights ws :
  0 <= sum_of awake ws /\ 0 <= sum_of sleeping ws /\ 0 <= sum_of looking ws /\
  sum_of awake ws + sum_of sleeping ws <= sum_of live ws /\ sum_of looking ws + sum_of sleeping ws <= sum_of live ws.
Proof.
  split_and!; try (apply sum_nonneg; by intros []); rewrite <- sum_add; apply sum_le; by intros [].
Qed.

Lemma u64_step n : 0 <= n < 2 ^ 64 - 1 -> add64 n 1 = n + 1.
Proof. intros Hn. unfold add64. apply u64_small. unfold is_u64. lia. Qed.

Lemma u64_back n : 0 < n <= 2 ^ 64 -> sub64 n 1 = n - 1.
Proof. intros Hn. unfold sub64. apply u64_small. unfold is_u64. lia. Qed.

Lemma clients_notified cs : ~ exists c, c ∈ notify_clients cs /\ c_asleep c = true.
Proof. intros (c & (d & -> & _)%list_elem_of_fmap & Ha). done. Qed.

Lemma ops_notified cs :
  Forall (fun c => Forall op_ok (c_ops c)) cs -> Forall (fun c => Forall op_ok (c_ops c)) (notify_clients cs).
Proof. intros Hc. apply Forall_map. by eapply Forall_impl; [exact Hc|]. Qed.

(** *** Creating threads *)

Lemma spawn_loop_spec avail p ws :
  0 <= m_worker_count p -> is_u64 (m_target_worker_count p) -> 0 <= m_active_worker_count p <= m_worker_count p ->
  exists ok p' k, spawn_loop avail p ws = (ok, p', ws ++ replicate k WEnter) /\ (k <= avail)%nat /\
    p' = set_counts (m_worker_count p + Z.of_nat k) (m_active_worker_count p + Z.of_nat k) p /\
    m_worker_count p + Z.of_nat k <= Z.max (m_worker_count p) (m_target_worker_count p) /\
    (m_worker_count p < m_target_worker_count p -> avail <> O -> k <> O) /\
    (ok = true -> m_target_worker_count p <= m_worker_count p + Z.of_nat k).
Proof.
  revert p ws. induction avail as [|avail IH]; intros p ws Hc Ht Ha; simpl; destruct (Z.ltb_spec (m_worker_count p) (m_target_worker_count p)).
  - exists false, p, O. rewrite app_nil_r. destruct p. unfold set_counts. simpl in *. rewrite !Z.add_0_r. split_and!; try done; lia.
  - exists true, p, O. rewrite app_nil_r. destruct p. unfold set_counts. simpl in *. rewrite !Z.add_0_r. split_and!; try done; lia.
  - unfold is_u64 in Ht. rewrite !u64_step by lia.
    destruct (IH (set_counts (m_worker_count p + 1) (m_active_worker_count p + 1) p) (ws ++ [WEnter]))
      as (ok & p' & k & -> & Hk & -> & Hm & _ & Ho); simpl in *; [lia|done|lia|].
    exists ok, (set_counts (m_worker_count p + Z.of_nat (S k)) (m_active_worker_count p + Z.of_nat (S k)) p), (S k).
    split_and!; try lia.
    + rewrite <- app_assoc. simpl. unfold set_counts. simpl. do 3 f_equal; lia.
    + done.
    + intros Hok. specialize (Ho Hok). lia.
  - exists true, p, O. rewrite app_nil_r. destruct p. unfold set_counts. simpl in *. rewrite !Z.add_0_r. split_and!; try done; lia.
Qed.

Lemma sum_replicate (f : wphase T -> Z) k x : sum_of f (replicate k x) = Z.of_nat k * f x.
Proof. induction k as [|k IH]; [done|]. simpl replicate. simpl sum_of. rewrite IH. lia. Qed.

Lemma sum_notify (f : wphase T -> Z) ws :
  sum_of f (notify_all ws) = sum_of f ws + sum_of sleeping ws * (f WWoken - f WSleep).
Proof. unfold notify_all. rewrite sum_map. induction ws as [|x ws IH]; simpl; [done|]. rewrite IH. destruct x; simpl; lia. Qed.

Lemma resize_spec avail n p ws cs extra :
  pinv_at extra (mkSys p ws cs) -> 0 <= extra <= sum_of live ws - sum_of awake ws -> is_u64 n ->
  let r := resize avail n p ws in pinv_at extra (mkSys r.1.2 r.2 cs).
Proof.
  intros Hi He Hn. pose proof Hi as [I1 I2 I3 I4 I5 I6 I7 I8 I9]. simpl in *. pose proof (weights ws) as Hw.
  unfold resize. destruct (m_terminate_all_workers p) eqn:Et; [done|]. simpl. destruct (Z.leb_spec (m_worker_count p) n).
  - destruct (spawn_loop_spec avail (set_target n p) ws) as (ok & p' & k & -> & _ & -> & Hk & _); simpl in *; [lia|done|lia|].
    unfold is_u64 in *. split; simpl; rewrite ?sum_app, ?sum_replicate; unfold queue in *; simpl in *;
      try congruence; try done; try lia. intros Hc. specialize (I8 Hc). lia.
  - split; simpl; rewrite ?sum_notify; unfold queue in *; simpl in *; try congruence; try done; try lia.
Qed.

(** *** The workers *)

Lemma queue_nil s : tasks_empty (m_scheduler (t_pool s)) = true <-> queue s = [].
Proof. apply empty_law. Qed.

Lemma fetch_inv i x s :
  t_ws s !! i = Some x -> looking x = 1 -> pinv_at (1 - awake x) s -> pinv (fetch i s).
Proof.
  intros Hi Hx [I1 I2 I3 I4 I5 I6 I7 I8 I9]. pose proof (weights (t_ws s)) as Hw.
  assert (Hl : live x = 1 /\ sleeping x = 0 /\ 0 <= awake x <= 1) by (by destruct x).
  pose proof (sum_elem (fun y => live y - awake y) (t_ws s) x (ltac:(by intros [])) (list_elem_of_lookup_2 _ _ _ Hi)) as Hle.
  rewrite sum_sub in Hle.
  pose proof (sum_elem awake (t_ws s) x (ltac:(by intros [])) (list_elem_of_lookup_2 _ _ _ Hi)) as Hla.
  pose proof (sum_elem looking (t_ws s) x (ltac:(by intros [])) (list_elem_of_lookup_2 _ _ _ Hi)) as Hlk.
  unfold fetch, too_many. rewrite I1. destruct (tasks_empty _) eqn:Ee.
  - apply queue_nil in Ee. destruct (Z.ltb_spec (m_target_worker_count (t_pool s)) (sum_of live (t_ws s))).
    + split; simpl; rewrite ?(sum_insert _ _ _ _ _ Hi); unfold queue in *; simpl in *; try done;
    first [lia|intros Hc; specialize (I8 Hc); lia].
    + split; simpl; rewrite ?(sum_insert _ _ _ _ _ Hi), ?u64_back by lia; unfold queue in *; simpl in *; try done; try lia.
      * rewrite Ee. simpl. lia.
      * by intros Hc%clients_notified.
      * by apply ops_notified.
  - destruct (top_law (m_scheduler (t_pool s))) as (t & -> & Hp).
    { intros E. apply empty_law in E. congruence. }
    apply Permutation_length in Hp. simpl in Hp.
    split; simpl; rewrite ?(sum_insert _ _ _ _ _ Hi); unfold queue in *; simpl in *; try done;
    first [lia|intros Hc; specialize (I8 Hc); lia].
Qed.

Lemma enter_inv i s : t_ws s !! i = Some WEnter -> pinv s -> pinv (enter i s).
Proof.
  intros Hi Hs. unfold enter. destruct (too_many (t_pool s)) eqn:Em; [|by apply (fetch_inv i WEnter)].
  destruct Hs as [I1 I2 I3 I4 I5 I6 I7 I8 I9]. pose proof (weights (t_ws s)) as Hw.
  unfold too_many in Em. rewrite I1 in Em. zbool.
  split; simpl; rewrite ?(sum_insert _ _ _ _ _ Hi); unfold queue in *; simpl in *; try done;
    first [lia|intros Hc; specialize (I8 Hc); lia].
Qed.

Lemma wake_inv i s : t_ws s !! i = Some WWoken -> pinv s -> pinv (wake i s).
Proof.
  intros Hi [I1 I2 I3 I4 I5 I6 I7 I8 I9]. apply (fetch_inv i WWoken); [done..|].
  pose proof (sum_elem (fun y => live y - awake y) (t_ws s) WWoken (ltac:(by intros [])) (list_elem_of_lookup_2 _ _ _ Hi)) as Hle.
  rewrite sum_sub in Hle. pose proof (weights (t_ws s)) as Hw. simpl in Hle.
  split; simpl; try done. rewrite u64_step by lia. lia.
Qed.

(** A worker that changes its phase without touching the counters. *)
Lemma set_worker_inv i x y s :
  t_ws s !! i = Some x -> live x = live y -> awake x = awake y -> sleeping y = 0 -> looking x <= looking y ->
  pinv s -> pinv (set_worker i y s).
Proof.
  intros Hi Hl Ha Hy Hk [I1 I2 I3 I4 I5 I6 I7 I8 I9]. pose proof (weights (t_ws s)) as Hw.
  assert (Hx : 0 <= sleeping x) by by destruct x.
  pose proof (sum_elem sleeping (t_ws s) x (ltac:(by intros [])) (list_elem_of_lookup_2 _ _ _ Hi)) as Hle.
  split; simpl; rewrite ?(sum_insert _ _ _ _ _ Hi); unfold queue in *; simpl in *; try done;
    first [lia|intros Hc; specialize (I8 Hc); lia].
Qed.

(** A worker that leaves, before anything replaces it. *)
Lemma worker_gone_inv i x s :
  t_ws s !! i = Some x -> x = WExit \/ x = WDying -> pinv s ->
  pinv (mkSys (worker_gone (t_pool s)) (<[i := WGone]> (t_ws s)) (notify_clients (t_cs s))) /\
  m_worker_count (worker_gone (t_pool s)) = sum_of live (t_ws s) - 1 /\ 0 < sum_of live (t_ws s).
Proof.
  intros Hi Hx [I1 I2 I3 I4 I5 I6 I7 I8 I9]. pose proof (weights (t_ws s)) as Hw.
  assert (Hv : live x = 1 /\ awake x = 1 /\ sleeping x = 0 /\ looking x = 0) by (by destruct Hx as [-> | ->]).
  pose proof (sum_elem awake (t_ws s) x (ltac:(by intros [])) (list_elem_of_lookup_2 _ _ _ Hi)) as Hle.
  split; [|split; [|lia]].
  - split; simpl; rewrite ?(sum_insert _ _ _ _ _ Hi), ?u64_back by lia; unfold queue in *; simpl in *; try done; try lia.
    + by intros Hc%clients_notified.
    + by apply ops_notified.
  - simpl. rewrite u64_back by lia. lia.
Qed.

(** The list of terminated workers is only looked at by the joining client. *)
Lemma set_terminated_inv b l p ws cs :
  pinv (mkSys p ws cs) -> b = m_terminate_all_workers p -> pinv (mkSys (set_terminated b l p) ws cs).
Proof. intros [I1 I2 I3 I4 I5 I6 I7 I8 I9] ->. split; done. Qed.

Lemma worker_destructed_inv i s : t_ws s !! i = Some WExit -> pinv s -> pinv (worker_destructed i s).
Proof.
  intros Hi Hs. destruct (worker_gone_inv i WExit s Hi (or_introl eq_refl) Hs) as [Hp _].
  unfold worker_destructed. destruct (m_terminate_all_workers _) eqn:E; [|done]. by apply set_terminated_inv.
Qed.

Lemma worker_died_inv avail i s : t_ws s !! i = Some WDying -> pinv s -> pinv (worker_died_unexpectedly avail i s).
Proof.
  intros Hi Hs. destruct (worker_gone_inv i WDying s Hi (or_intror eq_refl) Hs) as (Hp & Hn & Hpos).
  unfold worker_died_unexpectedly. destruct (m_terminate_all_workers _) eqn:E; [by apply set_terminated_inv|].
  unfold policy_worker_died. rewrite Hn. pose proof (pi_bound _ _ Hs) as Hb.
  rewrite u64_step by lia.
  pose proof (resize_spec avail (sum_of live (t_ws s) - 1 + 1) _ _ _ 0 Hp) as Hr.
  destruct (resize _ _ _ _) as [[ok p'] ws'] eqn:Er. apply Hr.
  - pose proof (weights (<[i := WGone]> (t_ws s))). lia.
  - unfold is_u64. lia.
Qed.

Lemma wstep_inv ends s es s' : wstep ends s es s' -> pinv s -> pinv s'.
Proof.
  intros Hs Hp. destruct Hs.
  - by apply enter_inv.
  - by apply wake_inv.
  - by eapply set_worker_inv.
  - by eapply set_worker_inv.
  - by apply worker_died_inv.
  - by apply worker_destructed_inv.
Qed.

(** *** The clients *)

Lemma asleep_insert c x cs :
  (exists d, d ∈ <[c := x]> cs /\ c_asleep d = true) ->
  c_asleep x = true \/ exists d, d ∈ cs /\ c_asleep d = true.
Proof.
  intros (d & [j Hd]%list_elem_of_lookup & Ha). apply list_lookup_insert_Some in Hd as [(_ & -> & _)|[_ Hd]]; [by left|].
  right. exists d. split; [by eapply list_elem_of_lookup_2|done].
Qed.

Lemma client_inv c x p ws cs :
  pinv (mkSys p ws cs) -> Forall op_ok (c_ops x) ->
  (c_asleep x = true -> sum_of live ws = 0 \/ sum_of sleeping ws < sum_of live ws) ->
  pinv (mkSys p ws (<[c := x]> cs)).
Proof.
  intros [I1 I2 I3 I4 I5 I6 I7 I8 I9] Hx Ha. split; try done.
  - intros [Hc|Hc]%asleep_insert; simpl in *; [by apply Ha|by apply I8].
  - simpl in *. by apply Forall_insert.
Qed.

Lemma schedule_inv pick t p ws cs :
  pick_ok pick ws -> pinv (mkSys p ws cs) ->
  let r := schedule pick t p ws in pinv (mkSys r.1.2 r.2 cs).
Proof.
  intros Hp [I1 I2 I3 I4 I5 I6 I7 I8 I9]. pose proof (weights ws) as Hw. unfold schedule. simpl in *.
  destruct (push_law t (m_scheduler p)) as [Hok Hc]. destruct (push t (m_scheduler p)) as [ok q]. simpl in *. subst ok.
  apply Permutation_length in Hc. simpl in Hc. unfold notify_one, queue in *. simpl in *.
  destruct (decide (0 < sum_of sleeping ws)) as [Hpos|Hpos].
  - assert (Hs : WSleep ∈ ws) by (apply sum_pos in Hpos as (x & Hx & Hf); by destruct x).
    rewrite (Hp Hs). split; simpl; rewrite ?(sum_insert _ _ _ _ _ (Hp Hs)); unfold queue; simpl; try done; try lia.
  - assert (E : match ws !! pick with Some WSleep => <[pick := WWoken]> ws | _ => ws end = ws).
    { destruct (ws !! pick) as [[]|] eqn:E; try done. apply list_elem_of_lookup_2 in E.
      apply (sum_elem sleeping) in E; [simpl in E; lia|by intros []]. }
    simpl. rewrite E. split; simpl; unfold queue; simpl; try done; lia.
Qed.

Lemma must_wait_asleep thr s :
  pinv s -> 0 <= thr -> must_wait thr (t_pool s) = true ->
  sum_of live (t_ws s) = 0 \/ sum_of sleeping (t_ws s) < sum_of live (t_ws s).
Proof.
  intros [I1 I2 I3 I4 I5 I6 I7 I8 I9] Ht Hm. pose proof (weights (t_ws s)) as Hw.
  assert (Hor : 0 < m_active_worker_count (t_pool s) \/ (0 < length (queue s))%nat).
  { unfold must_wait in Hm. destruct (Z.eqb_spec thr 0).
    - apply orb_true_iff in Hm as [Hm|Hm]; apply negb_true_iff in Hm; zbool; [lia|].
      right. destruct (queue s) eqn:E; [|simpl; lia]. apply queue_nil in E. congruence.
    - rewrite size_law in Hm. zbool. fold (queue s) in Hm.
      destruct (decide (0 < m_active_worker_count (t_pool s))); [by left|right].
      destruct (queue s); [|simpl; lia]. simpl in Hm. unfold add64, u64 in Hm.
      rewrite Z.mod_small in Hm by lia. lia. }
  destruct Hor; [lia|]. destruct (decide (0 < sum_of sleeping (t_ws s))); lia.
Qed.

Lemma terminate_inv p ws cs :
  pinv (mkSys p ws cs) -> let r := terminate_all_workers p ws in pinv (mkSys r.1 r.2 cs).
Proof.
  intros [I1 I2 I3 I4 I5 I6 I7 I8 I9]. pose proof (weights ws) as Hw. simpl in *.
  split; simpl; rewrite ?sum_notify; unfold queue in *; simpl in *; try done;
    first [lia|unfold is_u64; lia|intros Hc; specialize (I8 Hc); lia].
Qed.

Lemma run_op_inv pick avail c op rest s :
  t_cs s !! c = Some (mkClient (op :: rest) false) -> pick_ok pick (t_ws s) -> pinv s ->
  pinv (run_op pick avail c op rest s).
Proof.
  intros Hc Hpick Hp. pose proof (pi_ops _ _ Hp) as Hops. rewrite Forall_lookup in Hops. specialize (Hops c _ Hc).
  simpl in Hops. apply Forall_cons in Hops as [Hop Hrest]. pose proof (weights (t_ws s)) as Hw.
  destruct s as [p ws cs]. unfold run_op. destruct op as [t| |n|thr|thr|wait|]; simpl in *.
  - pose proof (schedule_inv pick t p ws cs Hpick Hp) as Hs. destruct (schedule pick t p ws) as [[ok p'] ws'].
    by apply client_inv.
  - apply client_inv; [|done|done]. destruct Hp as [I1 I2 I3 I4 I5 I6 I7 I8 I9].
    split; try done. unfold queue. simpl. rewrite clear_law. simpl in *. lia.
  - pose proof (resize_spec avail n p ws cs 0 Hp ltac:(lia) Hop) as Hs. destruct (resize avail n p ws) as [[ok p'] ws'].
    by apply client_inv.
  - destruct (must_wait thr p) eqn:E; apply client_inv; try done; [by apply Forall_cons|].
    intros _. by apply (must_wait_asleep thr _ Hp Hop).
  - destruct (must_wait thr p) eqn:E; apply client_inv; try done; [by apply Forall_cons|].
    intros _. by apply (must_wait_asleep thr _ Hp Hop).
  - pose proof (terminate_inv p ws cs Hp) as Ht. simpl in Ht. apply client_inv; [done| |done].
    simpl. destruct wait; [by apply Forall_cons|done].
  - destruct (Z.ltb_spec 0 (m_active_worker_count p)).
    + apply client_inv; [done|by apply Forall_cons|]. intros _. pose proof (pi_active _ _ Hp). simpl in *. lia.
    + apply client_inv; [|done|done]. by apply set_terminated_inv.
Qed.

Lemma cstep_inv s es s' : cstep s es s' -> pinv s -> pinv s'.
Proof.
  intros [pick avail c op rest Hc Hpick|c thr rest Hc] Hp; [by apply run_op_inv|].
  pose proof (pi_ops _ _ Hp) as Hops. rewrite Forall_lookup in Hops. specialize (Hops c _ Hc).
  simpl in Hops. apply Forall_cons in Hops as [_ Hrest]. destruct s. by apply client_inv.
Qed.

Lemma sstep_inv ends s es s' : sstep ends s es s' -> pinv s -> pinv s'.
Proof. intros [Hs|Hs]; [by eapply wstep_inv|by eapply cstep_inv]. Qed.

Lemma tstep_inv ends s es s' : tstep ends s es s' -> pinv s -> pinv s'.
Proof.
  intros [es1 s1 Hs|ops Hops|i Hi|c ops Hc] Hp.
  - by eapply sstep_inv.
  - destruct Hp as [I1 I2 I3 I4 I5 I6 I7 I8 I9]. split; try done.
    + simpl. intros (c & [Hc| ->%list_elem_of_singleton]%elem_of_app & Ha); [|done]. apply I8. by exists c.
    + simpl. apply Forall_app. split; [done|]. by apply Forall_singleton.
  - by eapply set_worker_inv.
  - pose proof (pi_ops _ _ Hp) as Hops. rewrite Forall_lookup in Hops. specialize (Hops c _ Hc).
    destruct s. by apply client_inv.
Qed.

Lemma thread_pool_inv avail n : is_u64 n -> pinv (thread_pool avail n).
Proof.
  intros Hn. unfold thread_pool.
  assert (Hz : pinv (mkSys pool_new [] [])).
  { split; simpl; unfold queue; simpl; rewrite ?clear_law; simpl; try done; try (unfold is_u64; lia). }
  pose proof (resize_spec avail n pool_new [] [] 0 Hz ltac:(simpl; lia) Hn) as Hr.
  by destruct (resize avail n pool_new []) as [[ok p] ws].
Qed.

Lemma treach_inv ends avail n es s : treach ends avail n es s -> is_u64 n -> pinv s.
Proof. intros Hr Hn. induction Hr; [by apply thread_pool_inv|by eapply tstep_inv]. Qed.

(** More tasks that end, more runs. *)
Lemma treach_mono (ends ends' : T -> Prop) avail n es s :
  (forall t, ends t -> ends' t) -> treach ends avail n es s -> treach ends' avail n es s.
Proof.
  intros He. induction 1 as [|es s es' s' _ IH Hs]; [constructor|]. econstructor; [exact IH|].
  destruct Hs as [es1 s1 [Hw|Hc]|ops Hops|i Hi|c ops Hc]; [|by apply T_threads; right|by constructor..].
  apply T_threads. left. destruct Hw; by constructor; auto.
Qed.

(** ** The tasks *)

(** The events as a run of the scheduler: what is pushed, that a started task is the
    one on top, and what a [clear] removes. *)
Inductive srun (q : sched) : list (event T) -> sched -> Prop :=
| srun_nil : srun q [] q
| srun_scheduled es q' t : srun q es q' -> srun q (es ++ [EScheduled t]) (push t q').2
| srun_started es q' t : srun q es q' -> top q' = Some t -> srun q (es ++ [EStarted t]) (pop q')
| srun_cleared es q' : srun q es q' -> srun q (es ++ [ECleared]) (tasks_clear q')
| srun_done es q' t : srun q es q' -> srun q (es ++ [EDone t]) q'
| srun_threw es q' t : srun q es q' -> srun q (es ++ [EThrew t]) q'.

Lemma srun_app q es q' es' q'' : srun q es q' -> srun q' es' q'' -> srun q (es ++ es') q''.
Proof.
  intros H1 H2. induction H2; rewrite ?app_nil_r, ?(app_assoc es); [done|by constructor..].
Qed.

Definition starts (es : list (event T)) : list T :=
  omap (fun e => match e with EStarted t => Some t | _ => None end) es.
Definition finished (es : list (event T)) : list T :=
  omap (fun e => match e with EDone t | EThrew t => Some t | _ => None end) es.

Definition run_of (x : wphase T) : list T := match x with WRun t => [t] | _ => [] end.
Definition running ws : list T := flat_map run_of ws.

Lemma running_insert i x y ws :
  ws !! i = Some x -> run_of x ++ running (<[i := y]> ws) ≡ₚ run_of y ++ running ws.
Proof.
  revert i. induction ws as [|z ws IH]; intros [|i] E; simplify_eq/=.
  - unfold running. simpl. rewrite !app_assoc, (Permutation_app_comm (run_of x)). done.
  - unfold running in *. simpl. rewrite !app_assoc, (Permutation_app_comm (run_of x)), (Permutation_app_comm (run_of y)).
    rewrite <- !app_assoc. by rewrite (IH i E).
Qed.

Lemma running_same i x y ws : ws !! i = Some x -> run_of x = run_of y -> running (<[i := y]> ws) ≡ₚ running ws.
Proof. intros Hi E. pose proof (running_insert i x y ws Hi) as Hp. rewrite E in Hp. by apply Permutation_app_inv_l in Hp. Qed.

Lemma running_notify ws : running (notify_all ws) = running ws.
Proof. unfold running, notify_all. induction ws as [|x ws IH]; [done|]. simpl. rewrite IH. by destruct x. Qed.

Lemma running_notify_one pick ws : running (notify_one pick ws) ≡ₚ running ws.
Proof. unfold notify_one. destruct (ws !! pick) as [[]|] eqn:E; try done. by eapply running_same. Qed.

Lemma resize_tasks avail n p ws :
  m_scheduler (resize avail n p ws).1.2 = m_scheduler p /\ running (resize avail n p ws).2 = running ws.
Proof.
  unfold resize. destruct (m_terminate_all_workers p); [done|].
  destruct (_ <=? _); [|split; [done|apply running_notify]].
  change (m_scheduler p) with (m_scheduler (set_target n p)). generalize (set_target n p). clear p. intros p.
  revert p ws. induction avail as [|avail IH]; intros p ws; simpl; destruct (_ <? _); try done.
  destruct (IH (set_counts (add64 (m_worker_count p) 1) (add64 (m_active_worker_count p) 1) p) (ws ++ [WEnter])) as [-> ->].
  split; [done|]. unfold running. rewrite flat_map_app. simpl. by rewrite app_nil_r.
Qed.

(** What a step does to the tasks. *)
Definition tasks_step s (es : list (event T)) s' : Prop :=
  srun (m_scheduler (t_pool s)) es (m_scheduler (t_pool s')) /\
  starts es ++ running (t_ws s) ≡ₚ finished es ++ running (t_ws s').

Lemma srun_one q e q' : (forall es, srun q es q -> srun q (es ++ [e]) q') -> srun q [e] q'.
Proof. intros Hs. apply (Hs []). constructor. Qed.

Lemma fetch_tasks i x s :
  t_ws s !! i = Some x -> run_of x = [] -> looking x = 1 -> tasks_step s (started i (fetch i s)) (fetch i s).
Proof.
  intros Hi Hx Hl. assert (Hlt : (i < length (t_ws s))%nat) by by eapply lookup_lt_Some.
  unfold fetch. destruct (tasks_empty _) eqn:Ee.
  - destruct (too_many _); unfold started; simpl; rewrite list_lookup_insert_eq by done; simpl;
      (split; [constructor|]); simpl; by rewrite (running_same i x) by done.
  - destruct (top_law (m_scheduler (t_pool s))) as (t & Ht & _).
    { intros E. apply empty_law in E. congruence. }
    rewrite Ht. unfold started. simpl. rewrite list_lookup_insert_eq by done. split; simpl.
    + apply srun_one. intros es Hs. by apply srun_started.
    + pose proof (running_insert i x (WRun t) (t_ws s) Hi) as Hr. rewrite Hx in Hr. simpl in Hr. by rewrite Hr.
Qed.

Lemma worker_gone_tasks i x s :
  t_ws s !! i = Some x -> run_of x = [] ->
  m_scheduler (worker_gone (t_pool s)) = m_scheduler (t_pool s) /\ running (<[i := WGone]> (t_ws s)) ≡ₚ running (t_ws s).
Proof. intros Hi Hx. split; [done|]. by eapply running_same. Qed.

Lemma wstep_tasks ends s es s' : wstep ends s es s' -> tasks_step s es s'.
Proof.
  intros [i Hi|i Hi|i t Hi _|i t Hi _|avail i Hi|i Hi].
  - unfold enter. destruct (too_many _) eqn:E; [|by apply (fetch_tasks i WEnter)].
    unfold started. simpl. rewrite list_lookup_insert_eq by (by eapply lookup_lt_Some).
    split; [constructor|]. simpl. by rewrite (running_same i WEnter).
  - apply (fetch_tasks i WWoken (mkSys (more_active (t_pool s)) (t_ws s) (t_cs s))); done.
  - split; [apply srun_one; intros; by constructor|]. simpl. by rewrite <- (running_insert i (WRun t) WEnter _ Hi).
  - split; [apply srun_one; intros; by constructor|]. simpl. by rewrite <- (running_insert i (WRun t) WDying _ Hi).
  - pose proof (running_same i WDying WGone (t_ws s) Hi eq_refl) as Hr.
    unfold worker_died_unexpectedly. destruct (m_terminate_all_workers _); [split; [constructor|by simpl; rewrite Hr]|].
    unfold policy_worker_died. destruct (resize_tasks avail (add64 (m_worker_count (worker_gone (t_pool s))) 1)
      (worker_gone (t_pool s)) (<[i := WGone]> (t_ws s))) as [Hq Hw].
    destruct (resize _ _ _ _) as [[ok p'] ws'] eqn:Er. simpl in *. split; simpl; [rewrite Hq; constructor|by rewrite Hw, Hr].
  - unfold worker_destructed. destruct (m_terminate_all_workers _); (split; [constructor|simpl; by rewrite (running_same i WExit)]).
Qed.

Lemma cstep_tasks s es s' : cstep s es s' -> tasks_step s es s'.
Proof.
  intros [pick avail c op rest Hc _|c thr rest Hc]; [|split; [constructor|done]].
  destruct op as [t| |n|thr|thr|wait|]; simpl.
  - unfold schedule. destruct (push_law t (m_scheduler (t_pool s))) as [Hok _].
    destruct (push t (m_scheduler (t_pool s))) as [ok q] eqn:Ep. simpl in Hok. subst ok. split; simpl.
    + replace q with (push t (m_scheduler (t_pool s))).2 by by rewrite Ep. apply srun_one. intros. by apply srun_scheduled.
    + by rewrite running_notify_one.
  - split; [apply srun_one; intros; by apply srun_cleared|done].
  - destruct (resize_tasks avail n (t_pool s) (t_ws s)) as [Hq Hw].
    destruct (resize avail n (t_pool s) (t_ws s)) as [[ok p'] ws']. simpl in *. split; simpl; [rewrite Hq; constructor|by rewrite Hw].
  - destruct (must_wait _ _); split; try constructor; done.
  - destruct (must_wait _ _); split; try constructor; done.
  - split; [constructor|]. simpl. by rewrite running_notify.
  - destruct (_ <? _); split; try constructor; done.
Qed.

Lemma tstep_tasks ends s es s' : tstep ends s es s' -> tasks_step s es s'.
Proof.
  intros [es1 s1 [Hs|Hs]|ops _|i Hi|c ops Hc].
  - by eapply wstep_tasks.
  - by eapply cstep_tasks.
  - split; [constructor|done].
  - split; [constructor|]. simpl. by rewrite (running_same i WSleep).
  - split; [constructor|done].
Qed.

Lemma treach_tasks ends avail n es s :
  treach ends avail n es s ->
  srun (tasks_clear sched_new) es (m_scheduler (t_pool s)) /\ starts es ≡ₚ finished es ++ running (t_ws s).
Proof.
  induction 1 as [|es s es' s' _ [IH1 IH2] Hs].
  - unfold thread_pool. destruct (resize_tasks avail n pool_new []) as [Hq Hw].
    destruct (resize avail n pool_new []) as [[ok p] ws]. simpl in *. rewrite Hq, Hw. split; [constructor|done].
  - apply tstep_tasks in Hs as [H1 H2]. split; [by eapply srun_app|].
    unfold starts, finished in *. rewrite !omap_app, IH2, <- app_assoc. rewrite <- app_assoc.
    rewrite <- H2. rewrite !app_assoc. rewrite <- !(app_assoc (omap _ es)). f_equiv. apply Permutation_app_comm.
Qed.

End spec.
