(* ===== verification/PoolLive.v ===== *)
(** The theorems on the thread pool: exact counters, the order of the tasks, what a
    returned [wait] means, that the threads come to rest and that nothing is left
    undone when they do. *)
From S2P Require Import Prelude ThreadPool PoolSpec.
From Stdlib Require Import ZArith Lia.

Section live.
Context {T : Type} `{Scheduler T}.
Implicit Types (p : pool_core T) (ws : list (wphase T)) (s : tsys T) (cs : list (client T)) (t : T) (es : list (event T)).

(** C14: in every reachable state of a pool, whatever its clients
    call and whichever tasks throw, [size] is the number of worker threads and
    [active] the number of those that are not waiting for a task; neither counter has
    wrapped around; no worker sleeps while there are more than wanted, and after
    [terminate_all_workers] none are wanted. *)
Theorem pool_counts_exact ends avail n es s :
  is_u64 n -> treach ends avail n es s ->
  size (t_pool s) = sum_of live (t_ws s) /\ active (t_pool s) = sum_of awake (t_ws s) /\
  0 <= active (t_pool s) <= size (t_pool s) /\ size (t_pool s) < 2 ^ 64 /\
  (m_target_worker_count (t_pool s) < size (t_pool s) -> WSleep ∉ t_ws s) /\
  (m_terminate_all_workers (t_pool s) = true -> m_target_worker_count (t_pool s) = 0).
Proof.
  intros Hn Hr. pose proof (treach_inv ends avail n es s Hr Hn) as [I1 I2 I3 I4 I5 I6 I7 I8 I9].
  pose proof (weights (t_ws s)) as Hw. unfold size, active. rewrite I1, I2. split_and!; try lia; [|done].
  intros Hm Hs. apply (sum_elem sleeping) in Hs; [simpl in Hs; specialize (I5 Hm); lia|by intros []].
Qed.

(** *** What a returned wait means *)

Lemma idle_running ws : sum_of awake ws = 0 -> running ws = [].
Proof.
  induction ws as [|x ws IH]; [done|]. simpl. intros Hs.
  pose proof (sum_nonneg awake ws (ltac:(by intros []))). unfold running in *. simpl.
  destruct x; simpl in *; try lia; apply IH; lia.
Qed.


(** *** Termination *)

Definition weight (x : wphase T) : Z :=
  match x with WSleep | WGone => 0 | WExit => 1 | WWoken => 2 | WEnter => 3 | WDying => 4 | WRun _ => 5 end.
Definition work s : Z := 6 * Z.of_nat (length (queue s)) + sum_of weight (t_ws s).

Definition op_weight (op : cop T) : Z := match op with OTerm _ => 2 | _ => 1 end.
Definition calls cs : Z := sum_of (fun c => sum_of op_weight (c_ops c)) cs.
Definition awake_clients cs : Z := sum_of (fun c => if c_asleep c then 0 else 1) cs.

Lemma weight_nonneg x : 0 <= weight x.
Proof. by destruct x. Qed.

Lemma op_weight_nonneg ops : 0 <= sum_of op_weight ops.
Proof. apply sum_nonneg. by intros []. Qed.

Lemma calls_notify cs : calls (notify_clients cs) = calls cs.
Proof. unfold calls, notify_clients. induction cs as [|c cs IH]; [done|]. simpl. by rewrite IH. Qed.

Lemma fetch_work i x s :
  t_ws s !! i = Some x -> looking x = 1 -> work (fetch i s) < work s /\ calls (t_cs (fetch i s)) = calls (t_cs s).
Proof.
  intros Hi Hx. assert (Hwx : 2 <= weight x) by (by destruct x). unfold fetch, work, queue.
  destruct (tasks_empty _) eqn:Ee.
  - destruct (too_many _); simpl; rewrite (sum_insert _ _ _ _ _ Hi), ?calls_notify; simpl; split; try done; lia.
  - destruct (top_law (m_scheduler (t_pool s))) as (t & -> & Hp).
    { intros E. apply empty_law in E. congruence. }
    apply Permutation_length in Hp. simpl. rewrite (sum_insert _ _ _ _ _ Hi). simpl in *. split; [lia|done].
Qed.

Lemma resize_work avail n p ws :
  0 <= m_worker_count p -> is_u64 n -> 0 <= m_active_worker_count p <= m_worker_count p -> n = m_worker_count p + 1 ->
  sum_of weight (resize avail n p ws).2 <= sum_of weight ws + 3.
Proof.
  intros Hc Hn Ha ->. unfold resize. destruct (m_terminate_all_workers p); simpl; [lia|].
  destruct (Z.leb_spec (m_worker_count p) (m_worker_count p + 1)); [|lia].
  destruct (spawn_loop_spec avail (set_target (m_worker_count p + 1) p) ws) as (ok & p' & k & -> & _ & _ & Hk & _);
    simpl in *; [lia|done|lia|]. rewrite sum_app, sum_replicate. simpl. lia.
Qed.

Lemma wstep_work ends s es s' :
  pinv s -> wstep ends s es s' -> work s' < work s /\ calls (t_cs s') = calls (t_cs s).
Proof.
  intros Hp [i Hi|i Hi|i t Hi _|i t Hi _|avail i Hi|i Hi].
  - unfold enter. destruct (too_many _); [|by apply (fetch_work i WEnter)].
    unfold work, queue. simpl. rewrite (sum_insert _ _ _ _ _ Hi). simpl. split; [lia|done].
  - by apply (fetch_work i WWoken (mkSys (more_active (t_pool s)) (t_ws s) (t_cs s))).
  - unfold work, queue. simpl. rewrite (sum_insert _ _ _ _ _ Hi). simpl. split; [lia|done].
  - unfold work, queue. simpl. rewrite (sum_insert _ _ _ _ _ Hi). simpl. split; [lia|done].
  - destruct (worker_gone_inv i WDying s Hi (or_intror eq_refl) Hp) as (Hq & Hn & Hpos).
    pose proof (pi_bound _ _ Hp) as Hb. pose proof (pi_active _ _ Hq) as Ha. pose proof (pi_count _ _ Hq) as Hcn.
    pose proof (weights (<[i := WGone]> (t_ws s))) as Hw. cbn [t_pool t_ws] in Ha, Hcn.
    unfold worker_died_unexpectedly. destruct (m_terminate_all_workers _).
    { unfold work, queue. simpl. rewrite (sum_insert _ _ _ _ _ Hi), calls_notify. simpl. split; [lia|done]. }
    unfold policy_worker_died. rewrite Hn, u64_step by lia.
    destruct (resize_tasks avail (sum_of live (t_ws s) - 1 + 1) (worker_gone (t_pool s)) (<[i := WGone]> (t_ws s))) as [Hs _].
    pose proof (resize_work avail (sum_of live (t_ws s) - 1 + 1) (worker_gone (t_pool s)) (<[i := WGone]> (t_ws s))) as Hr.
    destruct (resize _ _ _ _) as [[ok p'] ws']. cbn [fst snd] in *. unfold work, queue. cbn [t_pool t_ws t_cs].
    rewrite Hs, calls_notify. rewrite (sum_insert _ _ _ _ _ Hi) in Hr. cbn [weight] in Hr. split; [|done].
    assert (sum_of weight ws' <= sum_of weight (t_ws s) - 4 + 0 + 3) by (apply Hr; unfold is_u64; lia).
    change (m_scheduler (worker_gone (t_pool s))) with (m_scheduler (t_pool s)). lia.
  - unfold worker_destructed, work, queue. destruct (m_terminate_all_workers _); simpl;
      rewrite (sum_insert _ _ _ _ _ Hi), calls_notify; simpl; split; try done; lia.
Qed.

Lemma cstep_work s es s' :
  cstep s es s' ->
  calls (t_cs s') < calls (t_cs s) \/
  calls (t_cs s') = calls (t_cs s) /\ work s' = work s /\ awake_clients (t_cs s') < awake_clients (t_cs s).
Proof.
  unfold calls, awake_clients.
  intros [pick avail c op rest Hc _|c thr rest Hc]; [|left; simpl; rewrite (sum_insert _ _ _ _ _ Hc); simpl; lia].
  destruct op as [t| |n|thr|thr|wait|]; simpl.
  - destruct (schedule _ _ _ _) as [[ok p'] ws']. left. simpl. rewrite (sum_insert _ _ _ _ _ Hc). simpl. lia.
  - left. rewrite (sum_insert _ _ _ _ _ Hc). simpl. lia.
  - destruct (resize _ _ _ _) as [[ok p'] ws']. left. simpl. rewrite (sum_insert _ _ _ _ _ Hc). simpl. lia.
  - destruct (must_wait _ _); [right|left]; simpl; rewrite ?(sum_insert _ _ _ _ _ Hc); simpl; try lia; split_and!; [lia|done|lia].
  - destruct (must_wait _ _); [right|left]; simpl; rewrite ?(sum_insert _ _ _ _ _ Hc); simpl; try lia; split_and!; [lia|done|lia].
  - left. rewrite (sum_insert _ _ _ _ _ Hc). destruct wait; simpl; lia.
  - destruct (_ <? _); [right|left]; simpl; rewrite ?(sum_insert _ _ _ _ _ Hc); simpl; try lia; split_and!; [lia|done|lia].
Qed.

Lemma rest_acc ends k : forall m j s,
  pinv s -> calls (t_cs s) = Z.of_nat k -> work s = Z.of_nat m -> awake_clients (t_cs s) = Z.of_nat j ->
  Acc (fun s' s => exists es, sstep ends s es s') s.
Proof.
  induction (lt_wf k) as [k _ IHk]. intros m. induction (lt_wf m) as [m _ IHm].
  intros j. induction (lt_wf j) as [j _ IHj]. intros s Hp Hk Hm Hj. constructor. intros s' [es Hs].
  pose proof (sstep_inv ends s es s' Hs Hp) as Hp'.
  assert (H0 : 0 <= calls (t_cs s') /\ 0 <= work s' /\ 0 <= awake_clients (t_cs s')).
  { split_and!.
    - apply sum_nonneg. intros c. apply op_weight_nonneg.
    - pose proof (sum_nonneg weight (t_ws s') weight_nonneg). unfold work. lia.
    - apply sum_nonneg. intros c. by destruct (c_asleep c). }
  destruct Hs as [Hs|Hs]; [apply wstep_work in Hs as [Hw Hc]; [|done]|apply cstep_work in Hs as [Hc|(Hc & Hw & Ha)]].
  - eapply (IHm (Z.to_nat (work s')) ltac:(lia) (Z.to_nat (awake_clients (t_cs s')))); [done|lia..].
  - eapply (IHk (Z.to_nat (calls (t_cs s'))) ltac:(lia) (Z.to_nat (work s')) (Z.to_nat (awake_clients (t_cs s')))); [done|lia..].
  - eapply (IHj (Z.to_nat (awake_clients (t_cs s')))); [lia|done|lia..].
Qed.

(** C15: from every reachable state the threads of the pool and its
    clients make only finitely many steps, whatever the scheduler of the system does:
    however many tasks are waiting, throw, or are still to be scheduled by the calls
    the clients have left, and however often a waiting client is woken in vain. *)
Theorem pool_comes_to_rest ends avail n es s :
  is_u64 n -> treach ends avail n es s -> Acc (fun s' s => exists es, sstep ends s es s') s.
Proof.
  intros Hn Hr. pose proof (treach_inv ends avail n es s Hr Hn) as Hp.
  apply (rest_acc ends (Z.to_nat (calls (t_cs s))) (Z.to_nat (work s)) (Z.to_nat (awake_clients (t_cs s)))); [done|..].
  - assert (0 <= calls (t_cs s)) by (apply sum_nonneg; intros c; apply op_weight_nonneg). lia.
  - pose proof (sum_nonneg weight (t_ws s) weight_nonneg). unfold work. lia.
  - assert (0 <= awake_clients (t_cs s)) by (apply sum_nonneg; intros c; by destruct (c_asleep c)). lia.
Qed.

(** *** At rest *)

Lemma pick_exists ws : exists pick, pick_ok pick ws.
Proof.
  destruct (decide (0 < sum_of sleeping ws)) as [Hs|Hs].
  - apply sum_pos in Hs as (x & [i Hi]%list_elem_of_lookup & Hf). destruct x; try done. by exists i; intros _.
  - exists O. intros Hx. apply (sum_elem sleeping) in Hx; [simpl in Hx; lia|by intros []].
Qed.

(** Where a worker can be when nothing moves. *)
Lemma rest_workers (ends : T -> Prop) s i x :
  (forall t, ends t) -> (forall es s', ~ sstep ends s es s') -> t_ws s !! i = Some x -> x = WSleep \/ x = WGone.
Proof.
  intros He Hst Hi. destruct x as [| | |t| | |]; try tauto; exfalso; eapply Hst; left.
  - by apply (W_enter _ s i).
  - by apply (W_wake _ s i).
  - by apply (W_return _ s i t); [|apply He].
  - by apply (W_exit _ s i).
  - by apply (W_die _ s O i).
Qed.

Lemma rest_counts s :
  (forall i x, t_ws s !! i = Some x -> x = WSleep \/ x = WGone) ->
  sum_of looking (t_ws s) = 0 /\ sum_of sleeping (t_ws s) = sum_of live (t_ws s) /\ sum_of awake (t_ws s) = 0.
Proof.
  intros Hr. assert (Hr' : forall x, x ∈ t_ws s -> x = WSleep \/ x = WGone)
    by (intros x [i Hi]%list_elem_of_lookup; by eapply Hr).
  clear Hr. induction (t_ws s) as [|x ws IH]; [done|]. simpl.
  destruct IH as (-> & -> & ->); [intros y Hy; apply Hr'; set_solver|].
  destruct (Hr' x) as [-> | ->]; [set_solver|done|done].
Qed.

(** C16: when every task ends, no thread of the pool or of a client
    can move any more and the pool has a worker, nothing is left to do: every task
    that was scheduled and not cleared has been run and has ended, and every client
    has returned from all its calls. No wake-up is ever lost. *)
Theorem pool_at_rest_done (ends : T -> Prop) avail n es s :
  (forall t, ends t) -> is_u64 n -> treach ends avail n es s -> (forall es' s', ~ sstep ends s es' s') ->
  0 < size (t_pool s) ->
  contents (m_scheduler (t_pool s)) = [] /\ starts es ≡ₚ finished es /\ active (t_pool s) = 0 /\
  forall c x, t_cs s !! c = Some x -> c_ops x = [].
Proof.
  intros He Hn Hr Hst Hsz. pose proof (treach_inv _ avail n es s Hr Hn) as [I1 I2 I3 I4 I5 I6 I7 I8 I9].
  apply treach_tasks in Hr as [_ Hrun].
  destruct (rest_counts s (fun i x Hi => rest_workers ends s i x He Hst Hi)) as (Hl & Hs & Ha).
  unfold size, active in *. specialize (I6 ltac:(lia)). unfold queue in I6.
  rewrite (idle_running (t_ws s) Ha), app_nil_r in Hrun. split_and!; [|done|lia|].
  - destruct (contents _); [done|]. simpl in I6. lia.
  - intros c [ops asleep] Hc. simpl. destruct asleep.
    { exfalso. assert (Hx : exists c, c ∈ t_cs s /\ c_asleep c = true)
        by (eexists; split; [by eapply list_elem_of_lookup_2|done]). specialize (I8 Hx). lia. }
    destruct ops as [|op rest]; [done|]. exfalso. destruct (pick_exists (t_ws s)) as [pick Hpick].
    eapply Hst. right. by apply (C_call s pick O c op rest).
Qed.

End live.

(** ** The order of the tasks *)

(** The specification of a first-in-first-out pool: the events as operations on a
    queue of the waiting tasks. *)
Inductive fifo_run {T : Type} : list (event T) -> list T -> Prop :=
| fifo_nil : fifo_run [] []
| fifo_scheduled es q t : fifo_run es q -> fifo_run (es ++ [EScheduled t]) (q ++ [t])
| fifo_started es q t : fifo_run es (t :: q) -> fifo_run (es ++ [EStarted t]) q
| fifo_cleared es q : fifo_run es q -> fifo_run (es ++ [ECleared]) []
| fifo_done es q t : fifo_run es q -> fifo_run (es ++ [EDone t]) q
| fifo_threw es q t : fifo_run es q -> fifo_run (es ++ [EThrew t]) q.

Lemma fifo_srun {T} (es : list (event T)) (q : @sched T (fifo_scheduler T)) :
  srun (H := fifo_scheduler T) [] es q -> fifo_run es q.
Proof.
  remember ([] : @sched T (fifo_scheduler T)) as q0 eqn:E0.
  induction 1 as [| |es q' t Hs IH Ht| | |]; subst; try by econstructor; eauto.
  destruct q' as [|t' q']; [done|]. simpl in Ht. injection Ht as ->. by constructor.
Qed.

(** C17: the pools of the store are queues. Over any run, a task is
    started when it is the first of the waiting ones, so tasks start in the order
    they were scheduled in and each at most once, and the tasks waiting are those
    scheduled since, less what [clear] removed; the tasks started are those that have
    ended and those some worker is in. *)
Theorem fifo_pool_in_order {T} ends avail n es (s : @tsys T (fifo_scheduler T)) :
  treach (H := fifo_scheduler T) ends avail n es s ->
  fifo_run es (m_scheduler (t_pool s)) /\ starts es ≡ₚ finished es ++ running (t_ws s).
Proof. intros Hr. apply treach_tasks in Hr as [Hs Hr]. split; [by apply fifo_srun|done]. Qed.
