(* ===== verification/PoolExamples.v ===== *)
(** Runs of thread pools: the steps as a function, so that a run is a list of actions
    that evaluates, the witnesses of the pool's theorems, and what the pool does in
    the corners of its interface. *)
From S2P Require Import Prelude ThreadPool PoolSpec PoolLive.
From Stdlib Require Import ZArith Lia.

(** ** Executable runs *)

Section actions.
Context {T : Type} `{Scheduler T} (ends : T -> bool).

Inductive action : Type :=
| AEnter (i : nat) | AWake (i : nat) | AReturn (i : nat) | AThrow (i : nat) | ADie (avail i : nat) | AExit (i : nat)
| ACall (pick avail c : nat) | ATimeout (c : nat) | AClient (ops : list (cop T)) | ASpurious (i : nat).

Definition is_sleep (x : wphase T) : bool := match x with WSleep => true | _ => false end.
Definition pick_okb (pick : nat) (ws : list (wphase T)) : bool :=
  negb (existsb is_sleep ws) || match ws !! pick with Some WSleep => true | _ => false end.
Definition op_okb (op : cop T) : bool :=
  match op with
  | OResize n => (0 <=? n) && (n <? 2 ^ 64)
  | OWait n | OTimed n => 0 <=? n
  | _ => true
  end.

Definition act (a : action) (s : tsys T) : option (list (event T) * tsys T) :=
  match a with
  | AEnter i => match t_ws s !! i with Some WEnter => Some (started i (enter i s), enter i s) | _ => None end
  | AWake i => match t_ws s !! i with Some WWoken => Some (started i (wake i s), wake i s) | _ => None end
  | AReturn i =>
      match t_ws s !! i with
      | Some (WRun t) => if ends t then Some ([EDone t], set_worker i WEnter s) else None
      | _ => None
      end
  | AThrow i =>
      match t_ws s !! i with
      | Some (WRun t) => if ends t then Some ([EThrew t], set_worker i WDying s) else None
      | _ => None
      end
  | ADie avail i =>
      match t_ws s !! i with Some WDying => Some ([], worker_died_unexpectedly avail i s) | _ => None end
  | AExit i => match t_ws s !! i with Some WExit => Some ([], worker_destructed i s) | _ => None end
  | ACall pick avail c =>
      match t_cs s !! c with
      | Some (mkClient (op :: rest) false) =>
          if pick_okb pick (t_ws s) then Some (op_events op, run_op pick avail c op rest s) else None
      | _ => None
      end
  | ATimeout c =>
      match t_cs s !! c with
      | Some (mkClient (OTimed _ :: rest) true) => Some ([], set_client c (mkClient rest false) s)
      | _ => None
      end
  | AClient ops =>
      if forallb op_okb ops then Some ([], mkSys (t_pool s) (t_ws s) (t_cs s ++ [mkClient ops false])) else None
  | ASpurious i => match t_ws s !! i with Some WSleep => Some ([], set_worker i WWoken s) | _ => None end
  end.

Fixpoint acts (l : list action) (s : tsys T) : option (list (event T) * tsys T) :=
  match l with
  | [] => Some ([], s)
  | a :: l =>
      '(es, s') ← act a s;
      '(es', s'') ← acts l s';
      Some (es ++ es', s'')
  end.

Lemma pick_okb_sound pick ws : pick_okb pick ws = true -> pick_ok pick ws.
Proof.
  intros Hp Hs. apply orb_true_iff in Hp as [Hp|Hp].
  - apply negb_true_iff in Hp. rewrite (proj2 (existsb_exists _ _)) in Hp; [done|].
    exists WSleep. split; [by apply list_elem_of_In|done].
  - by destruct (ws !! pick) as [[]|].
Qed.

Lemma op_okb_sound op : op_okb op = true -> op_ok op.
Proof. destruct op; simpl; unfold is_u64; intros; zbool; lia. Qed.

Lemma act_sound a s es s' : act a s = Some (es, s') -> tstep (fun t => ends t = true) s es s'.
Proof.
  intros Ha. destruct a as [i|i|i|i|avail i|i|pick avail c|c|ops|i]; simpl in Ha.
  - destruct (t_ws s !! i) as [[]|] eqn:E; simplify_eq. by apply T_threads; left; constructor.
  - destruct (t_ws s !! i) as [[]|] eqn:E; simplify_eq. by apply T_threads; left; constructor.
  - destruct (t_ws s !! i) as [[| | |t| | |]|] eqn:E; try done. destruct (ends t) eqn:Et; simplify_eq.
    by apply T_threads; left; constructor.
  - destruct (t_ws s !! i) as [[| | |t| | |]|] eqn:E; try done. destruct (ends t) eqn:Et; simplify_eq.
    by apply T_threads; left; constructor.
  - destruct (t_ws s !! i) as [[]|] eqn:E; simplify_eq. by apply T_threads; left; constructor.
  - destruct (t_ws s !! i) as [[]|] eqn:E; simplify_eq. by apply T_threads; left; constructor.
  - destruct (t_cs s !! c) as [[[|op rest] []]|] eqn:E; try done.
    destruct (pick_okb _ _) eqn:Ep; simplify_eq. apply pick_okb_sound in Ep. by apply T_threads; right; constructor.
  - destruct (t_cs s !! c) as [[[|[] rest] []]|] eqn:E; simplify_eq. apply T_threads; right. by eapply C_timeout.
  - destruct (forallb op_okb ops) eqn:E; simplify_eq. apply T_client.
    apply Forall_forall. intros op Hop. apply op_okb_sound. rewrite forallb_forall in E.
    apply E. by apply list_elem_of_In.
  - destruct (t_ws s !! i) as [[]|] eqn:E; simplify_eq. by apply T_spurious.
Qed.

Lemma acts_sound avail n l es s es' s' :
  treach (fun t => ends t = true) avail n es s -> acts l s = Some (es', s') ->
  treach (fun t => ends t = true) avail n (es ++ es') s'.
Proof.
  revert es s es'. induction l as [|a l IH]; intros es s es' Hr Ha; simpl in Ha.
  - injection Ha as <- <-. by rewrite app_nil_r.
  - destruct (act a s) as [[e1 s1]|] eqn:E1; simpl in Ha; [|done].
    destruct (acts l s1) as [[e2 s2]|] eqn:E2; simpl in Ha; [|done]. injection Ha as <- <-.
    rewrite app_assoc. eapply IH; [|done]. econstructor; [done|]. by eapply act_sound.
Qed.

Lemma run_reach avail n l es s :
  acts l (thread_pool avail n) = Some (es, s) -> treach (fun t => ends t = true) avail n es s.
Proof. intros Ha. change es with ([] ++ es). eapply acts_sound; [constructor|done]. Qed.

End actions.
Arguments action : clear implicits.

(** ** A pool of one worker *)

#[local] Existing Instance fifo_scheduler.

Definition always (t : nat) : bool := true.

(** A client schedules two tasks, of which the first throws, and waits for both. *)
Definition one_worker : list (action nat) :=
  [AEnter 0; AClient [OSched 1%nat; OSched 2%nat; OWait 0]; ACall 0 0 0; ACall 0 0 0; ACall 0 0 0;
   AWake 0; AThrow 0; ADie 1 0; AEnter 1; AReturn 1; AEnter 1].

Definition after_one_worker : option (list (event nat) * tsys nat) := acts always one_worker (thread_pool 1 1).

Definition one_worker_end (ops : list (cop nat)) : tsys nat :=
  mkSys (mkPool (H := fifo_scheduler nat) 1 1 0 [] false []) [WGone; WSleep] [mkClient ops false].

Example one_worker_run :
  after_one_worker =
  Some ([EScheduled 1; EScheduled 2; EStarted 1; EThrew 1; EStarted 2; EDone 2]%nat, one_worker_end [OWait 0]).
Proof. vm_compute. reflexivity. Qed.

(** Evaluates a run of [acts] in the goal and proves that it is one. *)
Ltac pool_run l := eapply (run_reach always _ _ l); vm_compute; reflexivity.

(** Two workers, one of which is left in a task. *)
Definition busy : list (action nat) :=
  [AEnter 0; AEnter 1; AClient [OSched 7%nat; OSched 8%nat]; ACall 0 0 0; ACall 1 0 0; AWake 1; AWake 0; AReturn 0; AEnter 0].

Definition busy_end : tsys nat :=
  mkSys (mkPool (H := fifo_scheduler nat) 2 2 1 [] false []) [WSleep; WRun 7%nat] [mkClient [] false].

Lemma pool_counts_exact_witness :
  let s := busy_end in
  size (t_pool s) = sum_of live (t_ws s) /\ active (t_pool s) = sum_of awake (t_ws s) /\
  0 <= active (t_pool s) <= size (t_pool s) /\ size (t_pool s) < 2 ^ 64 /\
  (m_target_worker_count (t_pool s) < size (t_pool s) -> WSleep ∉ t_ws s) /\
  (m_terminate_all_workers (t_pool s) = true -> m_target_worker_count (t_pool s) = 0).
Proof.
  apply (pool_counts_exact (fun t => always t = true) 2 2
    [EScheduled 7; EScheduled 8; EStarted 7; EStarted 8; EDone 8]%nat); [by unfold is_u64|pool_run busy].
Defined.


Lemma pool_comes_to_rest_witness :
  Acc (fun s' s => exists es, sstep (fun t => always t = true) s es s')
    (busy_end).
Proof.
  apply (pool_comes_to_rest (fun t => always t = true) 2 2
    [EScheduled 7; EScheduled 8; EStarted 7; EStarted 8; EDone 8]%nat); [by unfold is_u64|pool_run busy].
Defined.

(** Refutes a step of a concrete state, by the cases of the step. *)
Ltac no_step :=
  let Hs := fresh "Hs" in
  intros [Hs|Hs]; inversion Hs; subst; simpl in *;
  repeat match goal with
  | E : (_ :: _) !! ?i = Some _ |- _ => destruct i; simplify_eq/=
  | E : [] !! _ = Some _ |- _ => by rewrite lookup_nil in E
  end.

(** The run of [one_worker] with the client back from its [wait] cannot go on. *)
Lemma at_rest_stuck es' (s' : tsys nat) :
  ~ sstep (fun t => always t = true) (one_worker_end []) es' s'.
Proof. no_step. Qed.

Lemma pool_at_rest_done_witness :
  let s := one_worker_end [] in
  let es := [EScheduled 1; EScheduled 2; EStarted 1; EThrew 1; EStarted 2; EDone 2]%nat in
  contents (m_scheduler (t_pool s)) = [] /\ starts es ≡ₚ finished es /\ active (t_pool s) = 0 /\
  forall c x, t_cs s !! c = Some x -> c_ops x = [].
Proof.
  apply (pool_at_rest_done (fun t => always t = true) 1 1);
    [done|by unfold is_u64|pool_run (one_worker ++ [ACall 1 0 0])|exact at_rest_stuck|done].
Defined.

Lemma fifo_pool_in_order_witness :
  let s := busy_end in
  let es := [EScheduled 7; EScheduled 8; EStarted 7; EStarted 8; EDone 8]%nat in
  fifo_run es (m_scheduler (t_pool s)) /\ starts es ≡ₚ finished es ++ running (t_ws s).
Proof. apply (fifo_pool_in_order (fun t => always t = true) 2 2); pool_run busy. Defined.

(** ** Corners *)

(** [terminate_all_workers(true)], called on a pool whose worker is idle, returns at
    once: it waits until no worker is active, and the one it has just woken is not yet
    active again. There is nothing in the list of terminated workers to join; the
    worker ends some time later. *)
Definition shut_down : list (action nat) :=
  [AEnter 0; AClient wait_for_all_tasks; ACall 0 0 0; ACall 0 0 0; ACall 0 0 0].

Example shutdown_leaves_worker :
  acts always shut_down (thread_pool 1 1) =
  Some ([], mkSys (mkPool (H := fifo_scheduler nat) 1 0 0 [] true []) [WWoken] [mkClient [] false]).
Proof. vm_compute. reflexivity. Qed.

(** A pool of two shrunk to one while both workers are about to look for a task: each
    sees one worker too many and ends, and none is left. The task scheduled next is
    never started. *)
Definition shrink : list (action nat) :=
  [AClient [OResize 1; OSched 5%nat; OWait 0]; ACall 0 0 0; AEnter 0; AEnter 1; AExit 0; AExit 1; ACall 0 0 0; ACall 0 0 0].

Definition shrunk : tsys nat :=
  mkSys (mkPool (H := fifo_scheduler nat) 0 1 0 [5%nat] false []) [WGone; WGone] [mkClient [OWait 0] true].

Lemma shrunk_stuck es' (s' : tsys nat) : ~ sstep (fun t => always t = true) shrunk es' s'.
Proof. no_step. Qed.

Example shrink_loses_all :
  treach (fun t => always t = true) 2 2 [EScheduled 5%nat] shrunk /\
  (forall es' s', ~ sstep (fun t => always t = true) shrunk es' s').
Proof. split; [pool_run shrink|exact shrunk_stuck]. Qed.

(** A task that throws while the pool is to shrink undoes the request:
    [static_size] asks for one worker more than there are left. *)
Example throw_undoes_shrink :
  let l := [AClient [OSched 1%nat; OResize 1]; ACall 0 0 0; AEnter 0; ACall 0 0 0; AThrow 0; ADie 1 0] in
  (acts always l (thread_pool 2 2)) = Some ([EScheduled 1; EStarted 1; EThrew 1]%nat,
    mkSys (mkPool (H := fifo_scheduler nat) 2 2 2 [] false []) [WGone; WEnter; WEnter] [mkClient [] false]).
Proof. vm_compute. reflexivity. Qed.

(** [clear] wakes nobody. A client that waits for at most one task, when one is
    running and two are waiting, sleeps on when the two are cleared, until the one
    that runs has ended. *)
Example clear_wakes_nobody :
  let l := [AClient [OSched 1%nat; OSched 2%nat; OSched 3%nat; OWait 1]; ACall 0 0 0; ACall 0 0 0; ACall 0 0 0; AEnter 0; ACall 0 0 0;
            AClient [OClear]; ACall 0 0 1] in
  exists es s, acts always l (thread_pool 1 1) = Some (es, s) /\ t_cs s !! 0%nat = Some (mkClient [OWait 1] true) /\
    must_wait 1 (t_pool s) = false.
Proof. do 2 eexists. split; [vm_compute; reflexivity|]. split; reflexivity. Qed.
