(* ===== verification/Plugin.v ===== *)
(** Model of lib/MessageStorePlugin.cpp, the front end that the broker talks to, and
    of the interface in lib/StorageProvider.h between it and a storage provider.

    The provider is a class: what each method returns and what it does to the
    provider's state, given what its environment answers during the call. The plugin
    keeps the providers that have announced themselves and an iterator to the chosen
    one. Using that iterator when none is chosen is undefined. *)
From S2P Require Import Prelude Format Jerrno Bdb Framing TxnCtxt Posix Jdir IdSequence PidTracker LogFormat LogExtract AsyncLog.
From S2P Require Import Journal Provider Config.
From Stdlib Require Import ZArith Lia.

(** ** lib/StorageProvider.h *)

Inductive TplStatus : Type := NONE | ADDING | REMOVING.
#[export] Instance TplStatus_eq_dec : EqDecision TplStatus.
Proof. solve_decision. Defined.

(** [QueueEntry]: a queue on which a message is, or is about to be put or taken off by
    the prepared transaction [xid]. *)
Record QueueEntry := mkQE { queueId : Z; tplStatus : TplStatus; qe_xid : string }.

Definition queue_entry (id : Z) : QueueEntry := mkQE id NONE "".

(** [QueueEntry::operator==] *)
Definition entry_eqb (a b : QueueEntry) : bool :=
  if negb (queueId a =? queueId b) then false
  else if bool_decide (tplStatus a = NONE) && bool_decide (tplStatus b = NONE) then true
  else bool_decide (qe_xid a = qe_xid b).

(** A queue and a message as the store sees them: the queue's external store is the
    key of its journal. *)
Record PQueue := mkPQ { pq_obj : Persistable; pq_store : option Z }.
Record PMsg := mkPM { pm_id : Z; pm_released : bool; pm_msg : Message }.

Definition MessageMap : Type := gmap Z (list byte * list byte).
Definition MessageQueueMap : Type := gmap Z (list QueueEntry).

(** The methods of a provider. [None] is a call that does not come back to the plugin
    with one of the exceptions of [exn]: it waits, or the memory is exhausted. *)
Class StorageProvider `{Framing} (Env St : Type) := {
  sp_activate : St -> St;
  sp_initialize : St -> St;
  sp_create_queue : Env -> PQueue -> St -> result PQueue * St;
  sp_destroy_queue : Env -> PQueue -> St -> result unit * St;
  sp_create_exchange : Env -> Persistable -> St -> result Persistable * St;
  sp_destroy_exchange : Env -> Persistable -> St -> result unit * St;
  sp_bind : Env -> Persistable -> PQueue -> string -> FieldTable -> St -> result unit * St;
  sp_unbind : Env -> Persistable -> PQueue -> string -> FieldTable -> St -> result unit * St;
  sp_create_config : Env -> Persistable -> St -> result Persistable * St;
  sp_destroy_config : Env -> Persistable -> St -> result unit * St;
  sp_stage : Env -> PMsg -> St -> result unit * St;
  sp_destroy_msg : Env -> PMsg -> St -> result unit * St;
  sp_appendContent : Env -> PMsg -> list byte -> St -> result unit * St;
  sp_loadContent : Env -> PQueue -> PMsg -> list byte -> Z -> Z -> St -> option (result (list byte) * St);
  sp_enqueue : Env -> PMsg -> PQueue -> St -> result PMsg * St;
  sp_dequeue : Env -> PMsg -> PQueue -> St -> result unit * St;
  sp_flush : Env -> PQueue -> St -> result unit * St;
  sp_outstandingQueueAIO : PQueue -> St -> result Z * St;
  sp_begin : St -> result unit * St;
  sp_begin_xid : string -> St -> result unit * St;
  sp_prepare : St -> result unit * St;
  sp_commit : St -> result unit * St;
  sp_abort : St -> result unit * St;
  sp_collectPreparedXids : St -> result (gset string) * St;
  sp_recoverConfigs : Env -> St -> result (list (Z * list byte)) * St;
  sp_recoverExchanges : Env -> St -> result (gmap Z (list byte)) * St;
  sp_recoverQueues : Env -> St -> result (gmap Z string) * St;
  sp_recoverBindings : Env -> gset Z -> gset Z -> St -> result (list bound) * St;
  sp_recoverMessages : Env -> St -> option (result (MessageMap * MessageQueueMap) * St);
  sp_recoverTransactions : Env -> St -> result (gset string) * St
}.

Section plugin.
Context `{HF : Framing} {Env St : Type} {SP : StorageProvider Env St}.

(** ** The plugin *)

Record MessageStorePlugin := mkPlugin {
  broker : bool;
  providerName : string;
  providers : gmap string St;
  provider : option string;
  store_set : bool;
  finalizers : list string
}.
Implicit Types (pl : MessageStorePlugin) (q : PQueue) (m : PMsg).

Definition plugin_new (providerName : string) : MessageStorePlugin := mkPlugin false providerName ∅ None false [].

Definition set_providers (ps : gmap string St) pl : MessageStorePlugin :=
  mkPlugin (broker pl) (providerName pl) ps (provider pl) (store_set pl) (finalizers pl).
Definition set_provider (p : option string) pl : MessageStorePlugin :=
  mkPlugin (broker pl) (providerName pl) (providers pl) p (store_set pl) (finalizers pl).
Definition set_broker pl : MessageStorePlugin :=
  mkPlugin true (providerName pl) (providers pl) (provider pl) (store_set pl) (finalizers pl).

(** [providerAvailable(name,be)]: a second provider of the same name is ignored. *)
Definition providerAvailable (name : string) (be : St) pl : MessageStorePlugin :=
  match providers pl !! name with
  | Some _ => pl
  | None => set_providers (<[name := be]> (providers pl)) pl
  end.

(** [Plugin::earlyInitAll]: the providers that announce themselves, in order. *)
Definition earlyInitAll (announced : list (string * St)) pl : MessageStorePlugin :=
  foldl (fun pl a => providerAvailable a.1 a.2 pl) pl announced.

(** The end of [earlyInitialize], once [provider] is set. *)
Definition install (name : string) pl : MessageStorePlugin :=
  match providers pl !! name with
  | Some be =>
      mkPlugin (broker pl) (providerName pl) (<[name := sp_activate be]> (providers pl)) (Some name) true
        (finalizers pl ++ ["MessageStorePlugin::finalizeMe"])
  | None => pl
  end.

(** [earlyInitialize(target)]; [is_broker] says what the target is. The
    [qpid::Exception] that it throws is a [StoreException] with the same text here. *)
Definition earlyInitialize (is_broker : bool) (announced : list (string * St)) pl :
    result unit * MessageStorePlugin :=
  if negb is_broker then (Ret tt, pl)
  else
    let pl := earlyInitAll announced (set_broker pl) in
    match map_to_list (providers pl) with
    | [] => (Ret tt, set_provider None pl)
    | first :: rest =>
        if negb (String.eqb (providerName pl) "") then
          match providers pl !! providerName pl with
          | None => (Throw (StoreException ("Message store plugin: storage provider '" +:+ providerName pl +:+
                                            "' does not exist.")), set_provider None pl)
          | Some _ => (Ret tt, install (providerName pl) pl)
          end
        else match rest with
             | _ :: _ => (Throw (StoreException ("Message store plugin: multiple provider plugins " +:+
                "loaded; must either load only one or select one using --storage-provider")), set_provider None pl)
             | [] => (Ret tt, install first.1 pl)
             end
    end.

(** A call of the chosen provider. *)
Definition forward {A} (f : St -> result A * St) pl : result A * MessageStorePlugin :=
  match provider pl with
  | Some name =>
      match providers pl !! name with
      | Some be => let '(r, be) := f be in (r, set_providers (<[name := be]> (providers pl)) pl)
      | None => (Throw (Undefined "provider"), pl)
      end
  | None => (Throw (Undefined "provider"), pl)
  end.
Definition forward_opt {A} (f : St -> option (result A * St)) pl : option (result A * MessageStorePlugin) :=
  match provider pl with
  | Some name =>
      match providers pl !! name with
      | Some be =>
          match f be with
          | Some (r, be) => Some (r, set_providers (<[name := be]> (providers pl)) pl)
          | None => None
          end
      | None => Some (Throw (Undefined "provider"), pl)
      end
  | None => Some (Throw (Undefined "provider"), pl)
  end.

Definition initialize (is_broker : bool) pl : MessageStorePlugin :=
  if negb is_broker then pl
  else match provider pl with
       | None => pl
       | Some name =>
           match providers pl !! name with
           | Some be => set_providers (<[name := sp_initialize be]> (providers pl)) pl
           | None => pl
           end
       end.

(** [truncateInit]: only a log line. *)
Definition truncateInit pl : MessageStorePlugin := pl.

(** *** The methods *)

Definition create_queue (en : Env) q pl : result PQueue * MessageStorePlugin :=
  if (String.length (p_name (pq_obj q)) =? 0)%nat then (Ret q, pl)
  else if negb (p_id (pq_obj q) =? 0) then
    (Throw (StoreException ("Queue already created: " +:+ p_name (pq_obj q))), pl)
  else forward (sp_create_queue en q) pl.

Definition destroy_queue (en : Env) q pl : result unit * MessageStorePlugin := forward (sp_destroy_queue en q) pl.

Definition create_exchange (en : Env) (ex : Persistable) pl : result Persistable * MessageStorePlugin :=
  if negb (p_id ex =? 0) then (Throw (StoreException ("Exchange already created: " +:+ p_name ex)), pl)
  else forward (sp_create_exchange en ex) pl.

Definition destroy_exchange (en : Env) (ex : Persistable) pl : result unit * MessageStorePlugin :=
  forward (sp_destroy_exchange en ex) pl.

Definition bind (en : Env) (ex : Persistable) q (key : string) (args : FieldTable) pl : result unit * MessageStorePlugin :=
  forward (sp_bind en ex q key args) pl.
Definition unbind (en : Env) (ex : Persistable) q (key : string) (args : FieldTable) pl :
    result unit * MessageStorePlugin :=
  forward (sp_unbind en ex q key args) pl.

Definition create_config (en : Env) (c : Persistable) pl : result Persistable * MessageStorePlugin :=
  if negb (p_id c =? 0) then (Throw (StoreException ("Config item already created: " +:+ p_name c)), pl)
  else forward (sp_create_config en c) pl.
Definition destroy_config (en : Env) (c : Persistable) pl : result unit * MessageStorePlugin :=
  forward (sp_destroy_config en c) pl.

Definition stage (en : Env) m pl : result unit * MessageStorePlugin :=
  if (pm_id m =? 0) && negb (pm_released m) then forward (sp_stage en m) pl else (Ret tt, pl).
Definition destroy_msg (en : Env) m pl : result unit * MessageStorePlugin :=
  if negb (pm_id m =? 0) then forward (sp_destroy_msg en m) pl else (Ret tt, pl).
Definition appendContent (en : Env) m (data : list byte) pl : result unit * MessageStorePlugin :=
  if negb (pm_id m =? 0) then forward (sp_appendContent en m data) pl
  else (Throw (StoreException "Cannot append content. Message not known to store!"), pl).
Definition loadContent (en : Env) q m (data : list byte) (offset length : Z) pl :
    option (result (list byte) * MessageStorePlugin) :=
  if negb (pm_id m =? 0) then forward_opt (sp_loadContent en q m data offset length) pl
  else Some (Throw (StoreException "Cannot load content. Message not known to store!"), pl).

Definition enqueue (en : Env) m q pl : result PMsg * MessageStorePlugin :=
  if p_id (pq_obj q) =? 0 then (Throw (StoreException ("Queue not created: " +:+ p_name (pq_obj q))), pl)
  else forward (sp_enqueue en m q) pl.
Definition dequeue (en : Env) m q pl : result unit * MessageStorePlugin := forward (sp_dequeue en m q) pl.
Definition flush (en : Env) q pl : result unit * MessageStorePlugin := forward (sp_flush en q) pl.
Definition outstandingQueueAIO q pl : result Z * MessageStorePlugin := forward (sp_outstandingQueueAIO q) pl.

Definition begin pl : result unit * MessageStorePlugin := forward sp_begin pl.
Definition begin_xid (xid : string) pl : result unit * MessageStorePlugin := forward (sp_begin_xid xid) pl.
Definition prepare pl : result unit * MessageStorePlugin := forward sp_prepare pl.
Definition commit pl : result unit * MessageStorePlugin := forward sp_commit pl.
Definition abort pl : result unit * MessageStorePlugin := forward sp_abort pl.
Definition collectPreparedXids pl : result (gset string) * MessageStorePlugin := forward sp_collectPreparedXids pl.

(** *** Recovery *)

(** What the loop at the end of [recover] calls on the broker's queues and prepared
    transactions, with the message id. *)
Inductive rcall : Type :=
| CRecover (queue msg : Z)
| CEnqueue (xid : string) (queue msg : Z)
| CDequeue (xid : string) (queue msg : Z).

(** [dtxMap[xid]] is a null pointer for an unknown [xid]. *)
Definition entry_calls (dtx : gset string) (msg : Z) (e : QueueEntry) : result (list rcall) :=
  match tplStatus e with
  | NONE => Ret [CRecover (queueId e) msg]
  | ADDING =>
      if bool_decide (qe_xid e ∈ dtx) then Ret [CEnqueue (qe_xid e) (queueId e) msg]
      else Throw (Undefined "null transaction")
  | REMOVING =>
      if bool_decide (qe_xid e ∈ dtx) then Ret [CRecover (queueId e) msg; CDequeue (qe_xid e) (queueId e) msg]
      else Throw (Undefined "null transaction")
  end.

(** The inner loop. *)
Fixpoint reenqueue_msg (queues : gset Z) (dtx : gset string) (msg : Z) (l : list QueueEntry) : result (list rcall) :=
  match l with
  | [] => Ret []
  | e :: l =>
      if bool_decide (queueId e ∈ queues) then
        let! c := entry_calls dtx msg e in
        let! cs := reenqueue_msg queues dtx msg l in
        Ret (c ++ cs)
      else Throw (StoreException ("No matching queue trying to re-enqueue message  on queue Id " +:+ pretty (queueId e)))
  end.

(** The outer loop, over the ids of the messages in increasing order. *)
Fixpoint reenqueue (messages : MessageMap) (queues : gset Z) (dtx : gset string) (l : list (Z * list QueueEntry)) :
    result (list rcall) :=
  match l with
  | [] => Ret []
  | (id, es) :: l =>
      match messages !! id with
      | None => Throw (StoreException ("No matching message trying to re-enqueue message " +:+ pretty id))
      | Some _ =>
          let! c := reenqueue_msg queues dtx id es in
          let! cs := reenqueue messages queues dtx l in
          Ret (c ++ cs)
      end
  end.

(** What the broker has been given. *)
Record recovered := mkRecovered {
  rc_configs : list (Z * list byte);
  rc_exchanges : gmap Z (list byte);
  rc_queues : gmap Z string;
  rc_bindings : list bound;
  rc_messages : MessageMap;
  rc_calls : list rcall
}.

(** One step of [recover]: the next one only runs when it returns. *)
Definition step {A B} (x : result A * MessageStorePlugin) (k : A -> MessageStorePlugin -> option (result B * MessageStorePlugin)) :
    option (result B * MessageStorePlugin) :=
  match x with
  | (Throw e, pl) => Some (Throw e, pl)
  | (Ret a, pl) => k a pl
  end.

(** [recover(recoverer)] *)
Definition recover (en : Env) pl : option (result recovered * MessageStorePlugin) :=
  step (forward (sp_recoverConfigs en) pl) (fun configs pl =>
  step (forward (sp_recoverExchanges en) pl) (fun exchanges pl =>
  step (forward (sp_recoverQueues en) pl) (fun queues pl =>
  step (forward (sp_recoverBindings en (dom exchanges) (dom queues)) pl) (fun bindings pl =>
  match forward_opt (sp_recoverMessages en) pl with
  | None => None
  | Some x =>
      step x (fun '(messages, mq) pl =>
      step (forward (sp_recoverTransactions en) pl) (fun dtx pl =>
      Some (let! calls := reenqueue messages (dom queues) dtx (sorted_map mq) in
            Ret (mkRecovered configs exchanges queues bindings messages calls), pl)))
  end)))).

End plugin.
Arguments MessageStorePlugin : clear implicits.
