(* ===== verification/BdbStore.v ===== *)
(** The Berkeley DB provider as an instance of the interface of [Plugin]: the message
    path of [Provider], the configuration side of [Config] and the restart of
    [Resurrect] on one state.

    The environment of a call gives what the database, the pools and the broker
    answer during it. *)
From S2P Require Import Prelude Format Jerrno IdSequence NestedMap PidTracker PendingOps.
From S2P Require Import LogFormat LogExtract AsyncLog LogSystem LoggerSpec Bdb TxnCtxt Framing Journal Posix Jdir.
From S2P Require Import Recovery Provider Config Resurrect Plugin.
From Stdlib Require Import ZArith Lia.

Record bdb_env := mkEnvAns {
  en_io : db_answers;                      (* the transaction of the call *)
  en_ioj : db_answers;                     (* opening the databases of a journal *)
  en_accepts : bool;                       (* [schedule] *)
  en_waits : list Z;                       (* the answers of [waitForPid] *)
  en_alloc : nat -> option (list byte);    (* [malloc] *)
  en_exchange : list byte -> bool;         (* whether the broker takes an exchange *)
  en_name : list byte -> string;           (* the name in the encoding of a queue *)
  en_uid : list byte -> string;            (* the UID header of a message *)
  en_load : Z -> bool                      (* whether the broker wants a content of this size *)
}.

Section store.
Context `{HostEndian, HostAlloc, Framing}.
Context {BT : BTree bt_compare} {KT : BTree key_compare} {DT : DupTree key_compare}.
Variables (db_what : Z -> string) (strerror : errno -> string).
Variables (storeDir : string) (num_jfiles : Z).
Variables (enableAcceptRecoveryFlag : bool) (acceptedFromMongo : list string).

Abbreviation EntDb := (@Db key_compare KT).

Record BdbStore := mkBdb {
  b_pv : Provider;
  b_qdb : EntDb; b_qseq : IdSequence.t;         (* queueDb *)
  b_bindings : DupDb;                           (* bindingDb *)
  b_edb : EntDb; b_eseq : IdSequence.t;         (* exchangeDb *)
  b_gdb : EntDb; b_gseq : IdSequence.t;         (* generalDb *)
  b_fs : Fs;
  b_recovered : list (string * Z)               (* recoveredJournal *)
}.
Implicit Types (b : BdbStore) (q : PQueue) (m : PMsg) (en : bdb_env).

Definition b_env b : DbEnv := JournalImpl.w_env (world (b_pv b)).

(** The parts of the state that the components work on. *)
Definition set_pv (pv : Provider) b : BdbStore :=
  mkBdb pv (b_qdb b) (b_qseq b) (b_bindings b) (b_edb b) (b_eseq b) (b_gdb b) (b_gseq b) (b_fs b) (b_recovered b).
Definition set_jw (js : gmap Z JournalImpl) (w : JournalImpl.world) (pv : Provider) : Provider :=
  mkProv (isInit pv) (enableSmartAsync pv) (messageIdSequence pv) (tracker pv) (aologger pv) js w
    (enqueuePool pv) (dequeuePool pv).
Definition set_benv (e : DbEnv) b : BdbStore :=
  set_pv (set_jw (journalList (b_pv b)) (JournalImpl.mkWorld e (JournalImpl.w_files (world (b_pv b)))) (b_pv b)) b.
Definition qs_of b : QueueStore :=
  mkQS (b_qdb b) (b_qseq b) (b_bindings b) (journalList (b_pv b)) (world (b_pv b)) (b_fs b).
Definition set_qs (s : QueueStore) b : BdbStore :=
  mkBdb (set_jw (qs_journals s) (qs_world s) (b_pv b)) (qs_db s) (qs_seq s) (qs_bindings s) (b_edb b) (b_eseq b)
    (b_gdb b) (b_gseq b) (qs_fs s) (b_recovered b).
Definition set_exchanges (db : EntDb) (seq : IdSequence.t) b : BdbStore :=
  mkBdb (b_pv b) (b_qdb b) (b_qseq b) (b_bindings b) db seq (b_gdb b) (b_gseq b) (b_fs b) (b_recovered b).
Definition set_configs (db : EntDb) (seq : IdSequence.t) b : BdbStore :=
  mkBdb (b_pv b) (b_qdb b) (b_qseq b) (b_bindings b) (b_edb b) (b_eseq b) db seq (b_fs b) (b_recovered b).
Definition set_bind (db : DupDb) b : BdbStore :=
  mkBdb (b_pv b) (b_qdb b) (b_qseq b) db (b_edb b) (b_eseq b) (b_gdb b) (b_gseq b) (b_fs b) (b_recovered b).
Definition set_recovered (l : list (string * Z)) b : BdbStore :=
  mkBdb (b_pv b) (b_qdb b) (b_qseq b) (b_bindings b) (b_edb b) (b_eseq b) (b_gdb b) (b_gseq b) (b_fs b) l.

Definition b_check b : BdbStore := set_pv (checkInit (b_pv b)) b.

(** The journal behind the external store of a queue. *)
Definition journal_of_queue q b : option JournalImpl := pq_store q ≫= fun k => journalList (b_pv b) !! k.

(** ** Configuration *)

Definition b_create_queue en q b : result PQueue * BdbStore :=
  let b := b_check b in
  let '(r, s) := Config.create_queue strerror storeDir num_jfiles (en_io en) (en_ioj en) (pq_obj q) (qs_of b) in
  (match r with
   | Ret (p, Some _) => Ret (mkPQ p (Some (p_id p)))
   | Ret (p, None) => Ret (mkPQ p (pq_store q))
   | Throw x => Throw x
   end, set_qs s b).

Definition b_destroy_queue en q b : result unit * BdbStore :=
  let b := b_check b in
  let '(r, s) := Config.destroy_queue db_what strerror (en_io en) (pq_obj q) (journal_of_queue q b) (qs_of b) in
  (r, set_qs s b).

Definition b_create_exchange en (ex : Persistable) b : result Persistable * BdbStore :=
  let b := b_check b in
  let '(r, db, seq, e) := Config.create_exchange db_what (en_io en) (b_edb b) (b_eseq b) ex (b_env b) in
  (r, set_benv e (set_exchanges db seq b)).

Definition b_destroy_exchange en (ex : Persistable) b : result unit * BdbStore :=
  let b := b_check b in
  match Config.destroy_exchange ex (b_edb b) (b_bindings b) with
  | Ret (edb, bdb) => (Ret tt, set_bind bdb (set_exchanges edb (b_eseq b) b))
  | Throw x => (Throw x, b)
  end.

Definition after_bind (r : result DupDb * DbEnv) b : result unit * BdbStore :=
  match r with
  | (Ret db, e) => (Ret tt, set_bind db (set_benv e b))
  | (Throw x, e) => (Throw x, set_benv e b)
  end.
Definition b_bind en (ex : Persistable) q (k : string) (a : FieldTable) b : result unit * BdbStore :=
  let b := b_check b in after_bind (Config.bind db_what (en_io en) ex (pq_obj q) k a (b_bindings b) (b_env b)) b.
Definition b_unbind en (ex : Persistable) q (k : string) (a : FieldTable) b : result unit * BdbStore :=
  let b := b_check b in after_bind (deleteBinding db_what (en_io en) ex (pq_obj q) k (b_bindings b) (b_env b)) b.

Definition b_create_config en (c : Persistable) b : result Persistable * BdbStore :=
  let b := b_check b in
  let '(r, db, seq, e) := Config.create_config db_what (en_io en) (b_gdb b) (b_gseq b) c (b_env b) in
  (r, set_benv e (set_configs db seq b)).
Definition b_destroy_config en (c : Persistable) b : result unit * BdbStore :=
  let b := b_check b in
  match Config.destroy_config (b_gdb b) c with
  | Ret db => (Ret tt, set_configs db (b_gseq b) b)
  | Throw x => (Throw x, b)
  end.

(** ** Messages *)

Definition b_loadContent en q m (data : list byte) (offset length : Z) b : option (result (list byte) * BdbStore) :=
  let b := b_check b in
  r ← Provider.loadContent (en_waits en) (p_name (pq_obj q)) (pq_store q) (pm_id m) data offset length (b_pv b);
  Some (r, b).

Definition b_enqueue en m q b : result PMsg * BdbStore :=
  let '(r, pv) := Provider.enqueue (en_accepts en) (p_name (pq_obj q)) (p_id (pq_obj q)) (pm_id m) (pq_store q)
                    (pm_msg m) (b_pv b) in
  (match r with
   | Ret id => Ret (mkPM id (pm_released m) (pm_msg m))
   | Throw x => Throw x
   end, set_pv pv b).

(** Without a journal the task that is scheduled uses a null pointer. *)
Definition b_dequeue en m q b : result unit * BdbStore :=
  match pq_store q with
  | Some jc =>
      let '(r, pv) := Provider.dequeue (en_accepts en) (p_name (pq_obj q)) (p_id (pq_obj q)) (pm_id m) jc (b_pv b) in
      (r, set_pv pv b)
  | None => (Throw (Undefined "null journal"), b)
  end.

Definition b_flush en q b : result unit * BdbStore :=
  match pq_store q with
  | None => (Ret tt, b)
  | Some _ => let b := b_check b in (Config.flush (journal_of_queue q b), b)
  end.

(** ** Recovery *)

Definition b_recoverConfigs en b : result (list (Z * list byte)) * BdbStore :=
  let '(l, seq) := Config.recoverConfigs (b_gdb b) (b_gseq b) in (Ret l, set_configs (b_gdb b) seq b).

Definition b_recoverExchanges en b : result (gmap Z (list byte)) * BdbStore :=
  let '(m, seq) := Config.recoverExchanges (en_exchange en) (b_edb b) (b_eseq b) in
  (Ret m, set_exchanges (b_edb b) seq b).

(** The queues that the loop of [recoverQueues] adds to [recoveredJournal]. *)
Fixpoint recovered_journals (name_of : list byte -> string) (rows : list (Z * list byte)) : list (string * Z) :=
  match rows with
  | [] => []
  | (id, v) :: rest =>
      if String.eqb (name_of v) "" then [] else (name_of v, id) :: recovered_journals name_of rest
  end.

Definition b_recoverQueues en b : result (gmap Z string) * BdbStore :=
  let '(m, s) := Config.recoverQueues storeDir num_jfiles (en_name en) (qs_of b) in
  (Ret m, set_recovered (b_recovered b ++ recovered_journals (en_name en) (db_scan (b_qdb b))) (set_qs s b)).

Definition b_recoverBindings en (exchangeMap queueMap : gset Z) b : result (list bound) * BdbStore :=
  let '(r, db) := Config.recoverBindings exchangeMap queueMap (b_bindings b) in (r, set_bind db b).

Definition b_recoverMessages en b : option (result (MessageMap * MessageQueueMap) * BdbStore) :=
  match Resurrect.recoverMessages enableAcceptRecoveryFlag acceptedFromMongo (en_uid en) (en_load en) (en_alloc en)
          (en_ioj en) (en_accepts en) (b_recovered b) (b_pv b) with
  | None => None
  | Some (Throw x) => Some (Throw x, b)
  | Some (Ret (mm, mq, pv)) => Some (Ret (mm, map queue_entry <$> mq), set_recovered [] (set_pv pv b))
  end.

(** ** The interface *)

#[export] Instance bdb_provider : StorageProvider bdb_env BdbStore := {
  sp_activate := fun b => b;
  sp_initialize := fun b => b;
  sp_create_queue := b_create_queue;
  sp_destroy_queue := b_destroy_queue;
  sp_create_exchange := b_create_exchange;
  sp_destroy_exchange := b_destroy_exchange;
  sp_bind := b_bind;
  sp_unbind := b_unbind;
  sp_create_config := b_create_config;
  sp_destroy_config := b_destroy_config;
  sp_stage := fun _ _ b => (Provider.stage, b);
  sp_destroy_msg := fun _ _ b => (Provider.destroy_msg, b);
  sp_appendContent := fun _ _ _ b => (Provider.appendContent, b);
  sp_loadContent := b_loadContent;
  sp_enqueue := b_enqueue;
  sp_dequeue := b_dequeue;
  sp_flush := b_flush;
  sp_outstandingQueueAIO := fun _ b => (Ret 0, b);
  sp_begin := fun b => (Provider.begin, b);
  sp_begin_xid := fun _ b => (Provider.begin, b);
  sp_prepare := fun b => (Provider.prepare, b);
  sp_commit := fun b => (Provider.commit, b);
  sp_abort := fun b => (Provider.abort, b);
  sp_collectPreparedXids := fun b => (let! _ := Provider.collectPreparedXids in Ret ∅, b);
  sp_recoverConfigs := b_recoverConfigs;
  sp_recoverExchanges := b_recoverExchanges;
  sp_recoverQueues := b_recoverQueues;
  sp_recoverBindings := b_recoverBindings;
  sp_recoverMessages := b_recoverMessages;
  sp_recoverTransactions := fun _ b => (Ret ∅, b)
}.

End store.
