(* ===== verification/PluginSpec.v ===== *)
(** What the front end guarantees: which provider it takes, that its checks change
    nothing for the Berkeley DB provider, and that a restart puts every recovered
    message on its queues. *)
From S2P Require Import Prelude Format Jerrno IdSequence NestedMap PidTracker PendingOps.
From S2P Require Import LogFormat LogExtract AsyncLog LogSystem LoggerSpec Bdb TxnCtxt Framing Journal Posix Jdir.
From S2P Require Import Recovery Provider Config Resurrect Plugin BdbStore.
From Stdlib Require Import ZArith Lia.

(** ** The choice of a provider *)

Section choice.
Context `{HF : Framing} {Env St : Type} {SP : StorageProvider Env St}.
Implicit Types (pl : MessageStorePlugin St) (announced : list (string * St)).

(** The provider that announced itself first under a name. *)
Definition first_announced announced (n : string) : option St := snd <$> head (filter (fun a => a.1 = n) announced).

Lemma providerAvailable_lookup n be pl n' :
  providers (providerAvailable n be pl) !! n' =
  match providers pl !! n' with Some x => Some x | None => if decide (n = n') then Some be else None end.
Proof.
  unfold providerAvailable. destruct (providers pl !! n) eqn:E.
  - destruct (providers pl !! n') eqn:E'; [done|]. case_decide; [congruence|done].
  - simpl. destruct (decide (n = n')) as [->|Hn]; [rewrite lookup_insert_eq, E|rewrite lookup_insert_ne by done];
      [done|by destruct (providers pl !! n')].
Qed.

Lemma earlyInitAll_lookup announced pl n :
  providers (earlyInitAll announced pl) !! n =
  match providers pl !! n with Some x => Some x | None => first_announced announced n end.
Proof.
  unfold earlyInitAll, first_announced. revert pl. induction announced as [|[k be] l IH]; intros pl; simpl.
  - by destruct (providers pl !! n).
  - rewrite IH, providerAvailable_lookup. destruct (providers pl !! n); [done|]. simpl.
    rewrite filter_cons. simpl. by repeat case_decide.
Qed.

Lemma earlyInitAll_rest announced pl :
  let pl' := earlyInitAll announced pl in
  providerName pl' = providerName pl /\ provider pl' = provider pl /\ store_set pl' = store_set pl /\
  finalizers pl' = finalizers pl.
Proof.
  unfold earlyInitAll. revert pl. induction announced as [|[k be] l IH]; intros pl; simpl; [done|].
  destruct (IH (providerAvailable k be pl)) as (-> & -> & -> & ->).
  unfold providerAvailable. by destruct (providers pl !! k).
Qed.

Lemma first_announced_is_Some announced n : is_Some (first_announced announced n) <-> n ∈ announced.*1.
Proof.
  unfold first_announced. induction announced as [|[k be] l IH]; simpl.
  - split; [by intros []|by intros Hx%elem_of_nil].
  - rewrite filter_cons. simpl. rewrite elem_of_cons. case_decide as E; simpl.
    + split; [by left|by eauto].
    + rewrite IH. split; [by right|]. intros [->|]; done.
Qed.

(** C25: on a fresh plugin, [earlyInitialize] makes itself the broker's
    store exactly when it can name a provider: the one asked for by
    --storage-provider, or the only one there is. The provider it takes is the first
    that announced itself under that name. No provider at all is no error; an unknown
    name, or several providers and no name, is one, and then the broker gets no store. *)
Theorem early_init_exact name announced :
  let '(r, pl) := earlyInitialize true announced (plugin_new name) in
  match r with
  | Ret _ =>
      announced = [] /\ provider pl = None /\ store_set pl = false \/
      exists n be, provider pl = Some n /\ store_set pl = true /\ first_announced announced n = Some be /\
        providers pl !! n = Some (sp_activate be) /\ (name <> "" -> n = name) /\
        (name = "" -> forall a, a ∈ announced -> a.1 = n)
  | Throw _ =>
      provider pl = None /\ store_set pl = false /\
      ((name <> "" /\ announced <> [] /\ name ∉ announced.*1) \/
       (name = "" /\ exists a b, a ∈ announced /\ b ∈ announced /\ a.1 <> b.1))
  end.
Proof.
  unfold earlyInitialize. simpl negb. cbn iota.
  pose proof (earlyInitAll_rest announced (set_broker (plugin_new name))) as (En & Ep & Es & _).
  pose proof (earlyInitAll_lookup announced (set_broker (plugin_new name))) as El.
  set (pl := earlyInitAll announced _) in *. cbn zeta in En, Ep, Es. simpl in En, Ep, Es.
  assert (El' : forall n, providers pl !! n = first_announced announced n) by (intros n; rewrite El; done). clear El.
  assert (Hin : forall a, a ∈ announced -> is_Some (providers pl !! a.1)).
  { intros a Ha. rewrite El', first_announced_is_Some. by apply list_elem_of_fmap_2. }
  rewrite En. destruct (map_to_list (providers pl)) as [|[n0 b0] rest] eqn:Em.
  { apply map_to_list_empty_iff in Em. left. split; [|done].
    destruct announced as [|a l]; [done|]. destruct (Hin a) as [x Hx]; [set_solver|]. by rewrite Em in Hx. }
  assert (H0 : providers pl !! n0 = Some b0) by (apply elem_of_map_to_list; rewrite Em; set_solver).
  assert (Hne : announced <> []).
  { intros ->. rewrite El' in H0. done. }
  destruct (String.eqb_spec name "") as [->|Hname]; simpl negb; cbn iota.
  - destruct rest as [|[n1 b1] rest].
    + right. exists n0, b0. unfold install. simpl. rewrite H0. simpl. rewrite lookup_insert_eq, <- El'.
      split_and!; try done. intros _ a Ha. destruct (Hin a Ha) as [x Hx].
      apply elem_of_map_to_list in Hx. rewrite Em in Hx. by apply list_elem_of_singleton in Hx as [= -> _].
    + simpl. split_and!; [done|done|]. right. split; [done|].
      pose proof (NoDup_fst_map_to_list (providers pl)) as Hnd. rewrite Em in Hnd. simpl in Hnd.
      assert (H1 : providers pl !! n1 = Some b1) by (apply elem_of_map_to_list; rewrite Em; set_solver).
      apply NoDup_cons in Hnd as [Hn _].
      assert (Ha : n0 ∈ announced.*1) by (apply first_announced_is_Some; rewrite <- El', H0; eauto).
      assert (Hb : n1 ∈ announced.*1) by (apply first_announced_is_Some; rewrite <- El', H1; eauto).
      apply list_elem_of_fmap in Ha as (a & -> & Ha), Hb as (b & -> & Hb). exists a, b. set_solver.
  - destruct (providers pl !! name) as [be|] eqn:Eb.
    + right. exists name, be. unfold install. rewrite Eb. simpl. rewrite lookup_insert_eq, <- El'. by split_and!.
    + simpl. split_and!; [done|done|]. left. split_and!; [done|done|].
      rewrite <- first_announced_is_Some, <- El', Eb. by intros [].
Qed.

End choice.

(** ** The Berkeley DB provider behind the front end *)

Section bdb.
Context `{HostEndian, HostAlloc, Framing}.
Context {BT : BTree bt_compare} {KT : BTree key_compare} {DT : DupTree key_compare}.
Variables (db_what : Z -> string) (strerror : errno -> string).
Variables (storeDir : string) (num_jfiles : Z).
Variables (enableAcceptRecoveryFlag : bool) (acceptedFromMongo : list string).
#[local] Instance provider_of : StorageProvider bdb_env BdbStore :=
  bdb_provider db_what strerror storeDir num_jfiles enableAcceptRecoveryFlag acceptedFromMongo.
Implicit Types (pl : MessageStorePlugin BdbStore) (b : BdbStore) (en : bdb_env) (q : PQueue) (m : PMsg).

(** The plugin has chosen a provider, whose state is [b]. *)
Definition chosen pl b : Prop := exists name, provider pl = Some name /\ providers pl !! name = Some b.

Lemma forward_same {A} (f : BdbStore -> result A * BdbStore) pl b r :
  chosen pl b -> f b = (r, b) -> forward f pl = (r, pl).
Proof.
  intros (name & Hp & Hb) Hf. unfold forward. rewrite Hp, Hb, Hf. unfold set_providers.
  rewrite insert_id by done. by destruct pl.
Qed.

Lemma b_check_same b : isInit (b_pv b) = true -> b_check b = b.
Proof. intros Hi. destruct b as [[] ]. simpl in Hi. by subst. Qed.

Lemma set_qs_same b : set_qs (qs_of b) b = b.
Proof. by destruct b as [[] ]. Qed.

Lemma set_benv_same b : set_benv (b_env b) (set_exchanges (b_edb b) (b_eseq b) b) = b.
Proof. by destruct b as [[? ? ? ? ? ? [] ] ]. Qed.

(** C21: with an initialised Berkeley DB provider the checks that the
    front end makes before it forwards a call change nothing: enqueueing, loading a
    content, creating an exchange and creating a queue do what the provider's own
    method does, with the same result, the same error text and the same state. (A
    queue with an empty name that has an id already is the exception: the front end
    ignores it, the provider refuses it.) *)
Theorem guards_transparent pl b en :
  chosen pl b -> isInit (b_pv b) = true ->
  (forall m q, enqueue en m q pl = forward (sp_enqueue en m q) pl) /\
  (forall q m data offset len,
     loadContent en q m data offset len pl = forward_opt (sp_loadContent en q m data offset len) pl) /\
  (forall ex, create_exchange en ex pl = forward (sp_create_exchange en ex) pl) /\
  (forall q, p_name (pq_obj q) <> "" \/ p_id (pq_obj q) = 0 ->
     create_queue en q pl = forward (sp_create_queue en q) pl).
Proof.
  intros Hc Hi. pose proof (b_check_same b Hi) as Hb. split_and!.
  - intros m q. unfold enqueue. destruct (p_id (pq_obj q) =? 0) eqn:E; [|done]. symmetry.
    eapply forward_same; [done|]. simpl. unfold b_enqueue, Provider.enqueue. rewrite E.
    unfold b_check in Hb. by rewrite Hb.
  - intros q m data offset len. unfold loadContent. destruct (pm_id m =? 0) eqn:E; [|done]. simpl negb. cbn iota.
    destruct Hc as (name & Hp & Hn). unfold forward_opt. rewrite Hp, Hn. simpl.
    unfold b_loadContent, Provider.loadContent. rewrite Hb, E. simpl. unfold set_providers.
    rewrite insert_id by done. by destruct pl.
  - intros ex. unfold create_exchange. destruct (p_id ex =? 0) eqn:E; [done|]. symmetry. simpl negb. cbn iota.
    eapply forward_same; [done|]. simpl. unfold b_create_exchange, Config.create_exchange, create_named.
    rewrite Hb, E. simpl. by rewrite set_benv_same.
  - intros q Hq. unfold create_queue. destruct (Nat.eqb_spec (String.length (p_name (pq_obj q))) 0) as [Hl|Hl].
    + assert (E : p_name (pq_obj q) = "") by (by destruct (p_name (pq_obj q))).
      destruct Hq as [Hq|Hq]; [done|]. symmetry. eapply forward_same; [done|]. simpl.
      unfold b_create_queue, Config.create_queue. rewrite Hb, Hq, E. simpl. rewrite set_qs_same. by destruct q.
    + destruct (p_id (pq_obj q) =? 0) eqn:E; [done|]. symmetry. simpl negb. cbn iota.
      eapply forward_same; [done|]. simpl. unfold b_create_queue, Config.create_queue. rewrite Hb, E. simpl.
      by rewrite set_qs_same.
Qed.

(** *** The restart *)

(** Every message that is on a queue is known, and it is on queues of [Q] only. *)
Definition maps_ok (Q : Z -> Prop) (mm : gmap Z (list byte * list byte)) (mq : gmap Z (list Z)) : Prop :=
  forall id qs, mq !! id = Some qs -> is_Some (mm !! id) /\ Forall Q qs.

Lemma recover_one_maps (Q : Z -> Prop) load qid id ape raw h st :
  Q qid -> maps_ok Q (s_map st) (s_mq st) ->
  let st' := recover_one load qid id ape raw h st in maps_ok Q (s_map st') (s_mq st').
Proof.
  intros Hq Hm. unfold recover_one. destruct (load _); [|done]. simpl. intros i qs Hi.
  destruct (decide (id = i)) as [->|Hne].
  - rewrite (lookup_insert_eq (s_mq st)) in Hi. injection Hi as <-. rewrite (lookup_insert_eq (s_map st)). split; [done|]. apply Forall_app. split; [|by apply Forall_singleton].
    destruct (s_mq st !! i) eqn:E; [|done]. by apply (Hm i).
  - rewrite (lookup_insert_ne (s_mq st)) in Hi by done. rewrite (lookup_insert_ne (s_map st)) by done. by apply Hm.
Qed.

Lemma accept_one_maps qid id uid st :
  s_map (accept_one qid id uid st) = s_map st /\ s_mq (accept_one qid id uid st) = s_mq st.
Proof. unfold accept_one. by destruct (nm_get (s_ae st) qid id); [destruct (nm_get (s_ad st) qid id)|]. Qed.

Lemma check_dequeue_maps qid id st :
  s_map (check_dequeue qid id st).2 = s_map st /\ s_mq (check_dequeue qid id st).2 = s_mq st.
Proof. unfold check_dequeue. by destruct (nm_get (s_ad st) qid id). Qed.

Lemma decode_one_maps (Q : Z -> Prop) flag acc uid load qid st x :
  Q qid -> maps_ok Q (s_map st) (s_mq st) ->
  let st' := decode_one flag acc uid load qid st x in maps_ok Q (s_map st') (s_mq st').
Proof.
  intros Hq Hm. destruct x as [id raw]. unfold decode_one. destruct (_ =? 0); [|done].
  set (st1 := mkDec _ _ _ _ _ _ _ _ _ _ _ _ _ _ _). set (a := _ && _ && _).
  set (st2 := if a then _ else st1).
  assert (H2 : maps_ok Q (s_map st2) (s_mq st2)).
  { unfold st2. destruct a; [|done]. destruct (accept_one_maps qid id
      (uid (take (Z.to_nat (get_long (drop 1 raw))) (drop 5 raw))) st1) as [-> ->]. done. }
  pose proof (check_dequeue_maps qid id st2) as [E1 E2]. destruct (check_dequeue qid id st2) as [dq st3].
  simpl in E1, E2. destruct (negb a && negb dq); [apply recover_one_maps; [done|]|]; by rewrite E1, E2.
Qed.

Lemma decode_maps (Q : Z -> Prop) flag acc uid load qid enq l ae ad last mm mq :
  Q qid -> maps_ok Q mm mq ->
  let s := (decodeAndRecoverMsg flag acc uid load qid enq l ae ad last mm mq).1 in maps_ok Q (s_map s) (s_mq s).
Proof.
  intros Hq Hm. unfold decodeAndRecoverMsg. simpl. set (st := mkDec _ _ _ _ _ _ _ _ _ _ _ _ _ _ _).
  assert (Hs : maps_ok Q (s_map st) (s_mq st)) by done. clearbody st. revert st Hs.
  induction (e_recovered _) as [|x l' IH]; intros st Hs; simpl; [done|]. apply IH. by apply decode_one_maps.
Qed.

Lemma recover_queue_maps (Q : Z -> Prop) flag acc uid load alloc io nq st st' :
  Q nq.2 -> maps_ok Q (r_map st) (r_mq st) ->
  recover_queue flag acc uid load alloc io nq (Ret st) = Ret st' -> maps_ok Q (r_map st') (r_mq st').
Proof.
  intros Hq Hm Hr. destruct nq as [name qid]. unfold recover_queue in Hr. cbn [obind] in Hr.
  destruct (journalList (r_pv st) !! qid) as [j|]; [|done].
  destruct (JournalImpl.recoverMessages io j (world (r_pv st))) as [[[j' [l|]]|x] w]; [|done|by destruct x].
  destruct (scan_throws _ _ _ _) as [x|]; [by destruct x|].
  pose proof (decode_maps Q flag acc uid load qid
    (fun id => match JournalImpl.is_enqueued id j' w with Ret b => b | Throw _ => false end)
    l (r_ae st) (r_ad st) 0 (r_map st) (r_mq st) Hq Hm) as Hd.
  destruct (decodeAndRecoverMsg _ _ _ _ _ _ _ _ _ _ _ _) as [s logged]. injection Hr as <-. exact Hd.
Qed.

Lemma recover_loop_maps (Q : Z -> Prop) flag acc uid load alloc io l st st' :
  Forall (fun nq => Q nq.2) l -> maps_ok Q (r_map st) (r_mq st) ->
  foldl (fun r nq => recover_queue flag acc uid load alloc io nq r) (Ret st) l = Ret st' ->
  maps_ok Q (r_map st') (r_mq st').
Proof.
  revert st. induction l as [|nq l IH]; intros st Hl Hm Hr; cbn [foldl] in Hr; [by injection Hr as <-|].
  apply Forall_cons in Hl as [Hq Hl].
  destruct (recover_queue flag acc uid load alloc io nq (Ret st)) as [st1|x] eqn:E.
  - eapply IH; [done| |done]. by eapply recover_queue_maps.
  - exfalso. clear -Hr. induction l as [|nq' l IH]; [done|]. apply IH. exact Hr.
Qed.

Lemma recoverMessages_maps (Q : Z -> Prop) en b mm mq b' :
  Forall (fun nq => Q nq.2) (b_recovered b) ->
  b_recoverMessages enableAcceptRecoveryFlag acceptedFromMongo en b = Some (Ret (mm, mq), b') ->
  exists mz, mq = map queue_entry <$> mz /\ maps_ok Q mm mz.
Proof.
  intros HQ Hr. unfold b_recoverMessages, Resurrect.recoverMessages in Hr.
  destruct (restart _) as [[[ae ad] l]|]; [|done].
  destruct (foldl _ _ (b_recovered b)) as [st|x] eqn:E; cbn [obind] in Hr; [|done].
  destruct (foldl _ (Ret (r_pv st)) _) as [pv|x]; cbn [obind] in Hr; [|done]. injection Hr as <- <- _.
  exists (r_mq st). split; [done|].
  eapply (recover_loop_maps Q); [exact HQ| |exact E]. intros id qs Hi. simpl in Hi. by rewrite lookup_empty in Hi.
Qed.

(** The queues of [recoveredJournal] are those of the queue map. *)
Lemma recover_queues_known name_of rows qm js (k : Z) :
  let '(qm', _, _) := recover_queues_loop storeDir num_jfiles name_of rows qm js k in
  dom qm ⊆ dom qm' /\ Forall (fun nq => nq.2 ∈ dom qm') (recovered_journals name_of rows).
Proof.
  revert qm js k. induction rows as [|[id v] rest IH]; intros qm js k; simpl; [done|].
  destruct (String.eqb (name_of v) ""); [done|].
  specialize (IH (<[id := name_of v]> qm) (<[id := queue_journal storeDir (name_of v) id num_jfiles]> js) (Z.max id k)).
  destruct (recover_queues_loop _ _ _ _ _ _ _) as [[qm' js'] k']. destruct IH as [I1 I2].
  rewrite dom_insert_L in I1. split; [set_solver|]. apply Forall_cons. split; [simpl; set_solver|done].
Qed.

(** The calls that put every message on its queues. *)
Definition on_queues (l : list (Z * list QueueEntry)) : list rcall :=
  flat_map (fun ie => map (fun e => CRecover (queueId e) ie.1) ie.2) l.

Lemma reenqueue_msg_ok (queues : gset Z) msg (qs : list Z) :
  Forall (fun x : Z => x ∈ queues) qs ->
  reenqueue_msg queues ∅ msg (map queue_entry qs) = Ret (map (fun e => CRecover (queueId e) msg) (map queue_entry qs)).
Proof.
  induction qs as [|x qs IH]; intros Hq; [done|]. apply Forall_cons in Hq as [Hx Hq]. simpl.
  rewrite bool_decide_true by done. by rewrite IH.
Qed.

Lemma reenqueue_ok (queues : gset Z) mm l :
  Forall (fun ie => is_Some (mm !! ie.1) /\ exists qs, ie.2 = map queue_entry qs /\ Forall (fun x : Z => x ∈ queues) qs) l ->
  reenqueue mm queues ∅ l = Ret (on_queues l).
Proof.
  induction l as [|[id es] l IH]; intros Hl; [done|].
  apply Forall_cons in Hl as [([x Hx] & qs & E & Hq) Hl]. simpl in Hx, E. subst es. simpl.
  rewrite Hx, (reenqueue_msg_ok queues id qs Hq), (IH Hl). done.
Qed.

Lemma recovered_reenqueue (queues : gset Z) mm mz :
  maps_ok (fun x : Z => x ∈ queues) mm mz ->
  let mq := map queue_entry <$> mz in reenqueue mm queues ∅ (sorted_map mq) = Ret (on_queues (sorted_map mq)).
Proof.
  intros Hm mq. apply reenqueue_ok, Forall_forall. intros [id es] Hi. apply elem_of_sorted_map in Hi.
  unfold mq in Hi. rewrite lookup_fmap in Hi. destruct (mz !! id) as [qs|] eqn:E; [|done]. injection Hi as <-.
  destruct (Hm id qs E). simpl. eauto.
Qed.

Lemma forward_chosen {A} (f : BdbStore -> result A * BdbStore) pl b :
  chosen pl b -> exists pl', forward f pl = ((f b).1, pl') /\ chosen pl' (f b).2.
Proof.
  intros (name & Hp & Hb). unfold forward. rewrite Hp, Hb. destruct (f b) as [r b']. eexists. split; [done|].
  exists name. simpl. by rewrite lookup_insert_eq.
Qed.

Lemma forward_opt_chosen {A} (f : BdbStore -> option (result A * BdbStore)) pl b :
  chosen pl b ->
  match f b with
  | None => forward_opt f pl = None
  | Some (r, b') => exists pl', forward_opt f pl = Some (r, pl') /\ chosen pl' b'
  end.
Proof.
  intros (name & Hp & Hb). unfold forward_opt. rewrite Hp, Hb. destruct (f b) as [[r b']|]; [|done].
  eexists. split; [done|]. exists name. simpl. by rewrite lookup_insert_eq.
Qed.

Lemma b_recoverQueues_known en b :
  b_recovered b = [] ->
  let m := (Config.recoverQueues storeDir num_jfiles (en_name en) (qs_of b)).1 in
  exists b', b_recoverQueues storeDir num_jfiles en b = (Ret m, b') /\
    Forall (fun nq => nq.2 ∈ dom m) (b_recovered b').
Proof.
  intros Hr. unfold b_recoverQueues, Config.recoverQueues. simpl.
  pose proof (recover_queues_known (en_name en) (db_scan (b_qdb b)) ∅ (journalList (b_pv b)) 1) as Hk.
  destruct (recover_queues_loop _ _ _ _ _ _ _) as [[qm js] k]. eexists. split; [done|]. simpl. rewrite Hr. apply Hk.
Qed.

(** [recover] without its look-ups: the provider's recoveries one after the other, and
    every message put on every queue it is recorded for. *)
Definition recover_reference en b : option (result recovered) :=
  let exchanges := (Config.recoverExchanges (en_exchange en) (b_edb b) (b_eseq b)).1 in
  let queues := (Config.recoverQueues storeDir num_jfiles (en_name en) (qs_of b)).1 in
  let b3 := (b_recoverQueues storeDir num_jfiles en (b_recoverExchanges en (b_recoverConfigs en b).2).2).2 in
  match b_recoverBindings en (dom exchanges) (dom queues) b3 with
  | (Throw e, _) => Some (Throw e)
  | (Ret bindings, b4) =>
      match b_recoverMessages enableAcceptRecoveryFlag acceptedFromMongo en b4 with
      | None => None
      | Some (Throw e, _) => Some (Throw e)
      | Some (Ret (mm, mq), _) =>
          Some (Ret (mkRecovered (db_scan (b_gdb b)) exchanges queues bindings mm (on_queues (sorted_map mq))))
      end
  end.

Lemma recover_is_reference pl b en :
  chosen pl b -> b_recovered b = [] -> fst <$> recover en pl = recover_reference en b.
Proof.
  intros Hc Hr. unfold recover, recover_reference.
  destruct (forward_chosen (sp_recoverConfigs en) pl b Hc) as (pl1 & -> & C1). cbn [step].
  change ((sp_recoverConfigs en b).1) with (Ret (E := exn) (db_scan (b_gdb b))). cbn [step].
  change ((sp_recoverConfigs en b).2) with (b_recoverConfigs en b).2 in C1.
  destruct (forward_chosen (sp_recoverExchanges en) pl1 _ C1) as (pl2 & -> & C2).
  set (exchanges := (Config.recoverExchanges (en_exchange en) (b_edb b) (b_eseq b)).1).
  change ((sp_recoverExchanges en (b_recoverConfigs en b).2).1) with (Ret (E := exn) exchanges). cbn [step].
  change ((sp_recoverExchanges en (b_recoverConfigs en b).2).2) with (b_recoverExchanges en (b_recoverConfigs en b).2).2 in C2.
  assert (Hq2 : qs_of (b_recoverExchanges en (b_recoverConfigs en b).2).2 = qs_of b) by done.
  assert (Hr2 : b_recovered (b_recoverExchanges en (b_recoverConfigs en b).2).2 = []) by done.
  set (b2 := (b_recoverExchanges en (b_recoverConfigs en b).2).2) in *. clearbody b2.
  destruct (forward_chosen (sp_recoverQueues en) pl2 _ C2) as (pl3 & -> & C3).
  destruct (b_recoverQueues_known en b2 Hr2) as (b3 & E3 & Hk). rewrite Hq2 in *.
  simpl sp_recoverQueues in *. rewrite E3 in *. cbn [fst snd step] in *.
  set (queues := (Config.recoverQueues storeDir num_jfiles (en_name en) (qs_of b)).1) in *.
  destruct (forward_chosen (sp_recoverBindings en (dom exchanges) (dom queues)) pl3 _ C3) as (pl4 & -> & C4).
  simpl sp_recoverBindings in *. assert (Hk4 : b_recovered (b_recoverBindings en (dom exchanges) (dom queues) b3).2 = b_recovered b3)
    by (unfold b_recoverBindings; by destruct (Config.recoverBindings _ _ _)).
  destruct (b_recoverBindings en (dom exchanges) (dom queues) b3) as [[bindings|e] b4]; cbn [fst snd step] in *; [|done].
  rewrite <- Hk4 in Hk. pose proof (forward_opt_chosen (sp_recoverMessages en) pl4 b4 C4) as Hm.
  simpl sp_recoverMessages in *.
  destruct (b_recoverMessages _ _ en b4) as [[[[mm mq]|e] b5]|] eqn:E5; [|by destruct Hm as (pl5 & -> & _)|by rewrite Hm].
  destruct Hm as (pl5 & -> & C5). cbn [step].
  destruct (forward_chosen (sp_recoverTransactions en) pl5 b5 C5) as (pl6 & -> & _). cbn [step fst snd sp_recoverTransactions].
  destruct (recoverMessages_maps (fun x => x ∈ dom queues) en b4 mm mq b5 Hk E5) as (mz & -> & Hz).
  simpl sp_recoverTransactions. cbn [step fst]. by rewrite (recovered_reenqueue (dom queues) mm mz Hz).
Qed.

(** C20: on a fresh Berkeley DB provider the front end's
    [recover] is the composition of the provider's recoveries: its loop finds every
    message and every queue it looks up, whatever is in the databases, the journals and
    the logs, so it adds no failure of its own, and it puts every recovered message on
    every queue that the provider recorded it for, as often as it is recorded. *)
Theorem recover_equals_reference pl b en :
  chosen pl b -> b_recovered b = [] -> fst <$> recover en pl = recover_reference en b.
Proof. apply recover_is_reference. Qed.

End bdb.
