(* ===== verification/PluginExamples.v ===== *)
(** A broker session through the front end: a store on an empty directory, a queue, a
    message, a crash and the restart; the witnesses of the theorems of [PluginSpec]. *)
From S2P Require Import Prelude Format Jerrno IdSequence NestedMap PidTracker PendingOps.
From S2P Require Import LogFormat LogExtract AsyncLog LogSystem LoggerSpec Bdb TxnCtxt Framing Journal JournalSpec.
From S2P Require Import Posix Jdir JdirSpec Recovery Provider Config Resurrect Plugin BdbStore PluginSpec.
From Stdlib Require Import ZArith Lia.

#[local] Existing Instance little_endian.
Definition front_host : HostAlloc := {| vector_max := 2 ^ 62 |}.
#[local] Existing Instance front_host.
#[local] Existing Instance wire.
#[local] Instance front_bt : BTree bt_compare := gmap_btree bt_compare.
#[local] Instance front_kt : BTree key_compare := gmap_btree key_compare.
#[local] Instance front_dt : DupTree key_compare := gset_dup key_compare.

Definition front_what (n : Z) : string := "".
#[local] Instance front_provider : StorageProvider bdb_env BdbStore :=
  bdb_provider front_what no_text "/s" 2 false [].

(** Everything is granted; a queue is encoded as its name. *)
Definition front_env : bdb_env :=
  mkEnvAns io_fine io_fine true [0] (fun n => Some (memset0 n)) (fun _ => true)
    (fun v => String.string_of_list_ascii (map (fun b => Ascii.ascii_of_nat (Z.to_nat (Z_of_byte b))) v))
    (fun _ => "") (fun _ => true).

Definition front_fs : Fs := mkFs {[["s"] := Dir]} [] (fun _ => false).
Definition front_pv (fs : gmap string (list byte)) (w : JournalImpl.world) : Provider :=
  mkProv true false IdSequence.init PidTracker.init (AsyncOperationLogger.create "async" fs) ∅ w [] [].
Definition front_store : BdbStore :=
  mkBdb (front_pv ∅ (JournalImpl.mkWorld (mkEnv 0 [] false) ∅)) db_created IdSequence.init dup_created
    db_created IdSequence.init db_created IdSequence.init front_fs [].

(** The plugin after [earlyInitialize], without a provider name on the command line. *)
Definition front : MessageStorePlugin BdbStore := (earlyInitialize true [("BDB", front_store)] (plugin_new "")).2.

Lemma front_chosen : chosen front front_store.
Proof. exists "BDB". split; reflexivity. Qed.

Lemma guards_transparent_witness :
  enqueue front_env (mkPM 0 false (mkMsg [] [] true)) (mkPQ (mkPersistable 0 "q" []) None) front =
  forward (sp_enqueue front_env (mkPM 0 false (mkMsg [] [] true)) (mkPQ (mkPersistable 0 "q" []) None)) front.
Proof.
  destruct (guards_transparent front_what no_text "/s" 2 false [] front front_store front_env) as (He & _).
  - apply front_chosen.
  - reflexivity.
  - apply He.
Defined.

(** A queue is created and a message enqueued on it; then the broker crashes. *)
Definition state_of {A} (x : result A * MessageStorePlugin BdbStore) : MessageStorePlugin BdbStore := x.2.
Definition front_queue : PQueue := mkPQ (mkPersistable 0 "q" [x71]) None.
Definition front1 := create_queue front_env front_queue front.
Definition front_msg : PMsg := mkPM 0 false (mkMsg [x68] [x61; x62] true).
Definition front_q1 : PQueue := match front1.1 with Ret q => q | Throw _ => front_queue end.
Definition front2 := enqueue front_env front_msg front_q1 (state_of front1).

Example front_session :
  front1.1 = Ret (mkPQ (mkPersistable 1 "q" [x71]) (Some 1)) /\ front2.1 = Ret (mkPM 1 false (pm_msg front_msg)).
Proof. split; vm_compute; reflexivity. Qed.

(** The restart: a new provider on the databases, journals and logs as they were. *)
Definition crashed : BdbStore := default front_store (providers (state_of front2) !! "BDB").
Definition reopened : BdbStore :=
  mkBdb (front_pv (logFS (aologger (b_pv crashed))) (world (b_pv crashed))) (b_qdb crashed) IdSequence.init
    (b_bindings crashed) (b_edb crashed) IdSequence.init (b_gdb crashed) IdSequence.init (b_fs crashed) [].
Definition front3 : MessageStorePlugin BdbStore := (earlyInitialize true [("BDB", reopened)] (plugin_new "BDB")).2.

Lemma front3_chosen : chosen front3 reopened.
Proof. exists "BDB". split; reflexivity. Qed.

Example front_recovers :
  match recover front_env front3 with
  | Some (Ret rc, _) => Some (map_to_list (rc_queues rc), rc_messages rc !! 1, rc_calls rc)
  | _ => None
  end = Some ([(1, "q")], Some ([x68], [x61; x62]), [CRecover 1 1]).
Proof. vm_compute. reflexivity. Qed.

Lemma recover_equals_reference_witness :
  fst <$> recover front_env front3 = recover_reference "/s" 2 false [] front_env reopened.
Proof. apply recover_equals_reference; [apply front3_chosen|reflexivity]. Defined.

(** A queue with an empty name that has an id: the front end returns, the provider
    refuses. *)
Example empty_name_differs :
  let q := mkPQ (mkPersistable 4 "" []) None in
  (create_queue front_env q front).1 = Ret q /\
  (forward (sp_create_queue front_env q) front).1 = Throw (StoreException "Queue already created: ").
Proof. split; vm_compute; reflexivity. Qed.

(** Staging, appending to and destroying a staged message reach the provider, whose
    methods are not implemented: the broker gets an exception of the journal library. *)
Example staging_not_implemented :
  (stage front_env (mkPM 0 false (pm_msg front_msg)) front).1 =
    Throw (JException (jexception.thrown jerrno.JERR__NOTIMPL "BdbStoreProvider" "stage")) /\
  (stage front_env (mkPM 0 true (pm_msg front_msg)) front).1 = Ret tt.
Proof. split; reflexivity. Qed.

(** Two providers and no name; an unknown name; the same name twice. *)
Example choices :
  (earlyInitialize true [("BDB", front_store); ("X", reopened)] (plugin_new "")).1 =
    Throw (StoreException ("Message store plugin: multiple provider plugins " +:+
             "loaded; must either load only one or select one using --storage-provider")) /\
  (earlyInitialize true [("BDB", front_store)] (plugin_new "X")).1 =
    Throw (StoreException "Message store plugin: storage provider 'X' does not exist.") /\
  provider (earlyInitialize true [("BDB", front_store); ("X", reopened)] (plugin_new "X")).2 = Some "X" /\
  providers (earlyInitialize true [("BDB", front_store); ("BDB", reopened)] (plugin_new "")).2 !! "BDB" =
    Some front_store.
Proof. split_and!; reflexivity. Qed.
