(* ===== verification/Lifecycle.v ===== *)
(** Model of the start and the end of the provider in lib/BdbStoreProvider.cpp: the
    options, the constructor, [earlyInitialize], [init] with its retries, [truncateInit],
    [closeDbs], [deleteUnusedLog] and [finalizeMe].

    What Berkeley DB answers to the calls of one attempt is an argument, and so are the
    home directory and the error number [DB_VERSION_MISMATCH]. Management objects and log
    lines are left out. *)
From S2P Require Import Prelude Format Jerrno IdSequence PidTracker PendingOps LogFormat LogExtract AsyncLog.
From S2P Require Import Bdb TxnCtxt Framing Journal Posix Jdir Provider.
From Stdlib Require Import ZArith Lia.

(** ** Options *)

Record StoreOptions := mkOptions {
  clusterName : string;
  o_storeDir : string;
  truncateFlag : bool;
  compactFlag : bool;
  o_enableAcceptRecoveryFlag : bool;
  acceptRecoveryMongoHost : string;
  acceptRecoveryMongoPort : string;
  acceptRecoveryMongoDb : string;
  acceptRecoveryMongoCollection : string;
  enqLogCleanerTimeInterval : Z;
  deqLogCleanerTimeInterval : Z;
  enqLogCleanerWarningSize : Z;
  deqLogCleanerWarningSize : Z;
  o_enableSmartAsync : bool
}.

Definition default_options : StoreOptions :=
  mkOptions "" "" false true false "localhost" "27017" "distributed_commons" "accept_recovery" 120 120 13107200
    13107200 true.

Definition set_option_dir (dir : string) (o : StoreOptions) : StoreOptions :=
  mkOptions (clusterName o) dir (truncateFlag o) (compactFlag o) (o_enableAcceptRecoveryFlag o)
    (acceptRecoveryMongoHost o) (acceptRecoveryMongoPort o) (acceptRecoveryMongoDb o) (acceptRecoveryMongoCollection o)
    (enqLogCleanerTimeInterval o) (deqLogCleanerTimeInterval o) (enqLogCleanerWarningSize o)
    (deqLogCleanerWarningSize o) (o_enableSmartAsync o).

Section lifecycle.
Variables (strerror : errno -> string) (home : string) (DB_VERSION_MISMATCH : Z).

(** ** State *)

(** [l_dbs] is the list [dbs], by file name; [l_loggers] the loggers that were made and
    not deleted, [l_aologger] the one that is pointed at; [l_pools] the sizes of the
    pools. *)
Record Life := mkLife {
  l_isInit : bool;
  l_finalized : bool;
  l_storeDir : string;
  l_options : StoreOptions;
  l_dbs : list string;
  l_aologger : option nat;
  l_loggers : list nat;
  l_made : nat;
  l_pools : Z * Z;
  l_num_jfiles : Z;
  l_env : DbEnv;
  l_fs : Fs
}.
Implicit Types (st : Life).

Definition num_thread_enqueue : Z := 2.
Definition num_thread_dequeue : Z := 2.

(** The constructor, and the option values once they are parsed. *)
Definition BdbStoreProvider (o : StoreOptions) (e : DbEnv) (fs : Fs) : Life :=
  mkLife false false "" o [] None [] 0 (0, 0) 4 e fs.

Definition set_dir (d : string) st : Life :=
  mkLife (l_isInit st) (l_finalized st) d (l_options st) (l_dbs st) (l_aologger st) (l_loggers st) (l_made st)
    (l_pools st) (l_num_jfiles st) (l_env st) (l_fs st).
Definition set_lfs (fs : Fs) st : Life :=
  mkLife (l_isInit st) (l_finalized st) (l_storeDir st) (l_options st) (l_dbs st) (l_aologger st) (l_loggers st)
    (l_made st) (l_pools st) (l_num_jfiles st) (l_env st) fs.
Definition set_dbs (dbs : list string) st : Life :=
  mkLife (l_isInit st) (l_finalized st) (l_storeDir st) (l_options st) dbs (l_aologger st) (l_loggers st)
    (l_made st) (l_pools st) (l_num_jfiles st) (l_env st) (l_fs st).
Definition set_lenv (e : DbEnv) st : Life :=
  mkLife (l_isInit st) (l_finalized st) (l_storeDir st) (l_options st) (l_dbs st) (l_aologger st) (l_loggers st)
    (l_made st) (l_pools st) (l_num_jfiles st) e (l_fs st).
Definition set_init (b : bool) (pools : Z * Z) st : Life :=
  mkLife b (l_finalized st) (l_storeDir st) (l_options st) (l_dbs st) (l_aologger st) (l_loggers st)
    (l_made st) pools (l_num_jfiles st) (l_env st) (l_fs st).
Definition set_options (o : StoreOptions) st : Life :=
  mkLife (l_isInit st) (l_finalized st) (l_storeDir st) o (l_dbs st) (l_aologger st) (l_loggers st)
    (l_made st) (l_pools st) (l_num_jfiles st) (l_env st) (l_fs st).

(** [aologger = new AsyncOperationLogger(asyncDir)] *)
Definition new_logger st : Life :=
  mkLife (l_isInit st) (l_finalized st) (l_storeDir st) (l_options st) (l_dbs st) (Some (l_made st))
    (l_loggers st ++ [l_made st]) (S (l_made st)) (l_pools st) (l_num_jfiles st) (l_env st) (l_fs st).

(** ** Opening *)

(** What Berkeley DB answers during one attempt: an error number is a [DbException]. *)
Record attempt_answers := mkAttempt {
  a_close : string -> option Z;
  a_env_open : option Z;
  a_begin : begin_answer;
  a_open : string -> option Z;
  a_commit : option Z
}.
Implicit Types (an : attempt_answers).

(** [closeDbs()]: a handle that throws leaves the list as it is. *)
Fixpoint close_loop (close : string -> option Z) (dbs : list string) : result unit :=
  match dbs with
  | [] => Ret tt
  | d :: dbs => match close d with Some n => Throw (DbException n) | None => close_loop close dbs end
  end.
Definition closeDbs (close : string -> option Z) st : result unit * Life :=
  match close_loop close (l_dbs st) with
  | Throw x => (Throw x, st)
  | Ret _ => (Ret tt, set_dbs [] st)
  end.

(** The six databases and whether they take duplicate keys, in the order of the
    [push_back] calls and of the [open] calls. *)
Definition store_dbs : list (string * bool) :=
  [("queues.db", false); ("config.db", false); ("exchanges.db", false); ("mappings.db", true);
   ("bindings.db", true); ("general.db", false)].

Fixpoint open_loop (open : string -> option Z) (dbs : list string) : result unit :=
  match dbs with
  | [] => Ret tt
  | d :: dbs => match open d with Some n => Throw (DbException n) | None => open_loop open dbs end
  end.

(** The [try] block of one attempt. *)
Definition attempt an st : result unit * Life :=
  match jdir.create_dir strerror (getBdbBaseDir (l_storeDir st)) (l_fs st) with
  | (Throw x, fs) => (Throw x, set_lfs fs st)
  | (Ret _, fs) =>
      match jdir.create_dir strerror (getAsyncEnvDir (l_storeDir st)) fs with
      | (Throw x, fs) => (Throw x, set_lfs fs st)
      | (Ret _, fs) =>
          let st := new_logger (set_lfs fs st) in
          match a_env_open an with
          | Some n => (Throw (DbException n), st)
          | None =>
              let st := set_dbs (l_dbs st ++ store_dbs.*1) st in
              let '(r, e) := TxnCtxt.with_txn (a_begin an) (a_commit an) false
                               (open_loop (a_open an) store_dbs.*1) (l_env st) in
              let st := set_lenv e st in
              match r with
              | Throw x => (Throw x, st)
              | Ret _ => (Ret tt, set_init true (num_thread_enqueue, num_thread_dequeue) st)
              end
          end
      end
  end.

Definition retryMax : Z := 3.

Definition mismatch_text : string :=
  "Database environment mismatch: This version of db4 does not match that which created" +:+
  "the store database. (If recovery is not important, delete the contents of the store directory." +:+
  "Otherwise, try upgrading the database using db_upgrade or using db_recover - but the db4-utils" +:+
  "package must also be installed to use these utilities.)".

(** The [do ... while (!isInit)] loop; [ans] gives the answers of attempt number 1, 2,
    and so on. [None] is a loop that is still running when the fuel is used up. *)
Fixpoint init_loop (fuel : nat) (bdbRetryCnt : Z) (ans : Z -> attempt_answers) st : option (result bool * Life) :=
  match fuel with
  | O => None
  | S fuel' =>
      let an := ans (bdbRetryCnt + 1) in
      let '(rc, st) := if 0 <? bdbRetryCnt then closeDbs (a_close an) st else (Ret tt, st) in
      let bdbRetryCnt := bdbRetryCnt + 1 in
      match rc with
      | Throw x => Some (Throw x, st)
      | Ret _ =>
          match attempt an st with
          | (Ret _, st) => Some (Ret true, st)
          | (Throw (DbException n), st) =>
              if n =? DB_VERSION_MISMATCH then Some (Throw (StoreException mismatch_text), st)
              else if retryMax <=? bdbRetryCnt
              then Some (Throw (StoreException "BDB exception occurred while initializing store"), st)
              else init_loop fuel' bdbRetryCnt ans st
          | (Throw (JException x), st) =>
              Some (Throw (StoreException "Journal Exception occurred while initializing store"), st)
          | (Throw x, st) => Some (Throw x, st)
          end
      end
  end.

(** The directory that [init] works in. *)
Definition choose_dir (dir : string) st : Life :=
  let st := if negb (String.eqb dir "") then set_dir dir st else st in
  if String.eqb (l_storeDir st) "" then set_dir home st else st.

(** [init(dir,false)] *)
Definition init_plain (fuel : nat) (ans : Z -> attempt_answers) (dir : string) st : option (result bool * Life) :=
  if l_isInit st then Some (Ret true, st) else init_loop fuel 0 ans (choose_dir dir st).

(** [init(const qpid::Options* )]: the options but the directory are not passed on. *)
Definition init_options (fuel : nat) (ans : Z -> attempt_answers) st : option (result bool * Life) :=
  init_plain fuel ans (o_storeDir (l_options st)) st.

(** [truncateInit]: [queues] is the number of journals, [close] answers the calls of
    [closeDbs]. *)
Definition truncateInit (fuel : nat) (close : string -> option Z) (ans : Z -> attempt_answers) (queues : nat) st :
    option (result unit * Life) :=
  let again st := match init_options fuel ans st with
                  | Some (Ret _, st) => Some (Ret tt, st)
                  | Some (Throw x, st) => Some (Throw x, st)
                  | None => None
                  end in
  if l_isInit st then
    if (0 <? queues)%nat then
      Some (Throw (StoreException ("truncateInit() called with " +:+ pretty (Z.of_nat queues) +:+
                                   " queues still in existence")), st)
    else match closeDbs close st with
         | (Throw x, st) => Some (Throw x, st)
         | (Ret _, st) => again (set_init false (l_pools st) st)
         end
  else again st.

(** [init(dir,truncateFlag)] *)
Definition init (fuel : nat) (ans : Z -> attempt_answers) (dir : string) (truncate : bool) st :
    option (result bool * Life) :=
  if l_isInit st then Some (Ret true, st)
  else if truncate then
    match truncateInit fuel (fun _ => None) ans 0 (choose_dir dir st) with
    | Some (Ret _, st) => Some (Ret (l_isInit st), st)
    | Some (Throw x, st) => Some (Throw x, st)
    | None => None
    end
  else init_loop fuel 0 ans (choose_dir dir st).

(** [checkInit()] *)
Definition checkInit (fuel : nat) (ans : Z -> attempt_answers) st : option (result unit * Life) :=
  if l_isInit st then Some (Ret tt, st)
  else match init fuel ans "/tmp" false st with
       | Some (Ret _, st) => Some (Ret tt, set_init true (l_pools st) st)
       | Some (Throw x, st) => Some (Throw x, st)
       | None => None
       end.

(** [earlyInitialize(target)] for a target that is the message store plugin: whether
    [providerAvailable] was called. [dataDir] is the broker's data directory when it is
    enabled. The handler is for [qpid::Exception]; [StoreException] and [jexception]
    derive from [std::exception] and [DbException] is Berkeley DB's, so it catches none
    of the exceptions that are thrown here. *)
Definition early_dir (dataDir : option string) st : result Life :=
  if String.eqb (o_storeDir (l_options st)) "" then
    match dataDir with
    | None => Throw (StoreException ("bdbmsgstore: If --data-dir is blank or --no-data-dir is specified, " +:+
                                     "--store-dir must be present."))
    | Some d => Ret (set_options (set_option_dir d (l_options st)) st)
    end
  else Ret st.
Definition is_qpid_Exception (x : exn) : bool :=
  match x with DbException _ | StoreException _ | JException _ | Undefined _ => false end.
Definition earlyInitialize (fuel : nat) (ans : Z -> attempt_answers) (dataDir : option string) st :
    option (result bool * Life) :=
  let handler x st := Some (if is_qpid_Exception x then Ret false else Throw x, st) in
  match early_dir dataDir st with
  | Throw x => handler x st
  | Ret st =>
      match init_options fuel ans st with
      | Some (Ret b, st) => Some (Ret b, st)
      | Some (Throw x, st) => handler x st
      | None => None
      end
  end.

(** ** The log files of the databases *)

(** One turn of [deleteUnusedLog]: the answers to [txn_checkpoint] and [log_archive],
    and for each file that of [remove]. The number of files deleted. *)
Fixpoint remove_loop (remove : string -> Z) (files : list string) (log_count : Z) : result Z :=
  match files with
  | [] => Ret log_count
  | f :: files =>
      if negb (remove f =? 0) then Throw (StoreException "Error removing unused log files")
      else remove_loop remove files (log_count + 1)
  end.
Definition delete_pass (checkpoint : Z) (archive : Z + list string) (remove : string -> Z) : result Z :=
  if negb (checkpoint =? 0) then Throw (StoreException "Error generating a checkpoint")
  else match archive with
       | inl _ => Throw (StoreException "Error getting unused log files")
       | inr files => remove_loop remove files 0
       end.

(** ** The end *)

(** The part of [finalizeMe] that is about the store's own objects, and the destructor. *)
Definition finalize_life st : Life :=
  mkLife (l_isInit st) true (l_storeDir st) (l_options st) (l_dbs st) None
    (match l_aologger st with Some k => filter (fun n => n <> k) (l_loggers st) | None => l_loggers st end)
    (l_made st) (l_pools st) (l_num_jfiles st) (l_env st) (l_fs st).
Definition destructor (close : string -> option Z) st : Life :=
  (closeDbs close (if l_finalized st then st else finalize_life st)).2.

End lifecycle.

(** The part of [finalizeMe] that is about the messages: the tracker is stopped, the
    waiting tasks are dropped, the journals are forgotten. The tasks that run end
    before it, and the files of the logs stay as they are. *)
Section finalize.
Context `{HostEndian, HostAlloc, Framing, BT : !BTree bt_compare}.

Definition finalizeMe (pv : Provider) : Provider :=
  mkProv (isInit pv) (enableSmartAsync pv) (messageIdSequence pv) (PidTracker.stop (tracker pv)) (aologger pv) ∅
    (world pv) [] [].

(** [journalDeleted(j)] *)
Definition journalDeleted (j : JournalImpl) (pv : Provider) : Provider :=
  mkProv (isInit pv) (enableSmartAsync pv) (messageIdSequence pv) (tracker pv) (aologger pv)
    (delete (queuePid j) (journalList pv)) (world pv) (enqueuePool pv) (dequeuePool pv).
End finalize.
