(* ===== verification/LifecycleSpec.v ===== *)
(** The start and the end of the provider: the start ends after at most three attempts,
    a provider registers itself initialised or throws, truncating keeps the store, and a
    shutdown can wait for ever. *)
From S2P Require Import Prelude Format Jerrno IdSequence NestedMap PidTracker PendingOps LogFormat LogExtract AsyncLog.
From S2P Require Import Bdb TxnCtxt Framing Journal Posix Jdir Provider Lifecycle ThreadPool PoolSpec PoolLive PoolExamples.
From Stdlib Require Import ZArith Lia.

Section spec.
Variables (strerror : errno -> string) (home : string) (DB_VERSION_MISMATCH : Z).
Implicit Types (st : Life) (an : attempt_answers) (ans : Z -> attempt_answers).

Abbreviation init_loop := (init_loop strerror DB_VERSION_MISMATCH).
Abbreviation attempt := (attempt strerror).

(** What an attempt leaves behind. *)
Lemma attempt_spec an st r st' :
  attempt an st = (r, st') ->
  (l_made st' <= S (l_made st))%nat /\
  match r with
  | Ret _ => l_isInit st' = true /\ l_pools st' = (num_thread_enqueue, num_thread_dequeue) /\
             l_dbs st' = l_dbs st ++ store_dbs.*1 /\ l_aologger st' = Some (l_made st)
  | Throw _ => l_isInit st' = l_isInit st
  end.
Proof.
  unfold Lifecycle.attempt. destruct (jdir.create_dir _ _ _) as [[?|?] fs]; [|intros [= <- <-]; simpl; split; [lia|done]].
  destruct (jdir.create_dir _ _ _) as [[?|?] fs']; [|intros [= <- <-]; simpl; split; [lia|done]].
  destruct (a_env_open an); [intros [= <- <-]; simpl; split; [lia|done]|].
  destruct (TxnCtxt.with_txn _ _ _ _ _) as [[?|?] e]; intros [= <- <-]; simpl; split; try lia; done.
Qed.

Lemma closeDbs_spec close st r st' :
  closeDbs close st = (r, st') ->
  l_made st' = l_made st /\ l_isInit st' = l_isInit st /\ match r with Ret _ => l_dbs st' = [] | Throw _ => True end.
Proof. unfold closeDbs. destruct (close_loop _ _); intros [= <- <-]; done. Qed.

Lemma init_loop_ends fuel cnt ans st :
  0 <= cnt < 3 -> (Z.to_nat (3 - cnt) <= fuel)%nat -> (cnt = 0 -> l_dbs st = []) ->
  exists r st', init_loop fuel cnt ans st = Some (r, st') /\
    (l_made st' <= l_made st + Z.to_nat (3 - cnt))%nat /\
    match r with
    | Ret b => b = true /\ l_isInit st' = true /\ l_pools st' = (num_thread_enqueue, num_thread_dequeue) /\
               l_dbs st' = store_dbs.*1 /\ is_Some (l_aologger st')
    | Throw _ => l_isInit st' = l_isInit st
    end.
Proof.
  revert cnt st. induction fuel as [|fuel IH]; intros cnt st Hc Hf Hd; [lia|]. cbn [Lifecycle.init_loop].
  destruct (if 0 <? cnt then _ else _) as [rc st1] eqn:Ec.
  assert (H1 : l_made st1 = l_made st /\ l_isInit st1 = l_isInit st /\ (rc = Ret tt -> l_dbs st1 = [])).
  { destruct (Z.ltb_spec 0 cnt).
    - apply closeDbs_spec in Ec as (-> & -> & Hr). split_and!; [done|done|]. by intros ->.
    - injection Ec as <- <-. split_and!; [done|done|]. intros _. apply Hd. lia. }
  destruct H1 as (M1 & I1 & D1). destruct rc as [[]|x]; [|eexists _, _; split; [done|]; split; [lia|done]].
  specialize (D1 eq_refl). destruct (attempt (ans (cnt + 1)) st1) as [r st2] eqn:Ea.
  apply attempt_spec in Ea as [M2 R2]. destruct r as [[]|x].
  { destruct R2 as (R2 & R3 & R4 & R5). eexists _, _. split; [done|]. split; [lia|]. rewrite R4, D1, R5. eauto. }
  destruct x as [n|t|x|u]; try (eexists _, _; split; [done|]; split; [lia|congruence]).
  destruct (n =? DB_VERSION_MISMATCH); [eexists _, _; split; [done|]; split; [lia|congruence]|].
  unfold retryMax. destruct (Z.leb_spec 3 (cnt + 1)); [eexists _, _; split; [done|]; split; [lia|congruence]|].
  destruct (IH (cnt + 1) st2) as (r & st3 & -> & M3 & R3); [lia|lia|lia|].
  eexists _, _. split; [done|]. split; [lia|]. destruct r; [done|congruence].
Qed.

Lemma choose_dir_same dir st :
  let st' := choose_dir home dir st in
  l_dbs st' = l_dbs st /\ l_isInit st' = l_isInit st /\ l_made st' = l_made st /\ l_fs st' = l_fs st.
Proof. unfold choose_dir. by destruct (String.eqb dir ""); simpl; destruct (String.eqb _ ""). Qed.

(** C26: whatever Berkeley DB and the file system answer, [init] on a provider
    that is not initialised ends after at most three attempts: either with [true], and
    then the provider is initialised, the six databases are in its list, it has a logger
    and two pools of two threads; or with an exception, and then it is not initialised. A
    second [init] changes nothing. *)
Theorem start_ends fuel ans dir st :
  (3 <= fuel)%nat -> l_isInit st = false -> l_dbs st = [] ->
  exists r st', init_plain strerror home DB_VERSION_MISMATCH fuel ans dir st = Some (r, st') /\
    (l_made st' <= l_made st + 3)%nat /\
    match r with
    | Ret b => b = true /\ l_isInit st' = true /\ l_pools st' = (2, 2) /\ l_dbs st' = store_dbs.*1 /\
               is_Some (l_aologger st') /\
               forall fuel' ans' dir', init_plain strerror home DB_VERSION_MISMATCH fuel' ans' dir' st' = Some (Ret true, st')
    | Throw _ => l_isInit st' = false
    end.
Proof.
  intros Hf Hi Hd. unfold init_plain. rewrite Hi. destruct (choose_dir_same dir st) as (E1 & E2 & E3 & _).
  destruct (init_loop_ends fuel 0 ans (choose_dir home dir st)) as (r & st' & -> & M & R); [lia|lia|congruence|].
  exists r, st'. split; [done|]. split; [simpl in M; lia|]. destruct r as [b|x]; [|congruence].
  destruct R as (-> & R1 & R2 & R3 & R4). split_and!; try done. intros. by rewrite R1.
Qed.


(** *** Truncation *)

(** Whatever is in the file system stays there. *)
Definition keeps (fs fs' : Fs) : Prop := forall q n, node_at fs q = Some n -> node_at fs' q = Some n.

Lemma keeps_refl fs : keeps fs fs.
Proof. by intros q n. Qed.
#[local] Hint Resolve keeps_refl : core.

Lemma keeps_trans fs1 fs2 fs3 : keeps fs1 fs2 -> keeps fs2 fs3 -> keeps fs1 fs3.
Proof. intros H1 H2 q n Hq. by apply H2, H1. Qed.

Lemma walk_snoc fs a p c n :
  walk fs a p = inr n -> walk fs a (p ++ [c]) = inl ENOENT -> node_at fs (a ++ p ++ [c]) = None.
Proof.
  revert a. induction p as [|x p IH]; intros a; cbn [walk app].
  - destruct (node_at fs a) as [[]|]; try done. intros _. by destruct (node_at fs (a ++ [c])) as [[]|].
  - destruct (node_at fs a) as [[]|]; try done. intros H1 H2. rewrite cons_middle, app_assoc. by apply IH.
Qed.

Lemma mkdir_keeps fs s : keeps fs (mkdir fs s).2.
Proof.
  unfold mkdir. destruct (String.eqb s ""); [done|]. destruct (walk fs [] (resolve fs s)) as [e|n] eqn:Ew; [|done].
  destruct e; try done. destruct (holder fs (resolve fs s)) as [e|p] eqn:Eh; [done|]. simpl.
  destruct (resolve fs s) as [|c p' _] using rev_ind; [done|].
  unfold holder, parent in Eh. rewrite removelast_last in Eh.
  destruct (walk fs [] p') as [e|n] eqn:Ep; [done|]. pose proof (walk_snoc fs [] p' c n Ep Ew) as Hn. simpl in Hn.
  intros q m Hq. unfold node_at. simpl. destruct q as [|x q]; [done|].
  rewrite lookup_insert_ne; [done|]. intros E. rewrite E in Hn. congruence.
Qed.

Lemma create_dir_keeps s fs : keeps fs (jdir.create_dir strerror s fs).2.
Proof.
  unfold jdir.create_dir. generalize (S (String.length s)). intros fuel. revert s fs.
  induction fuel as [|fuel IH]; intros s fs; [done|]. cbn [jdir.create_dir_loop].
  destruct (match before_last_slash s with None => _ | Some _ => _ end) as [r fs1] eqn:E.
  assert (Hp : keeps fs fs1).
  { destruct (before_last_slash s) as [a|]; [|by injection E as _ <-].
    destruct (jdir.exists_ _ _ _) as [[]|]; try by injection E as _ <-.
    specialize (IH a fs). by rewrite E in IH. }
  destruct r as [[]|x]; [|done]. pose proof (mkdir_keeps fs1 s) as Hm. destruct (mkdir fs1 s) as [e fs2]. simpl in Hm.
  assert (keeps fs fs2) by (by eapply keeps_trans). by destruct e as [[]|].
Qed.

Lemma attempt_keeps an st : keeps (l_fs st) (l_fs (attempt an st).2).
Proof.
  unfold Lifecycle.attempt. pose proof (create_dir_keeps (getBdbBaseDir (l_storeDir st)) (l_fs st)) as H1.
  destruct (jdir.create_dir _ _ _) as [[?|?] fs]; [|done]. simpl in H1.
  pose proof (create_dir_keeps (getAsyncEnvDir (l_storeDir st)) fs) as H2.
  destruct (jdir.create_dir _ _ _) as [[?|?] fs']; [|by eapply keeps_trans]. simpl in H2.
  assert (H3 : keeps (l_fs st) fs') by (by eapply keeps_trans).
  destruct (a_env_open an); [done|]. by destruct (TxnCtxt.with_txn _ _ _ _ _) as [[?|?] e].
Qed.

Lemma closeDbs_fs close st : l_fs (closeDbs close st).2 = l_fs st.
Proof. unfold closeDbs. by destruct (close_loop _ _). Qed.

Lemma init_loop_keeps fuel cnt ans st r st' : init_loop fuel cnt ans st = Some (r, st') -> keeps (l_fs st) (l_fs st').
Proof.
  revert cnt st. induction fuel as [|fuel IH]; intros cnt st; cbn [Lifecycle.init_loop]; [done|].
  destruct (if 0 <? cnt then _ else _) as [rc st1] eqn:Ec.
  assert (E1 : l_fs st1 = l_fs st).
  { destruct (0 <? cnt); [|by injection Ec as <- <-]. rewrite <- (closeDbs_fs (a_close (ans (cnt + 1))) st). by rewrite Ec. }
  destruct rc as [u|x]; [|intros [= <- <-]; by rewrite E1].
  pose proof (attempt_keeps (ans (cnt + 1)) st1) as Hk. rewrite E1 in Hk.
  destruct (attempt (ans (cnt + 1)) st1) as [[?|x] st2]; simpl in Hk; [by intros [= <- <-]|].
  destruct x as [n|t|x|u']; try by intros [= <- <-].
  destruct (n =? DB_VERSION_MISMATCH); [by intros [= <- <-]|]. destruct (retryMax <=? cnt + 1); [by intros [= <- <-]|].
  intros Hr. eapply keeps_trans; [done|]. by eapply IH.
Qed.

(** Truncating deletes nothing. Whatever the databases answer,
    every file and directory that was there before [truncateInit] is there after it, so
    the restart that follows reads the store that was to be discarded. *)
Theorem truncate_keeps_store fuel close ans queues st r st' :
  truncateInit strerror home DB_VERSION_MISMATCH fuel close ans queues st = Some (r, st') ->
  keeps (l_fs st) (l_fs st').
Proof.
  unfold truncateInit, init_options, init_plain.
  assert (Hagain : forall s0, l_fs s0 = l_fs st -> l_isInit s0 = false ->
    match (if l_isInit s0 then Some (Ret true, s0)
           else init_loop fuel 0 ans (choose_dir home (o_storeDir (l_options s0)) s0)) with
    | Some (Ret _, s1) => Some (Ret tt, s1)
    | Some (Throw x, s1) => Some (Throw x, s1)
    | None => None
    end = Some (r, st') -> keeps (l_fs st) (l_fs st')).
  { intros s0 Hs Hi0. rewrite Hi0. destruct (choose_dir_same (o_storeDir (l_options s0)) s0) as (_ & _ & _ & E4).
    destruct (init_loop fuel 0 ans _) as [[[b|x] s1]|] eqn:El; [| |done]; apply init_loop_keeps in El;
      rewrite E4, Hs in El; by intros [= <- <-]. }
  destruct (l_isInit st) eqn:Hi.
  - destruct (0 <? queues)%nat; [by intros [= <- <-]|].
    pose proof (closeDbs_fs close st) as Hc. destruct (closeDbs close st) as [[u|x] s1]; simpl in Hc.
    + by apply Hagain.
    + intros [= <- <-]. by rewrite Hc.
  - specialize (Hagain st eq_refl Hi). by rewrite Hi in Hagain.
Qed.

End spec.

(** ** Shutdown *)

(** A thread that looks at a stopped tracker for a message that is not stored goes to
    sleep without a look at [stopped]; only a wake-up would make it return. *)
Lemma late_waiter pid qid (t t' : PidTracker) :
  PidTracker.lastPid (PidTracker.mainRecord t) < pid -> PidTracker.qm_mem (PidTracker.dupMap t) qid pid = false ->
  PidTracker.stopped t' = true ->
  PidTracker.waitForPid pid qid [t; t] = None /\ PidTracker.waitForPid pid qid [t; t; t'] = Some (-2).
Proof.
  intros Hl Hd Hs. unfold PidTracker.waitForPid. cbn [PidTracker.wait_dup]. rewrite Hd. cbn [Z.ltb Z.compare PidTracker.wait_main].
  rewrite (proj2 (Z.ltb_lt _ _) Hl), Hs. done.
Qed.

#[local] Existing Instance fifo_scheduler.

(** The dequeue pool as [finalizeMe] leaves it: one worker in the task of message
    [(q,p)], nothing waiting, and the thread of [finalizeMe] asleep in [wait(0)]. *)
Definition shutdown_pool (q p : Z) : tsys (Z * Z) :=
  mkSys (mkPool (H := fifo_scheduler (Z * Z)) 1 1 1 [] false []) [WRun (q, p)] [mkClient [] false; mkClient [OWait 0] true].

(** A task ends when its [waitForPid] does; after [stop] nothing wakes it up. *)
Definition task_ends (t : PidTracker) (qp : Z * Z) : Prop :=
  is_Some (PidTracker.waitForPid qp.2 qp.1 [t; t]).

(** The worker takes the task, [finalizeMe] stops the tracker and clears the pool, and
    then the task looks at the tracker. *)
Definition shutdown_run (q p : Z) : list (action (Z * Z)) :=
  [AEnter 0; AClient [OSched (q, p)]; ACall 0 0 0; AWake 0; AClient [OClear; OWait 0]; ACall 0 0 1; ACall 0 0 1].



(** ** Concrete starts *)

Definition grant : attempt_answers := mkAttempt (fun _ => None) None BeginOk (fun _ => None) None.
Definition refuse (n : Z) : attempt_answers := mkAttempt (fun _ => None) (Some n) BeginOk (fun _ => None) None.
Definition life_fs : Fs := mkFs {[["s"] := Dir; ["s"; "old"] := Reg]} [] (fun _ => false).
Definition life0 : Life := BdbStoreProvider (set_option_dir "/s" default_options) (mkEnv 0 [] false) life_fs.
Definition quiet (e : errno) : string := "".

Lemma start_ends_witness :
  exists r st', init_plain quiet "/root" (-30969) 3 (fun _ => grant) "/s" life0 = Some (r, st') /\
    (l_made st' <= l_made life0 + 3)%nat /\
    match r with
    | Ret b => b = true /\ l_isInit st' = true /\ l_pools st' = (2, 2) /\ l_dbs st' = store_dbs.*1 /\
               is_Some (l_aologger st') /\
               forall fuel' ans' dir', init_plain quiet "/root" (-30969) fuel' ans' dir' st' = Some (Ret true, st')
    | Throw _ => l_isInit st' = false
    end.
Proof. apply start_ends; [lia|reflexivity|reflexivity]. Defined.


(** Without a directory, and with an environment that cannot be opened, the exception
    reaches the broker. *)
Example failed_start_escapes :
  match earlyInitialize quiet "/root" (-30969) 3 (fun _ => grant) None
          (BdbStoreProvider default_options (mkEnv 0 [] false) life_fs) with
  | Some (Throw (StoreException _), _) => true | _ => false
  end = true /\
  match earlyInitialize quiet "/root" (-30969) 3 (fun _ => refuse 12) None life0 with
  | Some (Throw x, _) => Some x | _ => None
  end = Some (StoreException "BDB exception occurred while initializing store").
Proof. split; vm_compute; reflexivity. Qed.

(** The first two attempts fail, the third succeeds: three loggers were made and one is
    pointed at; the end deletes that one only. *)
Definition third_time (k : Z) : attempt_answers := if k <? 3 then refuse 12 else grant.
Definition life_retried : option (result bool * Life) :=
  init_options quiet "/root" (-30969) 3 third_time life0.

Example retry_leaks_loggers :
  match life_retried with
  | Some (Ret true, st) => Some (l_aologger st, l_loggers st, l_loggers (finalize_life st))
  | _ => None
  end = Some (Some 2%nat, [0%nat; 1%nat; 2%nat], [0%nat; 1%nat]).
Proof. vm_compute. reflexivity. Qed.

(** A mismatch of versions is not tried again, and the fourth attempt is never made. *)
Example start_failures :
  match init_options quiet "/root" (-30969) 9 (fun _ => refuse (-30969)) life0 with
  | Some (Throw x, st) => Some (x, l_made st)
  | _ => None
  end = Some (StoreException mismatch_text, 1%nat) /\
  match init_options quiet "/root" (-30969) 9 (fun _ => refuse 12) life0 with
  | Some (Throw x, st) => Some (x, l_made st)
  | _ => None
  end = Some (StoreException "BDB exception occurred while initializing store", 3%nat).
Proof. split; vm_compute; reflexivity. Qed.

(** Truncating an initialised store without queues. *)
Definition life_started : Life :=
  match init_options quiet "/root" (-30969) 3 (fun _ => grant) life0 with Some (_, st) => st | None => life0 end.
Definition life_truncated : option (result unit * Life) :=
  truncateInit quiet "/root" (-30969) 3 (fun _ => None) (fun _ => grant) 0 life_started.
Definition life_after : Life := match life_truncated with Some (_, st) => st | None => life_started end.

Lemma life_truncated_ret : life_truncated = Some (Ret tt, life_after).
Proof.
  assert (E : match life_truncated with Some (Ret _, _) => true | _ => false end = true) by (vm_compute; reflexivity).
  unfold life_after. destruct life_truncated as [[[[]|x] st]|]; done.
Qed.

Lemma truncate_keeps_store_witness :
  keeps (l_fs life_started) (l_fs life_after) /\ node_at (l_fs life_started) ["s"; "old"] = Some Reg.
Proof.
  split; [|vm_compute; reflexivity].
  apply (truncate_keeps_store quiet "/root" (-30969) 3 (fun _ => None) (fun _ => grant) 0 life_started (Ret tt)).
  exact life_truncated_ret.
Defined.

(** --truncate is not looked at: the start is the same with and without it. *)
Example truncate_option_ignored :
  let yes := mkOptions "" "/s" true true false "" "" "" "" 120 120 0 0 true in
  match init_options quiet "/root" (-30969) 3 (fun _ => grant) (BdbStoreProvider yes (mkEnv 0 [] false) life_fs) with
  | Some (r, st) => Some (r, node_at (l_fs st) ["s"; "old"])
  | None => None
  end = Some (Ret true, Some Reg).
Proof. vm_compute. reflexivity. Qed.

(** The log eraser stops at the first file it cannot remove. *)
Example eraser_pass :
  delete_pass 0 (inr ["log.1"; "log.2"]) (fun _ => 0) = Ret 2 /\
  delete_pass 0 (inr ["log.1"; "log.2"]) (fun f => if String.eqb f "log.2" then 2 else 0) =
    Throw (StoreException "Error removing unused log files").
Proof. split; reflexivity. Qed.
