(* ===== verification/Options.v ===== *)
(** The options of the store: the table that the constructor of [StoreOptions] in
    lib/StoreOptions.h hands to the option library, which names an option and the field it
    sets. Parsing a value is the library's: [parse_bool] and [parse_int] are parameters, and
    [None] is its refusal. *)
From S2P Require Import Prelude Format Jerrno Bdb Posix Jdir Lifecycle.
From Stdlib Require Import ZArith Lia.

(** ** The fields *)

Definition set_storeDir (x : string) (o : StoreOptions) : StoreOptions := set_option_dir x o.
Definition set_truncate (x : bool) (o : StoreOptions) : StoreOptions :=
  mkOptions (clusterName o) (o_storeDir o) x (compactFlag o) (o_enableAcceptRecoveryFlag o)
    (acceptRecoveryMongoHost o) (acceptRecoveryMongoPort o) (acceptRecoveryMongoDb o) (acceptRecoveryMongoCollection o)
    (enqLogCleanerTimeInterval o) (deqLogCleanerTimeInterval o) (enqLogCleanerWarningSize o)
    (deqLogCleanerWarningSize o) (o_enableSmartAsync o).
Definition set_compact (x : bool) (o : StoreOptions) : StoreOptions :=
  mkOptions (clusterName o) (o_storeDir o) (truncateFlag o) x (o_enableAcceptRecoveryFlag o)
    (acceptRecoveryMongoHost o) (acceptRecoveryMongoPort o) (acceptRecoveryMongoDb o) (acceptRecoveryMongoCollection o)
    (enqLogCleanerTimeInterval o) (deqLogCleanerTimeInterval o) (enqLogCleanerWarningSize o)
    (deqLogCleanerWarningSize o) (o_enableSmartAsync o).
(** The four numbers of the cleaners: the intervals and the sizes. *)
Definition set_cleaner (ei di es ds : Z) (o : StoreOptions) : StoreOptions :=
  mkOptions (clusterName o) (o_storeDir o) (truncateFlag o) (compactFlag o) (o_enableAcceptRecoveryFlag o)
    (acceptRecoveryMongoHost o) (acceptRecoveryMongoPort o) (acceptRecoveryMongoDb o) (acceptRecoveryMongoCollection o)
    ei di es ds (o_enableSmartAsync o).
Definition set_smart (x : bool) (o : StoreOptions) : StoreOptions :=
  mkOptions (clusterName o) (o_storeDir o) (truncateFlag o) (compactFlag o) (o_enableAcceptRecoveryFlag o)
    (acceptRecoveryMongoHost o) (acceptRecoveryMongoPort o) (acceptRecoveryMongoDb o) (acceptRecoveryMongoCollection o)
    (enqLogCleanerTimeInterval o) (deqLogCleanerTimeInterval o) (enqLogCleanerWarningSize o)
    (deqLogCleanerWarningSize o) x.

Section options.
Variables (parse_bool : string -> option bool) (parse_int : string -> option Z).
Implicit Types (o : StoreOptions) (name value : string).

(** ** The table *)

(** A value for one of the options; the five options of accept recovery are commented out in
    the source. *)
Definition addOptions : list (string * (string -> StoreOptions -> option StoreOptions)) :=
  [("store-dir", fun v o => Some (set_storeDir v o));
   ("truncate", fun v o => (fun b => set_truncate b o) <$> parse_bool v);
   ("bdbstore-compact", fun v o => (fun b => set_compact b o) <$> parse_bool v);
   ("enq_clean_interval", fun v o => (fun n => set_cleaner n (deqLogCleanerTimeInterval o) (enqLogCleanerWarningSize o)
                                                 (deqLogCleanerWarningSize o) o) <$> parse_int v);
   ("enq_clean_warning_size", fun v o => (fun n => set_cleaner (enqLogCleanerTimeInterval o) (deqLogCleanerTimeInterval o) n
                                                     (deqLogCleanerWarningSize o) o) <$> parse_int v);
   ("deq_clean_interval", fun v o => (fun n => set_cleaner (enqLogCleanerTimeInterval o) n (enqLogCleanerWarningSize o)
                                                 (deqLogCleanerWarningSize o) o) <$> parse_int v);
   ("deq_clean_warning_size", fun v o => (fun n => set_cleaner (enqLogCleanerTimeInterval o) (deqLogCleanerTimeInterval o)
                                                     (enqLogCleanerWarningSize o) n o) <$> parse_int v);
   ("enable_smart_async", fun v o => (fun b => set_smart b o) <$> parse_bool v)].

(** One option with its value, and a whole command line; [None] for an option that is not in
    the table or a value that cannot be read. *)
Definition set_option name value o : option StoreOptions :=
  match List.find (fun e => String.eqb name e.1) addOptions with
  | Some (_, set) => set value o
  | None => None
  end.
Fixpoint set_options (args : list (string * string)) o : option StoreOptions :=
  match args with
  | [] => Some o
  | (name, value) :: args =>
      match set_option name value o with Some o' => set_options args o' | None => None end
  end.

(** ** What the options can do *)

(** Going through the table. *)
Lemma set_option_cases name value o (P : option StoreOptions -> Prop) :
  P None -> Forall (fun e => P (e.2 value o)) addOptions -> P (set_option name value o).
Proof.
  intros Hn Ha. unfold set_option. destruct (List.find _ addOptions) as [[n f]|] eqn:E; [|done].
  apply find_some in E as [Hin _]. rewrite Forall_forall in Ha. specialize (Ha (n, f)). apply Ha. by apply list_elem_of_In.
Qed.

(** No option is there twice. *)
Lemma option_names_distinct : NoDup addOptions.*1.
Proof. apply (bool_decide_unpack _). vm_compute. exact I. Qed.

Definition same_recovery o o' : Prop :=
  clusterName o' = clusterName o /\ o_enableAcceptRecoveryFlag o' = o_enableAcceptRecoveryFlag o /\
  acceptRecoveryMongoHost o' = acceptRecoveryMongoHost o /\ acceptRecoveryMongoPort o' = acceptRecoveryMongoPort o /\
  acceptRecoveryMongoDb o' = acceptRecoveryMongoDb o /\ acceptRecoveryMongoCollection o' = acceptRecoveryMongoCollection o.

Lemma set_option_recovery name value o o' : set_option name value o = Some o' -> same_recovery o o'.
Proof.
  apply (set_option_cases name value o (fun r => r = Some o' -> same_recovery o o')); [done|].
  unfold addOptions. repeat (apply Forall_cons; split); [..|apply Forall_nil_2]; cbn [snd]; intros E; try (apply fmap_Some in E as (x & _ & ->)); try (injection E as <-); by split_and!.
Qed.

(** Whatever is given on the command line, messages are not looked up in the database of
    accepted messages: no option reaches the flag, and it is off by default. So the restart
    always runs without accept recovery. *)
Theorem accept_recovery_unreachable args o :
  set_options args default_options = Some o -> same_recovery default_options o /\ o_enableAcceptRecoveryFlag o = false.
Proof.
  assert (G : forall o0, set_options args o0 = Some o -> same_recovery o0 o).
  { induction args as [|[name value] args IH]; intros o0; cbn [set_options]; [intros [= <-]; by split_and!|].
    destruct (set_option name value o0) as [o1|] eqn:E; [|done]. intros (I1 & I2 & I3 & I4 & I5 & I6)%IH.
    apply set_option_recovery in E as (E1 & E2 & E3 & E4 & E5 & E6). split_and!; congruence. }
  intros Ho%G. split; [done|]. destruct Ho as (_ & -> & _). done.
Qed.

(** Every option sets a field of its own: the order of two different ones does not matter,
    refusals included. *)
Theorem options_commute n1 v1 n2 v2 o :
  n1 <> n2 -> set_options [(n1, v1); (n2, v2)] o = set_options [(n2, v2); (n1, v1)] o.
Proof.
  intros Hne. cbn [set_options]. unfold set_option.
  destruct (List.find (fun e => String.eqb n1 e.1) addOptions) as [[m1 f1]|] eqn:E1;
    destruct (List.find (fun e => String.eqb n2 e.1) addOptions) as [[m2 f2]|] eqn:E2; [|by case_match..|done].
  apply find_some in E1 as [H1 M1%String.eqb_eq]. apply find_some in E2 as [H2 M2%String.eqb_eq]. simpl in M1, M2. subst m1 m2.
  cbn in H1, H2.
  repeat match goal with H : _ \/ _ |- _ => destruct H as [H|H] | H : False |- _ => destruct H end;
    injection H1 as <- <-; injection H2 as <- <-; try (by destruct Hne);
    destruct (parse_bool v1), (parse_bool v2), (parse_int v1), (parse_int v2); reflexivity.
Qed.

End options.

(** ** An example *)

Definition read_bool (s : string) : option bool :=
  if decide (s ∈ ["yes"; "true"; "1"]) then Some true else if decide (s ∈ ["no"; "false"; "0"]) then Some false else None.
Definition read_int (s : string) : option Z := Some (strtol 10 s 0).

Example options_read :
  (fun o => (o_storeDir o, enqLogCleanerTimeInterval o, deqLogCleanerTimeInterval o, o_enableSmartAsync o)) <$>
    set_options read_bool read_int [("store-dir", "/var"); ("enq_clean_interval", "50"); ("enable_smart_async", "no")]
      default_options = Some ("/var", 50, 120, false) /\
  set_options read_bool read_int [("enable_accept_recovery", "yes")] default_options = None.
Proof. split; vm_compute; reflexivity. Qed.

Lemma accept_recovery_unreachable_witness :
  exists o, set_options read_bool read_int [("enq_clean_interval", "50")] default_options = Some o /\
    o_enableAcceptRecoveryFlag o = false.
Proof.
  eexists. split; [vm_compute; reflexivity|].
  apply (accept_recovery_unreachable read_bool read_int [("enq_clean_interval", "50")]). vm_compute. reflexivity.
Defined.
