(* ===== verification/Background.v ===== *)
(** The background threads of the store: the two log cleaners and the eraser of old database
    logs, which [recoverMessages] of lib/BdbStoreProvider.cpp starts and [finalizeMe]
    interrupts and joins.

    The loops are [AsyncOperationLogger::cleanEnqueueLog] and [cleanDequeueLog], whose turns are
    timed here, and [deleteUnusedLog]. A thread can be interrupted only where it sleeps
    ([boost::this_thread::sleep]), so a pass that has begun is finished. *)
From S2P Require Import Prelude Format Jerrno NestedMap PendingOps LogFormat LogExtract AsyncLog LogSystem LogRecovery.
From S2P Require Import Bdb Posix Jdir Lifecycle.
From Stdlib Require Import ZArith Lia.

(** ** When a cleaner makes a pass *)

Definition min_clean_interval : Z := 30.

(** One turn of a loop, woken at [now]; [again] is the clock when it is read a second time for
    [last_exec]. The answer is whether a pass is made, and the new [last_exec]. *)
Definition clean_turn (intervalInSeconds warningSize last_exec now again tellp : Z) : bool * Z :=
  if clean_due (now - last_exec) intervalInSeconds tellp warningSize then (true, again) else (false, last_exec).

(** The turns of a thread, each with the clock when it wakes, the clock read again and the
    size of the log. *)
Fixpoint clean_turns (intervalInSeconds warningSize last_exec : Z) (turns : list (Z * Z * Z)) : list bool * Z :=
  match turns with
  | [] => ([], last_exec)
  | (now, again, tellp) :: turns =>
      let '(b, last_exec) := clean_turn intervalInSeconds warningSize last_exec now again tellp in
      let '(bs, last_exec) := clean_turns intervalInSeconds warningSize last_exec turns in
      (b :: bs, last_exec)
  end.

(** Turns on a clock that counts nothing but the sleeps, with a log of [size] bytes. *)
Definition idle_turn (start size : Z) (k : nat) : Z * Z * Z :=
  let t := start + min_clean_interval * Z.of_nat k in (t, t, size).
Definition idle_turns (start size : Z) (n : nat) : list (Z * Z * Z) := map (idle_turn start size) (seq 1 n).

(** The number of turns from one pass to the next. *)
Definition turns_between (intervalInSeconds : Z) : nat :=
  Z.to_nat (Z.max 1 ((intervalInSeconds + min_clean_interval - 1) / min_clean_interval)).

Lemma turns_between_spec i :
  let n := Z.of_nat (turns_between i) in 1 <= n /\ i <= min_clean_interval * n /\ (1 < n -> min_clean_interval * (n - 1) < i).
Proof.
  unfold turns_between, min_clean_interval. rewrite Z2Nat.id by lia. cbv zeta.
  pose proof (Z.div_mod (i + 30 - 1) 30 ltac:(lia)). pose proof (Z.mod_pos_bound (i + 30 - 1) 30 ltac:(lia)). lia.
Qed.

Lemma idle_turns_skip i w start size k n :
  size < w -> (forall m, (k < m <= k + n)%nat -> min_clean_interval * Z.of_nat m < i) ->
  clean_turns i w start (map (idle_turn start size) (seq (S k) n)) =
  (replicate n false, start).
Proof.
  intros Hs. revert k. induction n as [|n IH]; intros k Hi; [done|]. cbn [seq map clean_turns idle_turn].
  unfold clean_turn, clean_due. replace (start + min_clean_interval * Z.of_nat (S k) - start) with (min_clean_interval * Z.of_nat (S k)) by lia.
  rewrite (proj2 (Z.ltb_lt _ i)) by (apply Hi; lia). rewrite (proj2 (Z.ltb_lt size w)) by done. cbn [andb negb].
  rewrite IH; [done|]. intros m Hm. apply Hi. lia.
Qed.

Lemma clean_turns_app i w last ts ts' :
  clean_turns i w last (ts ++ ts') =
  let '(bs, last1) := clean_turns i w last ts in let '(bs', last2) := clean_turns i w last1 ts' in (bs ++ bs', last2).
Proof.
  revert last. induction ts as [|[[now again] tellp] ts IH]; intros last; simpl.
  { by destruct (clean_turns i w last ts'). }
  destruct (clean_turn _ _ _ _ _ _) as [b last1]. rewrite IH. destruct (clean_turns i w last1 ts) as [bs last2].
  by destruct (clean_turns i w last2 ts').
Qed.

(** A log that stays small is cleaned every [30 * ceil(interval / 30)] seconds, and at least
    every 30 seconds whatever the interval is: the interval is rounded up to a multiple of
    the sleep. *)
Theorem clean_period i w start size :
  size < w ->
  let n := turns_between i in
  clean_turns i w start (idle_turns start size n) = (replicate (n - 1) false ++ [true], start + min_clean_interval * Z.of_nat n).
Proof.
  intros Hs n. destruct (turns_between_spec i) as (N1 & N2 & N3). fold n in N1, N2, N3.
  assert (Es : seq 1 n = seq 1 (n - 1) ++ [n]).
  { replace n with (n - 1 + 1)%nat at 1 by lia. rewrite seq_app. simpl. by replace (S (n - 1)) with n by lia. }
  unfold idle_turns. rewrite Es, map_app, clean_turns_app.
  rewrite (idle_turns_skip i w start size 0 (n - 1)) by (done || (unfold min_clean_interval in *; lia)).
  cbn [map clean_turns idle_turn]. unfold clean_turn, clean_due.
  rewrite (proj2 (Z.ltb_ge _ i)) by lia. done.
Qed.

(** A log that has reached the warning size is cleaned at the next turn. *)
Theorem clean_when_large i w last now again tellp :
  w <= tellp -> clean_turn i w last now again tellp = (true, again).
Proof. intros Hw. unfold clean_turn, clean_due. rewrite (proj2 (Z.ltb_ge tellp w)) by done. by rewrite andb_false_r. Qed.

(** With the interval 50 the passes are 60 seconds apart. *)
Example clean_period_50 :
  clean_turns 50 1000 0 (idle_turns 0 10 6) = ([false; true; false; true; false; true], 180).
Proof. reflexivity. Qed.

(** ** The threads that are started *)

(** The three threads with the arguments that are bound to their functions. *)
Inductive background : Type :=
| EnqCleaner (intervalInSeconds warningSize : Z)
| DeqCleaner (intervalInSeconds warningSize : Z)
| Eraser.

Definition start_threads (o : StoreOptions) : list background :=
  [EnqCleaner (enqLogCleanerTimeInterval o) (enqLogCleanerWarningSize o);
   DeqCleaner (deqLogCleanerTimeInterval o) (deqLogCleanerWarningSize o); Eraser].

(** The eraser: each turn of its loop is a pass, with the answers of the database and of
    [remove], and a sleep of 300 seconds. Unlike the interruption of the sleep, an exception of
    a pass leaves the function of the thread, which ends the process. *)
Inductive erased : Type := Deleted (log_count : Z) | Terminate (x : exn).

Fixpoint eraser_loop (turns : list (Z * (Z + list string) * (string -> Z))) : list erased :=
  match turns with
  | [] => []
  | (checkpoint, archive, remove) :: turns =>
      match delete_pass checkpoint archive remove with
      | Ret n => Deleted n :: eraser_loop turns
      | Throw x => [Terminate x]
      end
  end.

(** Until it ends the process the eraser deletes every file it is told of; it ends it at the
    first answer that is not zero. *)
Theorem eraser_exact turns :
  match last (eraser_loop turns) with
  | Some (Terminate _) => exists c a r, (c, a, r) ∈ turns /\ (c <> 0 \/ (exists e, a = inl e) \/ exists fs f, a = inr fs /\ f ∈ fs /\ r f <> 0)
  | _ => Forall2 (fun t e => exists fs, t.1 = (0, inr fs) /\ (forall f, f ∈ fs -> t.2 f = 0) /\ e = Deleted (Z.of_nat (length fs)))
           turns (eraser_loop turns)
  end.
Proof.
  assert (Hr : forall (r : string -> Z) fs n, match remove_loop r fs n with
    | Ret m => (forall f, f ∈ fs -> r f = 0) /\ m = n + Z.of_nat (length fs)
    | Throw _ => exists f, f ∈ fs /\ r f <> 0 end).
  { intros r. induction fs as [|f fs IH]; intros n; cbn [remove_loop].
    { split; [intros f Hf; by apply not_elem_of_nil in Hf|simpl; lia]. }
    destruct (Z.eqb_spec (r f) 0) as [E|E]; cbn [negb]; [|exists f; split; [left|done]].
    specialize (IH (n + 1)). destruct (remove_loop r fs (n + 1)) as [m|x].
    - destruct IH as [I1 ->]. split; [|simpl length; lia]. intros g [->|Hg]%elem_of_cons; [done|by apply I1].
    - destruct IH as (g & Hg & Hx). exists g. split; [by right|done]. }
  induction turns as [|[[c a] r] turns IH]; [constructor|]. cbn [eraser_loop].
  destruct (delete_pass c a r) as [n|x] eqn:E.
  - assert (Hd : exists fs, (c, a) = (0, inr fs) /\ (forall f, f ∈ fs -> r f = 0) /\ n = Z.of_nat (length fs)).
    { unfold delete_pass in E. destruct (Z.eqb_spec c 0) as [->|]; [|done]. cbn [negb] in E. destruct a as [e|fs]; [done|].
      exists fs. specialize (Hr r fs 0). rewrite E in Hr. destruct Hr as [Hr1 Hr2]. by split_and!. }
    destruct Hd as (fs & E1 & E2 & ->). destruct (eraser_loop turns) as [|e es] eqn:El; [simpl|].
    + inversion IH. constructor; [by exists fs|done].
    + change (last (Deleted (Z.of_nat (length fs)) :: e :: es)) with (last (e :: es)).
      destruct (last (e :: es)) as [[m|x]|]; [constructor; [by exists fs|done]| |constructor; [by exists fs|done]].
      destruct IH as (c' & a' & r' & Hin & Hx). exists c', a', r'. split; [by right|done].
  - simpl. exists c, a, r. split; [left|]. unfold delete_pass in E. destruct (Z.eqb_spec c 0) as [->|]; [|by left].
    cbn [negb] in E. destruct a as [e|fs]; [right; left; by eexists|]. specialize (Hr r fs 0). rewrite E in Hr.
    destruct Hr as (f & Hf & Hx). right; right. by exists fs, f.
Qed.

(** ** A cleaner thread and its interruption *)

(** Where the thread is: in [sleep], between [sleep] and the pass, in a pass, or ended by the
    interruption. *)
Inductive cthread : Type := Sleeping | Awake | Working | Ended.
#[export] Instance cthread_eq_dec : EqDecision cthread.
Proof. solve_decision. Defined.

Section thread.
Context `{HostEndian} {V : Type} `{!LogKind V}.
Variable base : string.

Record bgsys := mkBg { bg_log : lsys (V := V); bg_thread : cthread; bg_interrupted : bool }.
Implicit Types (b : bgsys) (s : lsys (V := V)).

Definition is_idle (cl : cleaner (V := V)) : bool := match cl with CIdle => true | _ => false end.

(** A step of the thread. [sleep] returns when no interruption is asked for and throws when
    one is; the test that follows skips the pass or begins it; the pass then goes through
    its stretches without a look at the flag. *)
Inductive tstep : bgsys -> bgsys -> Prop :=
| T_wakes s : tstep (mkBg s Sleeping false) (mkBg s Awake false)
| T_interrupted s : tstep (mkBg s Sleeping true) (mkBg s Ended true)
| T_not_now s i : tstep (mkBg s Awake i) (mkBg s Sleeping i)
| T_begins s s' i : is_idle (ls_cl s) = true -> is_idle (ls_cl s') = false -> lstep base s [] s' ->
    tstep (mkBg s Awake i) (mkBg s' Working i)
| T_works s s' i : is_idle (ls_cl s') = false -> ls_cl s' <> ls_cl s -> lstep base s [] s' ->
    tstep (mkBg s Working i) (mkBg s' Working i)
| T_finishes s s' i : is_idle (ls_cl s) = false -> is_idle (ls_cl s') = true -> lstep base s [] s' ->
    tstep (mkBg s Working i) (mkBg s' Sleeping i).

(** All steps, with the records that are logged: those of the thread, those of the clients and of
    the other log's threads, and [interrupt] of [finalizeMe]. *)
Inductive bstep : bgsys -> list (log_rec V) -> bgsys -> Prop :=
| B_thread b b' : tstep b b' -> bstep b [] b'
| B_other s l s' th i : ls_cl s' = ls_cl s -> lstep base s l s' -> bstep (mkBg s th i) l (mkBg s' th i)
| B_interrupt s th i : bstep (mkBg s th i) [] (mkBg s th true).

Inductive breach b : list (log_rec V) -> bgsys -> Prop :=
| Br_refl : breach b [] b
| Br_step hist b1 l b2 : breach b hist b1 -> bstep b1 l b2 -> breach b (hist ++ l) b2.

(** As [recoverMessages] starts it on a new log. *)
Definition b_init b : Prop := fresh base (bg_log b) /\ bg_thread b = Sleeping /\ bg_interrupted b = false.

(** The thread is in a pass exactly when the cleaner is; it ends only when it was interrupted. *)
Definition b_ok b : Prop :=
  is_idle (ls_cl (bg_log b)) = negb (match bg_thread b with Working => true | _ => false end) /\
  (bg_thread b = Ended -> bg_interrupted b = true).

Lemma bstep_ok b l b' : bstep b l b' -> b_ok b -> b_ok b'.
Proof.
  intros Hs [H1' H2']. destruct Hs as [b b' Ht|s l s' th i Hc Hl|s th i].
  - destruct Ht; unfold b_ok in *; simpl in *; split; done || congruence.
  - unfold b_ok in *. simpl in *. by rewrite Hc.
  - by split.
Qed.

Lemma bstep_lstep b l b' : bstep b l b' -> (bg_log b' = bg_log b /\ l = []) \/ lstep base (bg_log b) l (bg_log b').
Proof. intros [? ? Ht|? ? ? ? ? Hc Hl|]; [destruct Ht; auto|by right|by left]. Qed.

Lemma breach_ok b hist b' : b_init b -> breach b hist b' -> b_ok b' /\ lreach base (bg_log b) hist (bg_log b').
Proof.
  intros (Hf & Ht & Hi) Hr. induction Hr as [|hist b1 l b2 Hr [IH1 IH2] Hs].
  - split; [|constructor]. unfold b_ok. rewrite Ht. split; [|done].
    destruct Hf as (fs0 & _ & E). by rewrite E.
  - split; [by eapply bstep_ok|]. destruct (bstep_lstep _ _ _ Hs) as [[-> ->]|Hl]; [by rewrite app_nil_r|by econstructor].
Qed.

(** A log that is between two passes: there is no temporary file, and reading the log back
    gives exactly the operations of [hist] that were started and not completed. *)
Definition log_whole (hist : list (log_rec V)) s : Prop :=
  ls_cl s = CIdle /\ ls_fs s !! k_name (V := V) base 0 true = None /\
  exists a c fs, recover_chan (V := V) base ∅ (ls_fs s) = Some (a, c, fs) /\
    forall q p, nm_get a q p = pending hist q p.

(** When the thread has ended, and so its join returns, its log is whole. *)
Lemma ended_log_whole b hist b' :
  b_init b -> breach b hist b' -> started_once hist -> bg_thread b' = Ended -> log_whole hist (bg_log b').
Proof.
  intros Hi Hr Ho He. destruct (breach_ok b hist b' Hi Hr) as [[Hk _] Hl]. rewrite He in Hk. simpl in Hk.
  assert (Hc : ls_cl (bg_log b') = CIdle) by (by destruct (ls_cl (bg_log b'))).
  pose proof (lreach_linv base _ _ _ (proj1 Hi) Hl Ho) as HL. split; [done|]. split.
  - destruct HL as (rc & ro & M & _ & _ & _ & Hp & _). rewrite Hc in Hp. apply Hp.
  - destruct (recover_pending base _ hist HL Ho Hc) as (a & c & fs & E & _ & Hp). by exists a, c, fs.
Qed.

(** *** An interrupted cleaner ends *)

(** What is left to do, once the handled file has been read. *)
Definition rank b : nat :=
  match bg_thread b, ls_cl (bg_log b) with
  | Ended, _ => 0
  | Sleeping, _ => 1
  | _, CExtracted _ _ l => 5 + length (nm_list l)
  | _, CTmp _ _ l => 4 + length (nm_list l)
  | _, CRemoved _ l => 3 + length (nm_list l)
  | _, CRelog todo => 2 + length todo
  | _, _ => 0
  end%nat.

Definition ranked b : Prop :=
  match bg_thread b with
  | Sleeping | Ended => True
  | Awake => False
  | Working => match ls_cl (bg_log b) with CIdle | CSwapped _ => False | _ => True end
  end.

(** The stretches of a pass come in order. *)
Lemma tstep_rank b b' :
  tstep b b' -> bg_interrupted b = true -> ranked b -> bg_interrupted b' = true /\ ranked b' /\ (rank b' < rank b)%nat.
Proof.
  intros Ht Hi Hr. destruct Ht as [s|s|s i|s s' i H1' H2' Hl|s s' i H1' H2' Hl|s s' i H1' H2' Hl]; try done.
  - by split_and!; [..|unfold rank; simpl; lia].
  - inversion Hl; subst; simpl in *; try done; try (by destruct H2'); unfold rank; simpl; rewrite ?length_map;
      split_and!; done || lia.
  - inversion Hl; subst; simpl in *; try done; try congruence; unfold rank; simpl; split_and!; done || lia.
Qed.

Lemma ranked_acc b : bg_interrupted b = true -> ranked b -> Acc (fun b' b => tstep b b') b.
Proof.
  remember (rank b) as n eqn:En. revert b En. induction n as [n IH] using lt_wf_ind. intros b -> Hi Hr. constructor.
  intros b' Ht. destruct (tstep_rank b b' Ht Hi Hr) as (Hi' & Hr' & Hlt). by apply (IH (rank b')).
Qed.

(** Once it is interrupted, the thread makes finitely many steps, whatever the clock and the
    sizes are. *)
Lemma interrupted_acc b : bg_interrupted b = true -> b_ok b -> Acc (fun b' b => tstep b b') b.
Proof.
  intros Hi [Hk _]. destruct b as [s th i]. simpl in *. subst i.
  assert (Hsw : forall s h, ls_cl s = CSwapped h -> Acc (fun b' b => tstep b b') (mkBg s Working true)).
  { intros s1 h Hc. constructor. intros b' Ht. inversion Ht as [| | | |s2 s' i H1' H2' Hl|s2 s' i H1' H2' Hl]; subst;
      apply ranked_acc; try done; inversion Hl; subst; simpl in *; simplify_eq; done. }
  assert (Haw : forall s, Acc (fun b' b => tstep b b') (mkBg s Awake true)).
  { intros s1. constructor. intros b' Ht. inversion Ht as [| |s2 i|s2 s' i H1' H2' Hl| |]; subst; [by apply ranked_acc|].
    inversion Hl; subst; simpl in *; first [discriminate|congruence|eapply Hsw; reflexivity]. }
  destruct th; [by apply ranked_acc|apply Haw| |by apply ranked_acc].
  destruct (ls_cl s) as [|h|h a l|h a l|h l|todo] eqn:Ec; simpl in Hk; [done|by eapply Hsw| | | |];
    apply ranked_acc; try done; unfold ranked; simpl; by rewrite Ec.
Qed.

(** A thread that has not ended has a step. *)
Lemma thread_progress b hist b' :
  b_init b -> breach b hist b' -> started_once hist -> bg_thread b' <> Ended -> exists b'', tstep b' b''.
Proof.
  intros Hb Hr Ho Hne. destruct (breach_ok b hist b' Hb Hr) as [[Hk _] Hl].
  pose proof (lreach_linv base _ _ _ (proj1 Hb) Hl Ho) as HL. destruct b' as [[c fs cl] th i]. simpl in *.
  destruct th; [destruct i; by eexists; constructor|eexists; apply T_not_now| |done].
  destruct cl as [|h|h a l|h a l|h l|todo]; simpl in Hk; [done|..].
  - destruct HL as (rc & ro & M & _ & _ & _ & (-> & Hh & _) & _ & Vo & _). cbn [ls_chan ls_fs ls_cl] in *.
    destruct (apply_recs ro (∅, ∅)) as [a l] eqn:Ea. eexists. eapply T_works; [|..|apply (S_extract base c fs _ a l)]; try done.
    by rewrite (extract_file_holds base _ _ _ _ Hh Vo), Ea.
  - eexists. eapply T_works; [|..|apply S_tmp]; done.
  - eexists. eapply T_works; [|..|apply S_remove]; done.
  - eexists. eapply T_works; [|..|apply S_rename]; done.
  - destruct todo as [|o todo].
    + eexists. eapply T_finishes; [|..|apply S_done]; done.
    + eexists. eapply T_works; [|..|apply S_relog]; [done|]. simpl. intros [= E]. apply (f_equal length) in E. simpl in E. lia.
Qed.


End thread.

(** ** A cleaner that is interrupted in a pass *)

#[local] Existing Instance little_endian.

Definition calm_log : lsys (V := PendingAsyncDequeue) :=
  mkSys (chan_open (V := PendingAsyncDequeue) "async" 0 ∅).1 (chan_open (V := PendingAsyncDequeue) "async" 0 ∅).2 CIdle.
Definition calm_bg : bgsys (V := PendingAsyncDequeue) := mkBg calm_log Sleeping false.
Definition calm_hist : list (log_rec PendingAsyncDequeue) := [LStart (mkPAD 7 3)].
(** One dequeue is logged, the thread wakes up and swaps the files, and is interrupted. *)
Definition calm_written : FS := chan_write (write_rec (LStart (mkPAD 7 3))) (ls_chan calm_log) (ls_fs calm_log).
Definition calm_pass : bgsys (V := PendingAsyncDequeue) :=
  let sw := clean_swap (V := PendingAsyncDequeue) "async" (ls_chan calm_log) calm_written in
  mkBg (mkSys sw.1 sw.2 (CSwapped 0)) Working true.

Lemma calm_bg_init : b_init "async" calm_bg.
Proof. split; [|done]. exists ∅. split; [intros i t; apply lookup_empty|done]. Qed.

Lemma calm_once : started_once calm_hist.
Proof. intros q p. unfold starts. simpl. case_decide; simpl; lia. Qed.

Lemma calm_reaches : breach "async" calm_bg calm_hist calm_pass.
Proof.
  eapply (Br_step _ _ calm_hist _ []); [|apply B_interrupt].
  eapply (Br_step _ _ calm_hist _ []); [|apply B_thread, T_begins; [| |apply S_swap]; done].
  eapply (Br_step _ _ calm_hist _ []); [|apply B_thread, T_wakes].
  eapply (Br_step _ _ [] _ calm_hist); [apply Br_refl|]. apply B_other; [done|]. apply S_log.
  simpl. unfold valid_dequeue, is_u64. simpl. lia.
Qed.

