(* ===== verification/WholeRestart.v ===== *)
(** The restart of all queues: what [recoverMessages] of the provider puts into the maps
    when it goes through the queues one after the other, with the pending operations
    that the queues before have left. *)
From S2P Require Import Prelude Format Jerrno IdSequence NestedMap PidTracker PendingOps.
From S2P Require Import LogFormat LogExtract AsyncLog LogSystem LoggerSpec Bdb TxnCtxt Framing Journal JournalSpec.
From S2P Require Import Recovery RecoverySpec Provider Resurrect.
From Stdlib Require Import ZArith Lia.

(** ** What one queue does to the pending operations of the others *)

(** A pair of enqueue and dequeue is dropped, and so is the enqueue of a transient
    message. *)
Definition norm_e (e : option PendingAsyncEnqueue) (d : option PendingAsyncDequeue) : option PendingAsyncEnqueue :=
  match e with
  | Some v => if is_none d && negb (pae_transient v) then Some v else None
  | None => None
  end.
Definition norm_d (e : option PendingAsyncEnqueue) (d : option PendingAsyncDequeue) : option PendingAsyncDequeue :=
  match e with Some _ => None | None => d end.

Lemma norm_twice e d : norm_e (norm_e e d) (norm_d e d) = norm_e e d /\ norm_d (norm_e e d) (norm_d e d) = norm_d e d.
Proof. destruct e as [v|], d as [x|]; simpl; try done. by destruct (pae_transient v) eqn:E; simpl; rewrite ?E. Qed.

Section scan.
Variables (qid : Z) (enq : Z -> bool).
Implicit Types (v : PendingAsyncEnqueue) (L : list PendingAsyncEnqueue) (st : escan) (q p : Z).

Lemma scan_one_other st v q p :
  (q, p) <> pae_key v ->
  nm_get (e_ae (scan_one qid enq st v)) q p = nm_get (e_ae st) q p /\
  nm_get (e_ad (scan_one qid enq st v)) q p = nm_get (e_ad st) q p.
Proof.
  intros Hk. assert (Hne : forall A (m : gmap Z (gmap Z A)), nm_get (nm_erase m (pae_queueId v) (pae_msgId v)) q p = nm_get m q p).
  { intros A m. rewrite nm_get_erase. case_decide; [|done]. exfalso. apply Hk. unfold pae_key. naive_solver. }
  unfold scan_one. destruct (nm_get (e_ad st) _ _); [by simpl; rewrite !Hne|].
  destruct (pae_transient v); [by simpl; rewrite Hne|]. destruct (qid =? pae_queueId v); [|done].
  destruct (_ && _); [by simpl; rewrite Hne|done].
Qed.

(** The set of pending enqueues only gets smaller. *)
Lemma scan_one_sub st v q p x :
  nm_get (e_ae (scan_one qid enq st v)) q p = Some x -> nm_get (e_ae st) q p = Some x.
Proof.
  assert (Hs : nm_get (nm_erase (e_ae st) (pae_queueId v) (pae_msgId v)) q p = Some x -> nm_get (e_ae st) q p = Some x).
  { rewrite nm_get_erase. by case_decide. }
  unfold scan_one. destruct (nm_get (e_ad st) _ _); [done|].
  destruct (pae_transient v); [done|]. destruct (qid =? pae_queueId v); [|done]. by destruct (_ && _).
Qed.

Lemma scan_sub L st q p x :
  nm_get (e_ae (foldl (scan_one qid enq) st L)) q p = Some x -> nm_get (e_ae st) q p = Some x.
Proof.
  revert st. induction L as [|v L IH]; intros st; simpl; [done|]. intros Hx. by apply IH, scan_one_sub in Hx.
Qed.

Lemma scan_one_at st v q p :
  (q, p) = pae_key v -> q <> qid -> nm_get (e_ae st) q p = Some v ->
  let st' := scan_one qid enq st v in
  nm_get (e_ae st') q p = norm_e (nm_get (e_ae st) q p) (nm_get (e_ad st) q p) /\
  nm_get (e_ad st') q p = norm_d (nm_get (e_ae st) q p) (nm_get (e_ad st) q p).
Proof.
  intros [= -> ->] Hq Hv. unfold scan_one. rewrite Hv. simpl.
  destruct (nm_get (e_ad st) (pae_queueId v) (pae_msgId v)) as [x|] eqn:Ed; simpl.
  { by rewrite !nm_get_erase, !decide_True. }
  destruct (pae_transient v); simpl; [by rewrite nm_get_erase, decide_True|].
  destruct (Z.eqb_spec qid (pae_queueId v)); [done|]. done.
Qed.

Lemma scan_others L st q p :
  q <> qid -> NoDup (pae_key <$> L) ->
  (forall v, v ∈ L -> nm_get (e_ae st) (pae_queueId v) (pae_msgId v) = Some v) ->
  let st' := foldl (scan_one qid enq) st L in
  if decide ((q, p) ∈ pae_key <$> L) then
    nm_get (e_ae st') q p = norm_e (nm_get (e_ae st) q p) (nm_get (e_ad st) q p) /\
    nm_get (e_ad st') q p = norm_d (nm_get (e_ae st) q p) (nm_get (e_ad st) q p)
  else nm_get (e_ae st') q p = nm_get (e_ae st) q p /\ nm_get (e_ad st') q p = nm_get (e_ad st) q p.
Proof.
  intros Hq. revert st. induction L as [|v L IH]; intros st Hn Hv; simpl; [done|].
  apply NoDup_cons in Hn as [Hnv Hn]. fold (fmap pae_key L) in Hnv, Hn.
  assert (HvL : forall w, w ∈ L -> nm_get (e_ae (scan_one qid enq st v)) (pae_queueId w) (pae_msgId w) = Some w).
  { intros w Hw. destruct (scan_one_other st v (pae_queueId w) (pae_msgId w)) as [-> _]; [|apply Hv; set_solver].
    intros E. apply Hnv. rewrite <- E. apply list_elem_of_fmap. by exists w. }
  specialize (IH (scan_one qid enq st v) Hn HvL). simpl in IH.
  destruct (decide ((q, p) = pae_key v)) as [E|E].
  - rewrite (decide_True (P := (q, p) ∈ _ :: _)) by (rewrite E; left).
    rewrite (decide_False (P := (q, p) ∈ _)) in IH by (by rewrite E).
    destruct IH as [-> ->]. apply scan_one_at; [done|done|]. injection E as -> ->. apply Hv. left.
  - destruct (scan_one_other st v q p E) as [E1 E2]. rewrite E1, E2 in IH.
    destruct (decide ((q, p) ∈ pae_key <$> L)) as [Hin|Hin].
    + rewrite decide_True by (by right). exact IH.
    + rewrite decide_False; [exact IH|]. by intros [|]%elem_of_cons.
Qed.

End scan.

Section decode.
Context `{Framing}.
Variables (mongo : list string) (uid_of : list byte -> string) (loadContent : Z -> bool).
Implicit Types (st : dscan) (q p qid id : Z) (ae : PendingEnqueueSet) (ad : PendingDequeueSet).

Lemma decode_one_sets qid st x :
  let st' := decode_one false mongo uid_of loadContent qid st x in
  s_ae st' = s_ae st /\ forall q p, q <> qid -> nm_get (s_ad st') q p = nm_get (s_ad st) q p.
Proof.
  destruct x as [id raw]. unfold decode_one. destruct (_ =? 0); [|done]. cbn [andb negb].
  unfold check_dequeue. simpl. destruct (nm_get (s_ad st) qid id) as [y|] eqn:Ed; simpl.
  - split; [done|]. intros q p Hq. rewrite nm_get_erase, decide_False; [done|]. naive_solver.
  - unfold recover_one. by destruct (loadContent _).
Qed.

Lemma decode_loop_sets qid R st :
  let st' := foldl (decode_one false mongo uid_of loadContent qid) st R in
  s_ae st' = s_ae st /\ forall q p, q <> qid -> nm_get (s_ad st') q p = nm_get (s_ad st) q p.
Proof.
  revert st. induction R as [|x R IH]; intros st; simpl; [done|].
  destruct (IH (decode_one false mongo uid_of loadContent qid st x)) as [-> I2].
  destruct (decode_one_sets qid st x) as [-> D2]. split; [done|]. intros q p Hq. by rewrite I2, D2.
Qed.

Definition keys_ok ae : Prop := forall q p v, nm_get ae q p = Some v -> pae_key v = (q, p).

Lemma keyed_list ae : keys_ok ae -> pae_key <$> map snd (nm_list ae) = (nm_list ae).*1.
Proof.
  intros Hk. unfold fmap. rewrite map_map. apply map_ext_in. intros [[q p] v] Hv.
  apply list_elem_of_In, elem_of_nm_list in Hv. simpl. by apply Hk.
Qed.

Lemma elem_keyed_list {A} (m : gmap Z (gmap Z A)) q p : (q, p) ∈ (nm_list m).*1 <-> is_Some (nm_get m q p).
Proof.
  rewrite list_elem_of_fmap. split.
  - intros ([[q' p'] v] & [= -> ->] & Hv). apply elem_of_nm_list in Hv. by eexists.
  - intros [v Hv]. exists (q, p, v). split; [done|]. by apply elem_of_nm_list.
Qed.

(** What a queue leaves of the pending operations. *)
Lemma decode_sets qid enq l ae ad last mm mq :
  keys_ok ae ->
  let r := (decodeAndRecoverMsg false mongo uid_of loadContent qid enq l ae ad last mm mq).1 in
  (forall q p x, nm_get (s_ae r) q p = Some x -> nm_get ae q p = Some x) /\
  forall q p, q <> qid ->
    nm_get (s_ae r) q p = norm_e (nm_get ae q p) (nm_get ad q p) /\
    nm_get (s_ad r) q p = norm_d (nm_get ae q p) (nm_get ad q p).
Proof.
  intros Hk r. unfold r, decodeAndRecoverMsg, scan_pending. cbn [fst].
  match goal with |- context [foldl (decode_one _ _ _ _ _) ?st0 _] => set (st := st0) end.
  destruct (decode_loop_sets qid (e_recovered (foldl (scan_one qid enq) (mkE ae ad l ∅ 0 [] [] [] report0)
    (map snd (nm_list ae)))) st) as [E1 E2]. split.
  - intros q p x. rewrite E1. unfold st. simpl. apply (scan_sub qid enq _ (mkE ae ad l ∅ 0 [] [] [] report0)).
  - intros q p Hq. rewrite E1, (E2 q p Hq). unfold st. cbn [s_ae s_ad].
    pose proof (scan_others qid enq (map snd (nm_list ae)) (mkE ae ad l ∅ 0 [] [] [] report0) q p Hq) as Hs.
    rewrite keyed_list in Hs by done. specialize (Hs (nm_list_NoDup ae)). cbn [e_ae e_ad] in Hs.
    assert (Hv : forall v, v ∈ map snd (nm_list ae) -> nm_get ae (pae_queueId v) (pae_msgId v) = Some v).
    { intros v (([q' p'] & w) & -> & Hw)%list_elem_of_fmap. apply elem_of_nm_list in Hw. simpl.
      pose proof (Hk _ _ _ Hw) as [= -> ->]. done. }
    specialize (Hs Hv). simpl in Hs. destruct (decide ((q, p) ∈ (nm_list ae).*1)) as [Hin|Hin]; [done|].
    rewrite elem_keyed_list in Hin. destruct (nm_get ae q p); [by destruct Hin; eexists|]. done.
Qed.

(** *** What is due *)

Definition due_at (stored : option (list byte)) (e : option PendingAsyncEnqueue) (d : option PendingAsyncDequeue) :
    option (list byte) :=
  match d with
  | Some _ => None
  | None =>
      match (match stored with Some raw => Some raw | None => (fun v => (pae_entry v).2) <$> e end) with
      | Some raw => if durable raw then Some raw else None
      | None => None
      end
  end.

Lemma due_eq qid l ae ad id : due qid l ae ad id = due_at ((list_to_map l : gmap Z (list byte)) !! id) (nm_get ae qid id) (nm_get ad qid id).
Proof.
  unfold due, expected, due_at. destruct (nm_get ad qid id); [done|].
  destruct ((list_to_map l : gmap Z (list byte)) !! id); [done|]. by destruct (nm_get ae qid id).
Qed.

(** A message is not stored and pending in both logs, and the flag byte of a pending
    enqueue is its transient flag. *)
Definition apart (stored : option (list byte)) (e : option PendingAsyncEnqueue) (d : option PendingAsyncDequeue) : Prop :=
  (is_Some stored -> is_Some e -> d = None) /\ forall v, e = Some v -> durable (pae_entry v).2 = negb (pae_transient v).

Lemma due_norm stored e d : apart stored e d -> due_at stored (norm_e e d) (norm_d e d) = due_at stored e d.
Proof.
  intros [Ht Hf]. destruct e as [v|]; [|done]. specialize (Hf v eq_refl).
  destruct d as [x|]; simpl.
  - destruct stored as [raw|]; [|done]. by specialize (Ht ltac:(by eexists) ltac:(by eexists)).
  - destruct (pae_transient v) eqn:Et; simpl; [|done]. destruct stored; [done|]. simpl in *. by rewrite Hf.
Qed.

Lemma apart_norm stored e d : apart stored e d -> apart stored (norm_e e d) (norm_d e d).
Proof.
  intros [Ht Hf]. split.
  - intros _. destruct e as [v|]; simpl; [done|by intros []].
  - intros v. destruct e as [w|]; simpl; [|done]. destruct (_ && _); [|done]. intros [= ->]. by apply Hf.
Qed.

End decode.

(** At most as many pending enqueues of a queue are checked as there are. *)
Lemma counted_few q ae ad (ids : list Z) :
  keys_ok ae -> (forall p v, nm_get ae q p = Some v -> p ∈ ids) ->
  (length (List.filter (counted q ad) (map snd (nm_list ae))) <= length ids)%nat.
Proof.
  intros Hk Hids. set (F := List.filter _ _).
  assert (HF : forall v, v ∈ F -> pae_queueId v = q /\ nm_get ae q (pae_msgId v) = Some v /\ v ∈ map snd (nm_list ae)).
  { intros v Hv. unfold F in Hv. apply list_elem_of_In, filter_In in Hv as [Hv Hc]. unfold counted in Hc.
    apply andb_true_iff in Hc as [_ Hc]. zbool. apply list_elem_of_In in Hv. split_and!; [done| |done].
    apply list_elem_of_fmap in Hv as ([[q' p'] w] & -> & Hw). apply elem_of_nm_list in Hw. simpl in *.
    pose proof (Hk _ _ _ Hw) as [= E1 E2]. by rewrite Hc, E1, E2. }
  assert (Hnd : NoDup (map pae_msgId F)).
  { pose proof (nm_list_NoDup ae) as Hn. rewrite <- (keyed_list ae Hk) in Hn.
    assert (Hq : forall v, v ∈ F -> pae_queueId v = q) by (intros v Hv; by apply HF).
    unfold F in *. clear -Hn Hq. induction (map snd (nm_list ae)) as [|w L IH]; simpl; [constructor|].
    apply NoDup_cons in Hn as [Hw Hn]. simpl in Hq.
    destruct (counted q ad w); simpl; [|by apply IH].
    constructor; [|apply IH; [done|]; intros x Hx; apply Hq; set_solver].
    intros (x & Ex & Hx)%list_elem_of_In%in_map_iff. apply Hw, list_elem_of_fmap. exists x.
    apply list_elem_of_In in Hx as Hx'. split.
    - unfold pae_key. rewrite Ex. f_equal. rewrite (Hq w), (Hq x); [done|set_solver|set_solver].
    - apply filter_In in Hx as [Hx _]. by apply list_elem_of_In. }
  rewrite <- (length_map pae_msgId). apply submseteq_length, NoDup_submseteq; [done|].
  intros x (v & -> & Hv)%list_elem_of_fmap. destruct (HF v Hv) as (_ & Hg & _). by eapply Hids.
Qed.

(** ** All queues *)

Section whole.
Context `{HostEndian, HostAlloc, Framing, BT : !BTree bt_compare}.
Variables (mongo : list string) (uid_of : list byte -> string) (loadContent : Z -> bool).
Variable alloc : nat -> option (list byte).
Variable lo : Z.

(** The pending operations that were read from the logs, and what each queue's journal
    holds. *)
Variables (ae0 : PendingEnqueueSet) (ad0 : PendingDequeueSet) (stored : Z -> Z -> option (list byte)).

(** Reading from and deleting in a database do not fail. *)
Hypothesis healthy_get : forall (d : Db) k, exists v, db_get d k = Ret v.
Hypothesis healthy_del : forall (d : Db) k, exists sd, db_del d k = Ret sd.
Hypothesis load_all : forall n, loadContent n = true.
Hypothesis keys0 : keys_ok ae0.
Hypothesis apart0 : forall q p, apart (stored q p) (nm_get ae0 q p) (nm_get ad0 q p).
Hypothesis few0 : forall q, exists ids, (length ids <= 10)%nat /\ forall p v, nm_get ae0 q p = Some v -> p ∈ ids.
Hypothesis window0 : forall q p v, nm_get ae0 q p = Some v -> in_window lo p.

Implicit Types (pv : Provider) (st : rstate) (q p id : Z) (j : JournalImpl).

Definition due_q q p : option (list byte) := due_at (stored q p) (nm_get ae0 q p) (nm_get ad0 q p).

(** A journal object that [recoverQueues] made, on files that hold what is stored. *)
Definition fresh_ok pv q : Prop :=
  exists name dir bdb n, let j := JournalImpl.create name q dir bdb n true in
    journalList pv !! q = Some j /\ files_ok lo j (JournalImpl.w_files (world pv)) /\
    forall x, jlookup j (JournalImpl.w_files (world pv)) x = stored q x.

(** An open journal, as far as deleting needs it. *)
Definition ready j (fs : gmap string Db) : Prop :=
  create_bdb j = true /\ 0 < num_jfiles j /\ messageDbs j = replicate (Z.to_nat (num_jfiles j)) true /\
  forall k, 0 <= k < num_jfiles j -> is_Some (fs !! JournalImpl.getSubDbPath j k).

Lemma jwf_ready j w : jwf lo j w -> ready j (JournalImpl.w_files w).
Proof. intros ([Hn _] & Hc & _ & Hd & Hx). by split_and!. Qed.

Lemma ready_mono j fs fs' : (forall k, is_Some (fs !! k) -> is_Some (fs' !! k)) -> ready j fs -> ready j fs'.
Proof. intros Hm (R1 & R2 & R3 & R4). split_and!; try done. intros k Hk. by apply Hm, R4. Qed.

Lemma extends_dom (fs fs' : gmap string Db) k : extends fs fs' -> is_Some (fs !! k) -> is_Some (fs' !! k).
Proof. intros He Hk. destruct (He k) as [->|[_ ->]]; [done|by eexists]. Qed.

Lemma is_enqueued_ret j w id : jwf lo j w -> exists b, JournalImpl.is_enqueued id j w = Ret b.
Proof.
  intros Hj. unfold JournalImpl.is_enqueued. pose proof Hj as (_ & Hc & _). rewrite Hc. simpl negb. cbn match.
  rewrite (shard_ok lo j w id Hj). destruct (db_of lo j w id Hj) as (d & Hd & _). cbn [obind].
  unfold JournalImpl.db_at. rewrite Hd. cbn [obind]. destruct (healthy_get d id) as [v ->]. by eexists.
Qed.

Lemma scan_never_throws q f l (e : escan) : (forall id, exists b, f id = Ret b) -> scan_throws q f e l = None.
Proof.
  intros Hf. revert e. induction l as [|v l IH]; intros e; [done|]. cbn [scan_throws].
  destruct (_ && _ && _ && _); [destruct (Hf (pae_msgId v)) as [b ->]|]; apply IH.
Qed.

(** The pending operations of a queue that has not had its turn. *)
Definition pend_ok st q : Prop := forall p,
  (nm_get (r_ae st) q p = nm_get ae0 q p /\ nm_get (r_ad st) q p = nm_get ad0 q p) \/
  (nm_get (r_ae st) q p = norm_e (nm_get ae0 q p) (nm_get ad0 q p) /\
   nm_get (r_ad st) q p = norm_d (nm_get ae0 q p) (nm_get ad0 q p)).

Record winv st (rest turns : list Z) : Prop := {
  w_fresh : forall q, q ∈ rest -> fresh_ok (r_pv st) q;
  w_pend : forall q, q ∈ rest -> pend_ok st q;
  w_sub : forall q p x, nm_get (r_ae st) q p = Some x -> nm_get ae0 q p = Some x;
  w_ready : forall q, q ∈ turns ->
    exists j, journalList (r_pv st) !! q = Some j /\ ready j (JournalImpl.w_files (world (r_pv st)));
  w_mq : forall id, default [] (r_mq st !! id) = filter (fun q => is_Some (due_q q id)) turns;
  w_map : forall id q, q ∈ turns -> is_Some (due_q q id) ->
    exists q' raw, q' ∈ turns /\ due_q q' id = Some raw /\ r_map st !! id = Some (decoded raw)
}.

Lemma pend_due st q l :
  pend_ok st q -> NoDup l.*1 -> (forall x v, (x, v) ∈ l <-> stored q x = Some v) ->
  forall p, due q l (r_ae st) (r_ad st) p = due_q q p /\
    apart (stored q p) (nm_get (r_ae st) q p) (nm_get (r_ad st) q p).
Proof.
  intros Hp Hn Hl p. assert (El : (list_to_map l : gmap Z (list byte)) !! p = stored q p).
  { destruct (stored q p) as [v|] eqn:E; [by apply elem_of_list_to_map_1, Hl|].
    destruct (list_to_map l !! p) as [v|] eqn:E'; [|done]. apply elem_of_list_to_map_2, Hl in E'. congruence. }
  rewrite due_eq, El. unfold due_q.
  destruct (Hp p) as [[-> ->]|[-> ->]]; [by split|]. split; [by apply due_norm|by apply apart_norm].
Qed.

Lemma queue_inputs st q l enq :
  (forall q p x, nm_get (r_ae st) q p = Some x -> nm_get ae0 q p = Some x) ->
  pend_ok st q -> NoDup l.*1 -> (forall x v, (x, v) ∈ l <-> stored q x = Some v) ->
  (forall id, is_Some (nm_get (r_ae st) q id) -> enq id = bool_decide (id ∈ l.*1)) ->
  inputs_ok loadContent q enq l (r_ae st) (r_ad st).
Proof.
  intros Hsub Hp Hn Hl He. assert (Hk : keys_ok (r_ae st)) by (intros q' p v Hv; by apply keys0, Hsub). split; try done.
  - intros id v Hv. destruct (pend_due st q l Hp Hn Hl id) as [_ [_ Ha]]. by apply Ha.
  - left. destruct (few0 q) as (ids & Hlen & Hids).
    pose proof (counted_few q (r_ae st) (r_ad st) ids Hk) as Hc. assert (length (List.filter (counted q (r_ad st)) (map snd (nm_list (r_ae st)))) <= length ids)%nat; [|lia].
    apply Hc. intros p v Hv. by eapply Hids, Hsub.
Qed.

Lemma register_ready ids j fs :
  ready j fs -> ready (JournalImpl.register_as_transient ids j) fs /\ ready (JournalImpl.register_as_accepted ids j) fs.
Proof. done. Qed.

(** One turn of the first loop: the journal is opened and read; *)
Lemma queue_opened q st :
  fresh_ok (r_pv st) q -> (forall q p x, nm_get (r_ae st) q p = Some x -> nm_get ae0 q p = Some x) ->
  exists j j' l w, journalList (r_pv st) !! q = Some j /\
    JournalImpl.recoverMessages io_fine j (world (r_pv st)) = (Ret (j', Some l), w) /\
    jwf lo j' w /\ extends (JournalImpl.w_files (world (r_pv st))) (JournalImpl.w_files w) /\
    NoDup l.*1 /\ (forall x v, (x, v) ∈ l <-> stored q x = Some v) /\
    forall id, is_Some (nm_get (r_ae st) q id) -> JournalImpl.is_enqueued id j' w = Ret (bool_decide (id ∈ l.*1)).
Proof.
  intros (jn & dir & bdb & n & Hj & Hf & Hl) Ws.
  destruct (recover_exact_full lo jn q dir bdb n (world (r_pv st)) Hf)
    as (j' & l & w & Er & Hj' & Hn & Hin & Hlk & Hx).
  assert (Hst : forall x v, (x, v) ∈ l <-> stored q x = Some v) by (intros x v; by rewrite Hin, Hl).
  exists (JournalImpl.create jn q dir bdb n true), j', l, w. split_and!; try done.
  intros id [v Hv]. destruct (is_enqueued_ret j' w id Hj') as [b Eb]. rewrite Eb. f_equal.
  rewrite (is_enqueued_spec lo id j' w b Hj' (window0 _ _ _ (Ws _ _ _ Hv)) Eb), Hlk, Hl.
  apply bool_decide_ext. split.
  - intros [raw Hraw]. apply Hst in Hraw. by apply (list_elem_of_fmap_2 fst) in Hraw.
  - intros ([x raw] & -> & Hraw)%list_elem_of_fmap. apply Hst in Hraw. by eexists.
Qed.

(** the messages that are due go into the maps; *)
Definition maps_step q (mm mm' : gmap Z (list byte * list byte)) (mq mq' : gmap Z (list Z)) : Prop := forall id,
  mq' !! id = (match due_q q id with Some _ => Some (default [] (mq !! id) ++ [q]) | None => mq !! id end) /\
  mm' !! id = (match due_q q id with Some raw => Some (decoded raw) | None => mm !! id end).

Lemma queue_decoded q st l enq :
  (forall q p x, nm_get (r_ae st) q p = Some x -> nm_get ae0 q p = Some x) ->
  pend_ok st q -> NoDup l.*1 -> (forall x v, (x, v) ∈ l <-> stored q x = Some v) ->
  (forall id, is_Some (nm_get (r_ae st) q id) -> enq id = bool_decide (id ∈ l.*1)) ->
  let r := (decodeAndRecoverMsg false mongo uid_of loadContent q enq l (r_ae st) (r_ad st) 0 (r_map st) (r_mq st)).1 in
  maps_step q (r_map st) (s_map r) (r_mq st) (s_mq r).
Proof.
  intros Ws Wp Hn Hst He r id. pose proof (queue_inputs st q l enq Ws Wp Hn Hst He) as Hi.
  destruct (pend_due st q l Wp Hn Hst id) as [<- [Ht _]].
  apply (decode_due mongo uid_of loadContent q enq l (r_ae st) (r_ad st) 0 id (r_map st) (r_mq st) Hi).
  intros ([x raw] & -> & Hraw)%list_elem_of_fmap. apply Ht. exists raw. by apply Hst.
Qed.

(** and the other queues keep what they need. *)
Lemma winv_turn q st st' rest turns jx :
  winv st (q :: rest) turns -> q ∉ rest ->
  journalList (r_pv st') = <[q := jx]> (journalList (r_pv st)) -> ready jx (JournalImpl.w_files (world (r_pv st'))) ->
  extends (JournalImpl.w_files (world (r_pv st))) (JournalImpl.w_files (world (r_pv st'))) ->
  (forall q p x, nm_get (r_ae st') q p = Some x -> nm_get (r_ae st) q p = Some x) ->
  (forall q' p, q' <> q ->
    nm_get (r_ae st') q' p = norm_e (nm_get (r_ae st) q' p) (nm_get (r_ad st) q' p) /\
    nm_get (r_ad st') q' p = norm_d (nm_get (r_ae st) q' p) (nm_get (r_ad st) q' p)) ->
  maps_step q (r_map st) (r_map st') (r_mq st) (r_mq st') ->
  winv st' rest (turns ++ [q]).
Proof.
  intros [Wf Wp Ws Wr Wm Wt] Hq Ej Rx Hx Ds Do Hdec.
  assert (Hold : forall q', q' <> q -> journalList (r_pv st') !! q' = journalList (r_pv st) !! q')
    by (intros q' Hne; rewrite Ej; by apply lookup_insert_ne).
  split.
  - intros q' Hq'. destruct (Wf q') as (jn' & dir' & bdb' & n' & Hj2 & Hf2 & Hl2); [by right|].
    exists jn', dir', bdb', n'. cbn zeta. rewrite Hold by (by intros ->). split_and!; [done|by eapply extends_ok|].
    intros x. by rewrite (extends_lookup _ _ _ x Hx).
  - intros q' Hq' p. assert (Hne : q' <> q) by (by intros ->). destruct (Do q' p Hne) as [-> ->].
    right. destruct (Wp q' ltac:(by right) p) as [[-> ->]|[-> ->]]; [done|]. apply norm_twice.
  - intros q' p x Hsx. by apply Ws, Ds.
  - intros q' Hq'. destruct (decide (q' = q)) as [->|Hne].
    { exists jx. split; [|done]. rewrite Ej. apply lookup_insert_eq. }
    rewrite Hold by done. destruct (Wr q') as (j2 & Hj2 & Hr2); [set_solver|]. exists j2. split; [done|].
    eapply ready_mono; [|exact Hr2]. intros k. by apply extends_dom.
  - intros id. destruct (Hdec id) as [-> _]. rewrite filter_app, <- Wm. destruct (due_q q id) as [raw|] eqn:Ed.
    + rewrite filter_cons_True by (rewrite Ed; by eexists). done.
    + rewrite filter_cons_False by (rewrite Ed; by intros []). by rewrite app_nil_r.
  - intros id q' Hq' Hd. destruct (Hdec id) as [_ ->]. destruct (due_q q id) as [raw|] eqn:Ed.
    + exists q, raw. split_and!; [set_solver|done|done].
    + apply elem_of_app in Hq' as [Hq'|Hq'].
      * destruct (Wt id q' Hq' Hd) as (q2 & raw & T1 & T2 & T3). exists q2, raw. split_and!; [set_solver|done|done].
      * apply list_elem_of_singleton in Hq' as ->. rewrite Ed in Hd. by destruct Hd.
Qed.

Lemma recover_queue_step name q st rest turns :
  winv st (q :: rest) turns -> q ∉ rest ->
  exists st', recover_queue false mongo uid_of loadContent alloc io_fine (name, q) (Ret st) = Ret st' /\
    winv st' rest (turns ++ [q]).
Proof.
  intros Hw Hq. pose proof Hw as [Wf Wp Ws _ _ _].
  destruct (queue_opened q st) as (j & j' & l & w & Hj & Er & Hj' & Hx & Hn & Hst & He); [apply Wf; left|done|].
  unfold recover_queue. cbn [obind]. rewrite Hj, Er.
  rewrite scan_never_throws by (intros id; by apply is_enqueued_ret).
  set (enq := fun id => match JournalImpl.is_enqueued id j' w with Ret b => b | Throw _ => false end).
  pose proof (queue_decoded q st l enq Ws (Wp q ltac:(left)) Hn Hst) as Hdec.
  specialize (Hdec ltac:(intros id Hid; unfold enq; by rewrite (He id Hid))).
  destruct (decode_sets mongo uid_of loadContent q enq l (r_ae st) (r_ad st) 0 (r_map st) (r_mq st)) as [Ds Do].
  { intros q' p v Hv. by apply keys0, Ws. }
  destruct (decodeAndRecoverMsg _ _ _ _ _ _ _ _ _ _ _ _) as [s logged]. simpl in Hdec, Ds, Do.
  eexists. split; [reflexivity|]. eapply winv_turn; try done.
  by apply register_ready, register_ready, register_ready, jwf_ready.
Qed.

Lemma recover_loop L st turns :
  NoDup L.*2 -> winv st L.*2 turns ->
  exists st', foldl (fun r nq => recover_queue false mongo uid_of loadContent alloc io_fine nq r) (Ret st) L = Ret st' /\
    winv st' [] (turns ++ L.*2).
Proof.
  revert st turns. induction L as [|[name q] L IH]; intros st turns Hn Hw; simpl in *.
  { exists st. by rewrite app_nil_r. }
  apply NoDup_cons in Hn as [Hq Hn]. destruct (recover_queue_step name q st L.*2 turns Hw Hq) as (st1 & E & Hw1).
  destruct (IH st1 (turns ++ [q]) Hn Hw1) as (st2 & E2 & Hw2). exists st2. split; [|by rewrite <- app_assoc in Hw2].
  rewrite <- E2. f_equal. exact E.
Qed.

(** *** The second loop *)

Definition grows (fs fs' : gmap string Db) : Prop := forall k, is_Some (fs !! k) -> is_Some (fs' !! k).

Lemma del_each_ret ids j w :
  ready j (JournalImpl.w_files w) ->
  exists w', JournalImpl.del_each ids j w = (Ret tt, w') /\ grows (JournalImpl.w_files w) (JournalImpl.w_files w').
Proof.
  revert w. induction ids as [|id ids IH]; intros w Hr; [by exists w; split; [|intros k]|]. cbn [JournalImpl.del_each].
  pose proof Hr as (_ & Hn & Hd & Hx). pose proof (Z.mod_pos_bound id (num_jfiles j) Hn) as Hm.
  unfold JournalImpl.shard. destruct (Z.eqb_spec (num_jfiles j) 0) as [|_]; [lia|].
  rewrite bool_decide_true by (rewrite Hd; apply lookup_replicate_2; lia). cbn [obind].
  destruct (Hx _ Hm) as [d Ed]. unfold JournalImpl.db_at. rewrite Ed. cbn [obind].
  destruct (healthy_del d id) as [sd ->]. cbn [obind].
  set (w1 := JournalImpl.set_files _ w).
  assert (G1 : grows (JournalImpl.w_files w) (JournalImpl.w_files w1)).
  { intros k Hk. unfold w1. cbn [JournalImpl.w_files JournalImpl.set_files]. destruct (decide (k = JournalImpl.getSubDbPath j (id `mod` num_jfiles j))) as [->|Hne].
    - by rewrite lookup_insert_eq; eexists.
    - by rewrite lookup_insert_ne. }
  destruct (IH w1) as (w2 & E2 & G2); [by eapply ready_mono|]. exists w2. split; [exact E2|]. intros k Hk. by apply G2, G1.
Qed.

Lemma discard_ret j w :
  ready j (JournalImpl.w_files w) ->
  (exists j' w', JournalImpl.discard_transient_message j w = (Ret j', w') /\
     ready j' (JournalImpl.w_files w') /\ grows (JournalImpl.w_files w) (JournalImpl.w_files w')) /\
  (exists j' w', JournalImpl.discard_accepted_message j w = (Ret j', w') /\
     ready j' (JournalImpl.w_files w') /\ grows (JournalImpl.w_files w) (JournalImpl.w_files w')).
Proof.
  intros Hr. pose proof Hr as (Hc & _).
  unfold JournalImpl.discard_transient_message, JournalImpl.discard_accepted_message. rewrite Hc. split.
  - destruct (transientList j) as [|id ids] eqn:Et; [by exists j, w; split_and!; [| |intros k]|].
    destruct (del_each_ret (id :: ids) j w Hr) as (w' & -> & G). eexists _, w'. split; [done|]. split; [|done].
    by eapply (ready_mono j).
  - destruct (acceptedList j) as [|id ids] eqn:Et; [by exists j, w; split_and!; [| |intros k]|].
    destruct (del_each_ret (id :: ids) j w Hr) as (w' & -> & G). eexists _, w'. split; [done|]. split; [|done].
    by eapply (ready_mono j).
Qed.

Lemma finish_step name q pv :
  (exists j, journalList pv !! q = Some j /\ ready j (JournalImpl.w_files (world pv))) ->
  exists j w, finish_queue (name, q) (Ret pv) = Ret (set_journal q j w pv) /\
    ready j (JournalImpl.w_files w) /\ grows (JournalImpl.w_files (world pv)) (JournalImpl.w_files w).
Proof.
  intros (j & Hj & Hr). unfold finish_queue. cbn [obind snd]. rewrite Hj.
  destruct (discard_ret j (world pv) Hr) as [(j1 & w1 & -> & R1 & G1) _]. cbn [obind].
  destruct (discard_ret j1 w1 R1) as [_ (j2 & w2 & -> & R2 & G2)]. cbn [obind].
  unfold JournalImpl.recover_complete.
  destruct (discard_ret j2 w2 R2) as [(j3 & w3 & -> & R3 & G3) _].
  destruct (discard_ret j3 w3 R3) as [_ (j4 & w4 & -> & R4 & G4)]. cbn [obind].
  exists j4, w4. split_and!; [done|done|]. intros k Hk. by apply G4, G3, G2, G1.
Qed.

Lemma finish_loop L pv :
  (forall q, q ∈ L.*2 -> exists j, journalList pv !! q = Some j /\ ready j (JournalImpl.w_files (world pv))) ->
  exists pv', foldl (fun r nq => finish_queue nq r) (Ret pv) L = Ret pv'.
Proof.
  revert pv. induction L as [|[name q] L IH]; intros pv Hr; [by eexists|]. cbn [foldl].
  destruct (finish_step name q pv) as (j & w & -> & R & G); [apply Hr; left|]. apply IH. intros q' Hq'.
  simpl journalList. simpl world. destruct (decide (q' = q)) as [->|Hne].
  { rewrite lookup_insert_eq. by exists j. }
  rewrite lookup_insert_ne by done. destruct (Hr q') as (j' & Hj' & R'); [by right|]. exists j'. split; [done|]. by eapply ready_mono.
Qed.

(** *** The whole method *)

(** [recoverMessages] returns, with every queue's messages that are due in the maps. *)
Lemma recover_whole accepts L pv l0 :
  restart (aologger pv) = Some (ae0, ad0, l0) -> NoDup L.*2 -> (forall q, q ∈ L.*2 -> fresh_ok pv q) ->
  exists mm mq pv',
    recoverMessages false mongo uid_of loadContent alloc io_fine accepts L pv = Some (Ret (mm, mq, pv')) /\
    (forall id, default [] (mq !! id) = filter (fun q => is_Some (due_q q id)) L.*2) /\
    (forall id q, q ∈ L.*2 -> is_Some (due_q q id) ->
       exists q' raw, q' ∈ L.*2 /\ due_q q' id = Some raw /\ mm !! id = Some (decoded raw)).
Proof.
  intros Hr Hn Hf. unfold recoverMessages. rewrite Hr.
  destruct (recover_loop L (mkR (set_log l0 pv) ae0 ad0 ∅ ∅ 0 0) [] Hn) as (st & -> & [_ _ _ Wr Wm Wt]).
  { split; try done.
    - intros q Hq p. by left.
    - intros q Hq. by apply not_elem_of_nil in Hq.
    - intros id q Hq. by apply not_elem_of_nil in Hq. }
  cbn [obind]. destruct (finish_loop L (r_pv st)) as [pv' ->]; [done|]. cbn [obind].
  eexists _, _, _. split; [reflexivity|]. done.
Qed.

End whole.
