(* ===== verification/RestartSpec.v ===== *)
(** The broker's view of a crash and a restart: after any session of the provider, the
    front end's [recover] on a new provider over the same directory gives back every
    durable message that was enqueued and not dequeued, once per queue. *)
From S2P Require Import Prelude Format Jerrno IdSequence NestedMap PidTracker PendingOps.
From S2P Require Import LogFormat LogExtract AsyncLog LogSystem LogRecovery LoggerSpec.
From S2P Require Import Bdb TxnCtxt Framing Journal JournalSpec Durability Posix Jdir Recovery RecoverySpec.
From S2P Require Import Provider ProviderSpec CrashRestart Config Resurrect Plugin BdbStore PluginSpec WholeRestart.
From Stdlib Require Import ZArith Lia.

(** ** The flag byte of a message of the session *)

Lemma encoded_durable `{Framing} msg : msg_ok msg -> durable (msgEncode msg).1 = m_persistent msg.
Proof. intros Hm. rewrite (msgEncode_eq msg Hm). by destruct (m_persistent msg). Qed.

Section flags.
Context `{HostEndian, HostAlloc, Framing, BT : !BTree bt_compare}.
Variables (lo : Z) (smart : bool) (old : gmap mkey (list byte)).
Implicit Types (s : dsys) (pv : Provider) (q p : Z).

Definition flagged s : Prop := forall v, LStart v ∈ d_enq s -> durable (pae_buff v) = negb (pae_transient v).

Lemma flagged_complete s s' p q : flagged s -> d_enq s' = d_enq s ++ [LComplete p q] -> flagged s'.
Proof. intros Hs E v. rewrite E, elem_of_app, list_elem_of_singleton. intros [Hv|Hv]; [by apply Hs|done]. Qed.

Lemma flagged_enqueue s q p new msg :
  flagged s -> msg_ok msg -> flagged (do_enqueue smart q p new (msgEncode msg).1 (negb (m_persistent msg)) s).
Proof.
  intros Hs Hm v. pose proof (encoded_durable msg Hm) as E. destruct (msgEncode msg) as [buf n]. simpl in *.
  rewrite elem_of_app, list_elem_of_singleton. intros [Hv|[= ->]]; [by apply Hs|]. simpl. by rewrite negb_involutive.
Qed.

Lemma flagged_step pv s pv' s' : flagged s -> pstep lo smart old pv s pv' s' -> flagged s'.
Proof.
  intros Hs Hd. destruct Hd; try done; try (by apply flagged_enqueue).
  - unfold do_dequeue. destruct (deq_check smart q p (d_tr s)) as [[] t]; [done|]. by eapply flagged_complete.
  - unfold store_check. by destruct (enq_check smart q p (d_tr s)).
  - by eapply flagged_complete.
Qed.

Lemma flagged_run pv0 s0 pv s : flagged s0 -> prun lo smart old pv0 s0 pv s -> flagged s.
Proof. intros H0' Hr. induction Hr; [done|by eapply flagged_step]. Qed.

End flags.

Lemma pending_key `{HostEndian, HostAlloc} (h : list (log_rec PendingAsyncEnqueue)) q p v :
  pending h q p = Some v -> pae_key v = (q, p).
Proof.
  unfold pending. case_decide; [done|]. intros Hv.
  assert (Hin : v ∈ starts h q p) by (destruct (starts h q p); simplify_eq/=; set_solver).
  unfold starts in Hin. apply list_elem_of_omap in Hin as (r & Hr & E).
  destruct r as [w|]; [|done]. case_decide; [|done]. by injection E as ->.
Qed.

(** ** The calls on the broker's queues *)

Lemma elem_of_on_queues (mz : gmap Z (list Z)) c :
  c ∈ on_queues (sorted_map (map queue_entry <$> mz)) <->
  exists q p, c = CRecover q p /\ q ∈ default [] (mz !! p).
Proof.
  unfold on_queues. rewrite list_elem_of_In, in_flat_map. split.
  - intros ([id es] & Hi & Hc). apply list_elem_of_In, elem_of_sorted_map in Hi. rewrite lookup_fmap in Hi.
    destruct (mz !! id) as [qs|] eqn:E; [|done]. injection Hi as <-.
    simpl in Hc. rewrite map_map in Hc. apply in_map_iff in Hc as (q & <- & Hq).
    exists q, id. rewrite E. split; [done|]. by apply list_elem_of_In.
  - intros (q & p & -> & Hq). destruct (mz !! p) as [qs|] eqn:E; [|by apply not_elem_of_nil in Hq].
    exists (p, map queue_entry qs). rewrite <- list_elem_of_In, elem_of_sorted_map, lookup_fmap, E. split; [done|].
    simpl. rewrite map_map. apply in_map_iff. exists q. split; [done|]. by apply list_elem_of_In.
Qed.

Lemma on_queues_NoDup (mz : gmap Z (list Z)) :
  (forall p, NoDup (default [] (mz !! p))) -> NoDup (on_queues (sorted_map (map queue_entry <$> mz))).
Proof.
  intros Hn. pose proof (sorted_map_NoDup (map queue_entry <$> mz)) as Hk.
  assert (Hl : forall id es, (id, es) ∈ sorted_map (map queue_entry <$> mz) -> NoDup (map queueId es)).
  { intros id es Hi. apply elem_of_sorted_map in Hi. rewrite lookup_fmap in Hi. specialize (Hn id).
    destruct (mz !! id) as [qs|]; [|done]. injection Hi as <-. rewrite map_map. simpl in *. by rewrite map_id. }
  induction (sorted_map (map queue_entry <$> mz)) as [|[id es] l IH]; [constructor|]. simpl in Hk.
  apply NoDup_cons in Hk as [Hid Hk]. simpl. apply NoDup_app. split_and!.
  - specialize (Hl id es ltac:(left)). rewrite <- (map_map queueId (fun q => CRecover q id)).
    assert (Inj (=) (=) (fun q => CRecover q id)) by (by intros ? ? [= ->]).
    by apply (NoDup_fmap_2 (fun q => CRecover q id)).
  - intros c (e & -> & He)%list_elem_of_fmap Hc. apply Hid. apply list_elem_of_In, in_flat_map in Hc as ([id' es'] & Hi & Hc).
    apply in_map_iff in Hc as (e' & [= _ <-] & _). apply list_elem_of_fmap. exists (id', es'). split; [done|by apply list_elem_of_In].
  - apply IH; [done|]. intros id' es' Hi. apply Hl with id'. by right.
Qed.

(** ** The queues *)

Section restart.
Context `{HostEndian, HostAlloc, Framing}.
Context {BT : BTree bt_compare} {KT : BTree key_compare} {DT : DupTree key_compare}.
Variables (db_what : Z -> string) (strerror : errno -> string).
Variables (storeDir : string) (num_jfiles : Z) (acceptedFromMongo : list string).
Variables (lo : Z) (smart : bool) (base : Z) (old : gmap mkey (list byte)).
Implicit Types (b : BdbStore) (en : bdb_env) (pv : Provider) (s : dsys) (q p : Z).

#[local] Instance provider_instance : StorageProvider bdb_env BdbStore :=
  bdb_provider db_what strerror storeDir num_jfiles false acceptedFromMongo.

(** [recoverQueues] makes a journal object for every queue it lists. *)
Lemma queues_loop_journals name_of rows qm js (k : Z) :
  let '(qm', js', _) := recover_queues_loop storeDir num_jfiles name_of rows qm js k in
  let L := recovered_journals name_of rows in
  NoDup L.*2 ->
  (forall name q, (name, q) ∈ L -> js' !! q = Some (queue_journal storeDir name q num_jfiles)) /\
  (forall q, q ∉ L.*2 -> js' !! q = js !! q).
Proof.
  revert qm js k. induction rows as [|[id v] rest IH]; intros qm js k; simpl.
  { intros _. split; [|done]. intros name q Hq. by apply not_elem_of_nil in Hq. }
  destruct (String.eqb (name_of v) "").
  { intros _. split; [|done]. intros name q Hq. by apply not_elem_of_nil in Hq. }
  set (js1 := <[id := queue_journal storeDir (name_of v) id num_jfiles]> js).
  specialize (IH (<[id := name_of v]> qm) js1 (Z.max id k)).
  destruct (recover_queues_loop _ _ _ _ _ _ _) as [[qm' js'] k']. simpl. intros Hn.
  apply NoDup_cons in Hn as [Hid Hn]. destruct (IH Hn) as [I1 I2]. split.
  - intros name q [[= -> ->]|Hq]%elem_of_cons; [|by apply I1]. rewrite I2 by done. apply lookup_insert_eq.
  - intros q Hq. apply not_elem_of_cons in Hq as [Hne Hq]. rewrite I2 by done. by apply lookup_insert_ne.
Qed.

(** A new provider on the directory of [pv]: the logs and the files of the journals are
    as they were, and the queue database has a row for every queue of [pv], under the
    name its journal was made with. *)
Record reopened pv en b : Prop := {
  ro_fresh : b_recovered b = [];
  ro_logdir : logBaseDir (aologger (b_pv b)) = logBaseDir (aologger pv);
  ro_logs : logFS (aologger (b_pv b)) = logFS (aologger pv);
  ro_files : JournalImpl.w_files (world (b_pv b)) = JournalImpl.w_files (world pv);
  ro_ids : NoDup (recovered_journals (en_name en) (db_scan (b_qdb b))).*2;
  ro_queues : forall q, q ∈ (recovered_journals (en_name en) (db_scan (b_qdb b))).*2 <-> is_Some (journalList pv !! q);
  ro_journals : forall name q j,
    (name, q) ∈ recovered_journals (en_name en) (db_scan (b_qdb b)) -> journalList pv !! q = Some j ->
    queue_journal storeDir name q num_jfiles =
    JournalImpl.create (journalName j) q (journalDirectory j) (bdbDir j) (Journal.num_jfiles j) true
}.

(** The restart itself meets no failure: the databases answer, the bindings are
    readable, and the broker takes the contents. *)
Record granted en b : Prop := {
  gr_io : en_ioj en = io_fine;
  gr_load : forall n, en_load en n = true;
  gr_get : forall (d : Db (cmp := bt_compare)) k, exists v, db_get d k = Ret v;
  gr_del : forall (d : Db (cmp := bt_compare)) k, exists sd, db_del d k = Ret sd;
  gr_bindings : forall es qs, exists l, (Config.recoverBindings es qs (b_bindings b)).1 = Ret l
}.

(** What the session left pending: not more than ten enqueues of a queue, and no
    message whose data is in the journal with both its operations in the logs. *)
Record settled s : Prop := {
  se_few : forall q, exists ids, (length ids <= 10)%nat /\ forall p v, pending (d_enq s) q p = Some v -> p ∈ ids;
  se_window : forall q p v, pending (d_enq s) q p = Some v -> in_window lo p;
  se_apart : forall q p, is_Some (d_store s !! (q, p)) -> is_Some (pending (d_enq s) q p) -> pending (d_deq s) q p = None
}.

Lemma restart_same (l l' : AsyncOperationLogger) ae ad l1 :
  logBaseDir l' = logBaseDir l -> logFS l' = logFS l -> restart l = Some (ae, ad, l1) ->
  exists l2, restart l' = Some (ae, ad, l2) /\ forall he hd, both_inv l1 he hd -> both_inv l2 he hd.
Proof.
  unfold restart, AsyncOperationLogger.recoverAsyncDequeue, AsyncOperationLogger.recoverAsyncEnqueue.
  intros Eb ->. rewrite Eb. destruct (recover_chan (V := PendingAsyncDequeue) (logBaseDir l) ∅ (logFS l))
    as [[[ad' c] fs]|]; [|done]. simpl. rewrite Eb.
  destruct (recover_chan (V := PendingAsyncEnqueue) (logBaseDir l) ∅ fs) as [[[ae' c'] fs']|]; [|done].
  intros [= -> -> <-]. eexists. split; [done|]. intros he hd. unfold both_inv. simpl. by rewrite Eb.
Qed.

Lemma due_history s q p :
  sizes_ok s -> due_at (d_store s !! (q, p)) (pending (d_enq s) q p) (pending (d_deq s) q p) =
  match survives s q p with Some raw => if durable raw then Some raw else None | None => None end.
Proof.
  intros [Hz _]. unfold due_at, survives, deq_pending, enq_pending.
  destruct (pending (d_deq s) q p); [done|]. destruct (d_store s !! (q, p)); [done|].
  destruct (pending (d_enq s) q p) as [v|] eqn:E; [|done]. simpl.
  apply pending_elem, Hz in E. rewrite E, Nat2Z.id. by rewrite take_ge.
Qed.

(** The journals of the new provider hold what the session stored. *)
Lemma reopened_fresh pv s en b qm js k w q :
  refines lo smart pv s -> reopened pv en b ->
  recover_queues_loop storeDir num_jfiles (en_name en) (db_scan (b_qdb b)) ∅ (journalList (b_pv b)) 1 = (qm, js, k) ->
  JournalImpl.w_files w = JournalImpl.w_files (world pv) ->
  q ∈ (recovered_journals (en_name en) (db_scan (b_qdb b))).*2 ->
  forall pv', journalList pv' = js -> world pv' = w -> fresh_ok lo (fun q x => d_store s !! (q, x)) pv' q.
Proof.
  intros R Ro El Ew ([name q'] & -> & Hq)%list_elem_of_fmap pv' Ej Ewo. simpl.
  pose proof (queues_loop_journals (en_name en) (db_scan (b_qdb b)) ∅ (journalList (b_pv b)) 1) as Hjs.
  rewrite El in Hjs. destruct (Hjs (ro_ids _ _ _ Ro)) as [Hjs' _]. specialize (Hjs' _ _ Hq).
  destruct (proj1 (ro_queues _ _ _ Ro q')) as [j Hj]; [by apply (list_elem_of_fmap_2 snd) in Hq|].
  pose proof (ro_journals _ _ _ Ro _ _ _ Hq Hj) as Eq. rewrite Eq in Hjs'.
  destruct (rf_journal _ _ _ _ R q' j Hj) as [[[Hn Hf] _] Lj].
  exists (journalName j), (journalDirectory j), (bdbDir j), (Journal.num_jfiles j).
  rewrite Ej, Ewo, Ew. split_and!; [done|done| ]. intros x. apply Lj.
Qed.

(** What the broker is due of a message: its bytes when it is durable and was enqueued
    and not dequeued. *)
Definition owed s q p : option (list byte) :=
  match history old s q p with Some raw => if durable raw then Some raw else None | None => None end.

Lemma messages_recovered pv0 s0 pv s en b b4 qm js k :
  0 <= base -> base + 2 ^ 31 < 2 ^ 64 -> d_init base old s0 -> refines lo smart pv0 s0 ->
  prun lo smart old pv0 s0 pv s -> d_next s <= base + 2 ^ 31 -> settled s -> reopened pv en b -> granted en b ->
  recover_queues_loop storeDir num_jfiles (en_name en) (db_scan (b_qdb b)) ∅ (journalList (b_pv b)) 1 = (qm, js, k) ->
  journalList (b_pv b4) = js -> world (b_pv b4) = world (b_pv b) -> aologger (b_pv b4) = aologger (b_pv b) ->
  b_recovered b4 = recovered_journals (en_name en) (db_scan (b_qdb b)) ->
  exists mm mz b5, b_recoverMessages false acceptedFromMongo en b4 = Some (Ret (mm, map queue_entry <$> mz), b5) /\
    (forall p, default [] (mz !! p) = filter (fun q => is_Some (owed s q p)) (b_recovered b4).*2) /\
    (forall p q, q ∈ (b_recovered b4).*2 -> is_Some (owed s q p) ->
       exists q' raw, owed s q' p = Some raw /\ mm !! p = Some (decoded raw)).
Proof.
  intros Hb Hb' Hi R0 Hr Hw Se Ro Gr El Ej Ewo Elo Ere.
  destruct (prun_sim lo smart base old pv0 s0 pv s Hb Hb' Hi R0 Hr Hw) as [Hd R].
  destruct (session_started_once smart base old s0 s Hi Hd Hw) as [O1 O2].
  destruct (restart_inv _ _ _ (rf_log _ _ _ _ R) O1 O2) as (ae & ad & lg & E & Pe & Pd & _).
  destruct (restart_same _ (aologger (b_pv b4)) _ _ _ ltac:(by rewrite Elo, (ro_logdir _ _ _ Ro))
    ltac:(by rewrite Elo, (ro_logs _ _ _ Ro)) E) as (lg' & E' & _).
  pose proof (sizes_reach smart base old s0 s Hi Hd) as Hz.
  assert (Hfl : flagged s).
  { eapply flagged_run; [|exact Hr]. intros v. destruct Hi as (-> & _). intros Hv. by apply not_elem_of_nil in Hv. }
  assert (Hdue : forall q p, due_q ae ad (fun q x => d_store s !! (q, x)) q p = owed s q p).
  { intros q p. unfold due_q. rewrite Pe, Pd, due_history by done.
    by rewrite (survives_history smart base old s0 s q p Hi Hd Hw). }
  destruct (recover_whole acceptedFromMongo (en_uid en) (en_load en) (en_alloc en) lo ae ad
    (fun q x => d_store s !! (q, x)) (gr_get _ _ Gr) (gr_del _ _ Gr) (gr_load _ _ Gr)) with
    (accepts := en_accepts en) (L := b_recovered b4) (pv := b_pv b4) (l0 := lg') as (mm & mq & pv' & Em & M1 & M2).
  - intros q p v. rewrite Pe. apply pending_key.
  - intros q p. rewrite Pe, Pd. split; [apply (se_apart _ Se)|]. intros v Hv. apply pending_elem in Hv.
    destruct Hz as [Hz _]. simpl. rewrite (Hz v Hv), Nat2Z.id, take_ge by lia. by apply Hfl.
  - intros q. destruct (se_few _ Se q) as (ids & Hl & Hids). exists ids. split; [done|]. intros p v. rewrite Pe. apply Hids.
  - intros q p v. rewrite Pe. apply (se_window _ Se).
  - done.
  - rewrite Ere. apply Ro.
  - intros q. rewrite Ere. intros Hq. apply (reopened_fresh pv s en b qm js k (world (b_pv b4)) q); try done. by rewrite Ewo, (ro_files _ _ _ Ro).
  - exists mm, mq, (set_recovered [] (set_pv pv' b4)). unfold b_recoverMessages. rewrite (gr_io _ _ Gr), Em.
    split_and!; [done| |].
    + intros p. rewrite M1. apply list_filter_iff. intros q. by rewrite Hdue.
    + intros p q Hq Hd'. destruct (M2 p q Hq) as (q' & raw & _ & T2 & T3); [by rewrite Hdue|].
      exists q', raw. by rewrite <- Hdue.
Qed.

(** The provider just before [recoverMessages]. *)
Lemma before_messages en b qm js k :
  recover_queues_loop storeDir num_jfiles (en_name en) (db_scan (b_qdb b)) ∅ (journalList (b_pv b)) 1 = (qm, js, k) ->
  b_recovered b = [] ->
  let b3 := (b_recoverQueues storeDir num_jfiles en (b_recoverExchanges en (b_recoverConfigs en b).2).2).2 in
  (Config.recoverQueues storeDir num_jfiles (en_name en) (qs_of b)).1 = qm /\ b_bindings b3 = b_bindings b /\
  forall es qs, let b4 := (b_recoverBindings en es qs b3).2 in
    journalList (b_pv b4) = js /\ world (b_pv b4) = world (b_pv b) /\ aologger (b_pv b4) = aologger (b_pv b) /\
    b_recovered b4 = recovered_journals (en_name en) (db_scan (b_qdb b)).
Proof.
  intros El Hr.
  assert (E2 : exists i1 i2, (b_recoverExchanges en (b_recoverConfigs en b).2).2 =
    set_exchanges (b_edb b) i1 (set_configs (b_gdb b) i2 b)) by (eexists _, _; reflexivity).
  destruct E2 as (i1 & i2 & ->). unfold b_recoverQueues, Config.recoverQueues. simpl. rewrite El. simpl. rewrite Hr.
  split_and!; [done|done|]. intros es qs. unfold b_recoverBindings. simpl.
  by destruct (Config.recoverBindings es qs (b_bindings b)) as [r db].
Qed.


End restart.
