(* ===== verification/RestartQueues.v ===== *)
(** A restart when every pending dequeue is of a durable message that is stored and every
    pending enqueue is of a durable message that is not stored and has no pending dequeue:
    what [recoverMessages] does to the logs, the journals, the counters and the pools.

    The pending dequeues are carried out by the restart itself: each queue logs its own as
    complete and hands their messages to the second loop, which deletes them together with
    the transient ones. The pending enqueues are handed to the broker and given to the pool
    again. *)
From S2P Require Import Prelude Format Jerrno IdSequence NestedMap PidTracker PendingOps.
From S2P Require Import LogFormat LogExtract AsyncLog LogSystem LogRecovery LoggerSpec.
From S2P Require Import Bdb TxnCtxt Framing Journal JournalSpec Durability Posix Jdir Recovery RecoverySpec.
From S2P Require Import Provider ProviderSpec CrashRestart Config Resurrect ResurrectSpec Plugin BdbStore PluginSpec WholeRestart RestartSpec.
From Stdlib Require Import ZArith Lia.

(** ** Ids *)

(** Below [2^63] and within [2^31] of each other, or with nothing found yet, the later id
    is the larger one. *)
Lemma later_id_max a b :
  0 <= a < two63 -> 0 <= b < two63 -> later_id a b = Z.max a b.
Proof.
  intros Ha Hb. unfold later_id, sub64, u64, two63 in *. destruct (Z.eqb_spec a 0) as [->|Hn]; [lia|].
  destruct (Z_le_gt_dec a b).
  - rewrite Z.mod_small by lia. rewrite (proj2 (Z.ltb_lt _ _)); lia.
  - replace (b - a) with (-1 * 2 ^ 64 + (2 ^ 64 + (b - a))) by lia.
    rewrite Z.add_comm, Z.mod_add by lia. rewrite Z.mod_small by lia. rewrite (proj2 (Z.ltb_ge _ _)); lia.
Qed.

Lemma nm_list_empty {A} (m : gmap Z (gmap Z A)) : (forall q p, nm_get m q p = None) -> nm_list m = [].
Proof.
  intros Hm. destruct (nm_list m) as [|[[q p] v] l] eqn:E; [done|].
  assert (Hin : (q, p, v) ∈ nm_list m) by (rewrite E; left). apply elem_of_nm_list in Hin. by rewrite Hm in Hin.
Qed.

(** ** One queue

    Every pending enqueue is of a durable message that is not stored and has no pending
    dequeue. *)

Section decode.
Context `{Framing}.
Variables (mongo : list string) (uid_of : list byte -> string) (loadContent : Z -> bool).
Implicit Types (st : dscan) (qid id : Z) (ae : PendingEnqueueSet) (ad : PendingDequeueSet) (v : PendingAsyncEnqueue).

(** Only dequeues have been dealt with so far. *)
Record quiet st : Prop := {
  qt_transient : s_transient st = [];
  qt_useless : s_useless st = [];
  qt_inner : s_innerAccepted st = []
}.

Abbreviation decode := (decode_one false mongo uid_of loadContent).

(** A durable message with a pending dequeue. *)
Definition hit qid ad (x : Z * list byte) : Prop := durable x.2 = true /\ is_Some (nm_get ad qid x.1).
#[local] Instance hit_dec qid ad x : Decision (hit qid ad x) := _.
Definition hits qid ad (R : list (Z * list byte)) : list Z := (filter (hit qid ad) R).*1.

(** The largest id of the messages [R] that satisfy [P] and [m]. *)
Definition tops (P : Z -> Prop) (R : list (Z * list byte)) (m m' : Z) : Prop :=
  m <= m' /\ (forall id raw, (id, raw) ∈ R -> durable raw = true -> P id -> id <= m') /\
  (m' = m \/ exists raw, (m', raw) ∈ R /\ durable raw = true /\ P m').

Lemma decode_quiet_one qid st x :
  quiet st ->
  let st' := decode qid st x in
  quiet st' /\ s_ae st' = s_ae st /\
  s_ad st' = (if decide (hit qid (s_ad st) x) then nm_erase (s_ad st) qid x.1 else s_ad st) /\
  s_deqdone st' = s_deqdone st ++ (if decide (hit qid (s_ad st) x) then [(x.1, qid)] else []) /\
  s_asyncAccepted st' = s_asyncAccepted st ++ (if decide (hit qid (s_ad st) x) then [x.1] else []) /\
  s_transientMsg st' = s_transientMsg st ++ (if durable x.2 then [] else [x.1]) /\
  s_penq st' = (if durable x.2 then s_penq st ∖ {[x.1]} else s_penq st) /\
  s_maxRid st' = (if durable x.2 then Z.max x.1 (s_maxRid st) else s_maxRid st) /\
  s_lastPid st' = (if durable x.2 then (if decide (x.1 ∉ s_penq st) then Z.max x.1 (s_lastPid st) else s_lastPid st)
                   else s_lastPid st).
Proof.
  destruct x as [id raw]. intros [Q3 Q4 Q6]. unfold decode_one. cbn [fst snd].
  replace (match raw with b :: _ => Z_of_byte b | [] => 0 end =? 0) with (durable raw) by (by destruct raw).
  destruct (durable raw) eqn:Er; cycle 1.
  { destruct (decide (hit _ _ _)) as [[E _]|_]; [simpl in E; congruence|]. rewrite !app_nil_r. by split_and!. }
  cbn [andb negb]. unfold check_dequeue. cbn [s_ad].
  assert (Hl : (if bool_decide (id ∈ s_penq st) then s_lastPid st else Z.max id (s_lastPid st)) =
    if decide (id ∉ s_penq st) then Z.max id (s_lastPid st) else s_lastPid st)
    by (case_bool_decide; case_decide; tauto).
  destruct (nm_get (s_ad st) qid id) as [y|] eqn:Ed; cbn [negb].
  - destruct (decide (hit _ _ _)) as [_|Hh]; [|destruct Hh; split; [done|by eexists]]. simpl. rewrite app_nil_r. by split_and!.
  - destruct (decide (hit _ _ _)) as [[_ [? ?]]|_]; [simpl in *; congruence|]. unfold recover_one.
    destruct (loadContent _); simpl; rewrite !app_nil_r; by split_and!.
Qed.

(** A queue that is not looked at twice for the same id. *)
Lemma hits_erase qid ad id R : id ∉ R.*1 -> hits qid (nm_erase ad qid id) R = hits qid ad R.
Proof.
  unfold hits. induction R as [|[y raw] R IH]; intros Hid; [done|]. apply not_elem_of_cons in Hid as [Hy Hid].
  rewrite !filter_cons. specialize (IH Hid).
  assert (E : hit qid (nm_erase ad qid id) (y, raw) <-> hit qid ad (y, raw)).
  { unfold hit. cbn [fst snd]. rewrite nm_get_erase, decide_False; [done|]. naive_solver. }
  repeat case_decide; try tauto. csimpl. by rewrite IH.
Qed.

Lemma hits_NoDup qid ad R : NoDup R.*1 -> NoDup (hits qid ad R).
Proof.
  unfold hits. induction R as [|x R IH]; intros Hn; [constructor|]. apply NoDup_cons in Hn as [Hx Hn].
  rewrite filter_cons. case_decide; [|by apply IH]. csimpl. constructor; [|by apply IH].
  intros (y & Ey & [_ Hy]%list_elem_of_filter)%list_elem_of_fmap. apply Hx. rewrite Ey. by apply list_elem_of_fmap_2.
Qed.

Lemma tops_cons (P Q : Z -> Prop) `{!forall x, Decision (P x)} x R m m' :
  tops Q R (if durable x.2 then (if decide (P x.1) then Z.max x.1 m else m) else m) m' ->
  (forall id, id ∈ R.*1 -> (Q id <-> P id)) -> tops P (x :: R) m m'.
Proof.
  intros (I1 & I2 & I3) HQ. set (m1 := if durable x.2 then _ else m) in *.
  assert (H1 : m <= m1 /\ (durable x.2 = true -> P x.1 -> x.1 <= m1) /\ (m1 = m \/ (m1 = x.1 /\ durable x.2 = true /\ P x.1))).
  { unfold m1. destruct (durable x.2); [|by split_and!; [lia| |left]].
    case_decide; [|by split_and!; [lia| |left]].
    destruct (Z.max_spec x.1 m) as [[? ->]|[? ->]]; (split; [lia|]); (split; [lia|]); [by left|by right]. }
  destruct H1 as (H1 & H2 & H3). split; [lia|]. split.
  - intros id raw [<-|Hi]%elem_of_cons Hd HP; [specialize (H2 Hd HP); simpl in *; lia|].
    eapply I2; try done. apply HQ; [|done]. by apply (list_elem_of_fmap_2 fst) in Hi.
  - destruct I3 as [->|(raw & Hr & Hd & HP)].
    + destruct H3 as [->|(-> & Hd & HP)]; [by left|]. right. exists x.2. split; [|done].
      rewrite <- surjective_pairing. left.
    + right. exists raw. split; [by right|]. split; [done|]. apply HQ; [|done]. by apply (list_elem_of_fmap_2 fst) in Hr.
Qed.

Lemma decode_quiet qid R st :
  NoDup R.*1 -> quiet st ->
  let st' := foldl (decode qid) st R in
  let P := hits qid (s_ad st) R in
  quiet st' /\ s_ae st' = s_ae st /\
  (forall q p, nm_get (s_ad st') q p = if decide (q = qid /\ p ∈ P) then None else nm_get (s_ad st) q p) /\
  s_deqdone st' = s_deqdone st ++ map (fun id => (id, qid)) P /\ s_asyncAccepted st' = s_asyncAccepted st ++ P /\
  s_transientMsg st' = s_transientMsg st ++ (filter (fun x => durable x.2 = false) R).*1 /\
  tops (fun _ => True) R (s_maxRid st) (s_maxRid st') /\ tops (fun id => id ∉ s_penq st) R (s_lastPid st) (s_lastPid st').
Proof.
  revert st. induction R as [|x R IH]; intros st Hn Hq; cbn [foldl].
  { unfold hits. simpl. rewrite !app_nil_r. split_and!; try done;
      try (split_and!; [done|intros id raw Hi; by apply not_elem_of_nil in Hi|by left]).
    intros q p. rewrite decide_False; [done|]. intros [_ Hp]. by apply not_elem_of_nil in Hp. }
  apply NoDup_cons in Hn as [Hx Hn].
  destruct (decode_quiet_one qid st x Hq) as (Hq1 & E1 & E2 & E3 & E4 & E5 & E6 & E7 & E8).
  destruct (IH (decode qid st x) Hn Hq1) as (I1 & I2 & I3 & I4 & I5 & I6 & I7 & I8).
  assert (Hh : hits qid (s_ad (decode qid st x)) R = hits qid (s_ad st) R).
  { rewrite E2. destruct (decide (hit qid (s_ad st) x)); [by apply hits_erase|done]. }
  assert (HP : hits qid (s_ad st) (x :: R) = (if decide (hit qid (s_ad st) x) then [x.1] else []) ++ hits qid (s_ad st) R).
  { unfold hits. rewrite filter_cons. by destruct (decide (hit qid (s_ad st) x)). }
  rewrite Hh in I3, I4, I5. split_and!; [done|congruence| | | | | |].
  - intros q p. rewrite I3, HP, E2. destruct (decide (hit qid (s_ad st) x)) as [Hit|Hit]; [|done].
    rewrite nm_get_erase. simpl app.
    assert (Ec : q = qid /\ p ∈ x.1 :: hits qid (s_ad st) R <->
      (qid, x.1) = (q, p) \/ q = qid /\ p ∈ hits qid (s_ad st) R) by (rewrite elem_of_cons; clear; intuition congruence).
    repeat case_decide; try done; tauto.
  - rewrite I4, E3, HP, <- app_assoc. f_equal. rewrite map_app. by destruct (decide (hit qid (s_ad st) x)).
  - by rewrite I5, E4, HP, <- app_assoc.
  - rewrite I6, E5, <- app_assoc. destruct (durable x.2) eqn:Ed.
    + by rewrite filter_cons_False by congruence.
    + by rewrite filter_cons_True by done.
  - rewrite E7 in I7. eapply (tops_cons (fun _ => True) (fun _ => True) x R); [|done]. by rewrite decide_True by done.
  - rewrite E8 in I8. eapply (tops_cons _ _ x R); [exact I8|]. intros id Hid. rewrite E6.
    destruct (durable x.2); [|done]. rewrite elem_of_difference, elem_of_singleton. split; [|tauto].
    intros H1' H2'. apply H1'. split; [done|]. by intros ->.
Qed.

(** *** The first loop *)

(** What the pending enqueues of a queue add to the messages of its journal. *)
Definition own qid (L : list PendingAsyncEnqueue) : list (Z * list byte) :=
  map (fun v => (pae_msgId v, take (Z.to_nat (pae_size v)) (pae_buff v))) (filter (fun v => pae_queueId v = qid) L).

(** A pending enqueue that is to be stored again. *)
Definition unstored qid ad (enq : Z -> bool) v : Prop :=
  nm_get ad (pae_queueId v) (pae_msgId v) = None /\ pae_transient v = false /\
  (pae_queueId v = qid -> enq (pae_msgId v) = false).

Lemma scan_plain qid enq L (e : escan) :
  (forall v, v ∈ L -> unstored qid (e_ad e) enq v) ->
  let e' := foldl (scan_one qid enq) e L in
  e_ae e' = e_ae e /\ e_ad e' = e_ad e /\ e_recovered e' = e_recovered e ++ own qid L /\
  (forall p, p ∈ e_penq e' <-> p ∈ (own qid L).*1 \/ p ∈ e_penq e) /\
  e_transient e' = e_transient e /\ e_useless e' = e_useless e /\ e_logged e' = e_logged e.
Proof.
  unfold own. revert e. induction L as [|v L IH]; intros e HL; cbn [foldl].
  { simpl. rewrite app_nil_r. split_and!; try done. intros p. by rewrite elem_of_nil; tauto. }
  destruct (HL v ltac:(left)) as (U1 & U2 & U3).
  assert (Eo : scan_one qid enq e v = if decide (pae_queueId v = qid) then
      mkE (e_ae e) (e_ad e) (e_recovered e ++ [(pae_msgId v, take (Z.to_nat (pae_size v)) (pae_buff v))])
        ({[pae_msgId v]} ∪ e_penq e) (if e_first e <? 10 then e_first e + 1 else e_first e)
        (e_transient e) (e_useless e) (e_logged e) (e_report e) else e).
  { unfold scan_one. rewrite U1, U2. destruct (Z.eqb_spec qid (pae_queueId v)) as [Eq|Hne].
    - rewrite decide_True by done. rewrite U3 by done. by rewrite andb_false_r.
    - rewrite decide_False by congruence. done. }
  rewrite Eo, filter_cons. case_decide as Hq.
  - match goal with |- context [foldl _ ?e1 L] => destruct (IH e1) as (I1 & I2 & I3 & I4 & I5 & I6 & I7) end.
    { intros x Hx. apply HL. by right. }
    cbn [e_ae e_ad e_recovered e_penq e_transient e_useless e_logged] in *. split_and!; try done.
    + by rewrite I3, <- app_assoc.
    + intros p. rewrite I4, elem_of_union, elem_of_singleton. csimpl. rewrite elem_of_cons. tauto.
  - apply IH. intros x Hx. apply HL. by right.
Qed.

Lemma elem_of_own qid L id raw :
  (id, raw) ∈ own qid L <->
  exists v, v ∈ L /\ pae_queueId v = qid /\ pae_msgId v = id /\ raw = take (Z.to_nat (pae_size v)) (pae_buff v).
Proof.
  unfold own. rewrite list_elem_of_fmap. split.
  - intros (v & [= -> ->] & [Hq Hv]%list_elem_of_filter). by exists v.
  - intros (v & Hv & Hq & <- & ->). exists v. split; [done|]. by apply list_elem_of_filter.
Qed.

Lemma elem_of_pendings ae v : keys_ok ae -> v ∈ map snd (nm_list ae) <-> nm_get ae (pae_queueId v) (pae_msgId v) = Some v.
Proof.
  intros Hk. rewrite list_elem_of_fmap. split.
  - intros ([[q p] v'] & -> & Hv). apply elem_of_nm_list in Hv. simpl.
    pose proof (Hk _ _ _ Hv) as Hkey. unfold pae_key in Hkey. injection Hkey as -> ->. done.
  - intros Hv. exists (pae_queueId v, pae_msgId v, v). split; [done|]. by apply elem_of_nm_list.
Qed.

Lemma own_NoDup qid ae : keys_ok ae -> NoDup (own qid (map snd (nm_list ae))).*1.
Proof.
  intros Hk. pose proof (nm_list_NoDup ae) as Hn. rewrite <- keyed_list in Hn by done.
  induction (map snd (nm_list ae)) as [|v L IH]; [constructor|]. apply NoDup_cons in Hn as [Hv Hn].
  unfold own. rewrite filter_cons. case_decide as Hq; [|by apply IH]. csimpl. constructor; [|by apply IH].
  intros ([id raw] & Ei & Hin)%list_elem_of_fmap. apply elem_of_own in Hin as (w & Hw & Hq' & Hp & _). apply Hv.
  apply list_elem_of_fmap. exists w. split; [|done]. unfold pae_key. simpl in Ei. congruence.
Qed.

(** The whole method, when the pending dequeues of the queue are of durable messages that
    are stored. *)
Lemma decode_quiet_queue qid enq l ae ad mm mq :
  NoDup l.*1 -> keys_ok ae ->
  (forall q p v, nm_get ae q p = Some v -> unstored qid ad enq v /\
     durable (take (Z.to_nat (pae_size v)) (pae_buff v)) = true /\ (pae_queueId v = qid -> pae_msgId v ∉ l.*1)) ->
  (forall p, is_Some (nm_get ad qid p) -> exists raw, (p, raw) ∈ l /\ durable raw = true) ->
  let '(s, logged) := decodeAndRecoverMsg false mongo uid_of loadContent qid enq l ae ad 0 mm mq in
  exists P, NoDup P /\ (forall p, p ∈ P <-> is_Some (nm_get ad qid p)) /\
  quiet s /\ s_ae s = ae /\ (forall q p, nm_get (s_ad s) q p = if decide (q = qid) then None else nm_get ad q p) /\
  logged = [] /\ s_deqdone s = map (fun id => (id, qid)) P /\ s_asyncAccepted s = P /\
  s_transientMsg s = (filter (fun x => durable x.2 = false) l).*1 /\
  tops (fun _ => True) (l ++ own qid (map snd (nm_list ae))) 0 (s_maxRid s) /\ tops (fun _ => True) l 0 (s_lastPid s).
Proof.
  intros Hn Hk He Hd. unfold decodeAndRecoverMsg, scan_pending.
  assert (HU : forall v, v ∈ map snd (nm_list ae) -> unstored qid ad enq v /\
     durable (take (Z.to_nat (pae_size v)) (pae_buff v)) = true /\ (pae_queueId v = qid -> pae_msgId v ∉ l.*1)).
  { intros v Hv. apply elem_of_pendings in Hv; [|done]. by eapply He. }
  destruct (scan_plain qid enq (map snd (nm_list ae)) (mkE ae ad l ∅ 0 [] [] [] report0)) as (S1 & S2 & S3 & S4 & S5 & S6 & S7).
  { intros v Hv. by apply HU. }
  cbn [e_ae e_ad e_recovered e_penq e_transient e_useless e_logged] in *.
  set (e := foldl _ _ _) in *. set (O := own qid (map snd (nm_list ae))) in *. rewrite S1, S2, S3, S5, S6, S7.
  set (st := mkDec _ _ _ _ _ _ _ _ _ _ _ _ _ _ _).
  assert (Hq : quiet st) by (by split).
  assert (HO : forall id raw, (id, raw) ∈ O -> durable raw = true /\ (id ∉ l.*1) /\ nm_get ad qid id = None).
  { intros id raw (v & Hv & Hq' & <- & ->)%elem_of_own. destruct (HU v Hv) as ((U1 & _) & U4 & U5).
    split; [done|]. split; [by apply U5|]. by rewrite <- Hq'. }
  assert (HnO : NoDup (l ++ O).*1).
  { rewrite fmap_app. apply NoDup_app. split_and!; [done| |by apply own_NoDup].
    intros id Hl ([id' raw] & -> & Hin)%list_elem_of_fmap. by apply HO in Hin as (_ & ? & _). }
  destruct (decode_quiet qid (l ++ O) st HnO Hq) as (D1 & D2 & D3 & D4 & D5 & D6 & D7 & D8).
  change (s_ad st) with ad in *. change (s_penq st) with (e_penq e) in D8. cbn [s_maxRid s_lastPid st] in D7, D8.
  assert (HhO : hits qid ad (l ++ O) = hits qid ad l).
  { unfold hits. rewrite filter_app. rewrite (filter_none _ O); [by rewrite app_nil_r|]. intros [id raw] Hin [_ [y Hy]].
    apply HO in Hin as (_ & _ & E). simpl in Hy. congruence. }
  rewrite HhO in *. exists (hits qid ad l).
  assert (HP : forall p, p ∈ hits qid ad l <-> is_Some (nm_get ad qid p)).
  { intros p. unfold hits. rewrite list_elem_of_fmap. split.
    - intros ([y raw] & -> & [[_ Hy] _]%list_elem_of_filter). done.
    - intros Hp. destruct (Hd p Hp) as (raw & Hl & Hr). exists (p, raw). split; [done|].
      by apply list_elem_of_filter. }
  split_and!; try done.
  - by apply hits_NoDup.
  - intros q p. rewrite D3. destruct (decide (q = qid)) as [->|Hne].
    + case_decide as Hp; [done|]. destruct (nm_get ad qid p) eqn:E; [|done]. exfalso. apply Hp. split; [done|].
      apply HP. by eexists.
    + rewrite decide_False; [done|]. by intros [? _].
  - rewrite D6. rewrite filter_app, fmap_app. rewrite (filter_none _ O); [by rewrite app_nil_r|]. intros [id raw] Hin E. apply HO in Hin as (E' & _). simpl in E. congruence.
  - destruct D8 as (T1 & T2 & T3). split_and!; [done| |].
    + intros id raw Hin Hdr _. eapply T2; [apply elem_of_app; by left|exact Hdr|]. rewrite S4.
      intros [Ho|Ho]; [|by apply not_elem_of_empty in Ho].
      apply list_elem_of_fmap in Ho as ([id' raw'] & -> & Ho). apply HO in Ho as (_ & Ho & _).
      apply Ho. by apply (list_elem_of_fmap_2 fst) in Hin.
    + destruct T3 as [T3|(raw & [Hin|Hin]%elem_of_app & Hdr & Hp)]; [by left|by right; exists raw|].
      exfalso. apply Hp. rewrite S4. left. by apply (list_elem_of_fmap_2 fst) in Hin.
Qed.

End decode.

(** ** Deleting the transient and the dequeued messages *)

Section journal.
Context `{BT : !BTree bt_compare}.
Variable lo : Z.
Hypothesis healthy_del : forall (d : Db) k, exists sd, db_del d k = Ret sd.
Implicit Types (j : JournalImpl) (w : JournalImpl.world) (id x : Z).

Lemma lookup_window j w x raw : jwf lo j w -> jlookup j (JournalImpl.w_files w) x = Some raw -> in_window lo x.
Proof.
  intros Hj Hx. destruct (db_of lo j w x Hj) as (d & _ & E & Hok). rewrite E in Hx. by apply (Hok x).
Qed.

(** A journal object differs from another in its flags and lists only. *)
Definition same_files j j' : Prop :=
  JournalImpl.getSubDbPath j' = JournalImpl.getSubDbPath j /\ forall w, jwf lo j w -> jwf lo j' w /\
  forall x, jlookup j' (JournalImpl.w_files w) x = jlookup j (JournalImpl.w_files w) x.

Lemma same_lists j a b : same_files j (JournalImpl.set_lists a b j).
Proof. done. Qed.

(** What deleting [ids] of a journal does to the files. *)
Definition deleted j (ids : list Z) w w' : Prop :=
  jwf lo j w' /\
  (forall x, jlookup j (JournalImpl.w_files w') x = if decide (x ∈ ids) then None else jlookup j (JournalImpl.w_files w) x) /\
  (forall path, (forall k, path <> JournalImpl.getSubDbPath j k) ->
     JournalImpl.w_files w' !! path = JournalImpl.w_files w !! path).

Lemma deleted_app j ids ids' w w1 w2 : deleted j ids w w1 -> deleted j ids' w1 w2 -> deleted j (ids ++ ids') w w2.
Proof.
  intros (_ & L1 & P1) (J2 & L2 & P2). split_and!; [done| |intros path Hp; by rewrite P2, P1].
  intros x. rewrite L2, L1. repeat case_decide; try done; set_solver.
Qed.

Lemma del_each_exact ids j w :
  jwf lo j w -> Forall (in_window lo) ids ->
  exists w', JournalImpl.del_each ids j w = (Ret tt, w') /\ deleted j ids w w'.
Proof.
  revert w. induction ids as [|id ids IH]; intros w Hj Hw.
  { exists w. by split_and!. }
  apply Forall_cons in Hw as [Hid Hw]. cbn [JournalImpl.del_each]. rewrite (shard_ok lo j w id Hj). cbn [obind].
  destruct (db_of lo j w id Hj) as (d & Hd & Hl & Hok). unfold JournalImpl.db_at. rewrite Hd. cbn [obind].
  destruct (healthy_del d id) as [[st d'] Ed]. rewrite Ed. cbn [obind snd].
  pose proof (db_del_law d id st d' (db_keys_sane lo j _ d id Hok Hid) Ed) as Hlaw.
  assert (Hm : db_map d' !! id = None /\ forall x, x <> id -> db_map d' !! x = db_map d !! x).
  { destruct (db_map d !! id) eqn:E; destruct Hlaw as [_ ->]; [|done].
    split; [apply lookup_delete_eq|]. intros x Hx. by apply lookup_delete_ne. }
  destruct Hm as [Hm1 Hm2].
  destruct (jwf_update lo j w id d d' (JournalImpl.w_env w) j Hj Hid Hd Hm2) as [Hj1 Hl1].
  destruct (IH _ Hj1 Hw) as (w' & E & D'). exists w'. split; [exact E|]. eapply (deleted_app j [id] ids); [|exact D'].
  unfold deleted.
  split_and!; [done| |].
  - intros x. rewrite Hl1, Hm1. destruct (decide (x = id)) as [->|Hne]; [by rewrite decide_True by left|].
    rewrite decide_False; [done|]. by rewrite list_elem_of_singleton.
  - intros path Hpath. simpl. apply lookup_insert_ne, not_eq_sym, Hpath.
Qed.

(** [discard_transient_message] and [discard_accepted_message]. *)
Lemma discard_transient j w :
  jwf lo j w -> Forall (in_window lo) (transientList j) ->
  exists w', JournalImpl.discard_transient_message j w = (Ret (JournalImpl.set_lists [] (acceptedList j) j), w') /\
    deleted j (transientList j) w w'.
Proof.
  intros Hj Hw. pose proof Hj as (_ & Hc & _). unfold JournalImpl.discard_transient_message. rewrite Hc.
  destruct (transientList j) as [|id ids] eqn:Et.
  - exists w. split; [|by split_and!]. do 2 f_equal. destruct j. simpl in *. by subst.
  - destruct (del_each_exact (id :: ids) j w Hj Hw) as (w' & -> & D). by exists w'.
Qed.

Lemma discard_accepted j w :
  jwf lo j w -> Forall (in_window lo) (acceptedList j) ->
  exists w', JournalImpl.discard_accepted_message j w = (Ret (JournalImpl.set_lists (transientList j) [] j), w') /\
    deleted j (acceptedList j) w w'.
Proof.
  intros Hj Hw. pose proof Hj as (_ & Hc & _). unfold JournalImpl.discard_accepted_message. rewrite Hc.
  destruct (acceptedList j) as [|id ids] eqn:Et.
  - exists w. split; [|by split_and!]. do 2 f_equal. destruct j. simpl in *. by subst.
  - destruct (del_each_exact (id :: ids) j w Hj Hw) as (w' & -> & D). by exists w'.
Qed.

(** Both and [recover_complete], which finds nothing left to delete. *)
Lemma discard_exact j w :
  jwf lo j w -> Forall (in_window lo) (transientList j ++ acceptedList j) ->
  let j1 := JournalImpl.set_lists [] (acceptedList j) j in
  let j2 := JournalImpl.set_lists [] [] j in
  exists w1 w2, JournalImpl.discard_transient_message j w = (Ret j1, w1) /\
    JournalImpl.discard_accepted_message j1 w1 = (Ret j2, w2) /\ JournalImpl.recover_complete j2 w2 = (Ret j2, w2) /\
    deleted j (transientList j ++ acceptedList j) w w2.
Proof.
  intros Hj [Ht Ha]%Forall_app j1 j2. destruct (discard_transient j w Hj Ht) as (w1 & E1 & D1).
  destruct (same_lists j [] (acceptedList j)) as [_ Hs]. destruct (Hs w1 (proj1 D1)) as [Hj1 _].
  destruct (discard_accepted j1 w1 Hj1) as (w2 & E2 & D2); [done|].
  exists w1, w2. split; [exact E1|]. split; [exact E2|]. split; [|by eapply deleted_app].
  pose proof Hj as (_ & Hc & _).
  unfold JournalImpl.recover_complete, JournalImpl.discard_transient_message, JournalImpl.discard_accepted_message, j2.
  cbn. rewrite !Hc. cbn. by rewrite ?Hc.
Qed.

End journal.

(** ** All queues *)

Section queues.
Context `{HostEndian, HostAlloc, Framing, BT : !BTree bt_compare}.
Variables (mongo : list string) (uid_of : list byte -> string) (loadContent : Z -> bool).
Variable alloc : nat -> option (list byte).
Variable lo : Z.
Variable stored : Z -> Z -> option (list byte).
Variables (ae0 : PendingEnqueueSet) (ad0 : PendingDequeueSet).
Variable pv0 : Provider.

Hypothesis healthy_del : forall (d : Db) k, exists sd, db_del d k = Ret sd.
Hypothesis alloc_size : forall n b, alloc n = Some b -> length b = n.
Hypothesis below : 0 <= lo /\ lo + 2 ^ 31 <= two63.
Hypothesis disjoint0 : forall q q' j j' k k', q <> q' -> journalList pv0 !! q = Some j -> journalList pv0 !! q' = Some j' ->
  JournalImpl.getSubDbPath j k <> JournalImpl.getSubDbPath j' k'.

(** The pending dequeues: of durable messages that are stored, started once, and not more than one block
    of log records holds. *)
Hypothesis held : forall q p, is_Some (nm_get ad0 q p) -> exists raw, stored q p = Some raw /\ durable raw = true.
Hypothesis valid0 : forall q p, is_Some (nm_get ad0 q p) -> is_u64 p /\ is_u64 q.
Hypothesis once0 : started_once (start_recs ad0).
Hypothesis small0 : 17 * Z.of_nat (length (nm_list ad0)) < 2 ^ 31.

(** The pending enqueues: of durable messages that are not stored and that no dequeue is
    pending for, started once. The database is asked for them. *)
Hypothesis keys0 : keys_ok ae0.
Hypothesis new0 : forall q p v, nm_get ae0 q p = Some v -> nm_get ad0 q p = None /\ stored q p = None /\
  pae_transient v = false /\ durable (take (Z.to_nat (pae_size v)) (pae_buff v)) = true /\ in_window lo p.
Hypothesis asked0 : (exists q p, is_Some (nm_get ae0 q p)) -> forall (d : Db) k, exists x, db_get d k = Ret x.
Hypothesis once_e0 : started_once (start_recs ae0).

Implicit Types (pv : Provider) (st : rstate) (q p id : Z) (j : JournalImpl) (K : list PendingOperationId).

(** The durable messages, and those that are left when the dequeues are done. *)
Definition lasting q p : option (list byte) :=
  match stored q p with Some raw => if durable raw then Some raw else None | None => None end.
Definition remaining q p : option (list byte) :=
  match nm_get ad0 q p with Some _ => None | None => lasting q p end.

(** The records of the dequeue log when [K] have been completed. *)
Definition deq_hist K : list (log_rec PendingAsyncDequeue) := start_recs ad0 ++ completes K.

Lemma deq_hist_once K : started_once (deq_hist K).
Proof. by apply completes_once. Qed.

(** Nothing is pending when all are completed. *)
Lemma deq_hist_done K q p :
  (forall q p v, nm_get ad0 q p = Some v -> v = mkPAD p q) -> (forall p q, (p, q) ∈ K <-> is_Some (nm_get ad0 q p)) ->
  pending (deq_hist K) q p = None.
Proof.
  intros Hv HK. unfold pending. case_decide as Hc; [done|]. unfold deq_hist in *. rewrite completed_app in Hc. rewrite starts_app.
  assert (starts (completes (V := PendingAsyncDequeue) K) q p = []) as ->.
  { clear. induction K as [|x K IH]; [done|]. simpl. done. }
  rewrite app_nil_r. destruct (starts (start_recs ad0) q p) as [|v l] eqn:Es; [done|]. exfalso. apply Hc. right.
  assert (Hin : v ∈ starts (start_recs ad0) q p) by (rewrite Es; left).
  apply list_elem_of_omap in Hin as ([w|] & Hin & Ew); [|done]. case_decide as Hk; [|done]. injection Ew as ->.
  apply list_elem_of_fmap in Hin as ([[q' p'] v'] & [= ->] & Hin). apply elem_of_nm_list in Hin. simpl in *.
  pose proof (Hv _ _ _ Hin) as ->. injection Hk as <- <-. unfold completed, completes. apply list_elem_of_fmap.
  exists (p', q'). split; [done|]. apply HK. by eexists.
Qed.

(** What the restart does not touch: the rest of the provider, and the paths. *)
Record same_rest pv K : Prop := {
  sr_smart : enableSmartAsync pv = enableSmartAsync pv0;
  sr_tracker : tracker pv = tracker pv0;
  sr_paths : forall q, match journalList pv !! q, journalList pv0 !! q with
                       | Some j, Some j0 => JournalImpl.getSubDbPath j = JournalImpl.getSubDbPath j0
                       | None, None => True
                       | _, _ => False
                       end;
  sr_pools : enqueuePool pv = enqueuePool pv0 /\ dequeuePool pv = dequeuePool pv0;
  sr_log : both_inv (aologger pv) (start_recs ae0) (deq_hist K)
}.

(** A queue that has been read, and one that is done with. *)
Definition read_ok pv q : Prop :=
  exists j, journalList pv !! q = Some j /\ jwf lo j (world pv) /\
    (forall x, jlookup j (JournalImpl.w_files (world pv)) x = stored q x) /\
    (forall x, x ∈ transientList j <-> exists raw, stored q x = Some raw /\ durable raw = false) /\
    (forall x, x ∈ acceptedList j <-> is_Some (nm_get ad0 q x)).
Definition done_ok pv q : Prop :=
  exists j, journalList pv !! q = Some j /\ jwf lo j (world pv) /\
    forall x, jlookup j (JournalImpl.w_files (world pv)) x = remaining q x.

Lemma recover_keeps io j w j' o w' :
  JournalImpl.recoverMessages io j w = (Ret (j', o), w') ->
  JournalImpl.getSubDbPath j' = JournalImpl.getSubDbPath j /\ transientList j' = transientList j /\
  acceptedList j' = acceptedList j.
Proof.
  unfold JournalImpl.recoverMessages, JournalImpl.init_message_db.
  destruct (_is_init j); [destruct (negb (create_bdb j)); by intros [= <- <- <-]|].
  destruct (JournalImpl.open_all _ _ _ _ _) as [[dbs|x] w1]; [|done]. simpl.
  destruct (negb (create_bdb j)); by intros [= <- <- <-].
Qed.

(** *** The logs *)

Lemma block_fits ids :
  (length ids <= length (nm_list ad0))%nat ->
  block_ok (alloc (enqCompleteSize * length ids)) ids /\ block_ok (alloc (deqCompleteSize * length ids)) ids.
Proof.
  intros Hl. change enqCompleteSize with 17%nat. change deqCompleteSize with 17%nat. split;
    (destruct (alloc _) as [b|] eqn:E; [|done]); split; first [by apply alloc_size | lia].
Qed.

Lemma pending_few q (P : list Z) :
  NoDup P -> (forall p, p ∈ P -> is_Some (nm_get ad0 q p)) -> (length P <= length (nm_list ad0))%nat.
Proof.
  intros Hn HP. rewrite <- (length_fmap (fun p => (q, p)) P), <- (length_fmap fst (nm_list ad0)).
  apply submseteq_length, NoDup_submseteq; [by apply NoDup_fmap; [intros ? ? [= ->]|]|].
  intros x (p & -> & Hp)%list_elem_of_fmap. by apply elem_keyed_list, HP.
Qed.

(** The records that a queue logs. *)
Lemma quiet_log q P K s l :
  quiet s -> s_deqdone s = map (fun id => (id, q)) P -> NoDup P -> (forall p, p ∈ P -> is_Some (nm_get ad0 q p)) ->
  both_inv l (start_recs ae0) (deq_hist K) -> both_inv (log_decoded alloc s [] l) (start_recs ae0) (deq_hist (K ++ map (fun id => (id, q)) P)).
Proof.
  intros [Q3 Q4 _] Q5 Hn HP Hb. unfold log_decoded. rewrite Q3, Q4, Q5.
  change (AsyncOperationLogger.complete_each AsyncOperationLogger.log_enqueue_complete [] l) with (0, l). cbn [snd].
  set (ids := map _ P).
  destruct (block_fits [] ltac:(simpl; lia)) as [B1 B2].
  destruct (block_fits ids) as [_ B3]; [unfold ids; rewrite length_map; by eapply pending_few|].
  assert (Hids : ids_ok ids).
  { apply Forall_forall. intros x (p & -> & Hp)%list_elem_of_fmap. simpl. by apply valid0, HP. }
  pose proof (mass_enq_inv l _ _ _ [] Hb once_e0 (deq_hist_once K) ltac:(constructor) B1) as H1'.
  cbn [completes map] in H1'. rewrite app_nil_r in H1'.
  pose proof (mass_deq_inv _ _ _ _ ids H1' once_e0 (deq_hist_once K) Hids B3) as H2'.
  assert (E : deq_hist K ++ completes ids = deq_hist (K ++ ids)).
  { unfold deq_hist, completes. by rewrite map_app, app_assoc. }
  rewrite E in H2'.
  destruct (run_call_inv (MassBothComplete (alloc (enqCompleteSize * length (@nil PendingOperationId)))
    (alloc (deqCompleteSize * length (@nil PendingOperationId))) []) _ _ _ H2') as (l3 & E3 & H3').
  - by split_and!; [constructor| |].
  - by rewrite app_nil_r.
  - rewrite app_nil_r. apply deq_hist_once.
  - cbn [enq_recs deq_recs completes map] in H3'. rewrite !app_nil_r in H3'. injection E3 as <-. exact H3'.
Qed.

(** *** The first loop *)

(** [m] is the largest id of the messages [P], or 0 when there is none. *)
Definition highest (P : Z -> Z -> Prop) (m : Z) : Prop :=
  0 <= m < two63 /\ (forall q x, P q x -> x <= m) /\ (m = 0 \/ exists q, P q m).

Record qinv st (rest turns : list Z) K : Prop := {
  q_ae : r_ae st = ae0;
  q_ad : forall q p, nm_get (r_ad st) q p = if decide (q ∈ turns) then None else nm_get ad0 q p;
  q_rest : same_rest (r_pv st) K;
  q_fresh : forall q, q ∈ rest -> fresh_ok lo stored (r_pv st) q;
  q_read : forall q, q ∈ turns -> read_ok (r_pv st) q;
  q_last : highest (fun q x => q ∈ turns /\ is_Some (lasting q x)) (r_last st);
  q_high : highest (fun q x => q ∈ turns /\ (is_Some (lasting q x) \/ is_Some (nm_get ae0 q x))) (r_highest st);
  q_done : forall p q, (p, q) ∈ K <-> q ∈ turns /\ is_Some (nm_get ad0 q p);
  q_nodup : NoDup K
}.

Lemma extends_jwf j w w' :
  extends (JournalImpl.w_files w) (JournalImpl.w_files w') -> jwf lo j w -> jwf lo j w'.
Proof.
  intros Hx (Hf & Hc & Hi & Hd & He). split_and!; try done; [by eapply extends_ok..|].
  intros k Hk. eapply extends_dom; [done|]. by apply He.
Qed.

Lemma same_rest_insert pv q j jx w l pv' K K' :
  same_rest pv K -> journalList pv !! q = Some j -> JournalImpl.getSubDbPath jx = JournalImpl.getSubDbPath j ->
  both_inv l (start_recs ae0) (deq_hist K') -> pv' = set_log l (set_journal q jx w pv) -> same_rest pv' K'.
Proof.
  intros [S1 S2 S3 S5 S4] Hj Hp Hl ->. split; try done. intros q'. simpl. destruct (decide (q' = q)) as [->|Hne].
  - rewrite lookup_insert_eq. specialize (S3 q). rewrite Hj in S3. destruct (journalList pv0 !! q); [congruence|done].
  - rewrite lookup_insert_ne by done. apply S3.
Qed.

(** Opening and reading the journal of a queue. *)
Lemma quiet_opened st q :
  fresh_ok lo stored (r_pv st) q ->
  exists j j' l w, journalList (r_pv st) !! q = Some j /\
    JournalImpl.recoverMessages io_fine j (world (r_pv st)) = (Ret (j', Some l), w) /\
    jwf lo j' w /\ extends (JournalImpl.w_files (world (r_pv st))) (JournalImpl.w_files w) /\ NoDup l.*1 /\
    (forall x v, (x, v) ∈ l <-> stored q x = Some v) /\
    (forall x, jlookup j' (JournalImpl.w_files w) x = stored q x) /\
    JournalImpl.getSubDbPath j' = JournalImpl.getSubDbPath j /\ transientList j' = [] /\ acceptedList j' = [].
Proof.
  intros (jn & dir & bdb & n & Hj & Hf & Hl).
  destruct (recover_exact_full lo jn q dir bdb n (world (r_pv st)) Hf) as (j' & l & w & Er & Hj' & Hn & Hin & Hlk & Hx).
  destruct (recover_keeps _ _ _ _ _ _ Er) as (K1 & K2 & K3).
  eexists _, j', l, w. split_and!; try done.
  - intros x v. by rewrite Hin, Hl.
  - intros x. by rewrite Hlk, Hl.
Qed.

(** The lists that a queue registers. *)
Lemma transient_list l q :
  (forall x v, (x, v) ∈ l <-> stored q x = Some v) ->
  forall x, x ∈ (filter (fun y : Z * list byte => durable y.2 = false) l).*1 <->
    exists raw, stored q x = Some raw /\ durable raw = false.
Proof.
  intros Hin x. rewrite list_elem_of_fmap. split.
  - intros ([y raw] & -> & [Hd Hy]%list_elem_of_filter). exists raw. split; [by apply Hin|done].
  - intros (raw & Hs & Hd). exists (x, raw). split; [done|]. apply list_elem_of_filter. split; [done|by apply Hin].
Qed.

(** What the queues before keep while the journal of one more is opened. *)
Lemma opened_frame pv q jx w l :
  extends (JournalImpl.w_files (world pv)) (JournalImpl.w_files w) ->
  let pv' := set_log l (set_journal q jx w pv) in
  (forall q', q' <> q -> fresh_ok lo stored pv q' -> fresh_ok lo stored pv' q') /\
  (forall q', q' <> q -> read_ok pv q' -> read_ok pv' q').
Proof.
  intros Hx pv'. split; intros q' Hne.
  - intros (jn & dir & bdb & n & F1 & F2 & F3). exists jn, dir, bdb, n. simpl. rewrite lookup_insert_ne by done.
    split_and!; [done|by eapply extends_ok|]. intros x. by rewrite (extends_lookup _ _ _ x Hx).
  - intros (j2 & F1 & F2 & F3 & F4). exists j2. simpl. rewrite lookup_insert_ne by done.
    split_and!; [done|by eapply extends_jwf| |apply F4..]. intros x. by rewrite (extends_lookup _ _ _ x Hx).
Qed.

(** The journal is asked for the pending enqueues, and holds none of them. *)
Lemma quiet_asked q j w e :
  jwf lo j w -> (forall x, jlookup j (JournalImpl.w_files w) x = stored q x) ->
  scan_throws q (fun id => JournalImpl.is_enqueued id j w) e (map snd (nm_list ae0)) = None /\
  forall p, is_Some (nm_get ae0 q p) ->
    match JournalImpl.is_enqueued p j w with Ret b => b | Throw _ => false end = false.
Proof.
  intros Hj Hl. split.
  - destruct (nm_list ae0) as [|[[q' p'] v] L] eqn:E; [done|]. apply scan_never_throws. intros id.
    apply (is_enqueued_ret lo); [|done]. apply asked0. exists q', p'. apply elem_keyed_list. rewrite E. left.
  - intros p [v Hv]. destruct (is_enqueued_ret lo (asked0 ltac:(by exists q, p; eexists)) j w p Hj) as [b Eb].
    rewrite Eb. destruct (new0 q p v Hv) as (_ & Hs & _ & _ & Hw).
    rewrite (is_enqueued_spec lo p j w b Hj Hw Eb), Hl, Hs. by apply bool_decide_eq_false, is_Some_None.
Qed.

Lemma highest_later (P Q R : Z -> Z -> Prop) m m' :
  highest P m -> highest Q m' -> (forall q x, R q x <-> P q x \/ Q q x) -> highest R (later_id m m').
Proof.
  intros (B1 & U1 & A1) (B2 & U2 & A2) HR. rewrite later_id_max by done. split_and!; [lia|lia| |].
  - intros q x [Hx|Hx]%HR; [specialize (U1 q x Hx)|specialize (U2 q x Hx)]; lia.
  - destruct (Z.max_spec m m') as [[_ ->]|[_ ->]].
    + destruct A2 as [->|[q Hq]]; [by left|]. right. exists q. apply HR. by right.
    + destruct A1 as [->|[q Hq]]; [by left|]. right. exists q. apply HR. by left.
Qed.

Lemma tops_highest q R m (P : Z -> Prop) :
  tops (fun _ => True) R 0 m -> (forall x, P x <-> exists raw, (x, raw) ∈ R /\ durable raw = true) ->
  (forall x, P x -> x < two63) -> highest (fun q' x => q' = q /\ P x) m.
Proof.
  intros (T1 & T2 & T3) HP Hb. split_and!; [done| | |].
  - destruct T3 as [->|(raw & Hr & Hd & _)]; [done|]. apply Hb, HP. by exists raw.
  - intros q' x [_ Hx]. apply HP in Hx as (raw & Hr & Hd). by eapply T2.
  - destruct T3 as [->|(raw & Hr & Hd & _)]; [by left|]. right. exists q. split; [done|]. apply HP. by exists raw.
Qed.

Lemma own_pending q p :
  is_Some (nm_get ae0 q p) <-> exists raw, (p, raw) ∈ own q (map snd (nm_list ae0)) /\ durable raw = true.
Proof.
  split.
  - intros [v Hv]. destruct (new0 q p v Hv) as (_ & _ & _ & Hd & _). eexists. split; [|exact Hd].
    apply elem_of_own. pose proof (keys0 q p v Hv) as Hk. unfold pae_key in Hk. injection Hk as Eq Ep.
    exists v. split_and!; try done. apply elem_of_pendings; [done|]. by rewrite Eq, Ep.
  - intros (raw & (v & Hv & <- & <- & _)%elem_of_own & _). apply elem_of_pendings in Hv; [|done]. by eexists.
Qed.

Lemma pending_unstored q j w l :
  jwf lo j w -> (forall x v, (x, v) ∈ l <-> stored q x = Some v) ->
  (forall x, jlookup j (JournalImpl.w_files w) x = stored q x) -> forall ad,
  (forall q p, nm_get ad0 q p = None -> nm_get ad q p = None) -> forall q' p v, nm_get ae0 q' p = Some v ->
  unstored q ad (fun id => match JournalImpl.is_enqueued id j w with Ret b => b | Throw _ => false end) v /\
  durable (take (Z.to_nat (pae_size v)) (pae_buff v)) = true /\ (pae_queueId v = q -> pae_msgId v ∉ l.*1).
Proof.
  intros Hj Hin Hlk ad Had q' p v Hv. destruct (new0 q' p v Hv) as (H1' & H2' & H3' & H4' & _).
  pose proof (keys0 q' p v Hv) as Hk. unfold pae_key in Hk. injection Hk as Eq Ep. rewrite Eq, Ep. split_and!; [|done|].
  - split_and!; rewrite ?Eq, ?Ep; [by apply Had|done|]. intros ->.
    apply (proj2 (quiet_asked q j w (mkE ∅ ∅ [] ∅ 0 [] [] [] report0) Hj Hlk)). by eexists.
  - intros -> ([x raw] & -> & Hx)%list_elem_of_fmap. apply Hin in Hx. simpl in H2'. congruence.
Qed.

Lemma quiet_queue_step name q st rest turns K :
  qinv st (q :: rest) turns K -> q ∉ rest -> q ∉ turns ->
  exists st' K', recover_queue false mongo uid_of loadContent alloc io_fine (name, q) (Ret st) = Ret st' /\
    qinv st' rest (turns ++ [q]) K'.
Proof.
  intros [Qe Qd Qr Qf Qt Ql Qh Qk Qn] Hq Hq'.
  destruct (quiet_opened st q) as (j & j' & l & w & Hj & Er & Hj' & Hx & Hnd & Hin & Hlk & Hp & Ht & Ha); [apply Qf; left|].
  unfold recover_queue. cbn [obind]. rewrite Hj, Er, Qe.
  destruct (quiet_asked q j' w (mkE ae0 (r_ad st) l ∅ 0 [] [] [] report0) Hj' Hlk) as [-> _].
  assert (Hadq : forall p, nm_get (r_ad st) q p = nm_get ad0 q p) by (intros p; by rewrite Qd, decide_False).
  match goal with |- context [decodeAndRecoverMsg _ _ _ _ _ ?f _ _ _ _ _ _] =>
    pose proof (decode_quiet_queue mongo uid_of loadContent q f l ae0 (r_ad st) (r_map st) (r_mq st) Hnd keys0) as Hd end.
  destruct (decodeAndRecoverMsg _ _ _ _ _ _ _ _ _ _ _ _) as [s logged].
  destruct Hd as (P & PN & PI & D1 & D2 & D3 & -> & D4 & D5 & D6 & D7 & D8).
  { apply (pending_unstored q j' w l); try done. intros q2 p2 E2. rewrite Qd. by case_decide. }
  { intros p Hs. rewrite Hadq in Hs. destruct (held q p Hs) as (raw & E & Hr). exists raw. by rewrite Hin. }
  assert (PI' : forall p, p ∈ P <-> is_Some (nm_get ad0 q p)) by (intros p; by rewrite PI, Hadq).
  eexists _, (K ++ map (fun id => (id, q)) P). split; [reflexivity|]. rewrite (qt_inner _ D1), D5, D6.
  match goal with |- qinv (mkR (set_log ?l1 (set_journal _ ?jx _ _)) _ _ _ _ _ _) _ _ _ =>
    destruct (opened_frame (r_pv st) q jx w l1 Hx) as [Ff Fr]; set (jn := jx) in * end.
  assert (Ht2 : forall q', q' ∈ turns ++ [q] <-> q' ∈ turns \/ q' = q)
    by (intros q'; by rewrite elem_of_app, list_elem_of_singleton).
  assert (Hla : forall x, is_Some (lasting q x) <-> exists raw, (x, raw) ∈ l /\ durable raw = true).
  { intros x. unfold lasting. setoid_rewrite Hin. destruct (stored q x) as [raw|].
    - destruct (durable raw) eqn:E; split.
      + intros _. by exists raw.
      + by eexists.
      + by intros [? ?].
      + intros (r & [= <-] & ?). congruence.
    - split; [by intros [? ?]|by intros (? & ? & _)]. }
  assert (Hbl : forall x, is_Some (lasting q x) -> x < two63).
  { intros x (raw & Hr & _)%Hla. apply Hin in Hr. rewrite <- Hlk in Hr. apply (lookup_window lo) in Hr; [|done].
    destruct Hr as [_ Hr]. lia. }
  split; cbn [r_ae r_ad r_pv r_highest r_last]; rewrite ?D2; try done.
  - intros q' p. rewrite D3, Qd. pose proof (Ht2 q'). repeat case_decide; try done; tauto.
  - eapply same_rest_insert; [exact Qr|exact Hj| | |reflexivity]; [exact Hp|].
    apply quiet_log; try done; [intros p; by apply PI'|apply Qr].
  - intros q' Hq2. apply Ff; [by intros ->|]. apply Qf. by right.
  - intros q' [Hq2|Hq2]%elem_of_app; [apply Fr; [by intros ->|by apply Qt]|].
    apply list_elem_of_singleton in Hq2 as ->. exists jn. simpl. rewrite lookup_insert_eq. unfold jn. simpl.
    rewrite Ht, Ha, ?app_nil_r. split_and!; [done..|by apply transient_list|exact PI'].
  - eapply highest_later; [exact Ql|eapply (tops_highest q l); [exact D8|exact Hla|exact Hbl]|].
    intros q' x. rewrite Ht2. naive_solver.
  - eapply highest_later; [exact Qh|eapply (tops_highest q _ _ (fun x => is_Some (lasting q x) \/ is_Some (nm_get ae0 q x))); [exact D7| |]|].
    + intros x. rewrite Hla, own_pending. setoid_rewrite elem_of_app. naive_solver.
    + intros x [Hl|[v Hv]]; [by apply Hbl|]. apply new0 in Hv as (_ & _ & _ & _ & _ & Hv). lia.
    + intros q' x. rewrite Ht2. naive_solver.
  - intros p q'. rewrite elem_of_app, Qk, Ht2, list_elem_of_fmap. split.
    + intros [[H1' H2']|(p' & [= -> ->] & Hp')]; [tauto|]. split; [by right|by apply PI'].
    + intros [[H1'| ->] H2']; [by left|]. right. exists p. split; [done|by apply PI'].
  - apply NoDup_app. split_and!; [done| |by apply NoDup_fmap; [intros ? ? [= ->]|]].
    intros [p q'] [H1' _]%Qk (p' & [= -> ->] & _)%list_elem_of_fmap. done.
Qed.

Lemma quiet_loop L st turns K :
  NoDup (turns ++ L.*2) -> qinv st L.*2 turns K ->
  exists st' K', foldl (fun r nq => recover_queue false mongo uid_of loadContent alloc io_fine nq r) (Ret st) L = Ret st' /\
    qinv st' [] (turns ++ L.*2) K'.
Proof.
  revert st turns K. induction L as [|[name q] L IH]; intros st turns K Hn Hw; simpl in *.
  { exists st, K. by rewrite app_nil_r. }
  rewrite cons_middle, app_assoc in Hn. pose proof Hn as Hn'. apply NoDup_app in Hn' as (Hn1 & Hn2 & _).
  destruct (quiet_queue_step name q st L.*2 turns K Hw) as (st1 & K1 & E & Hw1).
  - apply Hn2. set_solver.
  - apply NoDup_app in Hn1 as (_ & Hn1 & _). intros Hq. apply (Hn1 q Hq). left.
  - destruct (IH st1 (turns ++ [q]) K1 Hn Hw1) as (st2 & K2 & E2 & Hw2). exists st2, K2.
    split; [|by rewrite <- app_assoc in Hw2]. rewrite <- E2. f_equal. exact E.
Qed.

(** *** The second loop *)

Lemma paths_apart pv K q q' j j' k :
  same_rest pv K -> q' <> q -> journalList pv !! q = Some j -> journalList pv !! q' = Some j' ->
  forall k', JournalImpl.getSubDbPath j' k <> JournalImpl.getSubDbPath j k'.
Proof.
  intros [_ _ S3 _ _] Hne Hj Hj' k'. pose proof (S3 q) as Eq. pose proof (S3 q') as Eq'. rewrite Hj in Eq. rewrite Hj' in Eq'.
  destruct (journalList pv0 !! q) as [j0|] eqn:E; [|done]. destruct (journalList pv0 !! q') as [j0'|] eqn:E'; [|done].
  rewrite Eq, Eq'. by eapply disjoint0.
Qed.

(** The lists of a queue that has been read are the ones to delete. *)
Lemma read_remaining pv q j x :
  (forall y, jlookup j (JournalImpl.w_files (world pv)) y = stored q y) ->
  (forall y, y ∈ transientList j <-> exists raw, stored q y = Some raw /\ durable raw = false) ->
  (forall y, y ∈ acceptedList j <-> is_Some (nm_get ad0 q y)) ->
  (if decide (x ∈ transientList j ++ acceptedList j) then None else jlookup j (JournalImpl.w_files (world pv)) x) =
  remaining q x.
Proof.
  intros Hl Ht Ha. unfold remaining, lasting. rewrite Hl. case_decide as Hx.
  - apply elem_of_app in Hx as [Hx|Hx].
    + apply Ht in Hx as (raw & -> & ->). by destruct (nm_get ad0 q x).
    + by apply Ha in Hx as [v ->].
  - rewrite elem_of_app, Ht, Ha in Hx. destruct (nm_get ad0 q x) as [v|]; [destruct Hx; right; by eexists|].
    destruct (stored q x) as [raw|] eqn:E; [|done]. destruct (durable raw) eqn:Ed; [done|]. exfalso. apply Hx. eauto.
Qed.

Lemma quiet_finish_step name q pv (todo finished : list Z) K :
  same_rest pv K -> q ∉ todo -> q ∉ finished -> read_ok pv q ->
  (forall q', q' ∈ todo -> read_ok pv q') -> (forall q', q' ∈ finished -> done_ok pv q') ->
  exists pv', finish_queue (name, q) (Ret pv) = Ret pv' /\ same_rest pv' K /\
    (forall q', q' ∈ todo -> read_ok pv' q') /\ (forall q', q' ∈ finished ++ [q] -> done_ok pv' q').
Proof.
  intros Sr Hq Hq' (j & Hj & Hw & Hl & Ht & Ha) Hr Hd.
  assert (Hwin : Forall (in_window lo) (transientList j ++ acceptedList j)).
  { apply Forall_forall. intros x [Hx|Hx]%elem_of_app.
    - apply Ht in Hx as (raw & Hs & _). rewrite <- Hl in Hs. by eapply lookup_window.
    - apply Ha in Hx. destruct (held q x Hx) as (raw & Hs & _). rewrite <- Hl in Hs. by eapply lookup_window. }
  destruct (discard_exact lo healthy_del j (world pv) Hw Hwin) as (w1 & w' & E1 & E2 & E3 & Hw' & Hl' & Hp).
  unfold finish_queue. cbn [obind snd]. rewrite Hj, E1. cbn [obind]. rewrite E2. cbn [obind]. rewrite E3. cbn [obind].
  eexists. split; [reflexivity|]. set (j' := JournalImpl.set_lists [] [] j).
  assert (Hfr : forall q2 j2, q2 <> q -> journalList pv !! q2 = Some j2 -> jwf lo j2 (world pv) ->
    journalList (set_journal q j' w' pv) !! q2 = Some j2 /\ jwf lo j2 w' /\
    forall x, jlookup j2 (JournalImpl.w_files w') x = jlookup j2 (JournalImpl.w_files (world pv)) x).
  { intros q2 j2 Hne Hj2 Hw2. split; [simpl; by rewrite lookup_insert_ne|].
    apply (jwf_frame lo j2 (world pv) w'); [|done]. intros k. apply Hp. by eapply paths_apart. }
  split_and!.
  - destruct Sr as [S1 S2 S3 S5 S4]. eapply (same_rest_insert pv q j j' w' (aologger pv)); try done.
  - intros q2 Hq2. destruct (Hr q2 Hq2) as (j2 & R1 & R2 & R3 & R4).
    destruct (Hfr q2 j2 ltac:(by intros ->) R1 R2) as (F1 & F2 & F3). exists j2. split_and!; [done|done| |apply R4..].
    intros x. simpl. by rewrite F3.
  - intros q2 [Hq2|Hq2]%elem_of_app.
    + destruct (Hd q2 Hq2) as (j2 & R1 & R2 & R3).
      destruct (Hfr q2 j2 ltac:(by intros ->) R1 R2) as (F1 & F2 & F3). exists j2. split_and!; [done|done|].
      intros x. simpl. by rewrite F3.
    + apply list_elem_of_singleton in Hq2 as ->. exists j'. destruct (same_lists lo j [] []) as [_ Sf].
      destruct (Sf w' Hw') as [Sf1 Sf2].
      split_and!; [simpl; apply lookup_insert_eq|done|]. intros x. simpl. unfold j'. rewrite Sf2, Hl'. by apply read_remaining.
Qed.

Lemma quiet_finish_loop L pv finished K :
  NoDup (finished ++ L.*2) -> same_rest pv K -> (forall q, q ∈ L.*2 -> read_ok pv q) ->
  (forall q, q ∈ finished -> done_ok pv q) ->
  exists pv', foldl (fun r nq => finish_queue nq r) (Ret pv) L = Ret pv' /\ same_rest pv' K /\
    forall q, q ∈ finished ++ L.*2 -> done_ok pv' q.
Proof.
  revert pv finished. induction L as [|[name q] L IH]; intros pv finished Hn Sr Hr Hd.
  { exists pv. by rewrite app_nil_r. }
  cbn [foldl]. simpl in Hn, Hr. rewrite cons_middle, app_assoc in Hn. pose proof Hn as Hn'. apply NoDup_app in Hn' as (Hn1 & Hn2 & _).
  destruct (quiet_finish_step name q pv L.*2 finished K) as (pv1 & E & S1 & R1 & D1); try done.
  - apply Hn2. set_solver.
  - apply NoDup_app in Hn1 as (_ & Hn1 & _). intros Hq. apply (Hn1 q Hq). left.
  - apply Hr. left.
  - intros q' Hq'. apply Hr. by right.
  - rewrite E. destruct (IH pv1 (finished ++ [q]) Hn S1 R1 D1) as (pv2 & E2 & S2 & D2).
    exists pv2. split_and!; [done|done|]. simpl. by rewrite <- app_assoc in D2.
Qed.

(** *** The whole method *)

(** The first resurrecting loop, when every pending enqueue is to be stored again. *)
Lemma resurrect_enqueues accepts Le ad useless pv :
  (forall v, v ∈ Le -> nm_get ad (pae_queueId v) (pae_msgId v) = None /\ is_Some (journalList pv !! pae_queueId v)) ->
  foldl (resurrect_enq accepts) (ad, useless, pv) Le =
  (ad, useless, set_pools (enqueuePool pv ++ (if accepts then map store_of Le else [])) (dequeuePool pv)
     (set_tracker (foldl (fun t v => will (enableSmartAsync pv) (pae_queueId v) (pae_msgId v) t) (tracker pv) Le) pv)).
Proof.
  revert pv. induction Le as [|v Le IH]; intros pv HL; cbn [foldl].
  { apply (f_equal (pair (ad, useless))). destruct pv, accepts; unfold set_pools, set_tracker; simpl; by rewrite app_nil_r. }
  destruct (HL v ltac:(left)) as [E1 [j E2]]. unfold resurrect_enq at 2. rewrite E1, E2.
  rewrite IH.
  - apply (f_equal (pair (ad, useless))).
    destruct pv as [a b c d e f g h i], accepts, b; unfold set_pools, set_tracker; simpl; by rewrite <- ?app_assoc.
  - intros w Hw. destruct (HL w ltac:(by right)) as [E3 E4]. split; [done|].
    by destruct accepts, (enableSmartAsync pv).
Qed.

Lemma resurrect_quiet accepts ad pv K :
  (forall q p, nm_get ad q p = None) -> (forall q p, is_Some (nm_get ae0 q p) -> is_Some (journalList pv !! q)) ->
  both_inv (aologger pv) (start_recs ae0) (deq_hist K) ->
  exists l, resurrect alloc accepts ae0 ad pv =
    set_log l (set_pools (enqueuePool pv ++ (if accepts then map store_of (map snd (nm_list ae0)) else [])) (dequeuePool pv)
      (set_tracker (foldl (fun t v => will (enableSmartAsync pv) (pae_queueId v) (pae_msgId v) t) (tracker pv)
         (map snd (nm_list ae0))) pv)) /\ both_inv l (start_recs ae0) (deq_hist K).
Proof.
  intros Hd Hj Hb. unfold resurrect. rewrite resurrect_enqueues.
  2:{ intros v Hv. apply elem_of_pendings in Hv; [|done]. split; [done|]. apply (Hj _ (pae_msgId v)). by eexists. }
  rewrite (nm_list_empty _ Hd). cbn [map foldl].
  destruct (block_fits [] ltac:(simpl; lia)) as [B1 B2].
  destruct (run_call_inv (MassBothComplete (alloc (enqCompleteSize * length (@nil PendingOperationId)))
    (alloc (deqCompleteSize * length (@nil PendingOperationId))) []) (aologger pv) (start_recs ae0) (deq_hist K) Hb) as (l & E & Hl).
  - by split_and!; [constructor| |].
  - cbn [enq_recs completes map]. by rewrite app_nil_r.
  - cbn [deq_recs completes map]. rewrite app_nil_r. apply deq_hist_once.
  - cbn [enq_recs deq_recs completes map] in Hl. rewrite !app_nil_r in Hl.
    exists l. split; [|done]. f_equal. apply (inj Some). exact E.
Qed.

Lemma recover_quiet accepts L l0 :
  restart (aologger pv0) = Some (ae0, ad0, l0) -> both_inv l0 (start_recs ae0) (start_recs ad0) ->
  (forall q p, is_Some (nm_get ae0 q p) -> q ∈ L.*2) -> (forall q p, is_Some (nm_get ad0 q p) -> q ∈ L.*2) ->
  NoDup L.*2 -> (forall q, q ∈ L.*2 -> fresh_ok lo stored pv0 q) ->
  exists mm mq pv' last high K,
    recoverMessages false mongo uid_of loadContent alloc io_fine accepts L pv0 = Some (Ret (mm, mq, pv')) /\
    highest (fun q x => q ∈ L.*2 /\ is_Some (lasting q x)) last /\
    highest (fun q x => q ∈ L.*2 /\ (is_Some (lasting q x) \/ is_Some (nm_get ae0 q x))) high /\
    enableSmartAsync pv' = enableSmartAsync pv0 /\
    tracker pv' = foldl (fun t v => will (enableSmartAsync pv0) (pae_queueId v) (pae_msgId v) t)
      (PidTracker.reset last (tracker pv0)) (map snd (nm_list ae0)) /\
    IdSequence.id (messageIdSequence pv') = high + 1 /\ both_inv (aologger pv') (start_recs ae0) (deq_hist K) /\
    NoDup K /\ (forall p q, (p, q) ∈ K <-> is_Some (nm_get ad0 q p)) /\
    (forall q, is_Some (journalList pv' !! q) -> is_Some (journalList pv0 !! q)) /\
    (forall q, q ∈ L.*2 -> done_ok pv' q) /\
    (forall q q' j j' k k', q <> q' -> journalList pv' !! q = Some j -> journalList pv' !! q' = Some j' ->
       JournalImpl.getSubDbPath j k <> JournalImpl.getSubDbPath j' k') /\
    enqueuePool pv' = enqueuePool pv0 ++ (if accepts then map store_of (map snd (nm_list ae0)) else []) /\
    dequeuePool pv' = dequeuePool pv0.
Proof.
  intros Hr Hb He Hin Hn Hf. unfold recoverMessages. rewrite Hr.
  destruct (quiet_loop L (mkR (set_log l0 pv0) ae0 ad0 ∅ ∅ 0 0) [] []) as (st & K & -> & [Qe Qd Qr _ Qt Ql Qh Qk Qn]); [done| |].
  { assert (Hno : forall P, highest (fun q x => q ∈ @nil Z /\ P q x) 0).
    { intros P. split_and!; [done|done| |by left]. intros q x [Hq _]. by apply not_elem_of_nil in Hq. }
    split; try done.
    - split; try done; [intros q; simpl; by destruct (journalList pv0 !! q)|]. unfold deq_hist. by rewrite app_nil_r.
    - intros q Hq. by apply not_elem_of_nil in Hq.
    - intros p q. split; [by intros ?%not_elem_of_nil|]. intros [Hq _]. by apply not_elem_of_nil in Hq.
    - constructor. }
  simpl app in Qt, Ql, Qh, Qk, Qd. cbn [obind].
  assert (Qd' : forall q p, nm_get (r_ad st) q p = None).
  { intros q p. rewrite Qd. case_decide as Hq; [done|]. destruct (nm_get ad0 q p) eqn:E; [|done].
    destruct Hq. apply (Hin q p). by eexists. }
  destruct (quiet_finish_loop L (r_pv st) [] K) as (pv1 & -> & S1 & D1); [done|done|done| |].
  { intros q Hq. by apply not_elem_of_nil in Hq. }
  cbn [obind]. rewrite Qe. set (pv2 := set_tracker _ _).
  destruct (resurrect_quiet accepts (r_ad st) pv2 K Qd') as (l & -> & Hl).
  { intros q p Hs. simpl. destruct (D1 q) as (j & Hj & _); [simpl; by eapply He|by eexists]. }
  { exact (sr_log _ _ S1). }
  eexists _, _, _, (r_last st), (r_highest st), K. split; [reflexivity|]. destruct S1 as [S11 S12 S13 [S15 S16] S14].
  split_and!; try done.
  - simpl. by rewrite S12, S11.
  - simpl. rewrite u64_small; [done|]. destruct Qh as [Hh _]. unfold is_u64, two63 in *. lia.
  - intros p q. rewrite Qk. split; [by intros [_ ?]|]. intros Hs. split; [by eapply Hin|done].
  - intros q [j Hj]. simpl in Hj. specialize (S13 q). rewrite Hj in S13. destruct (journalList pv0 !! q); [by eexists|done].
  - intros q q' j j' k k' Hne Hj Hj'. simpl in Hj, Hj'.
    apply (paths_apart pv1 K q' q j' j k ltac:(by split) Hne Hj' Hj).
  - simpl. by rewrite S15.
Qed.

End queues.
