(* ===== verification/Replay.v ===== *)
(** Pending enqueues replayed. A restart logs the pending enqueues again in the order of its
    map, queue by queue, and gives them back to the pool in that order; the session that
    left them had started them in the order of their ids. For the tracker and for the
    logs the two orders come to the same, so the restarted provider is as if the messages
    had just been enqueued in the new session. *)
From S2P Require Import Prelude NestedMap PidTracker PendingOps LogFormat LogExtract AsyncLog LogSystem LogRecovery LoggerSpec.
From S2P Require Import Format Jerrno IdSequence Bdb TxnCtxt Framing Journal JournalSpec Durability Posix Jdir Recovery RecoverySpec.
From S2P Require Import Provider ProviderSpec CrashRestart Config Resurrect ResurrectSpec Plugin BdbStore PluginSpec WholeRestart.
From S2P Require Import RestartSpec RestartQueues.
From Stdlib Require Import ZArith Lia.

(** ** Orders that do not matter *)

Lemma willEnqueue_pend q p t :
  (PidTracker.willEnqueue p q t).2 =
  PidTracker.set_pend (<[q := {[p]} ∪ default ∅ (PidTracker.pendMap t !! q)]> (PidTracker.pendMap t)) t.
Proof.
  unfold PidTracker.willEnqueue. destruct (PidTracker.pendMap t !! q) as [x|]; [done|]. simpl. by rewrite union_empty_r_L.
Qed.

Lemma will_commutes smart t q p q' p' :
  will smart q' p' (will smart q p t) = will smart q p (will smart q' p' t).
Proof.
  unfold will. destruct smart; [|done]. rewrite !willEnqueue_pend. unfold PidTracker.set_pend. simpl. f_equal.
  destruct (decide (q = q')) as [->|Hne].
  - rewrite !lookup_insert_eq, !insert_insert_eq. simpl. f_equal. set_solver.
  - rewrite !lookup_insert_ne by congruence. apply insert_insert_ne. congruence.
Qed.

(** The tracker calls for the enqueues [V]. *)
Definition will_all (smart : bool) (V : list PendingAsyncEnqueue) (t : PidTracker) : PidTracker :=
  foldl (fun t v => will smart (pae_queueId v) (pae_msgId v) t) t V.

Lemma will_all_perm smart V V' t : V ≡ₚ V' -> will_all smart V t = will_all smart V' t.
Proof. apply foldl_commutes. intros a x y. apply will_commutes. Qed.

Section logs.
Context `{HostEndian, HostAlloc}.

(** The start records of [V]. *)
Definition starts_of (V : list PendingAsyncEnqueue) : list (log_rec PendingAsyncEnqueue) := map LStart V.

Lemma start_recs_of (ae : PendingEnqueueSet) : start_recs ae = starts_of (map snd (nm_list ae)).
Proof. unfold start_recs, starts_of. by rewrite map_map. Qed.

Lemma starts_of_open V q p : ~ completed (starts_of V) q p.
Proof. unfold completed, starts_of. by intros (v & Hv & _)%list_elem_of_fmap. Qed.

Lemma starts_of_perm V V' q p :
  V ≡ₚ V' -> started_once (starts_of V) -> starts (starts_of V') q p = starts (starts_of V) q p.
Proof.
  intros Hp Ho. specialize (Ho q p).
  assert (Hs : starts (starts_of V') q p ≡ₚ starts (starts_of V) q p).
  { unfold starts. apply omap_Permutation. by apply Permutation_map. }
  destruct (starts (starts_of V) q p) as [|v [|w l]]; simpl in Ho; [|by apply Permutation_singleton_r in Hs|lia].
  by apply Permutation_nil_r in Hs.
Qed.

(** The invariant of the logs speaks of each message by itself. *)
Lemma both_inv_ext l (he he' : list (log_rec PendingAsyncEnqueue)) (hd : list (log_rec PendingAsyncDequeue)) :
  both_inv l he hd ->
  (forall q p, starts he' q p = starts he q p /\ (completed he' q p <-> completed he q p)) -> both_inv l he' hd.
Proof.
  intros [(rc & ro & M & E1 & E2 & E3 & E4 & E5 & E6 & E7 & Hk) Hd] Hx. split; [|exact Hd].
  exists rc, ro, M. repeat (split; [assumption|]). intros q p. destruct (Hx q p) as [Hs Hc].
  specialize (Hk q p). unfold key_inv in *. rewrite Hs, Hc. exact Hk.
Qed.

Lemma both_inv_perm l (ae : PendingEnqueueSet) V hd :
  V ≡ₚ map snd (nm_list ae) -> started_once (start_recs ae) ->
  both_inv l (start_recs ae) hd -> both_inv l (starts_of V) hd.
Proof.
  intros Hp Ho Hb. rewrite start_recs_of in Ho, Hb. eapply both_inv_ext; [exact Hb|]. intros q p. split.
  - by apply starts_of_perm; [symmetry|].
  - split; intros Hc; by apply starts_of_open in Hc.
Qed.

End logs.

(** ** The pending enqueues in the order of their ids *)

Section order.
Implicit Types (ae : PendingEnqueueSet) (V : list PendingAsyncEnqueue).

(** The ids of the pending enqueues are the [n] after [top], each on one queue. *)
Definition consecutive (has : Z -> Z -> Prop) (top : Z) (n : nat) : Prop :=
  (forall p, (exists q, has q p) <-> top < p <= top + Z.of_nat n) /\ (forall q q' p, has q p -> has q' p -> q = q').

Lemma pendings_NoDup ae : keys_ok ae -> NoDup (map snd (nm_list ae)).
Proof. intros Hk. eapply (NoDup_fmap_1 pae_key). rewrite keyed_list by done. apply nm_list_NoDup. Qed.

Lemma in_id_order ae top n :
  keys_ok ae -> consecutive (fun q p => is_Some (nm_get ae q p)) top n ->
  exists V, pae_msgId <$> V = seqZ (top + 1) (Z.of_nat n) /\ V ≡ₚ map snd (nm_list ae).
Proof.
  intros Hk [Hn Hu].
  assert (HV : forall m, (m <= n)%nat -> exists V, pae_msgId <$> V = seqZ (top + 1) (Z.of_nat m) /\
    Forall (fun v => nm_get ae (pae_queueId v) (pae_msgId v) = Some v) V).
  { induction m as [|m IH]; intros Hm; [by exists []|]. destruct IH as (V & E & F); [lia|].
    destruct (proj2 (Hn (top + 1 + Z.of_nat m))) as (q & v & Hv); [lia|].
    exists (V ++ [v]). pose proof (Hk _ _ _ Hv) as Hkey. unfold pae_key in Hkey. injection Hkey as E1 E2. split.
    - by rewrite fmap_app, seqZ_S, E, <- E2.
    - apply Forall_app. split; [done|]. constructor; [|done]. by rewrite E1, E2. }
  destruct (HV n) as (V & E & F); [done|]. exists V. split; [done|]. apply NoDup_Permutation.
  - apply (NoDup_fmap_1 pae_msgId). rewrite E. apply NoDup_seqZ.
  - by apply pendings_NoDup.
  - intros v. rewrite elem_of_pendings by done. rewrite Forall_forall in F. split; [apply F|]. intros Hv.
    assert (Hin : pae_msgId v ∈ pae_msgId <$> V).
    { rewrite E. apply elem_of_seqZ. destruct (Hn (pae_msgId v)) as [Hr _]. destruct Hr as [Hr1 Hr2]; [by exists (pae_queueId v), v|lia]. }
    apply list_elem_of_fmap in Hin as (w & Ew & Hw). pose proof (F w Hw) as Gw. rewrite <- Ew in Gw.
    assert (Eq : pae_queueId v = pae_queueId w) by (eapply Hu; by eexists).
    rewrite <- Eq, Hv in Gw. by injection Gw as ->.
Qed.

End order.

(** ** The enqueues as steps of a session *)

Section steps.
Context `{HostEndian, HostAlloc}.
Variables (smart : bool) (old : gmap mkey (list byte)) (s0 : dsys).

Lemma enqueues_again V s :
  pae_msgId <$> V = seqZ (d_next s) (Z.of_nat (length V)) -> Forall sized V -> dreach smart old s0 s ->
  exists s', dreach smart old s0 s' /\ d_enq s' = d_enq s ++ starts_of V /\ d_deq s' = d_deq s /\
    d_store s' = d_store s /\ d_tr s' = will_all smart V (d_tr s) /\ d_next s' = d_next s + Z.of_nat (length V) /\
    d_out s' = d_out s /\ (forall v, v ∈ V -> d_items s' !! pae_key v = Some (mkItem v true SCheck)) /\
    (forall k, k ∉ pae_key <$> V -> d_items s' !! k = d_items s !! k).
Proof.
  revert s. induction V as [|v V IH]; intros s Hid Hz Hr.
  { exists s. unfold starts_of. simpl. rewrite app_nil_r. split_and!; try done; [lia|]. intros v Hv. by apply not_elem_of_nil in Hv. }
  apply Forall_cons in Hz as [Hv Hz]. rewrite fmap_cons in Hid. simpl length in Hid. rewrite seqZ_cons in Hid by lia.
  injection Hid as Hp Hid.
  set (s1 := do_enqueue smart (pae_queueId v) (d_next s) true (pae_buff v) (pae_transient v) s).
  assert (Ev : mkPAE (d_next s) (pae_queueId v) (pae_buff v) (Z.of_nat (length (pae_buff v))) (pae_transient v) = v).
  { rewrite <- Hp, <- Hv. by destruct v. }
  destruct (IH s1) as (s' & R' & E1 & E2 & E3 & E4 & E5 & E6 & E7 & E8).
  - simpl. rewrite Hid. f_equal; lia.
  - done.
  - eapply Dr_step; [exact Hr|]. apply St_enqueue_new.
  - exists s'. unfold s1, do_enqueue in *. cbn [d_enq d_deq d_store d_tr d_items d_next d_out] in *. rewrite Ev in *.
    split_and!; try done.
    + by rewrite E1, <- app_assoc.
    + unfold will_all in *. cbn [foldl]. by rewrite E4, Hp.
    + rewrite E5. simpl length. lia.
    + assert (Hkey : pae_key v ∉ pae_key <$> V).
      { intros (w & Ew & Hw)%list_elem_of_fmap. apply (list_elem_of_fmap_2 pae_msgId) in Hw. rewrite Hid in Hw.
        apply elem_of_seqZ in Hw. unfold pae_key in Ew. injection Ew as _ Ew. lia. }
      intros w [->|Hw]%elem_of_cons; [|by apply E7]. rewrite E8 by done.
      unfold pae_key. rewrite Hp. apply lookup_insert_eq.
    + intros k Hk. rewrite fmap_cons in Hk. apply not_elem_of_cons in Hk as [Hk1 Hk2]. rewrite E8 by done.
      apply lookup_insert_ne. intros <-. apply Hk1. unfold pae_key. by rewrite Hp.
Qed.

End steps.
