(* ===== verification/QuietRestart.v ===== *)
(** From one session to the next. After a session that left nothing pending the provider is
    as at the start of a session, with the durable messages that are stored. After one that
    left dequeues of stored messages and the enqueues of its last messages, it is as in a
    session that has carried the dequeues out and called the enqueues again. So all that
    holds of a session holds of the next one. *)
From S2P Require Import Prelude Format Jerrno IdSequence NestedMap PidTracker PendingOps.
From S2P Require Import LogFormat LogExtract AsyncLog LogSystem LogRecovery LoggerSpec.
From S2P Require Import Bdb TxnCtxt Framing Journal JournalSpec Durability Posix Jdir Recovery RecoverySpec.
From S2P Require Import Provider ProviderSpec CrashRestart Config Resurrect ResurrectSpec Plugin BdbStore PluginSpec.
From S2P Require Import WholeRestart RestartSpec RestartQueues Replay.
From Stdlib Require Import ZArith Lia.

(** ** From one session to the next *)

Section sessions.
Context `{HostEndian, HostAlloc, Framing, BT : !BTree bt_compare}.
Variables (mongo : list string) (uid_of : list byte -> string) (loadContent : Z -> bool).
Variable alloc : nat -> option (list byte).
Variables (lo : Z) (smart : bool) (base : Z) (old : gmap mkey (list byte)).
Implicit Types (pv nb : Provider) (s : dsys) (q p : Z).

(** The durable messages that are stored for the queues of [pv]. *)
Definition kept pv s : gmap mkey (list byte) :=
  filter (fun kv => is_Some (journalList pv !! kv.1.1) /\ durable kv.2 = true) (d_store s).

(** A new provider on the directory of [pv], with the journal objects that
    [recoverQueues] has made; [L] are the queues. *)
Record renewed pv (L : list (string * Z)) nb : Prop := {
  rn_smart : enableSmartAsync nb = smart;
  rn_tracker : tracker nb = PidTracker.init;
  rn_logdir : logBaseDir (aologger nb) = logBaseDir (aologger pv);
  rn_logs : logFS (aologger nb) = logFS (aologger pv);
  rn_files : JournalImpl.w_files (world nb) = JournalImpl.w_files (world pv);
  rn_ids : NoDup L.*2;
  rn_queues : forall q, q ∈ L.*2 <-> is_Some (journalList pv !! q);
  rn_journals : forall q, journalList nb !! q =
    (fun j => JournalImpl.create (journalName j) q (journalDirectory j) (bdbDir j) (num_jfiles j) true) <$> journalList pv !! q
}.

Lemma kept_lasting pv s q x :
  is_Some (journalList pv !! q) -> lasting (fun q x => d_store s !! (q, x)) q x = kept pv s !! (q, x).
Proof.
  intros Hq. unfold lasting, kept. rewrite map_lookup_filter.
  destruct (d_store s !! (q, x)) as [raw|]; simpl; [|done]. destruct (durable raw) eqn:Ed.
  - by rewrite option_guard_True.
  - rewrite option_guard_False; [done|]. by intros [_ ?].
Qed.

Lemma kept_owed pv s0 s q p :
  d_init base old s0 -> dreach smart old s0 s -> d_next s <= base + 2 ^ 31 ->
  (forall q p, pending (d_enq s) q p = None) -> (forall q p, pending (d_deq s) q p = None) ->
  is_Some (journalList pv !! q) -> kept pv s !! (q, p) = owed old s q p.
Proof.
  intros Hi Hd Hw He Hq Hj. rewrite <- kept_lasting by done. unfold lasting, owed.
  rewrite <- (survives_history smart base old s0 s q p Hi Hd Hw).
  unfold survives, deq_pending, enq_pending. rewrite He, Hq. by destruct (d_store s !! (q, p)).
Qed.

Lemma renewed_fresh pv s L nb q :
  refines lo smart pv s -> renewed pv L nb -> q ∈ L.*2 -> fresh_ok lo (fun q x => d_store s !! (q, x)) nb q.
Proof.
  intros R Rn Hq. destruct (proj1 (rn_queues _ _ _ Rn q) Hq) as [j Hj].
  destruct (rf_journal _ _ _ _ R q j Hj) as [[[Hn Hf] _] Lj].
  exists (journalName j), (journalDirectory j), (bdbDir j), (num_jfiles j).
  rewrite (rn_journals _ _ _ Rn), Hj, (rn_files _ _ _ Rn). split_and!; [done|done|]. intros x. apply Lj.
Qed.

(** The pending dequeues of a log. *)
Lemma pending_dequeue_ok l he hd q p v :
  both_inv l he hd -> pending hd q p = Some v -> v = mkPAD p q /\ is_u64 p /\ is_u64 q.
Proof.
  intros [_ (rc & ro & M & _ & _ & _ & _ & Vc & Vo & _ & Hk)] Hp. unfold pending in Hp. case_decide as Hc; [done|].
  destruct (Hk q p) as [[Hs _]|(_ & _ & Hc')]; [|done]. rewrite <- Hs in Hp.
  assert (Hin : v ∈ starts (rc ++ ro) q p) by (destruct (starts (rc ++ ro) q p); simplify_eq/=; left).
  apply list_elem_of_omap in Hin as ([w|] & Hw & E); [|done]. case_decide as Hkey; [|done]. injection E as ->.
  assert (V : valid_rec (LStart v)) by (assert (Va : Forall valid_rec (rc ++ ro)) by (by apply Forall_app);
    rewrite Forall_forall in Va; by apply Va).
  destruct v as [p' q']. injection Hkey as -> ->. destruct V. done.
Qed.

(** ** What a session may leave *)

(** Dequeues are pending of durable messages that are stored for a queue of [pv], at most as
    many as one block of log records holds. *)
Definition few_dequeues pv s : Prop :=
  (forall q p, is_Some (pending (d_deq s) q p) ->
     is_Some (journalList pv !! q) /\ exists raw, d_store s !! (q, p) = Some raw /\ durable raw = true) /\
  exists D : gset mkey, (forall q p, is_Some (pending (d_deq s) q p) -> (q, p) ∈ D) /\ 17 * Z.of_nat (size D) < 2 ^ 31.

(** Only dequeues are pending. *)
Definition only_dequeues pv s : Prop := (forall q p, pending (d_enq s) q p = None) /\ few_dequeues pv s.

(** The pending enqueues are of durable messages that are not stored and not dequeued. Their
    ids are the [n] after [top], the largest id of a durable message that is stored. *)
Record resumable pv s (top : Z) (n : nat) : Prop := {
  rs_enq : forall q p v, pending (d_enq s) q p = Some v -> is_Some (journalList pv !! q) /\
    d_store s !! (q, p) = None /\ pending (d_deq s) q p = None /\ durable (pae_buff v) = true /\ in_window lo p;
  rs_deq : few_dequeues pv s;
  rs_top : highest (fun q p => is_Some (kept pv s !! (q, p))) top;
  rs_next : consecutive (fun q p => is_Some (pending (d_enq s) q p)) top n;
  rs_count : Z.of_nat n < 2 ^ 31
}.

(** A finite map has a largest id. *)
Lemma highest_exists {A} (m : gmap mkey A) :
  (forall q p, is_Some (m !! (q, p)) -> 0 <= p < two63) -> exists top, highest (fun q p => is_Some (m !! (q, p))) top.
Proof.
  induction m as [|[q p] x m Hm IH] using map_ind; intros Hb.
  { exists 0. split_and!; [done|done| |by left]. intros q p Hs. rewrite lookup_empty in Hs. by destruct Hs. }
  assert (Hin : forall q' p', is_Some (<[(q, p) := x]> m !! (q', p')) <-> (q', p') = (q, p) \/ is_Some (m !! (q', p'))).
  { intros q' p'. rewrite lookup_insert_is_Some. destruct (decide ((q, p) = (q', p'))); naive_solver. }
  destruct IH as (top & B & U & T); [intros q' p' Hs; apply (Hb q'), Hin; by right|].
  assert (Hp : 0 <= p < two63) by (apply (Hb q), Hin; by left). exists (Z.max top p). split_and!; [lia|lia| |].
  - intros q' p' [[= -> ->]|Hs]%Hin; [lia|]. specialize (U q' p' Hs). lia.
  - destruct (Z.max_spec top p) as [[_ ->]|[_ ->]]; [right; exists q; apply Hin; by left|].
    destruct T as [->|[q' Hq]]; [by left|]. right. exists q'. apply Hin. by right.
Qed.

Lemma kept_in_window pv s q p :
  refines lo smart pv s -> is_Some (kept pv s !! (q, p)) -> in_window lo p.
Proof.
  intros R [raw Hr]. unfold kept in Hr. apply map_lookup_filter_Some in Hr as (Hr & [j Hj] & _).
  destruct (rf_journal _ _ _ _ R q j Hj) as [Hw Hl]. simpl in Hr. rewrite <- Hl in Hr. by eapply lookup_window.
Qed.

Lemma only_dequeues_resumable pv s :
  0 <= lo -> lo + 2 ^ 31 <= two63 -> refines lo smart pv s -> only_dequeues pv s -> exists top, resumable pv s top 0.
Proof.
  intros Hlo Hlo' R [He Hd]. destruct (highest_exists (kept pv s)) as [top Ht].
  { intros q p Hk. apply (kept_in_window pv s q p R) in Hk as [Hk1 Hk2]. unfold is_u64 in Hk1. lia. }
  exists top. split; try done.
  - intros q p v. by rewrite He.
  - split; [|intros q q' p Hs; rewrite He in Hs; by destruct Hs]. intros p. split; [|lia].
    intros [q Hs]. rewrite He in Hs. by destruct Hs.
Qed.

(** ** What the restart leaves *)

(** The state of a session that a restart leads to: [K] are the dequeues it carried out, [V]
    the enqueues it calls again. *)
Record resumes pv s (ad : PendingDequeueSet) (top : Z) (K : list PendingOperationId)
    (V : list PendingAsyncEnqueue) s' : Prop := {
  re_enq : d_enq s' = starts_of V;
  re_deq : d_deq s' = deq_hist ad K;
  re_tr : d_tr s' = will_all smart V (PidTracker.reset top PidTracker.init);
  re_next : d_next s' = top + 1 + Z.of_nat (length V);
  re_store : forall q p, d_store s' !! (q, p) = if decide ((p, q) ∈ K) then None else kept pv s !! (q, p)
}.

Lemma highest_unique (P Q : Z -> Z -> Prop) m m' :
  highest P m -> highest Q m' -> (forall q x, P q x <-> Q q x) -> m = m'.
Proof.
  intros (B1 & U1 & A1) (B2 & U2 & A2) HPQ.
  assert (m <= m') by (destruct A1 as [->|[q Hq]]; [lia|]; apply (U2 q); by apply HPQ).
  assert (m' <= m) by (destruct A2 as [->|[q Hq]]; [lia|]; apply (U1 q); by apply HPQ). lia.
Qed.

(** The largest of the stored and the pending ids. *)
Lemma highest_next (P Q : Z -> Z -> Prop) top n high :
  highest P top -> consecutive Q top n -> highest (fun q x => P q x \/ Q q x) high -> high = top + Z.of_nat n.
Proof.
  intros (B1 & U1 & A1) [Hn _] (B2 & U2 & A2).
  assert (Hlo : top + Z.of_nat n <= high).
  { destruct (decide (n = 0%nat)) as [->|Hne].
    - destruct A1 as [->|[q Hq]]; [lia|]. specialize (U2 q top (or_introl Hq)). lia.
    - destruct (proj2 (Hn (top + Z.of_nat n))) as [q Hq]; [lia|]. exact (U2 q _ (or_intror Hq)). }
  destruct A2 as [->|[q [Hq|Hq]]]; [lia|specialize (U1 q high Hq); lia|].
  destruct (proj1 (Hn high)) as [_ ?]; [by exists q|]. lia.
Qed.

(** The pending operations as the restart reads them. *)
Lemma pending_read pv s ae ad top n :
  refines lo smart pv s -> sizes_ok s -> flagged s -> resumable pv s top n ->
  (forall q p, nm_get ae q p = pending (d_enq s) q p) -> (forall q p, nm_get ad q p = pending (d_deq s) q p) ->
  keys_ok ae /\ (forall q p v, nm_get ae q p = Some v -> sized v) /\
  (forall q p v, nm_get ae q p = Some v -> nm_get ad q p = None /\ d_store s !! (q, p) = None /\
     pae_transient v = false /\ durable (take (Z.to_nat (pae_size v)) (pae_buff v)) = true /\ in_window lo p) /\
  (forall q p v, nm_get ad q p = Some v -> v = mkPAD p q /\ is_u64 p /\ is_u64 q) /\
  17 * Z.of_nat (length (nm_list ad)) < 2 ^ 31.
Proof.
  intros R [Hz _] Hfl Rs Pe Pd. destruct (rs_deq _ _ _ _ Rs) as [_ (D & HD & Hsz)]. split_and!.
  - intros q p v. rewrite Pe. apply pending_key.
  - intros q p v. rewrite Pe. intros Hv%pending_elem. by apply Hz.
  - intros q p v. rewrite Pe, Pd. intros Hv. destruct (rs_enq _ _ _ _ Rs q p v Hv) as (_ & H2' & H3' & H4' & H5').
    apply pending_elem in Hv. rewrite (Hz v Hv), Nat2Z.id, take_ge by lia. pose proof (Hfl v Hv) as Hf. rewrite H4' in Hf.
    by destruct (pae_transient v).
  - intros q p v. rewrite Pd. apply (pending_dequeue_ok _ _ _ _ _ _ (rf_log _ _ _ _ R)).
  - eapply Z.le_lt_trans; [|exact Hsz]. apply Z.mul_le_mono_nonneg_l; [lia|]. apply inj_le.
    rewrite <- (length_fmap fst (nm_list ad)), <- (size_list_to_set (C := gset mkey) _ (nm_list_NoDup ad)).
    apply subseteq_size. intros [q p] Hq. apply HD. rewrite elem_of_list_to_set, elem_keyed_list, Pd in Hq. done.
Qed.

Lemma restart_resumes s0 pv s accepts L nb top n :
  d_init base old s0 -> dreach smart old s0 s -> d_next s <= base + 2 ^ 31 -> refines lo smart pv s -> flagged s ->
  resumable pv s top n -> 0 <= lo -> lo + 2 ^ 31 <= two63 ->
  (n <> 0%nat -> forall (d : Db) k, exists x, db_get d k = Ret x) ->
  (forall (d : Db) k, exists sd, db_del d k = Ret sd) -> (forall n b, alloc n = Some b -> length b = n) ->
  renewed pv L nb ->
  exists ae ad K mm mq pv',
    recoverMessages false mongo uid_of loadContent alloc io_fine accepts L nb = Some (Ret (mm, mq, pv')) /\
    keys_ok ae /\ (forall q p, nm_get ae q p = pending (d_enq s) q p) /\ (forall q p v, nm_get ae q p = Some v -> sized v) /\
    started_once (start_recs ae) /\
    (forall q p, nm_get ad q p = pending (d_deq s) q p) /\ (forall q p v, nm_get ad q p = Some v -> v = mkPAD p q) /\
    NoDup K /\ (forall p q, (p, q) ∈ K <-> is_Some (pending (d_deq s) q p)) /\
    (forall V s', V ≡ₚ map snd (nm_list ae) -> length V = n -> resumes pv s ad top K V s' -> refines lo smart pv' s') /\
    enqueuePool pv' = enqueuePool nb ++ (if accepts then map store_of (map snd (nm_list ae)) else []) /\
    dequeuePool pv' = dequeuePool nb.
Proof.
  intros Hi Hd Hw R Hfl Rs Hlo Hlo' Hget Hdel Hal Rn. pose proof (rs_deq _ _ _ _ Rs) as [Ph _].
  destruct (session_started_once smart base old s0 s Hi Hd Hw) as [O1 O2].
  destruct (restart_inv _ _ _ (rf_log _ _ _ _ R) O1 O2) as (ae & ad & lg & E & Pe & Pd & Oe & Od & Hlg).
  destruct (restart_same _ (aologger nb) _ _ _ (rn_logdir _ _ _ Rn) (rn_logs _ _ _ Rn) E) as (lg' & E' & Hb2). apply Hb2 in Hlg.
  destruct (pending_read pv s ae ad top n R (sizes_reach smart base old s0 s Hi Hd) Hfl Rs Pe Pd) as (Hk & Hz & Hnew & Hval & Hsz).
  destruct (recover_quiet mongo uid_of loadContent alloc lo (fun q x => d_store s !! (q, x)) ae ad nb Hdel Hal (conj Hlo Hlo'))
    with (accepts := accepts) (L := L) (l0 := lg')
    as (mm & mq & pv' & last & high & K & Er & Hlast & Hhigh & Es & Et & Ei & Hl & HK & HKin & Hdom & Hdone & Hdis & Ep & Ep'); try done.
  { intros q q' j j' k k' Hne. rewrite !(rn_journals _ _ _ Rn).
    destruct (journalList pv !! q) as [j0|] eqn:E1; [|done]. destruct (journalList pv !! q') as [j0'|] eqn:E2; [|done].
    intros [= <-] [= <-]. exact (rf_disjoint _ _ _ _ R q q' j0 j0' k k' Hne E1 E2). }
  { intros q p. rewrite Pd. apply Ph. }
  { intros q p [v Hv]. by apply Hval in Hv as [_ ?]. }
  { intros (q & p & Hs). apply Hget. intros ->. rewrite Pe in Hs.
    destruct (proj1 (proj1 (rs_next _ _ _ _ Rs) p)) as [? ?]; [by exists q|]. lia. }
  { intros q p. rewrite Pe. intros [v Hv]. by apply (rn_queues _ _ _ Rn), (rs_enq _ _ _ _ Rs q p v Hv). }
  { intros q p. rewrite Pd. intros Hs. apply (rn_queues _ _ _ Rn), (Ph q p Hs). }
  { apply Rn. }
  { intros q Hin. by eapply renewed_fresh. }
  assert (HLk : forall q x, q ∈ L.*2 /\ is_Some (lasting (fun q x => d_store s !! (q, x)) q x) <-> is_Some (kept pv s !! (q, x))).
  { intros q x. rewrite (rn_queues _ _ _ Rn). split; [intros [Hj Hs]; by rewrite <- kept_lasting|]. intros Hs.
    assert (Hj : is_Some (journalList pv !! q)).
    { destruct Hs as [raw Hs]. unfold kept in Hs. by apply map_lookup_filter_Some in Hs as [_ [? _]]. }
    split; [done|]. by rewrite (kept_lasting pv). }
  assert (last = top) as -> by (eapply highest_unique; [exact Hlast|apply Rs|done]).
  assert (high = top + Z.of_nat n) as ->.
  { eapply (highest_next _ _ top n); [apply Rs|apply Rs|]. destruct Hhigh as (B & U & A). split_and!; [apply B..| |].
    - intros q x [Hx|[v Hx]]; apply (U q x); [apply HLk in Hx; tauto|].
      split; [by apply (rn_queues _ _ _ Rn), (rs_enq _ _ _ _ Rs q x v)|]. right. rewrite Pe. by eexists.
    - destruct A as [->|(q & HqL & [Hx|Hx])]; [by left|right; exists q; left; by apply HLk|].
      right. exists q. right. by rewrite <- Pe. }
  exists ae, ad, K, mm, mq, pv'. split; [exact Er|]. split; [exact Hk|]. split; [exact Pe|]. split; [exact Hz|].
  split; [exact Oe|]. split; [exact Pd|]. split; [intros q p v Hv; by apply Hval in Hv as [? _]|]. split; [exact HK|].
  split; [intros p q; by rewrite HKin, Pd|]. split; [|by split]. intros V s' HV Hlen [R1 R2 R3 R4 R5]. split.
  - by rewrite Es, (rn_smart _ _ _ Rn).
  - rewrite R1, R2. by apply (both_inv_perm _ ae).
  - rewrite Et, (rn_tracker _ _ _ Rn), (rn_smart _ _ _ Rn), R3. symmetry. by apply will_all_perm.
  - rewrite Ei, R4, Hlen. lia.
  - intros q j Hj. assert (Hjp : is_Some (journalList pv !! q)).
    { assert (Hj' : is_Some (journalList nb !! q)) by (apply Hdom; by eexists).
      rewrite (rn_journals _ _ _ Rn) in Hj'. by apply fmap_is_Some in Hj'. }
    destruct (Hdone q) as (j' & Hj' & Hw' & Hl'); [by apply (rn_queues _ _ _ Rn)|].
    rewrite Hj in Hj'. injection Hj' as <-. split; [done|].
    intros p. rewrite Hl', R5, <- (kept_lasting pv s q p Hjp). unfold remaining.
    destruct (nm_get ad q p) as [v|] eqn:Ea.
    + rewrite decide_True; [done|]. apply HKin. by eexists.
    + rewrite decide_False; [done|]. rewrite HKin, Ea. by intros [? ?].
  - exact Hdis.
Qed.

(** Let a session end with no operation pending in the
    logs. The restart then returns, and leaves the provider as at the start of a session
    over exactly the durable messages that were enqueued and not dequeued: its logs are
    empty, its journals hold these messages and no transient ones, and its ids go on
    above all of them. So what is shown of one session holds of the next one too. *)
Theorem quiet_restart_starts_session pv0 s0 pv s accepts L nb :
  0 <= base -> base + 2 ^ 31 < 2 ^ 64 -> d_init base old s0 -> refines lo smart pv0 s0 ->
  prun lo smart old pv0 s0 pv s -> d_next s <= base + 2 ^ 31 ->
  (forall q p, pending (d_enq s) q p = None) -> (forall q p, pending (d_deq s) q p = None) ->
  0 <= lo -> lo + 2 ^ 31 <= two63 ->
  (forall (d : Db) k, exists sd, db_del d k = Ret sd) -> (forall n b, alloc n = Some b -> length b = n) ->
  renewed pv L nb ->
  exists mm mq pv' base' s',
    recoverMessages false mongo uid_of loadContent alloc io_fine accepts L nb = Some (Ret (mm, mq, pv')) /\
    0 <= base' < two63 /\ d_init base' (kept pv s) s' /\ refines lo smart pv' s' /\
    forall q p, is_Some (journalList pv !! q) -> kept pv s !! (q, p) = owed old s q p.
Proof.
  intros Hb Hb' Hi R0 Hr Hw He Hq Hlo Hlo' Hdel Hal Rn.
  destruct (prun_sim lo smart base old pv0 s0 pv s Hb Hb' Hi R0 Hr Hw) as [Hd R].
  assert (Hod : only_dequeues pv s).
  { split; [done|]. split; [intros q p [v Hv]; by rewrite Hq in Hv|]. exists ∅. split; [|rewrite size_empty; lia].
    intros q p [v Hv]. by rewrite Hq in Hv. }
  destruct (only_dequeues_resumable pv s Hlo Hlo' R Hod) as [top Rs].
  destruct (restart_resumes s0 pv s accepts L nb top 0)
    as (ae & ad & K & mm & mq & pv' & Er & Hk & Pe & _ & _ & Pd & _ & _ & HK & Href & _); try done.
  { eapply flagged_run; [|exact Hr]. intros v. destruct Hi as (-> & _). intros Hv. by apply not_elem_of_nil in Hv. }
  assert (EK : K = []).
  { destruct K as [|[p q] K]; [done|]. destruct (proj1 (HK p q) ltac:(left)) as [v Hv]. by rewrite Hq in Hv. }
  subst K. assert (Ea : deq_hist ad [] = []).
  { unfold deq_hist, start_recs. rewrite nm_list_empty; [done|]. intros q p. by rewrite Pd. }
  assert (Ee : map snd (nm_list ae) = []) by (rewrite nm_list_empty; [done|]; intros q p; by rewrite Pe).
  destruct (rs_top _ _ _ _ Rs) as (Hr' & Hmax & _).
  exists mm, mq, pv', top, (mkD [] [] (kept pv s) (PidTracker.reset top PidTracker.init) ∅ ∅ (top + 1) ∅).
  split_and!; [done|apply Hr'|apply Hr'| | |intros q p Hj; by eapply kept_owed].
  - by split_and!.
  - apply (Href []); [by rewrite Ee|done|]. split; try done. simpl. lia.
Qed.

(** ** A session in which the dequeues have been carried out *)

Section carried_out.
Variables (base' : Z) (old' : gmap mkey (list byte)).
Hypothesis old_ids : forall q p, is_Some (old' !! (q, p)) -> p <= base'.

Definition fresh_session : dsys :=
  mkD [] [] old' (PidTracker.reset base' PidTracker.init) ∅ ∅ (base' + 1) ∅.

Lemma fresh_session_init : d_init base' old' fresh_session.
Proof. by split_and!. Qed.

(** [dequeue] of the messages [X]. *)
Lemma dequeues_start (X : list mkey) :
  NoDup X -> (forall k, k ∈ X -> is_Some (old' !! k)) ->
  exists s, dreach smart old' fresh_session s /\ d_enq s = [] /\
    d_deq s = map (fun k => LStart (mkPAD k.2 k.1)) X /\ d_store s = old' /\
    d_tr s = PidTracker.reset base' PidTracker.init /\ d_next s = base' + 1 /\
    (forall k, k ∈ X -> d_deqs s !! k = Some DWait) /\ (forall k, k ∈ d_out s <-> k ∈ X) /\ d_items s = ∅.
Proof.
  induction X as [|[q p] X IH] using rev_ind; intros Hn HX.
  { exists fresh_session. split_and!; try done; [constructor|intros k Hk; by apply not_elem_of_nil in Hk|].
    intros k. simpl. set_solver. }
  apply NoDup_app in Hn as (Hn & Hdis & _).
  destruct IH as (s & Hr & E1 & E2 & E3 & E4 & E5 & E6 & E7 & E8); [done|intros k Hk; apply HX; set_solver|].
  assert (Hnew : (q, p) ∉ X) by (intros Hin; apply (Hdis _ Hin); left).
  assert (Hc : deq_check smart q p (d_tr s) = (true, d_tr s)) by (rewrite E4; unfold deq_check; by destruct smart).
  exists (do_dequeue smart q p s). split.
  { eapply Dr_step; [exact Hr|]. apply St_dequeue; [right; apply HX; set_solver|by rewrite E7]. }
  unfold do_dequeue. rewrite Hc. simpl. rewrite map_app, E2. split_and!; try done.
  - intros k [Hk|Hk]%elem_of_app.
    + rewrite lookup_insert_ne by (by intros <-). by apply E6.
    + apply list_elem_of_singleton in Hk as ->. apply lookup_insert_eq.
  - intros k. rewrite elem_of_union, E7, elem_of_singleton, elem_of_app, list_elem_of_singleton. tauto.
Qed.

(** The rest of the dequeues [Y], one after the other. *)
Lemma dequeues_finish (Y : list mkey) s :
  NoDup Y -> (forall k, k ∈ Y -> d_deqs s !! k = Some DWait /\ k.2 <= base') ->
  d_tr s = PidTracker.reset base' PidTracker.init -> dreach smart old' fresh_session s ->
  exists s', dreach smart old' fresh_session s' /\ d_enq s' = d_enq s /\
    d_deq s' = d_deq s ++ map (fun k => LComplete k.2 k.1) Y /\
    (forall k, d_store s' !! k = if decide (k ∈ Y) then None else d_store s !! k) /\
    d_tr s' = d_tr s /\ d_next s' = d_next s /\ (forall k, k ∉ Y -> d_deqs s' !! k = d_deqs s !! k) /\
    d_out s' = d_out s /\ d_items s' = d_items s.
Proof.
  induction Y as [|[q p] Y IH] using rev_ind; intros Hn HY Et Hr.
  { exists s. by rewrite app_nil_r. }
  apply NoDup_app in Hn as (Hn & Hdis & _).
  assert (Hnew : (q, p) ∉ Y) by (intros Hin; apply (Hdis _ Hin); left).
  destruct IH as (s1 & Hr1 & E1 & E2 & E3 & E4 & E5 & E6 & E7 & E8); [done|intros k Hk; apply HY; set_solver|done|done|].
  destruct (HY (q, p)) as [Hw Hp]; [set_solver|]. rewrite <- (E6 _ Hnew) in Hw. simpl in Hp.
  set (s2 := set_deq (q, p) DWaitMain s1). set (s3 := set_deq (q, p) DData s2).
  assert (R3 : dreach smart old' fresh_session s3).
  { eapply Dr_step; [eapply Dr_step; [exact Hr1|]|].
    - apply (St_wait_dup smart old' s1 q p); [done|]. by rewrite E4, Et.
    - apply (St_wait_main smart old' s2 q p); [apply lookup_insert_eq|]. simpl. by rewrite E4, Et. }
  set (s4 := deq_data q p s3).
  assert (R5 : dreach smart old' fresh_session (deq_log q p s4)).
  { eapply Dr_step; [eapply Dr_step; [exact R3|]|].
    - apply (St_deq_data smart old' s3 q p). apply lookup_insert_eq.
    - apply (St_deq_log smart old' s4 q p). apply lookup_insert_eq. }
  exists (deq_log q p s4). split; [exact R5|]. simpl. rewrite E2, map_app, <- app_assoc. split_and!; try done.
  - intros k. rewrite lookup_delete, E3. destruct (decide ((q, p) = k)) as [<-|Hk].
    + rewrite decide_True; [done|]. set_solver.
    + repeat case_decide; try done; set_solver.
  - intros k Hk. assert (Hne : k <> (q, p)) by (intros ->; set_solver).
    rewrite lookup_delete_ne, !lookup_insert_ne by done. apply E6. set_solver.
Qed.

End carried_out.

(** All of it, as steps of the session that the restart leads to. *)
Lemma restart_replayed pv s ad top K V :
  (forall q p, is_Some (kept pv s !! (q, p)) -> p <= top) -> (forall q p v, nm_get ad q p = Some v -> v = mkPAD p q) ->
  (forall q p, is_Some (nm_get ad q p) -> is_Some (kept pv s !! (q, p))) ->
  NoDup K -> (forall p q, (p, q) ∈ K <-> is_Some (nm_get ad q p)) ->
  pae_msgId <$> V = seqZ (top + 1) (Z.of_nat (length V)) -> Forall sized V ->
  exists s', dreach smart (kept pv s) (fresh_session top (kept pv s)) s' /\ resumes pv s ad top K V s' /\
    (forall q p, (q, p) ∈ d_out s' <-> is_Some (nm_get ad q p)) /\
    (forall v, v ∈ V -> d_items s' !! pae_key v = Some (mkItem v true SCheck)) /\
    (forall k i, d_items s' !! k = Some i -> si_val i ∈ V).
Proof.
  intros Hmax Hv Hkept HKn HK Hids Hz.
  destruct (dequeues_start top (kept pv s) Hmax (nm_list ad).*1) as (s2 & R2 & A1 & A2 & A3 & A4 & A5 & A6 & A7 & A8).
  { apply nm_list_NoDup. }
  { intros [q p] Hk. by apply Hkept, elem_keyed_list. }
  assert (Hmem : forall q p, (q, p) ∈ map (fun k : PendingOperationId => (k.2, k.1)) K <-> (p, q) ∈ K).
  { intros q p. rewrite list_elem_of_fmap. split; [by intros ([p' q'] & [= -> ->] & ?)|by exists (p, q)]. }
  destruct (dequeues_finish top (kept pv s) Hmax (map (fun k => (k.2, k.1)) K) s2)
    as (s1 & R1 & B1 & B2 & B3 & B4 & B5 & _ & B7 & B8); [|..|done|done|].
  { apply NoDup_fmap; [intros [? ?] [? ?] [= -> ->]; done|done]. }
  { intros [q p] Hk%Hmem%HK. split; [by apply A6, elem_keyed_list|]. by apply (Hmax q), Hkept. }
  destruct (enqueues_again smart (kept pv s) (fresh_session top (kept pv s)) V s1)
    as (s' & R' & C1 & C2 & C3 & C4 & C5 & C6 & C7 & C8); [by rewrite B5, A5|done|done|].
  exists s'. split; [done|]. split; [|split; [intros q p; by rewrite C6, B7, A7, elem_keyed_list|split; [done|]]].
  - split; [by rewrite C1, B1, A1| |by rewrite C4, B4, A4|by rewrite C5, B5, A5|].
    + rewrite C2, B2, A2. unfold deq_hist, start_recs, completes. rewrite !map_map. f_equal. apply map_ext_in.
      intros [[q p] v] Hin. apply list_elem_of_In, elem_of_nm_list, Hv in Hin as ->. done.
    + intros q p. rewrite C3, B3, A3. pose proof (Hmem q p). repeat case_decide; tauto.
  - intros k i Hk. destruct (decide (k ∈ pae_key <$> V)) as [Hin|Hout].
    + apply list_elem_of_fmap in Hin as (v & -> & Hin). rewrite C7 in Hk by done. by injection Hk as <-.
    + rewrite C8, B8, A8, lookup_empty in Hk by done. done.
Qed.

(** At some moment of a session over [old], with ids from [base] on. *)
Definition in_session (base : Z) (old : gmap mkey (list byte)) pv s : Prop :=
  0 <= base /\ base + 2 ^ 31 < 2 ^ 64 /\ d_next s <= base + 2 ^ 31 /\ flagged s /\
  (exists s0, d_init base old s0 /\ dreach smart old s0 s) /\ refines lo smart pv s.

(** The provider stays in its session while it runs. *)
Lemma session_runs pv s pv' s' :
  in_session base old pv s -> prun lo smart old pv s pv' s' -> d_next s' <= base + 2 ^ 31 -> in_session base old pv' s'.
Proof.
  intros (Hb & Hb' & _ & Hf & (s0 & Hi & Hd) & R) Hr Hw.
  destruct (prun_sim_from lo smart base old s0 pv s pv' s' Hb Hb' Hi Hd R Hr Hw) as [Hd' R'].
  split_and!; eauto using flagged_run.
Qed.

(** What is owed after the restart is what was owed before it. *)
Lemma owed_resumed s0 pv s ae ad top n K V s' q p :
  d_init base old s0 -> dreach smart old s0 s -> d_next s <= base + 2 ^ 31 -> resumable pv s top n ->
  (forall q p, nm_get ae q p = pending (d_enq s) q p) -> (forall q p, nm_get ad q p = pending (d_deq s) q p) ->
  keys_ok ae -> started_once (start_recs ae) -> V ≡ₚ map snd (nm_list ae) -> resumes pv s ad top K V s' ->
  (forall q p, (q, p) ∈ d_out s' <-> is_Some (nm_get ad q p)) -> is_Some (journalList pv !! q) ->
  owed (kept pv s) s' q p = owed old s q p /\ pending (d_enq s') q p = pending (d_enq s) q p.
Proof.
  intros Hi Hd Hw Rs Pe Pd Hk Oe HV [E1 _ _ _ _] Hout Hj.
  assert (Es : starts (d_enq s') q p = match pending (d_enq s) q p with Some v => [v] | None => [] end).
  { rewrite E1, (starts_of_perm (map snd (nm_list ae)) V q p) by (done || by rewrite <- start_recs_of).
    specialize (Oe q p). rewrite start_recs_of in Oe.
    assert (Hin : forall v, v ∈ starts (starts_of (map snd (nm_list ae))) q p <-> pending (d_enq s) q p = Some v).
    { intros v. rewrite <- Pe. unfold starts, starts_of. rewrite list_elem_of_omap. split.
      - intros ([w|] & Hw' & E); [|done]. case_decide as Ek; [|done]. injection E as ->.
        apply list_elem_of_fmap in Hw' as (w & [= ->] & Hw'). apply elem_of_pendings in Hw'; [|done].
        simpl in Ek. by injection Ek as <- <-.
      - intros Hv. exists (LStart v). pose proof (Hk q p v Hv) as Hkey. unfold pae_key in Hkey. injection Hkey as Eq Ep. split.
        + apply list_elem_of_fmap. exists v. split; [done|]. apply elem_of_pendings; [done|]. by rewrite Eq, Ep.
        + simpl. unfold pae_key. rewrite decide_True by congruence. done. }
    destruct (starts (starts_of _) q p) as [|v [|w l]]; simpl in Oe; [| |lia].
    - destruct (pending (d_enq s) q p) as [v|]; [|done]. pose proof (proj2 (Hin v) eq_refl) as Hx. by apply not_elem_of_nil in Hx.
    - by rewrite (proj1 (Hin v)) by left. }
  split.
  - unfold owed, history at 1. rewrite Es, <- (survives_history smart base old s0 s q p Hi Hd Hw).
    unfold survives, deq_pending, enq_pending. pose proof (Hout q p) as Eo. rewrite Pd in Eo. case_bool_decide as Ho.
    + by apply Eo in Ho as [v ->].
    + destruct (pending (d_deq s) q p); [destruct Ho; apply Eo; by eexists|].
      destruct (pending (d_enq s) q p) as [v|] eqn:Ev; [by destruct (rs_enq _ _ _ _ Rs q p v Ev) as (_ & -> & _)|].
      rewrite <- (kept_lasting pv s q p Hj). unfold lasting.
      destruct (d_store s !! (q, p)) as [raw|]; [|done]. by destruct (durable raw) eqn:Edr; rewrite ?Edr.
  - unfold pending at 1. rewrite decide_False by (rewrite E1; apply starts_of_open). rewrite Es.
    by destruct (pending (d_enq s) q p).
Qed.


End sessions.
