(* ===== verification/RestartExamples.v ===== *)
(** A session, a crash and the restart through the front end; a session that leaves
    nothing pending, and the next one: the witnesses of the theorems of [RestartSpec] and
    [QuietRestart]. *)
From S2P Require Import Prelude Format Jerrno IdSequence NestedMap PidTracker PendingOps.
From S2P Require Import LogFormat LogExtract AsyncLog LogSystem LogRecovery LoggerSpec.
From S2P Require Import Bdb TxnCtxt Framing Journal JournalSpec Durability Posix Jdir JdirSpec Recovery RecoverySpec.
From S2P Require Import Provider ProviderSpec CrashRestart Config Resurrect ResurrectSpec Plugin BdbStore PluginSpec PluginExamples.
From S2P Require Import WholeRestart RestartSpec RestartQueues Replay QuietRestart.
From Stdlib Require Import ZArith Lia.

#[local] Existing Instance little_endian.
#[local] Existing Instance front_host.
#[local] Existing Instance wire.
#[local] Existing Instance front_bt.
#[local] Existing Instance front_kt.
#[local] Existing Instance front_dt.
#[local] Existing Instance front_provider.

(** The journal of queue 1, open on new files. *)
Definition again_new : JournalImpl := queue_journal "/s" "q" 1 2.
Definition again_w0 : JournalImpl.world := JournalImpl.mkWorld (mkEnv 0 [] false) ∅.
Definition again_open := JournalImpl.init_message_db io_fine again_new again_w0.
Definition again_j : JournalImpl := match again_open.1 with Ret j => j | Throw _ => again_new end.

Lemma again_files : files_ok 0 again_new (JournalImpl.w_files again_w0).
Proof. split; [done|]. intros k d _ Hd. simpl in Hd. by rewrite lookup_empty in Hd. Qed.

Lemma again_jwf : jwf 0 again_j again_open.2 /\ forall x, jlookup again_j (JournalImpl.w_files again_open.2) x = None.
Proof.
  destruct (init_fine 0 "q" 1 (getJrnlHashDir "q") (getBdbBaseDir "/s") 2 again_w0 again_files)
    as (w' & j' & E & Hj & _ & _ & _ & _ & El).
  assert (E' : again_open = (Ret j', w')) by exact E. unfold again_j. rewrite E'. split; [done|]. intros x. by rewrite El.
Qed.

(** A durable and a transient message are enqueued; nothing else happens before the
    crash. *)
Definition again_pv0 : Provider :=
  mkProv true false IdSequence.init (d_tr crash_s0) (AsyncOperationLogger.create "async" ∅) {[1 := again_j]} again_open.2 [] [].
Definition again_m1 : Message := mkMsg [x68] [x61; x62] true.
Definition again_m2 : Message := mkMsg [x68] [x63] false.
Definition again_pv1 : Provider := (Provider.enqueue true "q" 1 0 (Some 1) again_m1 again_pv0).2.
Definition again_pv2 : Provider := (Provider.enqueue true "q" 1 0 (Some 1) again_m2 again_pv1).2.
Definition again_s1 : dsys := do_enqueue false 1 1 true (msgEncode again_m1).1 false crash_s0.
Definition again_s2 : dsys := do_enqueue false 1 2 true (msgEncode again_m2).1 true again_s1.

Lemma again_refines : refines 0 false again_pv0 crash_s0.
Proof.
  split; [done| |reflexivity|reflexivity| |].
  - apply create_inv; intros i t; apply lookup_empty.
  - intros q j. unfold again_pv0. simpl. rewrite lookup_singleton. case_decide as Eq; [|done].
    subst q. intros [= <-]. destruct again_jwf as [Hj Hl]. split; [done|]. intros p. by rewrite Hl, lookup_empty.
  - intros q q' j j' k k' Hne. simpl. rewrite !lookup_singleton. repeat case_decide; congruence.
Qed.

Lemma again_enqueues :
  (Provider.enqueue true "q" 1 0 (Some 1) again_m1 again_pv0).1 = Ret 1 /\
  (Provider.enqueue true "q" 1 0 (Some 1) again_m2 again_pv1).1 = Ret 2.
Proof. split; reflexivity. Qed.

Lemma again_run : prun 0 false ∅ again_pv0 crash_s0 again_pv2 again_s2.
Proof.
  destruct again_enqueues as [E1 E2].
  eapply Pr_step; [eapply Pr_step; [apply Pr_refl|]|].
  - apply (Ps_enqueue_new 0 false ∅ again_pv0 crash_s0 "q" 1 (Some 1) again_m1 1 again_pv1);
      [lia|unfold is_u64; lia|unfold msg_ok; simpl; lia|vm_compute; discriminate|].
    rewrite <- E1. apply surjective_pairing.
  - apply (Ps_enqueue_new 0 false ∅ again_pv1 again_s1 "q" 1 (Some 1) again_m2 2 again_pv2);
      [lia|unfold is_u64; lia|unfold msg_ok; simpl; lia|vm_compute; discriminate|].
    rewrite <- E2. apply surjective_pairing.
Qed.

Lemma again_pending q p v : pending (d_enq again_s2) q p = Some v -> p ∈ [1; 2].
Proof.
  intros Hv. pose proof (pending_key _ _ _ _ Hv) as Hk. apply pending_elem in Hv.
  unfold again_s2, again_s1, do_enqueue in Hv. cbn [d_enq crash_s0] in Hv. rewrite app_nil_l in Hv.
  apply elem_of_app in Hv as [Hv|Hv]; apply list_elem_of_singleton in Hv as [= ->]; injection Hk as _ <-; set_solver.
Qed.

Lemma again_settled : settled 0 again_s2.
Proof.
  split.
  - intros q. exists [1; 2]. split; [simpl; lia|]. intros p v. apply again_pending.
  - intros q p v Hv%again_pending. unfold in_window, is_u64.
    apply elem_of_cons in Hv as [->|Hv]; [lia|]. apply list_elem_of_singleton in Hv as ->. lia.
  - intros q p [x Hx]. by unfold again_s2 in Hx.
Qed.

(** The new provider. *)
Definition again_store : BdbStore :=
  mkBdb (front_pv (logFS (aologger again_pv2)) (world again_pv2)) ({[1 := [x71]]} : gmap Z (list byte)) IdSequence.init dup_created
    db_created IdSequence.init db_created IdSequence.init front_fs [].
Definition again_front : MessageStorePlugin BdbStore :=
  (earlyInitialize true [("BDB", again_store)] (plugin_new "")).2.

Lemma again_rows : recovered_journals (en_name front_env) (db_scan (b_qdb again_store)) = [("q", 1)].
Proof. vm_compute. reflexivity. Qed.

Lemma again_reopened : reopened "/s" 2 again_pv2 front_env again_store.
Proof.
  split; rewrite ?again_rows; try done.
  - simpl. apply NoDup_singleton.
  - intros q. simpl. rewrite list_elem_of_singleton, lookup_singleton. split.
    + intros ->. rewrite decide_True by done. by eexists.
    + intros [j Hj]. case_decide; [done|]. done.
  - intros name q j Hq Hj. apply list_elem_of_singleton in Hq as [= -> ->].
    simpl in Hj. injection Hj as <-. vm_compute. reflexivity.
Qed.

Lemma again_granted : granted front_env again_store.
Proof.
  split.
  - done.
  - done.
  - intros d k. exists ((d : gmap Z (list byte)) !! k). reflexivity.
  - intros d k. simpl. destruct ((d : gmap Z (list byte)) !! k); by eexists.
  - intros es qs. exists []. reflexivity.
Qed.


(** The durable message is owed and put back; the transient one is not. *)
Example again_recovers :
  is_Some (owed ∅ again_s2 1 1) /\ owed ∅ again_s2 1 2 = None /\
  match recover front_env again_front with
  | Some (Ret rc, _) => Some (rc_messages rc !! 1, rc_calls rc)
  | _ => None
  end = Some (Some ([x68], [x61; x62]), [CRecover 1 1]).
Proof. split_and!; [by eexists| |]; vm_compute; reflexivity. Qed.

(** ** A session that leaves nothing pending

    The first message is stored, logged as complete and reported to the tracker. *)

Definition calm_v : PendingAsyncEnqueue :=
  mkPAE 1 1 (msgEncode again_m1).1 (Z.of_nat (length (msgEncode again_m1).1)) false.
Definition calm_s2 : dsys := store_check false 1 1 (mkItem calm_v true SCheck) again_s1.
Definition calm_s3 : dsys := store_data 1 1 true (mkItem calm_v true (SData true)) calm_s2.
Definition calm_s4 : dsys := store_log 1 1 (mkItem calm_v true SLog) calm_s3.
Definition calm_s5 : dsys := store_add 1 1 calm_s4.
Definition calm_pv3 : Provider := (store_data_p io_fine 1 1 (pae_buff calm_v) (pae_size calm_v) true again_pv1).2.
Definition calm_pv4 : Provider := store_log_p 1 1 calm_pv3.
Definition calm_pv5 : Provider := store_add_p 1 1 calm_pv4.

Lemma calm_stores : (store_data_p io_fine 1 1 (pae_buff calm_v) (pae_size calm_v) true again_pv1).1 = Ret tt.
Proof. vm_compute. reflexivity. Qed.

Lemma calm_run : prun 0 false ∅ again_pv0 crash_s0 calm_pv5 calm_s5.
Proof.
  destruct again_enqueues as [E1 _]. pose proof calm_stores as Ed.
  assert (Hu : is_u64 1) by (unfold is_u64; lia).
  eapply (Pr_step _ _ _ _ _ calm_pv4 calm_s4); [eapply (Pr_step _ _ _ _ _ calm_pv3 calm_s3);
    [eapply (Pr_step _ _ _ _ _ again_pv1 calm_s2); [eapply (Pr_step _ _ _ _ _ again_pv1 again_s1);
    [eapply (Pr_step _ _ _ _ _ again_pv0 crash_s0); [apply Pr_refl|]|]|]|]|].
  - apply (Ps_enqueue_new 0 false ∅ again_pv0 crash_s0 "q" 1 (Some 1) again_m1 1 again_pv1);
      [lia|done|unfold msg_ok; simpl; lia|vm_compute; discriminate|]. rewrite <- E1. apply surjective_pairing.
  - apply (Ps_check 0 false ∅ again_pv1 again_s1 1 1 (mkItem calm_v true SCheck) true again_pv1); reflexivity.
  - apply (Ps_data 0 false ∅ again_pv1 calm_s2 1 1 (mkItem calm_v true (SData true)) true io_fine calm_pv3).
    + reflexivity.
    + reflexivity.
    + by eexists.
    + unfold in_window, is_u64. lia.
    + rewrite <- Ed. apply surjective_pairing.
  - by apply (Ps_log 0 false ∅ calm_pv3 calm_s3 1 1 (mkItem calm_v true SLog)).
  - by apply (Ps_add 0 false ∅ calm_pv4 calm_s4 1 1 (mkItem calm_v true SAdd)).
Qed.

Lemma calm_enq q p : pending (d_enq calm_s5) q p = None.
Proof.
  destruct (decide ((q, p) = (1, 1))) as [[= -> ->]|Hne].
  - vm_compute. reflexivity.
  - destruct (pending (d_enq calm_s5) q p) as [v|] eqn:E; [|done]. pose proof (pending_key _ _ _ _ E) as Hk.
    apply pending_elem in E. unfold calm_s5, calm_s4, store_add, store_log in E. cbn [d_enq] in E.
    apply elem_of_app in E as [E|E]; [|by apply list_elem_of_singleton in E].
    assert (Ed : d_enq calm_s3 = [LStart calm_v]) by reflexivity. rewrite Ed in E.
    apply list_elem_of_singleton in E as [= ->]. by destruct Hne.
Qed.

Definition calm_nb : Provider :=
  mkProv true false IdSequence.init PidTracker.init (AsyncOperationLogger.create "async" (logFS (aologger calm_pv5)))
    {[1 := again_new]} (world calm_pv5) [] [].

Definition calm_j : JournalImpl := default again_j (journalList calm_pv5 !! 1).
Lemma calm_journals : journalList calm_pv5 = {[1 := calm_j]}.
Proof. vm_compute. reflexivity. Qed.

Lemma calm_create :
  again_new = JournalImpl.create (journalName calm_j) 1 (journalDirectory calm_j) (bdbDir calm_j) (num_jfiles calm_j) true.
Proof. vm_compute. reflexivity. Qed.

Lemma calm_renewed : renewed false calm_pv5 [("q", 1)] calm_nb.
Proof.
  split; rewrite ?calm_journals; try done.
  - apply NoDup_singleton.
  - intros q. rewrite lookup_singleton. simpl. rewrite list_elem_of_singleton. split.
    + intros ->. rewrite decide_True by done. by eexists.
    + intros [j Hj]. case_decide; [done|]. done.
  - intros q. unfold calm_nb. cbn [journalList]. rewrite !lookup_singleton.
    destruct (decide (1 = q)) as [<-|]; [|done]. cbn [fmap option_fmap option_map]. by rewrite <- calm_create.
Qed.

Lemma quiet_restart_starts_session_witness :
  exists mm mq pv' base' s',
    recoverMessages false [] (fun _ => "") (fun _ => true) (fun n => Some (memset0 n)) io_fine true [("q", 1)] calm_nb =
      Some (Ret (mm, mq, pv')) /\
    0 <= base' < two63 /\ d_init base' (kept calm_pv5 calm_s5) s' /\ refines 0 false pv' s' /\
    forall q p, is_Some (journalList calm_pv5 !! q) -> kept calm_pv5 calm_s5 !! (q, p) = owed ∅ calm_s5 q p.
Proof.
  apply (quiet_restart_starts_session [] (fun _ => "") (fun _ => true) (fun n => Some (memset0 n)) 0 false 0 ∅
           again_pv0 crash_s0 calm_pv5 calm_s5 true [("q", 1)] calm_nb).
  - lia.
  - lia.
  - apply crash_init.
  - apply again_refines.
  - apply calm_run.
  - vm_compute. discriminate.
  - apply calm_enq.
  - intros q p. reflexivity.
  - lia.
  - unfold two63. lia.
  - intros d k. simpl. destruct ((d : gmap Z (list byte)) !! k); by eexists.
  - intros n b [= <-]. apply length_replicate.
  - apply calm_renewed.
Defined.

(** The next session goes on with id 2, over the stored message. *)
Example calm_next :
  match recoverMessages false [] (fun _ => "") (fun _ => true) (fun n => Some (memset0 n)) io_fine true [("q", 1)] calm_nb with
  | Some (Ret (_, _, pv)) => Some (IdSequence.id (messageIdSequence pv), enqueuePool pv, dequeuePool pv)
  | _ => None
  end = Some (2, [], []) /\ kept calm_pv5 calm_s5 !! (1, 1) = Some (msgEncode again_m1).1.
Proof. split; vm_compute; reflexivity. Qed.

(** ** A session that leaves a dequeue pending

    The message is stored as before; its dequeue is logged and the task has not run when the
    provider ends. *)

Definition due_pv6 : Provider := (Provider.dequeue true "q" 1 1 1 calm_pv5).2.
Definition due_s6 : dsys := do_dequeue false 1 1 calm_s5.

Lemma due_dequeues : (Provider.dequeue true "q" 1 1 1 calm_pv5).1 = Ret tt.
Proof. reflexivity. Qed.

Lemma due_run : prun 0 false ∅ again_pv0 crash_s0 due_pv6 due_s6.
Proof.
  eapply Pr_step; [apply calm_run|].
  apply (Ps_dequeue 0 false ∅ calm_pv5 calm_s5 "q" 1 1 1 due_pv6).
  - lia.
  - unfold is_u64. lia.
  - lia.
  - unfold is_u64. lia.
  - left. vm_compute. discriminate.
  - change (d_out calm_s5) with (∅ : gset mkey). set_solver.
  - rewrite <- due_dequeues. apply surjective_pairing.
Qed.

Lemma due_session : in_session 0 false 0 ∅ again_pv0 crash_s0.
Proof.
  split_and!; [lia|lia|simpl; lia| | |apply again_refines].
  - intros v Hv. by apply not_elem_of_nil in Hv.
  - exists crash_s0. split; [apply crash_init|constructor].
Qed.

Lemma due_pending q p : is_Some (pending (d_deq due_s6) q p) -> q = 1 /\ p = 1.
Proof.
  intros [v Hv]. apply pending_elem in Hv as Hin. change (d_deq due_s6) with [LStart (mkPAD 1 1)] in *.
  apply list_elem_of_singleton in Hin as [= ->]. unfold pending in Hv. case_decide as Hc; [done|].
  cbn in Hv. case_decide as E; [|done]. by injection E as <- <-.
Qed.

Definition due_nb : Provider :=
  mkProv true false IdSequence.init PidTracker.init (AsyncOperationLogger.create "async" (logFS (aologger due_pv6)))
    {[1 := again_new]} (world due_pv6) [] [].

(** The restart gives nothing to the broker, deletes the message and goes on with id 2. *)
Example due_next :
  match recoverMessages false [] (fun _ => "") (fun _ => true) (fun n => Some (memset0 n)) io_fine true [("q", 1)] due_nb with
  | Some (Ret (mm, _, pv)) =>
      Some (mm, IdSequence.id (messageIdSequence pv), dequeuePool pv,
            match JournalImpl.is_enqueued 1 (default again_new (journalList pv !! 1)) (world pv) with
            | Ret b => b | Throw _ => true end)
  | _ => None
  end = Some (∅, 2, [], false).
Proof. vm_compute. reflexivity. Qed.

(** ** A crash during the restart

    The first loop of [recoverMessages] logs the pending dequeues of all queues as complete; the
    second one deletes their messages. Between the two the dequeue is no longer pending and
    the message still stored: a crash there brings a dequeued message back. *)

Definition between_loops : option Provider :=
  match restart (aologger due_nb) with
  | Some (ae, ad, l) =>
      match foldl (fun r q => recover_queue false [] (fun _ => "") (fun _ => true) (fun n => Some (memset0 n)) io_fine q r)
              (Ret (mkR (set_log l due_nb) ae ad ∅ ∅ 0 0)) [("q", 1)] with
      | Ret r => Some (r_pv r)
      | Throw _ => None
      end
  | None => None
  end.

Definition after_second_crash (pv : Provider) : Provider :=
  mkProv true false IdSequence.init PidTracker.init (AsyncOperationLogger.create "async" (logFS (aologger pv)))
    {[1 := again_new]} (world pv) [] [].

Theorem restart_crash_revives :
  owed ∅ due_s6 1 1 = None /\
  match between_loops with
  | Some pv =>
      match recoverMessages false [] (fun _ => "") (fun _ => true) (fun n => Some (memset0 n)) io_fine true [("q", 1)]
              (after_second_crash pv) with
      | Some (Ret (mm, mq, _)) => Some (mm !! 1, mq !! 1)
      | _ => None
      end
  | None => None
  end = Some (Some ([x68], [x61; x62]), Some [1]).
Proof. split; vm_compute; reflexivity. Qed.

(** ** A session that leaves a dequeue and an enqueue pending

    After the dequeue of message 1 the broker enqueues message 2; neither task has run. *)

Definition last_pv7 : Provider := (Provider.enqueue true "q" 1 0 (Some 1) again_m1 due_pv6).2.
Definition last_s7 : dsys := do_enqueue false 1 2 true (msgEncode again_m1).1 false due_s6.
Definition last_v : PendingAsyncEnqueue :=
  mkPAE 2 1 (msgEncode again_m1).1 (Z.of_nat (length (msgEncode again_m1).1)) false.

Lemma last_enqueues : (Provider.enqueue true "q" 1 0 (Some 1) again_m1 due_pv6).1 = Ret 2.
Proof. reflexivity. Qed.

Lemma last_run : prun 0 false ∅ again_pv0 crash_s0 last_pv7 last_s7.
Proof.
  eapply Pr_step; [apply due_run|].
  apply (Ps_enqueue_new 0 false ∅ due_pv6 due_s6 "q" 1 (Some 1) again_m1 2 last_pv7);
    [lia|unfold is_u64; lia|unfold msg_ok; simpl; lia|vm_compute; discriminate|].
  rewrite <- last_enqueues. apply surjective_pairing.
Qed.

Lemma last_pending q p v : pending (d_enq last_s7) q p = Some v <-> q = 1 /\ p = 2 /\ v = last_v.
Proof.
  split; [|intros (-> & -> & ->); vm_compute; reflexivity]. intros Hv. pose proof (pending_key _ _ _ _ Hv) as Hk.
  pose proof Hv as Hin. apply pending_elem in Hin. change (d_enq last_s7) with (d_enq calm_s5 ++ [LStart last_v]) in Hin, Hv.
  apply elem_of_app in Hin as [Hin|Hin].
  - exfalso. change (d_enq calm_s5) with [LStart calm_v; LComplete 1 1] in Hin, Hv.
    apply elem_of_cons in Hin as [[= ->]|Hin]; [|by apply list_elem_of_singleton in Hin].
    injection Hk as <- <-. vm_compute in Hv. discriminate Hv.
  - apply list_elem_of_singleton in Hin as [= ->]. by injection Hk as <- <-.
Qed.

Lemma last_journals : journalList last_pv7 = {[1 := calm_j]}.
Proof. vm_compute. reflexivity. Qed.

Lemma last_store : d_store last_s7 = {[(1, 1) := (msgEncode again_m1).1]}.
Proof. vm_compute. reflexivity. Qed.

Lemma last_kept q p : is_Some (kept last_pv7 last_s7 !! (q, p)) <-> q = 1 /\ p = 1.
Proof.
  unfold kept. rewrite last_store, last_journals. split.
  - intros [raw Hr]. apply map_lookup_filter_Some in Hr as [Hr _]. apply lookup_singleton_Some in Hr as [Hr _].
    by injection Hr as <- <-.
  - intros [-> ->]. exists (msgEncode again_m1).1. apply map_lookup_filter_Some. split; [apply lookup_singleton_eq|].
    split; [cbn; by eexists|vm_compute; reflexivity].
Qed.

Lemma last_resumable : resumable 0 last_pv7 last_s7 1 1.
Proof.
  split.
  - intros q p v (-> & -> & ->)%last_pending. split; [by eexists|]. split; [by rewrite last_store|].
    split; [vm_compute; reflexivity|]. split; [vm_compute; reflexivity|]. unfold in_window, is_u64. lia.
  - split.
    + intros q p Hs. change (d_deq last_s7) with (d_deq due_s6) in Hs. destruct (due_pending q p Hs) as [-> ->].
      split; [by eexists|]. exists (msgEncode again_m1).1. split; vm_compute; reflexivity.
    + exists {[(1, 1)]}. split; [|rewrite size_singleton; lia]. intros q p Hs.
      destruct (due_pending q p Hs) as [-> ->]. by apply elem_of_singleton.
  - split_and!; [lia|unfold two63; lia| |right; exists 1; by apply last_kept]. intros q p [_ ->]%last_kept. lia.
  - split.
    + intros p. split.
      * intros (q & v & (_ & -> & _)%last_pending). lia.
      * intros Hp. assert (p = 2) as -> by lia. exists 1, last_v. by apply last_pending.
    + by intros q q' p (v & (-> & _ & _)%last_pending) (v' & (-> & _ & _)%last_pending).
  - lia.
Qed.

Definition last_nb : Provider :=
  mkProv true false IdSequence.init PidTracker.init (AsyncOperationLogger.create "async" (logFS (aologger last_pv7)))
    {[1 := again_new]} (world last_pv7) [] [].

Lemma last_renewed : renewed false last_pv7 [("q", 1)] last_nb.
Proof.
  split; rewrite ?last_journals; [vm_compute; reflexivity..| | |].
  - apply NoDup_singleton.
  - intros q. rewrite lookup_singleton. simpl. rewrite list_elem_of_singleton. split.
    + intros ->. rewrite decide_True by done. by eexists.
    + intros [j Hj]. case_decide; [done|]. done.
  - intros q. unfold last_nb. cbn [journalList]. rewrite !lookup_singleton.
    destruct (decide (1 = q)) as [<-|]; [|done]. cbn [fmap option_fmap option_map]. by rewrite <- calm_create.
Qed.


(** The broker gets message 2, its store is in the pool, and the next id is 3. *)
Example last_next :
  match recoverMessages false [] (fun _ => "") (fun _ => true) (fun n => Some (memset0 n)) io_fine true [("q", 1)] last_nb with
  | Some (Ret (mm, mq, pv)) =>
      Some (map_to_list mm, mq !! 2, IdSequence.id (messageIdSequence pv), enqueuePool pv,
            PidTracker.lastPid (PidTracker.mainRecord (tracker pv)))
  | _ => None
  end = Some ([(2, ([x68], [x61; x62]))], Some [1], 3, [store_of last_v], 1).
Proof. vm_compute. reflexivity. Qed.

(** ** Ids with a gap

    As before, but the dequeue of message 1 was carried out before the crash. No stored message
    has an id, so the tracker starts at 0 and waits for id 1, which nobody reports: message 2
    is given back to the pool and stored, and its dequeue comes back to the pool each time it
    is tried. *)

Definition gap_pv7 : Provider :=
  (Provider.enqueue true "q" 1 0 (Some 1) again_m1 (deq_log_p 1 1 (deq_data_p io_fine 1 1 due_pv6).2)).2.
Definition gap_nb : Provider :=
  mkProv true false IdSequence.init PidTracker.init (AsyncOperationLogger.create "async" (logFS (aologger gap_pv7)))
    {[1 := again_new]} (world gap_pv7) [] [].
Definition gap_stored : option Provider :=
  match recoverMessages false [] (fun _ => "") (fun _ => true) (fun n => Some (memset0 n)) io_fine true [("q", 1)] gap_nb with
  | Some (Ret (_, _, pv)) => Some (store io_fine (store_of last_v) pv).2
  | _ => None
  end.

(** After the restart message 2 is stored, and its dequeue waits in vain. *)
Theorem restart_gap_blocks_dequeue :
  match gap_stored with
  | Some pv =>
      match JournalImpl.is_enqueued 2 (default again_new (journalList pv !! 1)) (world pv) with
      | Ret b => b | Throw _ => false
      end = true /\
      PidTracker.lastPid (PidTracker.mainRecord (tracker pv)) = 0 /\
      match async_dequeue io_fine (replicate 103 (tracker pv)) true (mkDeq 2 1) pv with
      | Some (Ret _, pv') => dequeuePool pv' = [mkDeq 2 1]
      | _ => False
      end
  | None => False
  end.
Proof. vm_compute. split_and!; reflexivity. Qed.
