(* ===== verification/Locks.v ===== *)
(** The scoped locks of the journal library: lib/jrnl/smutex.hpp and slock.hpp, with the
    check macro of lib/jrnl/jexception.hpp.

    The POSIX mutex is not part of the repository: its state is whether some thread owns
    it, and its calls answer as documented for a default mutex ([EBUSY] when a [trylock]
    finds it taken, 0 otherwise; a [lock] of a taken mutex waits). [PTHREAD_CHK] ends the
    process on any other answer, so the answer of a call is an argument wherever it
    matters. *)
From S2P Require Import Prelude.
From Stdlib Require Import ZArith Lia.

Definition EBUSY : Z := 16.

(** What a checked call leads to: the process goes on or [abort()]. *)
Inductive checked : Type := Goes | Aborts.

Definition PTHREAD_CHK (err : Z) : checked := if err =? 0 then Goes else Aborts.

(** [stlock::stlock]: [_locked], and whether the process goes on. *)
Definition stlock (ret : Z) : checked * bool :=
  let locked := ret =? 0 in
  (if negb locked && negb (ret =? EBUSY) then PTHREAD_CHK ret else Goes, locked).
(** [~stlock]: whether [pthread_mutex_unlock] is called. *)
Definition stlock_unlocks (locked : bool) : bool := locked.

(** ** Threads that use the locks *)

(** A thread outside, in the scope of an [slock], in that of an [stlock] with its [_locked], or
    waiting in the constructor of an [slock]. *)
Inductive scope : Type := SOut | SWait | SIn | STry (locked : bool).

(** The owner of the mutex and the threads. *)
Record lsys := mkL { l_owner : option nat; l_threads : nat -> scope }.
Implicit Types (s : lsys) (i : nat).

Definition set_thread i (c : scope) (f : nat -> scope) : nat -> scope :=
  fun j => if decide (j = i) then c else f j.

(** What [pthread_mutex_trylock] answers. *)
Definition try_answer (owner : option nat) : Z := match owner with Some _ => EBUSY | None => 0 end.

Inductive lstep s : lsys -> Prop :=
| L_slock i : l_threads s i = SOut -> lstep s (mkL (l_owner s) (set_thread i SWait (l_threads s)))
| L_acquire i : l_threads s i = SWait -> l_owner s = None ->
    lstep s (mkL (Some i) (set_thread i SIn (l_threads s)))
| L_leave i : l_threads s i = SIn -> lstep s (mkL None (set_thread i SOut (l_threads s)))
| L_try i ret : l_threads s i = SOut -> ret = try_answer (l_owner s) -> (stlock ret).1 = Goes ->
    lstep s (mkL (if (stlock ret).2 then Some i else l_owner s) (set_thread i (STry (stlock ret).2) (l_threads s)))
| L_try_leave i b : l_threads s i = STry b ->
    lstep s (mkL (if stlock_unlocks b then None else l_owner s) (set_thread i SOut (l_threads s))).

Inductive lreach : lsys -> Prop :=
| Lr_start : lreach (mkL None (fun _ => SOut))
| Lr_step s s' : lreach s -> lstep s s' -> lreach s'.

(** A thread holds the lock in the scope of an [slock], or of an [stlock] that got it. *)
Definition holds (c : scope) : bool := match c with SIn | STry true => true | _ => false end.

Lemma lock_owner s : lreach s -> forall i, holds (l_threads s i) = true <-> l_owner s = Some i.
Proof.
  induction 1 as [|s s' _ IH Hs]; intros j; [done|]. pose proof (IH j) as Hj.
  destruct Hs as [i Hi|i Hi Ho|i Hi|i ret Hi -> _|i b Hi]; pose proof (IH i) as Hi'; simpl; unfold set_thread.
  - case_decide; subst; [|done]. rewrite Hi in Hi'. done.
  - case_decide; subst; [done|]. rewrite Hj, Ho. naive_solver.
  - rewrite Hi in Hi'. case_decide; subst; [done|]. rewrite Hj. destruct Hi' as [Hi' _]. rewrite Hi' by done. naive_solver.
  - rewrite Hi in Hi'. destruct (l_owner s) as [k|] eqn:Ho; simpl.
    + case_decide; subst; [|by rewrite Hj]. naive_solver.
    + case_decide; subst; [done|]. rewrite Hj. naive_solver.
  - rewrite Hi in Hi'. unfold stlock_unlocks. destruct b; simpl in Hi'.
    + case_decide; subst; [done|]. rewrite Hj. destruct Hi' as [Hi' _]. rewrite Hi' by done. naive_solver.
    + case_decide; subst; [|done]. done.
Qed.

(** Scoped locks exclude each other, whether a thread locks or tries; the mutex is free when
    nobody holds a lock; and a lock that is tried never ends the process. *)
Theorem locks_exclude s i j :
  lreach s ->
  (holds (l_threads s i) = true -> holds (l_threads s j) = true -> i = j) /\
  ((forall k, holds (l_threads s k) = false) -> l_owner s = None) /\
  (stlock (try_answer (l_owner s))).1 = Goes.
Proof.
  intros Hr. pose proof (lock_owner s Hr) as Ho. split_and!.
  - rewrite !Ho. congruence.
  - intros Hn. destruct (l_owner s) as [k|] eqn:E; [|done]. specialize (Hn k). by rewrite (proj2 (Ho k) eq_refl) in Hn.
  - by destruct (l_owner s).
Qed.

(** [~smutex]: [pthread_mutex_destroy] refuses a mutex that is locked. *)
Definition destroy_answer (owner : option nat) : Z := match owner with Some _ => EBUSY | None => 0 end.
Definition smutex_destroy (owner : option nat) : checked := PTHREAD_CHK (destroy_answer owner).

(** The mutex can be destroyed exactly when nobody is in the scope of a lock; else the process
    ends. *)
Theorem destroy_when_released s :
  lreach s -> smutex_destroy (l_owner s) = Goes <-> forall i, holds (l_threads s i) = false.
Proof.
  intros Hr. pose proof (lock_owner s Hr) as Ho. destruct (l_owner s) as [k|]; cbn; split; intros Hd; try done.
  - specialize (Hd k). by rewrite (proj2 (Ho k) eq_refl) in Hd.
  - intros i. destruct (holds (l_threads s i)) eqn:E; [|done]. by apply Ho in E.
Qed.

(** Any other answer of the library ends the process: the exception that the commented-out
    version of the macro throws is never seen. *)
Theorem pthread_errors_abort err :
  err <> 0 -> PTHREAD_CHK err = Aborts /\ (err <> EBUSY -> (stlock err).1 = Aborts).
Proof.
  intros He. unfold stlock, PTHREAD_CHK.
  destruct (Z.eqb_spec err 0), (Z.eqb_spec err EBUSY); simpl; split; congruence.
Qed.
