(* ===== verification/CursorSync.v ===== *)
(** Small wrappers: the cursor of lib/Cursor.h, the key of lib/IdDbt.cpp, and the
    synchronisation of logged transactions, [sync] of lib/TxnCtxt.cpp.

    A Berkeley DB cursor is its rows and its position; what [Dbc::get] answers is an
    argument. *)
From S2P Require Import Prelude IdSequence Jerrno Bdb TxnCtxt.
From Stdlib Require Import ZArith Lia.

(** ** Keys *)

(** [IdDbt]: the data is the 8 bytes of [id] in memory. *)
Record IdDbt := mkIdDbt { id : Z; dbt_data : list byte; dbt_size : Z; dbt_ulen : Z }.
Definition IdDbt_new `{HostEndian} (i : Z) : IdDbt := mkIdDbt i (enc64 i) 8 8.

(** ** Cursors *)

Definition DB_NOTFOUND_code : Z := -30988.

(** The rows that are ahead and the one the cursor stands on. *)
Record Cursor := mkCursor { cur_open : bool; cur_at : option (Z * list byte); cur_rows : list (Z * list byte) }.
Implicit Types (c : Cursor).

Definition cursor_new : Cursor := mkCursor false None [].
Definition open (rows : list (Z * list byte)) c : Cursor := mkCursor true None rows.
(** [close()] and the destructor: whether [Dbc::close] is called. *)
Definition close c : bool * Cursor := (cur_open c, mkCursor false None []).
Definition cursor_destroy c : bool := cur_open c.

(** [next(key,value)] when [Dbc::get] answers [res]: an answer that is neither 0 nor [DB_NOTFOUND]
    is logged and counts as the end. *)
Definition next (res : Z) c : option (Z * list byte) * bool * Cursor :=
  let logged := negb (res =? 0) && negb (res =? DB_NOTFOUND_code) in
  if res =? 0 then
    match cur_rows c with
    | [] => (None, logged, c)
    | r :: rows => (Some r, logged, mkCursor (cur_open c) (Some r) rows)
    end
  else (None, logged, c).

(** [current(key,value)] when [Dbc::get] answers [res]: the row it stands on, without a move. *)
Definition current (res : Z) c : option (Z * list byte) := if res =? 0 then cur_at c else None.

(** [while(cursor.next(key,value)) { ... }]; [answers] gives the answer of every call. *)
Fixpoint cursor_loop (answers : list Z) c : list (Z * list byte) :=
  match answers with
  | [] => []
  | res :: answers => match next res c with
                      | (Some r, _, c) => r :: cursor_loop answers c
                      | (None, _, _) => []
                      end
  end.

(** [current] gives the row that the last [next] gave, as long as that one succeeded. *)
Theorem current_is_last res c r logged c' :
  next res c = (Some r, logged, c') -> current 0 c' = Some r /\ logged = false.
Proof.
  unfold next, current. destruct (Z.eqb_spec res 0) as [->|]; [|done]. destruct (cur_rows c); [done|].
  by intros [= -> <- <-].
Qed.

(** With the answers of a healthy database the loop sees every row, and each cursor is closed
    once; with any other answer it stops early without telling its caller. *)
Theorem cursor_sees_all rows c :
  cursor_loop (replicate (length rows) 0 ++ [DB_NOTFOUND_code]) (open rows c) = rows /\
  (let '(b, c') := close (open rows c) in b = true /\ cursor_destroy c' = false).
Proof.
  split; [|done]. unfold open. generalize true, (@None (Z * list byte)). induction rows as [|r rows IH]; intros b at'; [done|].
  cbn [length replicate app cursor_loop next]. simpl. by rewrite IH.
Qed.

Theorem cursor_error_is_end k rows err c :
  err <> 0 -> (k <= length rows)%nat ->
  cursor_loop (replicate k 0 ++ [err]) (open rows c) = take k rows.
Proof.
  intros He. unfold open. generalize true, (@None (Z * list byte)). revert rows. induction k as [|k IH]; intros rows b at' Hk.
  - cbn. unfold next. destruct (Z.eqb_spec err 0); [done|]. done.
  - destruct rows as [|r rows]; simpl in Hk; [lia|]. cbn [replicate app cursor_loop next take]. simpl.
    by rewrite IH by lia.
Qed.

(** ** Logged transactions *)

(** The members of a logged transaction: [impactedQueues] in the order of the set, and
    [preparedXidStorePtr]. *)
Record LoggedTxn := mkLogged {
  lt_txn : TxnCtxt; impactedQueues : gset Z; preparedXidStorePtr : option Z
}.
Implicit Types (t : LoggedTxn).

Definition getXid t : list byte := tid (lt_txn t).
Definition addXidRecord (queue : Z) t : LoggedTxn :=
  mkLogged (lt_txn t) ({[queue]} ∪ impactedQueues t) (preparedXidStorePtr t).
Definition impactedQueuesEmpty t : bool := bool_decide (impactedQueues t = ∅).

(** [JournalImpl::is_txn_synced], which is not implemented. *)
Definition is_txn_synced (jc : Z) (xid : list byte) : bool := true.

(** [jrnl_flush], the journals it flushes, and [jrnl_sync], which does nothing either way. *)
Definition jrnl_flush (jc : option Z) t : list Z :=
  match jc with
  | None => []
  | Some j => if negb (is_txn_synced j (getXid t)) then [j] else []
  end.
Definition jrnl_sync (jc : option Z) t : unit :=
  match jc with
  | None => tt
  | Some j => if is_txn_synced j (getXid t) then tt else tt
  end.

(** [sync()]: the journals that are flushed. *)
Definition sync t : list Z :=
  if loggedtx (lt_txn t) then
    concat (map (fun q => jrnl_flush (Some q) t) (sorted_set (impactedQueues t))) ++
    match preparedXidStorePtr t with None => [] | Some p => jrnl_flush (Some p) t end
  else [].

(** [sync] flushes no journal, whatever queues the transaction has touched. *)
Theorem sync_flushes_nothing t : sync t = [].
Proof.
  unfold sync. destruct (loggedtx (lt_txn t)); [|done]. generalize (sorted_set (impactedQueues t)).
  intros l. replace (concat (map (fun q => jrnl_flush (Some q) t) l)) with (@nil Z) by (by induction l).
  by destruct (preparedXidStorePtr t).
Qed.

(** [prepare(store)] and [complete(commit)], which is [completeTxn]: the answer, the journals that
    were flushed and the context after it; when a [commitTxn] throws, the queues are kept. A queue of
    the set is a journal, so the pointer handed to [commitTxn] is set. *)
Definition prepare (_preparedXidStorePtr : option Z) t : LoggedTxn :=
  mkLogged (lt_txn t) (impactedQueues t) _preparedXidStorePtr.
Definition complete (commit : bool) t : result unit * list Z * LoggedTxn :=
  let flushed := sync t in
  match foldl (fun r q => let! _ := r in TxnCtxt.commitTxn (lt_txn t) true commit) (Ret tt)
          (sorted_set (impactedQueues t)) with
  | Throw x => (Throw x, flushed, t)
  | Ret _ =>
      let t' := mkLogged (lt_txn t) ∅ (preparedXidStorePtr t) in
      match preparedXidStorePtr t with
      | None => (Ret tt, flushed, t')
      | Some _ => (TxnCtxt.commitTxn (lt_txn t) true commit, flushed, t')
      end
  end.

Definition commit_error (commit : bool) : exn :=
  StoreException ("Error commit" +:+
    jexception.what (jexception.thrown jerrno.JERR__NOTIMPL "BdbMessageStoreImpl"
                       (if commit then "txn_commit" else "txn_abort"))).

Lemma commitTxn_logged x commit :
  TxnCtxt.commitTxn x true commit = if loggedtx x then Throw (commit_error commit) else Ret tt.
Proof. unfold TxnCtxt.commitTxn. simpl. by destruct (loggedtx x), commit. Qed.

Lemma commit_all x commit (l : list Z) :
  foldl (fun r q => let! _ := r in TxnCtxt.commitTxn x true commit) (Ret tt) l =
  if loggedtx x && negb (bool_decide (l = [])) then Throw (commit_error commit) else Ret tt.
Proof.
  destruct (loggedtx x) eqn:E.
  - destruct l as [|q l]; [done|]. cbn [foldl].
    replace (let! _ := Ret tt in TxnCtxt.commitTxn x true commit) with (Throw (A := unit) (commit_error commit))
      by (by simpl; rewrite commitTxn_logged, E).
    clear. by induction l.
  - simpl. induction l as [|q l IH]; [done|]. cbn [foldl].
    replace (let! _ := Ret tt in TxnCtxt.commitTxn x true commit) with (Ret tt : result unit)
      by (by simpl; rewrite commitTxn_logged, E).
    apply IH.
Qed.

(** Finishing a transaction, on every branch: one that is not logged gives up its queues and returns;
    a logged one with a queue throws what [txn_commit] or [txn_abort] of a journal, neither of which is
    implemented, becomes, and keeps its queues; a logged one without a queue throws the same when it
    was prepared and returns when it was not. Nothing is flushed in any case. *)
Theorem complete_exact commit t :
  complete commit t =
  let t' := mkLogged (lt_txn t) ∅ (preparedXidStorePtr t) in
  if loggedtx (lt_txn t) then
    if impactedQueuesEmpty t then
      match preparedXidStorePtr t with
      | None => (Ret tt, [], t')
      | Some _ => (Throw (commit_error commit), [], t')
      end
    else (Throw (commit_error commit), [], t)
  else (Ret tt, [], t').
Proof.
  unfold complete, impactedQueuesEmpty. rewrite sync_flushes_nothing, commit_all.
  assert (bool_decide (sorted_set (impactedQueues t) = []) = bool_decide (impactedQueues t = ∅)) as ->.
  { apply bool_decide_ext. split; [|by intros ->]. intros E. apply set_eq. intros z.
    rewrite <- elem_of_sorted_set, E. set_solver. }
  destruct (loggedtx (lt_txn t)) eqn:El; simpl.
  - case_bool_decide; simpl; [|done]. destruct (preparedXidStorePtr t); [|done].
    by rewrite commitTxn_logged, El.
  - destruct (preparedXidStorePtr t); [|done]. by rewrite commitTxn_logged, El.
Qed.
