(* ===== verification/Qmf.v ===== *)
(** What the management classes of lib/gen/qmf stand on.

    [qpid::management] and [qpid::types] are not part of the repository: object ids,
    variants, the base class [ManagementObject] and the rest of the buffer methods are
    the class [Qmf] with the documented behaviour. The writer and the reader of a buffer
    are defined here: a [Buffer] of a given size takes the puts one after the other, and
    a get past the end fails (what [getShortString] makes of a string that is cut off is left
    to [Framing]). The instance [wire_qmf] shows that the laws can hold. *)
From S2P Require Import Prelude Bdb Framing.
From Stdlib Require Import ZArith Lia.

(** The type codes of schema elements that the generated classes use. *)
Inductive qmf_type : Type :=
| TYPE_REF | TYPE_SSTR | TYPE_U32 | TYPE_U64 | TYPE_BOOL | TYPE_DELTATIME.
#[export] Instance qmf_type_eq_dec : EqDecision qmf_type.
Proof. solve_decision. Defined.

(** The kinds of variants ([qpid::types::VariantType]) that the classes put in maps. *)
Inductive var_kind : Type :=
| VAR_BOOL | VAR_UINT8 | VAR_UINT32 | VAR_UINT64 | VAR_INT32 | VAR_STRING | VAR_MAP.
#[export] Instance var_kind_eq_dec : EqDecision var_kind.
Proof. solve_decision. Defined.

Definition is_u32 (z : Z) : Prop := 0 <= z < 2 ^ 32.

(** [Base] is the state of [ManagementObject] without its two change flags, whose first
    values are [configChanged_new] and [instChanged_new].
    [writeTimestamps] writes the names and the hash of the class and three times; an
    object that reads them writes the same again. An object id has a form of 16 bytes
    for the ids of [oid_wire]. *)
Class Qmf := {
  ObjectId : Type;
  oid_none : ObjectId;
  oid_encode : ObjectId -> list byte;
  oid_decode : list byte -> ObjectId -> ObjectId;
  getV2Key : ObjectId -> string;
  oid_wire : ObjectId -> Prop;
  Variant : Type;
  var_bool : bool -> Variant;
  var_u8 : Z -> Variant;
  var_u32 : Z -> Variant;
  var_u64 : Z -> Variant;
  var_int : Z -> Variant;
  var_str : string -> Variant;
  var_oid : ObjectId -> Variant;
  kind_of : Variant -> var_kind;
  as_bool : Variant -> option bool;
  as_u32 : Variant -> option Z;
  getString : Variant -> option string;
  as_oid : Variant -> option ObjectId;
  Base : Type;
  base_new : Base;
  configChanged_new : bool;
  instChanged_new : bool;
  writeTimestamps : string -> string -> list Z -> Base -> list byte;
  readTimestamps : list byte -> Base -> Base;
  writeTimestampsSize : string -> string -> Z;
  put_short : Z -> list byte;
  put_bin128 : list Z -> list byte;
  put_map : gmap string Variant -> list byte;
  CLASS_KIND_TABLE : byte;
  CLASS_KIND_EVENT : byte;
  ACCESS_RO : Z;
  type_code : qmf_type -> Z;
  STATUS_UNKNOWN_METHOD : Z;
  StatusText : Z -> string;
  oid_encode_length : forall i, length (oid_encode i) = 16%nat;
  oid_decode_encode : forall i j, oid_wire i -> oid_decode (oid_encode i) j = i;
  kind_bool : forall b, kind_of (var_bool b) = VAR_BOOL;
  kind_u32 : forall z, kind_of (var_u32 z) = VAR_UINT32;
  kind_u64 : forall z, kind_of (var_u64 z) = VAR_UINT64;
  kind_int : forall z, kind_of (var_int z) = VAR_INT32;
  kind_str : forall s, kind_of (var_str s) = VAR_STRING;
  kind_oid : forall i, kind_of (var_oid i) = VAR_MAP;
  as_var_bool : forall b, as_bool (var_bool b) = Some b;
  as_var_u32 : forall z, is_u32 z -> as_u32 (var_u32 z) = Some z;
  as_var_str : forall s, getString (var_str s) = Some s;
  as_var_oid : forall i, as_oid (var_oid i) = Some i;
  writeTimestamps_length : forall p c m b, (String.length p < 256)%nat -> (String.length c < 256)%nat ->
    length (writeTimestamps p c m b) = Z.to_nat (writeTimestampsSize p c);
  writeTimestampsSize_eq : forall p c,
    writeTimestampsSize p c = Z.of_nat (42 + String.length p + String.length c);
  readTimestamps_write : forall p c m b b',
    writeTimestamps p c m (readTimestamps (writeTimestamps p c m b) b') = writeTimestamps p c m b
}.

(** ** Buffers *)

(** The bytes in a buffer of size [cap] after the puts, read back with [getRawData] after
    [reset]; a put past the end throws. *)
Definition buf_put (cap : nat) (d : list byte) (bs : list byte) : option (list byte) :=
  if decide (length d + length bs <= cap)%nat then Some (d ++ bs) else None.
Definition buf_puts (cap : nat) (l : list (list byte)) : option (list byte) :=
  foldl (fun acc bs => acc ≫= fun d => buf_put cap d bs) (Some []) l.

Definition bufSize : nat := Z.to_nat 65536.

Lemma buf_puts_from cap l d :
  (length d + length (concat l) <= cap)%nat ->
  foldl (fun acc bs => acc ≫= fun d => buf_put cap d bs) (Some d) l = Some (d ++ concat l).
Proof.
  revert d. induction l as [|bs l IH]; intros d Hl; simpl in *; [by rewrite app_nil_r|].
  rewrite length_app in Hl. unfold buf_put at 2. rewrite decide_True by lia.
  rewrite IH by (rewrite length_app; lia). by rewrite app_assoc.
Qed.

Lemma buf_puts_fits cap l : (length (concat l) <= cap)%nat -> buf_puts cap l = Some (concat l).
Proof. intros Hl. by apply (buf_puts_from cap l []). Qed.

(** Readers of an object of type [O]: what a get makes of the object, and what is left
    of the buffer. [run_readers] runs them in order and stops at the first that fails,
    leaving the members assigned so far. *)
Section readers.
Context {O : Type}.
Definition reader : Type := list byte -> option ((O -> O) * list byte).
Implicit Types (r : reader) (o : O) (bs rest : list byte).

Fixpoint run_readers (l : list reader) bs o : bool * O :=
  match l with
  | [] => (true, o)
  | r :: l => match r bs with
              | None => (false, o)
              | Some (f, rest) => run_readers l rest (f o)
              end
  end.

Definition rd_raw (n : nat) (set : list byte -> O -> O) : reader := fun bs =>
  if decide (n <= length bs)%nat then Some (set (take n bs), drop n bs) else None.
Definition rd_octet (set : Z -> O -> O) : reader := fun bs =>
  match bs with [] => None | b :: bs => Some (set (Z_of_byte b), bs) end.

Context `{Framing}.
Definition rd_long (set : Z -> O -> O) : reader := fun bs =>
  if decide (4 <= length bs)%nat then Some (set (get_long bs), drop 4 bs) else None.
Definition rd_sstr (set : string -> O -> O) : reader := fun bs =>
  match bs with
  | [] => None
  | _ => let '(s, rest) := get_shortstr bs in Some (set s, rest)
  end.

Lemma rd_raw_app n set bs rest :
  length bs = n -> rd_raw n set (bs ++ rest) = Some (set bs, rest).
Proof.
  intros <-. unfold rd_raw. rewrite length_app, decide_True by lia.
  by rewrite take_app_length, drop_app_length.
Qed.

Lemma rd_long_app z set rest :
  is_u32 z -> rd_long set (put_long z ++ rest) = Some (set z, rest).
Proof.
  intros Hz. unfold rd_long. rewrite length_app, put_long_length, decide_True by lia.
  rewrite get_put_long by done. rewrite <- (put_long_length z). by rewrite drop_app_length.
Qed.

Lemma rd_sstr_app s set rest :
  (String.length s < 256)%nat -> rd_sstr set (put_shortstr s ++ rest) = Some (set s, rest).
Proof.
  intros Hs. unfold rd_sstr. pose proof (put_shortstr_length s Hs) as L.
  destruct (put_shortstr s ++ rest) as [|b l] eqn:E.
  { apply (f_equal length) in E. rewrite length_app in E. simpl in E. lia. }
  by rewrite <- E, get_put_shortstr.
Qed.

(** A reader that takes what a put wrote. *)
Lemma run_readers_next r l w rest f o :
  r (w ++ rest) = Some (f, rest) -> run_readers (r :: l) (w ++ rest) o = run_readers l rest (f o).
Proof. intros E. cbn [run_readers]. by rewrite E. Qed.

End readers.
Arguments reader : clear implicits.

(** ** Maps of variants *)

(** [if ((i = map.find(key)) != map.end()) member = i->second]: an entry of the wrong kind
    throws, and the members assigned before keep their values. *)
Section map_readers.
Context {O V A : Type}.
Definition decode_entry (key : string) (conv : V -> option A) (set : A -> O -> O)
    (m : gmap string V) (o : O) : bool * O :=
  match m !! key with
  | None => (true, o)
  | Some v => match conv v with Some a => (true, set a o) | None => (false, o) end
  end.
End map_readers.

Fixpoint decode_entries {O V} (l : list (gmap string V -> O -> bool * O)) (m : gmap string V) (o : O) : bool * O :=
  match l with
  | [] => (true, o)
  | e :: l => let '(ok, o) := e m o in if ok then decode_entries l m o else (false, o)
  end.

Lemma decode_entries_next {O V A} key (conv : V -> option A) (set : A -> O -> O) l (m : gmap string V) o v a :
  m !! key = Some v -> conv v = Some a ->
  decode_entries (decode_entry key conv set :: l) m o = decode_entries l m (set a o).
Proof. intros E C. cbn [decode_entries]. unfold decode_entry. by rewrite E, C. Qed.

(** ** Schemas *)

(** An element of a schema: its name, type, and for a property whether it is an index;
    [se_extra] are the unit and description texts. *)
Record schema_elt := mkElt {
  se_name : string; se_type : qmf_type; se_index : option bool; se_extra : list (string * string)
}.

(** A schema as the class of the object announces it. *)
Record schema := mkSchema {
  sc_package : string; sc_class : string; sc_md5 : list Z;
  sc_properties : list schema_elt; sc_statistics : list schema_elt
}.

Section schemas.
Context `{Framing, Qmf}.

(** The map [ft] of an element. A property has an access code and the index and
    optional flags, which are integers. *)
Definition elt_map (e : schema_elt) : gmap string Variant :=
  let m := <["type" := var_u8 (type_code (se_type e))]> (<["name" := var_str (se_name e)]> ∅) in
  let m := match se_index e with
           | None => m
           | Some b => <["optional" := var_int 0]> (<["index" := var_int (if b then 1 else 0)]>
                         (<["access" := var_u8 ACCESS_RO]> m))
           end in
  foldl (fun m kv => <[kv.1 := var_str kv.2]> m) m (se_extra e).

(** Assignments [map[key] = value], in order. *)
Definition put_entries (l : list (string * Variant)) (m : gmap string Variant) : gmap string Variant :=
  foldl (fun m kv => <[kv.1 := kv.2]> m) m l.

(** The kind of variant that a map of values holds for an element of a type. *)
Definition kind_of_type (t : qmf_type) : var_kind :=
  match t with
  | TYPE_REF => VAR_MAP
  | TYPE_SSTR => VAR_STRING
  | TYPE_U32 => VAR_UINT32
  | TYPE_U64 | TYPE_DELTATIME => VAR_UINT64
  | TYPE_BOOL => VAR_BOOL
  end.
Definition entry_typed (m : gmap string Variant) (e : schema_elt) : Prop :=
  kind_of <$> m !! se_name e = Some (kind_of_type (se_type e)).

Lemma put_entries_other l m k : k ∉ l.*1 -> put_entries l m !! k = m !! k.
Proof.
  unfold put_entries. revert m. induction l as [|[k' v] l IH]; intros m Hk; [done|].
  apply not_elem_of_cons in Hk as [Hk Hl]. simpl. rewrite IH by done. by apply lookup_insert_ne.
Qed.

(** The value of a key that is assigned once. *)
Lemma put_entries_lookup l m k v : NoDup l.*1 -> (k, v) ∈ l -> put_entries l m !! k = Some v.
Proof.
  revert m. induction l as [|[k' v'] l IH]; intros m Hn Hi; [by apply elem_of_nil in Hi|].
  apply NoDup_cons in Hn as [Hk Hn]. change (put_entries l (<[k' := v']> m) !! k = Some v). apply elem_of_cons in Hi as [E|Hi]; [|by apply IH].
  injection E as -> ->. rewrite put_entries_other by done. by rewrite lookup_insert_eq.
Qed.

(** Entries that follow a schema are typed. *)
Definition follows (l : list (string * Variant)) (es : list schema_elt) : Prop :=
  Forall2 (fun kv e => kv.1 = se_name e /\ kind_of kv.2 = kind_of_type (se_type e)) l es.

Lemma follows_keys l es : follows l es -> l.*1 = map se_name es.
Proof. induction 1 as [|kv e l es [E _] _ IH]; csimpl; [done|]. by rewrite E, IH. Qed.

Lemma follows_typed l es m e :
  follows l es -> NoDup l.*1 -> e ∈ es -> entry_typed (put_entries l m) e.
Proof.
  intros F Hn [i Hi]%list_elem_of_lookup. destruct (Forall2_lookup_r _ _ _ _ _ F Hi) as ([k v] & Hl & E & K).
  simpl in *. unfold entry_typed. rewrite (put_entries_lookup l m _ v); [by simpl; rewrite K|done|].
  apply list_elem_of_lookup. exists i. by rewrite <- E.
Qed.

End schemas.

(** ** An instance *)

(** Object ids are numbers of 128 bits, variants a tagged union, and the state of the base
    class is its three times. *)
Inductive wire_variant : Type :=
| WBool (b : bool) | WU8 (z : Z) | WU32 (z : Z) | WU64 (z : Z) | WInt (z : Z) | WStr (s : string) | WOid (i : Z).

Definition wire_kind (v : wire_variant) : var_kind :=
  match v with
  | WBool _ => VAR_BOOL | WU8 _ => VAR_UINT8 | WU32 _ => VAR_UINT32 | WU64 _ => VAR_UINT64
  | WInt _ => VAR_INT32 | WStr _ => VAR_STRING | WOid _ => VAR_MAP
  end.
Definition wire_bool (v : wire_variant) : option bool := match v with WBool b => Some b | _ => None end.
Definition wire_u32 (v : wire_variant) : option Z := match v with WU32 z => Some z | _ => None end.
Definition wire_str (v : wire_variant) : option string := match v with WStr s => Some s | _ => None end.
Definition wire_oid (v : wire_variant) : option Z := match v with WOid i => Some i | _ => None end.
Definition wire_type (t : qmf_type) : Z :=
  match t with
  | TYPE_REF => 10 | TYPE_SSTR => 6 | TYPE_U32 => 3 | TYPE_U64 => 4 | TYPE_BOOL => 11 | TYPE_DELTATIME => 9
  end.

Definition wire_timestamps (p c : string) (m : list Z) (b : Z * Z * Z) : list byte :=
  (@put_shortstr wire p ++ @put_shortstr wire c ++ take 16 (map byte_of_Z m ++ memset0 16)) ++
  be_bytes 8 b.1.1 ++ be_bytes 8 b.1.2 ++ be_bytes 8 b.2.
Definition wire_read (bs : list byte) (_ : Z * Z * Z) : Z * Z * Z :=
  let t := drop (length bs - 24) bs in
  (be_value (take 8 t), be_value (take 8 (drop 8 t)), be_value (take 8 (drop 16 t))).

Lemma be_bytes_length n z : length (be_bytes n z) = n.
Proof. unfold be_bytes. by rewrite length_reverse, le_bytes_length. Qed.

Lemma le_bytes_mod n z : le_bytes n (z mod 256 ^ Z.of_nat n) = le_bytes n z.
Proof.
  revert z. induction n as [|n IH]; intros z; [done|]. cbn [le_bytes].
  assert (Hp : 0 < 256 ^ Z.of_nat n) by lia.
  rewrite Nat2Z.inj_succ, Z.pow_succ_r by lia. f_equal.
  - unfold byte_of_Z. do 3 f_equal. rewrite Z.rem_mul_r by lia.
    rewrite Z.add_mod, Z.mul_comm, Z.mod_mul, Z.add_0_r, !Z.mod_mod by lia. done.
  - rewrite <- (IH (z / 256)). f_equal. rewrite Z.rem_mul_r by lia.
    pose proof (Z.mod_pos_bound z 256 ltac:(lia)).
    rewrite Z.mul_comm, Z.div_add by lia. rewrite Z.div_small by lia. lia.
Qed.

Lemma be_bytes_value n z : be_bytes n (be_value (be_bytes n z)) = be_bytes n z.
Proof.
  unfold be_bytes, be_value. by rewrite reverse_involutive, le_value_bytes, le_bytes_mod.
Qed.

Lemma wire_timestamps_length p c m b :
  (String.length p < 256)%nat -> (String.length c < 256)%nat ->
  length (wire_timestamps p c m b) = Z.to_nat (Z.of_nat (42 + String.length p + String.length c)).
Proof.
  intros Hp Hc. rewrite Nat2Z.id. unfold wire_timestamps.
  rewrite !length_app, length_take, length_app, !(@put_shortstr_length wire) by done.
  unfold memset0. rewrite length_replicate, !be_bytes_length. lia.
Qed.

Lemma wire_read_write p c m b b' :
  wire_timestamps p c m (wire_read (wire_timestamps p c m b) b') = wire_timestamps p c m b.
Proof.
  unfold wire_timestamps, wire_read. destruct b as [[x y] z]. cbn [fst snd].
  set (hd := @put_shortstr wire p ++ _ ++ _). set (X := be_bytes 8 x). set (Y := be_bytes 8 y).
  set (W := be_bytes 8 z).
  assert (LX : length X = 8%nat) by apply be_bytes_length.
  assert (LY : length Y = 8%nat) by apply be_bytes_length.
  assert (LW : length W = 8%nat) by apply be_bytes_length.
  replace (length (hd ++ X ++ Y ++ W) - 24)%nat with (length hd) by (rewrite !length_app; lia).
  rewrite drop_app_length, (take_app_length' X) by done.
  replace (drop 8 (X ++ Y ++ W)) with (Y ++ W) by by rewrite drop_app_length'.
  replace (drop 16 (X ++ Y ++ W)) with W by
    by rewrite app_assoc, drop_app_length' by (rewrite length_app; lia).
  rewrite (take_app_length' Y) by done. rewrite (take_ge W) by lia.
  unfold X, Y, W. by rewrite !be_bytes_value.
Qed.

Definition wire_qmf : Qmf := {|
  ObjectId := Z;
  oid_none := 0;
  oid_encode := be_bytes 16;
  oid_decode := fun bs _ => be_value bs;
  getV2Key := fun i => pretty i;
  oid_wire := fun i => 0 <= i < 256 ^ 16;
  Variant := wire_variant;
  var_bool := WBool; var_u8 := WU8; var_u32 := WU32; var_u64 := WU64; var_int := WInt; var_str := WStr;
  var_oid := WOid;
  kind_of := wire_kind;
  as_bool := wire_bool; as_u32 := wire_u32; getString := wire_str; as_oid := wire_oid;
  Base := Z * Z * Z;
  base_new := (0, 0, 0);
  configChanged_new := true;
  instChanged_new := true;
  writeTimestamps := wire_timestamps;
  readTimestamps := wire_read;
  writeTimestampsSize := fun p c => Z.of_nat (42 + String.length p + String.length c);
  put_short := be_bytes 2;
  put_bin128 := map byte_of_Z;
  put_map := fun _ => [];
  CLASS_KIND_TABLE := x01;
  CLASS_KIND_EVENT := x02;
  ACCESS_RO := 3;
  type_code := wire_type;
  STATUS_UNKNOWN_METHOD := 2;
  StatusText := fun _ => "UnknownMethod";
  oid_encode_length := be_bytes_length 16;
  oid_decode_encode := fun i _ Hi => eq_trans
    (f_equal be_value (eq_sym (take_ge (be_bytes 16 i) 16 (Nat.eq_le_incl _ _ (be_bytes_length 16 i)))))
    (eq_trans (f_equal (fun l => be_value (take 16 l)) (eq_sym (app_nil_r _))) (be_value_bytes 16 i [] Hi));
  kind_bool := fun _ => eq_refl; kind_u32 := fun _ => eq_refl; kind_u64 := fun _ => eq_refl;
  kind_int := fun _ => eq_refl; kind_str := fun _ => eq_refl; kind_oid := fun _ => eq_refl;
  as_var_bool := fun _ => eq_refl; as_var_u32 := fun _ _ => eq_refl; as_var_str := fun _ => eq_refl;
  as_var_oid := fun _ => eq_refl;
  writeTimestamps_length := wire_timestamps_length;
  writeTimestampsSize_eq := fun _ _ => eq_refl;
  readTimestamps_write := wire_read_write
|}.
