(* ===== verification/QmfStats.v ===== *)
(** The statistics of the management class StorageProvider:
    lib/gen/qmf/com/atono/server/qpid/bdbstore/StorageProvider.h and .cpp.

    Every thread counts in a slot of its own, which is made when the thread first counts;
    a report adds the slots up and starts the time samples anew. [getThreadIndex] is the
    broker's: the index of the calling thread is an argument. The update methods do not
    take the object's lock, so a report is cut in two stretches, the addition and the
    reset.

    A slot is a commutative monoid element whose unit is the new slot, and every update
    method commutes with the addition; that is all [QmfStatsSpec] needs. *)
From S2P Require Import Prelude.
From Stdlib Require Import ZArith Lia.

Definition u64_max : Z := 2 ^ 64 - 1.   (* std::numeric_limits<uint64_t>::max() *)

(** The four members of a time: for [enqueueTime] they are [enqueueTimeCount],
    [enqueueTimeTotal], [enqueueTimeMin] and [enqueueTimeMax]. *)
Record hilo := mkHilo { h_count : Z; h_total : Z; h_min : Z; h_max : Z }.
#[export] Instance hilo_eq_dec : EqDecision hilo.
Proof. solve_decision. Defined.
Implicit Types (h : hilo).

Definition hilo_new : hilo := mkHilo 0 0 u64_max 0.

(** The statements of [set_enqueueTime] and [set_dequeueTime]. *)
Definition hilo_sample (val : Z) h : hilo :=
  let h := mkHilo (add64 (h_count h) 1) (h_total h) (h_min h) (h_max h) in
  let h := mkHilo (h_count h) (add64 (h_total h) val) (h_min h) (h_max h) in
  let h := if val <? h_min h then mkHilo (h_count h) (h_total h) val (h_max h) else h in
  if h_max h <? val then mkHilo (h_count h) (h_total h) (h_min h) val else h.

(** The statements of [aggregatePerThreadStats] about one time. *)
Definition hilo_add (totals h : hilo) : hilo :=
  mkHilo (add64 (h_count totals) (h_count h)) (add64 (h_total totals) (h_total h))
    (if h_min h <? h_min totals then h_min h else h_min totals)
    (if h_max totals <? h_max h then h_max h else h_max totals).

Record PerThreadStats := mkPTS {
  pendingAsyncEnqueue : Z;
  pendingAsyncDequeue : Z;
  executedEnqueue : Z;
  executedDequeue : Z;
  skippedEnqueue : Z;
  skippedDequeue : Z;
  totalEnqueueTime : Z;
  totalDequeueTime : Z;
  enqueueTime : hilo;
  dequeueTime : hilo
}.
#[export] Instance PerThreadStats_eq_dec : EqDecision PerThreadStats.
Proof. solve_decision. Defined.

Implicit Types (p : PerThreadStats).

(** The values that [getThreadStats] gives a new slot. *)
Definition new_stats : PerThreadStats := mkPTS 0 0 0 0 0 0 0 0 hilo_new hilo_new.

(** Assignments to the members. *)
Definition put_pendingAsyncEnqueue (v : Z) p : PerThreadStats :=
  mkPTS
    v (pendingAsyncDequeue p) (executedEnqueue p) (executedDequeue p) (skippedEnqueue p) (skippedDequeue p)
    (totalEnqueueTime p) (totalDequeueTime p) (enqueueTime p) (dequeueTime p).
Definition put_pendingAsyncDequeue (v : Z) p : PerThreadStats :=
  mkPTS
    (pendingAsyncEnqueue p) v (executedEnqueue p) (executedDequeue p) (skippedEnqueue p) (skippedDequeue p)
    (totalEnqueueTime p) (totalDequeueTime p) (enqueueTime p) (dequeueTime p).
Definition put_executedEnqueue (v : Z) p : PerThreadStats :=
  mkPTS
    (pendingAsyncEnqueue p) (pendingAsyncDequeue p) v (executedDequeue p) (skippedEnqueue p)
    (skippedDequeue p) (totalEnqueueTime p) (totalDequeueTime p) (enqueueTime p) (dequeueTime p).
Definition put_executedDequeue (v : Z) p : PerThreadStats :=
  mkPTS
    (pendingAsyncEnqueue p) (pendingAsyncDequeue p) (executedEnqueue p) v (skippedEnqueue p)
    (skippedDequeue p) (totalEnqueueTime p) (totalDequeueTime p) (enqueueTime p) (dequeueTime p).
Definition put_skippedEnqueue (v : Z) p : PerThreadStats :=
  mkPTS
    (pendingAsyncEnqueue p) (pendingAsyncDequeue p) (executedEnqueue p) (executedDequeue p) v
    (skippedDequeue p) (totalEnqueueTime p) (totalDequeueTime p) (enqueueTime p) (dequeueTime p).
Definition put_skippedDequeue (v : Z) p : PerThreadStats :=
  mkPTS
    (pendingAsyncEnqueue p) (pendingAsyncDequeue p) (executedEnqueue p) (executedDequeue p)
    (skippedEnqueue p) v (totalEnqueueTime p) (totalDequeueTime p) (enqueueTime p) (dequeueTime p).
Definition put_totalEnqueueTime (v : Z) p : PerThreadStats :=
  mkPTS
    (pendingAsyncEnqueue p) (pendingAsyncDequeue p) (executedEnqueue p) (executedDequeue p)
    (skippedEnqueue p) (skippedDequeue p) v (totalDequeueTime p) (enqueueTime p) (dequeueTime p).
Definition put_totalDequeueTime (v : Z) p : PerThreadStats :=
  mkPTS
    (pendingAsyncEnqueue p) (pendingAsyncDequeue p) (executedEnqueue p) (executedDequeue p)
    (skippedEnqueue p) (skippedDequeue p) (totalEnqueueTime p) v (enqueueTime p) (dequeueTime p).
Definition put_enqueueTime (v : hilo) p : PerThreadStats :=
  mkPTS
    (pendingAsyncEnqueue p) (pendingAsyncDequeue p) (executedEnqueue p) (executedDequeue p)
    (skippedEnqueue p) (skippedDequeue p) (totalEnqueueTime p) (totalDequeueTime p) v (dequeueTime p).
Definition put_dequeueTime (v : hilo) p : PerThreadStats :=
  mkPTS
    (pendingAsyncEnqueue p) (pendingAsyncDequeue p) (executedEnqueue p) (executedDequeue p)
    (skippedEnqueue p) (skippedDequeue p) (totalEnqueueTime p) (totalDequeueTime p) (enqueueTime p) v.

(** The members [perThreadStatsArray] and [instChanged]. *)
Record Stats := mkStats { perThreadStatsArray : list (option PerThreadStats); instChanged : bool }.
Implicit Types (st : Stats) (a : list (option PerThreadStats)) (idx : nat).

(** The statistics of a new object: [maxThreads] empty slots; the base class gives
    [instChanged] its first value. *)
Definition stats_ctor (maxThreads : nat) (inst : bool) : Stats := mkStats (replicate maxThreads None) inst.

(** [getThreadStats()]: the slot of the thread, made when it is missing. The index is in
    range: [getThreadIndex] stays below [maxThreads]. *)
Definition getThreadStats idx a : PerThreadStats :=
  match a !! idx with Some (Some p) => p | _ => new_stats end.
Definition with_slot idx (f : PerThreadStats -> PerThreadStats) st : Stats :=
  mkStats (<[idx := Some (f (getThreadStats idx (perThreadStatsArray st)))]> (perThreadStatsArray st)) true.

Definition inc_pendingAsyncEnqueue idx (n : Z) st : Stats :=
  with_slot idx (fun p => put_pendingAsyncEnqueue (u32 (pendingAsyncEnqueue p + n)) p) st.
Definition dec_pendingAsyncEnqueue idx (n : Z) st : Stats :=
  with_slot idx (fun p => put_pendingAsyncEnqueue (u32 (pendingAsyncEnqueue p - n)) p) st.
Definition inc_pendingAsyncDequeue idx (n : Z) st : Stats :=
  with_slot idx (fun p => put_pendingAsyncDequeue (u32 (pendingAsyncDequeue p + n)) p) st.
Definition dec_pendingAsyncDequeue idx (n : Z) st : Stats :=
  with_slot idx (fun p => put_pendingAsyncDequeue (u32 (pendingAsyncDequeue p - n)) p) st.
Definition inc_executedEnqueue idx (n : Z) st : Stats :=
  with_slot idx (fun p => put_executedEnqueue (u32 (executedEnqueue p + n)) p) st.
Definition dec_executedEnqueue idx (n : Z) st : Stats :=
  with_slot idx (fun p => put_executedEnqueue (u32 (executedEnqueue p - n)) p) st.
Definition inc_executedDequeue idx (n : Z) st : Stats :=
  with_slot idx (fun p => put_executedDequeue (u32 (executedDequeue p + n)) p) st.
Definition dec_executedDequeue idx (n : Z) st : Stats :=
  with_slot idx (fun p => put_executedDequeue (u32 (executedDequeue p - n)) p) st.
Definition inc_skippedEnqueue idx (n : Z) st : Stats :=
  with_slot idx (fun p => put_skippedEnqueue (u32 (skippedEnqueue p + n)) p) st.
Definition dec_skippedEnqueue idx (n : Z) st : Stats :=
  with_slot idx (fun p => put_skippedEnqueue (u32 (skippedEnqueue p - n)) p) st.
Definition inc_skippedDequeue idx (n : Z) st : Stats :=
  with_slot idx (fun p => put_skippedDequeue (u32 (skippedDequeue p + n)) p) st.
Definition dec_skippedDequeue idx (n : Z) st : Stats :=
  with_slot idx (fun p => put_skippedDequeue (u32 (skippedDequeue p - n)) p) st.
Definition inc_totalEnqueueTime idx (n : Z) st : Stats :=
  with_slot idx (fun p => put_totalEnqueueTime (u64 (totalEnqueueTime p + n)) p) st.
Definition dec_totalEnqueueTime idx (n : Z) st : Stats :=
  with_slot idx (fun p => put_totalEnqueueTime (u64 (totalEnqueueTime p - n)) p) st.
Definition inc_totalDequeueTime idx (n : Z) st : Stats :=
  with_slot idx (fun p => put_totalDequeueTime (u64 (totalDequeueTime p + n)) p) st.
Definition dec_totalDequeueTime idx (n : Z) st : Stats :=
  with_slot idx (fun p => put_totalDequeueTime (u64 (totalDequeueTime p - n)) p) st.
Definition set_enqueueTime idx (val : Z) st : Stats :=
  with_slot idx (fun p => put_enqueueTime (hilo_sample val (enqueueTime p)) p) st.
Definition set_dequeueTime idx (val : Z) st : Stats :=
  with_slot idx (fun p => put_dequeueTime (hilo_sample val (dequeueTime p)) p) st.

(** ** Reports *)

(** [aggregatePerThreadStats], with the body of its loop. *)
Definition add_totals (totals p : PerThreadStats) : PerThreadStats :=
  mkPTS
    (u32 (pendingAsyncEnqueue totals + pendingAsyncEnqueue p))
    (u32 (pendingAsyncDequeue totals + pendingAsyncDequeue p))
    (u32 (executedEnqueue totals + executedEnqueue p))
    (u32 (executedDequeue totals + executedDequeue p))
    (u32 (skippedEnqueue totals + skippedEnqueue p))
    (u32 (skippedDequeue totals + skippedDequeue p))
    (u64 (totalEnqueueTime totals + totalEnqueueTime p))
    (u64 (totalDequeueTime totals + totalDequeueTime p))
    (hilo_add (enqueueTime totals) (enqueueTime p))
    (hilo_add (dequeueTime totals) (dequeueTime p)).
Definition add_slot (totals : PerThreadStats) (s : option PerThreadStats) : PerThreadStats :=
  match s with None => totals | Some p => add_totals totals p end.
Definition aggregatePerThreadStats a : PerThreadStats := foldl add_slot new_stats a.

(** The maintenance of the hi-lo statistics after a report. *)
Definition reset_hilo p : PerThreadStats := put_dequeueTime hilo_new (put_enqueueTime hilo_new p).
Definition reset_slots st : Stats :=
  mkStats (map (option_map reset_hilo) (perThreadStatsArray st)) (instChanged st).

(** What a report says of a time: samples, least, greatest and average, where the least
    and the average are 0 when there is no sample. *)
Definition hilo_report h : list Z :=
  [h_count h; if h_count h =? 0 then 0 else h_min h; h_max h;
   if h_count h =? 0 then 0 else h_total h / h_count h].
Definition counters_report (t : PerThreadStats) : list Z :=
  [pendingAsyncEnqueue t;
   pendingAsyncDequeue t;
   executedEnqueue t;
   executedDequeue t;
   skippedEnqueue t;
   skippedDequeue t;
   totalEnqueueTime t;
   totalDequeueTime t].
Definition report (t : PerThreadStats) : list Z :=
  counters_report t ++ hilo_report (enqueueTime t) ++ hilo_report (dequeueTime t).

(** The two stretches of a report, and both. *)
Definition report_totals st : PerThreadStats * Stats :=
  (aggregatePerThreadStats (perThreadStatsArray st), mkStats (perThreadStatsArray st) false).
Definition take_report st : PerThreadStats * Stats :=
  let '(t, st) := report_totals st in (t, reset_slots st).

