(* ===== verification/QmfStatsSpec.v ===== *)
(** The per-thread statistics implement one history of events: whatever threads count and
    whenever reports are taken, a report says what was counted since the start, and of
    the times what was sampled since the report before. *)
From S2P Require Import Prelude QmfStats.
From Stdlib Require Import ZArith Lia.

Implicit Types (h : hilo) (p t d : PerThreadStats) (st : Stats) (a : list (option PerThreadStats)) (idx : nat).

(** ** Slots form a commutative monoid *)

Record hilo_ok h : Prop := {
  ok_count : is_u64 (h_count h);
  ok_total : is_u64 (h_total h);
  ok_min : is_u64 (h_min h);
  ok_max : is_u64 (h_max h)
}.

Definition is_w32 (z : Z) : Prop := 0 <= z < 2 ^ 32.

Record pts_ok p : Prop := {
  ok_c32 : Forall is_w32 [pendingAsyncEnqueue p; pendingAsyncDequeue p; executedEnqueue p; executedDequeue p;
                          skippedEnqueue p; skippedDequeue p];
  ok_c64 : Forall is_u64 [totalEnqueueTime p; totalDequeueTime p];
  ok_enq : hilo_ok (enqueueTime p);
  ok_deq : hilo_ok (dequeueTime p)
}.

Lemma u32_add_l x y : u32 (u32 x + y) = u32 (x + y).
Proof. unfold u32. by rewrite Zplus_mod_idemp_l. Qed.
Lemma u32_add_r x y : u32 (x + u32 y) = u32 (x + y).
Proof. unfold u32. by rewrite Zplus_mod_idemp_r. Qed.
Lemma u64_add_l x y : u64 (u64 x + y) = u64 (x + y).
Proof. unfold u64. by rewrite Zplus_mod_idemp_l. Qed.
Lemma u64_add_r x y : u64 (x + u64 y) = u64 (x + y).
Proof. unfold u64. by rewrite Zplus_mod_idemp_r. Qed.
Lemma u32_add3 x y z : u32 (u32 x + u32 y + u32 z) = u32 (x + y + z).
Proof.
  rewrite u32_add_r, <- Z.add_assoc, u32_add_l, Z.add_assoc, (Z.add_comm x), <- Z.add_assoc, u32_add_l.
  f_equal. lia.
Qed.
Lemma u32_range z : is_w32 (u32 z).
Proof. apply Z.mod_pos_bound. lia. Qed.

Lemma hilo_add_min_max (x y : Z) :
  (if y <? x then y else x) = Z.min x y /\ (if x <? y then y else x) = Z.max x y.
Proof. destruct (Z.ltb_spec y x), (Z.ltb_spec x y); lia. Qed.

Lemma hilo_add_eq h h' :
  hilo_add h h' = mkHilo (u64 (h_count h + h_count h')) (u64 (h_total h + h_total h'))
                    (Z.min (h_min h) (h_min h')) (Z.max (h_max h) (h_max h')).
Proof.
  unfold hilo_add, add64. f_equal; [apply (hilo_add_min_max (h_min h))|apply (hilo_add_min_max (h_max h))].
Qed.

Ltac hilo_arith := rewrite !hilo_add_eq; cbn [h_count h_total h_min h_max]; f_equal;
  rewrite ?u64_add_l, ?u64_add_r; try (f_equal; lia); try lia.

Lemma hilo_add_assoc h1 h2 h3 : hilo_add (hilo_add h1 h2) h3 = hilo_add h1 (hilo_add h2 h3).
Proof. hilo_arith. Qed.
Lemma hilo_add_comm h1 h2 : hilo_add h1 h2 = hilo_add h2 h1.
Proof. hilo_arith. Qed.

Lemma hilo_add_new h : hilo_ok h -> hilo_add h hilo_new = h.
Proof.
  intros [C T Mn Mx]. rewrite hilo_add_eq. destruct h; simpl in *. unfold is_u64, u64_max in *.
  rewrite !Z.add_0_r, !u64_small by done. f_equal; lia.
Qed.

Lemma hilo_add_ok h1 h2 : hilo_ok h1 -> hilo_ok h2 -> hilo_ok (hilo_add h1 h2).
Proof.
  intros [] []. rewrite hilo_add_eq. split; simpl; auto with store; unfold is_u64 in *; lia.
Qed.

(** A sample is the addition of a time seen once. *)
Definition hilo_once (v : Z) : hilo := mkHilo 1 v v v.
Lemma hilo_sample_add v h : hilo_sample v h = hilo_add h (hilo_once v).
Proof.
  unfold hilo_sample, hilo_add, hilo_once. cbn [h_count h_total h_min h_max].
  destruct (v <? h_min h); simpl; by case_goal.
Qed.

Lemma add_totals_assoc p1 p2 p3 : add_totals (add_totals p1 p2) p3 = add_totals p1 (add_totals p2 p3).
Proof.
  unfold add_totals. cbn. rewrite !hilo_add_assoc. f_equal;
    rewrite ?u32_add_l, ?u32_add_r, ?u64_add_l, ?u64_add_r; f_equal; lia.
Qed.
Lemma add_totals_comm p1 p2 : add_totals p1 p2 = add_totals p2 p1.
Proof. unfold add_totals. f_equal; first [apply hilo_add_comm | f_equal; lia]. Qed.

Lemma pts_fields p :
  pts_ok p ->
  (u32 (pendingAsyncEnqueue p) = pendingAsyncEnqueue p /\ u32 (pendingAsyncDequeue p) = pendingAsyncDequeue p /\
   u32 (executedEnqueue p) = executedEnqueue p /\ u32 (executedDequeue p) = executedDequeue p /\
   u32 (skippedEnqueue p) = skippedEnqueue p /\ u32 (skippedDequeue p) = skippedDequeue p) /\
  u64 (totalEnqueueTime p) = totalEnqueueTime p /\ u64 (totalDequeueTime p) = totalDequeueTime p.
Proof.
  intros [C32 C64 _ _]. repeat (apply Forall_cons in C32 as [? C32]). repeat (apply Forall_cons in C64 as [? C64]).
  split_and!; by first [apply u32_small | apply u64_small].
Qed.

Lemma add_totals_new p : pts_ok p -> add_totals p new_stats = p.
Proof.
  intros Hp. pose proof (pts_fields p Hp) as ((E1 & E2 & E3 & E4 & E5 & E6) & E7 & E8). destruct Hp as [_ _ He Hd].
  unfold add_totals. destruct p; cbn in *. rewrite !Z.add_0_r, !hilo_add_new by done. by f_equal.
Qed.

Lemma add_totals_ok p1 p2 : pts_ok p1 -> pts_ok p2 -> pts_ok (add_totals p1 p2).
Proof.
  intros [] []. split; simpl; try by apply hilo_add_ok.
  all: repeat constructor; first [apply u32_range | apply u64_range].
Qed.

Lemma new_stats_ok : pts_ok new_stats.
Proof. by repeat split; repeat constructor. Qed.
#[export] Hint Resolve new_stats_ok add_totals_ok : store.

(** ** Update methods as additions *)

Inductive counter : Type :=
| PendingAsyncEnqueue_c | PendingAsyncDequeue_c | ExecutedEnqueue | ExecutedDequeue | SkippedEnqueue
| SkippedDequeue | TotalEnqueueTime | TotalDequeueTime.
#[export] Instance counter_eq_dec : EqDecision counter.
Proof. solve_decision. Defined.

(** A call of an update method; a decrement is an increment by the negative number. *)
Inductive stat_op : Type :=
| Inc (c : counter) (n : Z) | Dec (c : counter) (n : Z) | EnqueueTime (v : Z) | DequeueTime (v : Z).

Definition run_op idx (op : stat_op) : Stats -> Stats :=
  match op with
  | Inc PendingAsyncEnqueue_c n => inc_pendingAsyncEnqueue idx n
  | Inc PendingAsyncDequeue_c n => inc_pendingAsyncDequeue idx n
  | Inc ExecutedEnqueue n => inc_executedEnqueue idx n
  | Inc ExecutedDequeue n => inc_executedDequeue idx n
  | Inc SkippedEnqueue n => inc_skippedEnqueue idx n
  | Inc SkippedDequeue n => inc_skippedDequeue idx n
  | Inc TotalEnqueueTime n => inc_totalEnqueueTime idx n
  | Inc TotalDequeueTime n => inc_totalDequeueTime idx n
  | Dec PendingAsyncEnqueue_c n => dec_pendingAsyncEnqueue idx n
  | Dec PendingAsyncDequeue_c n => dec_pendingAsyncDequeue idx n
  | Dec ExecutedEnqueue n => dec_executedEnqueue idx n
  | Dec ExecutedDequeue n => dec_executedDequeue idx n
  | Dec SkippedEnqueue n => dec_skippedEnqueue idx n
  | Dec SkippedDequeue n => dec_skippedDequeue idx n
  | Dec TotalEnqueueTime n => dec_totalEnqueueTime idx n
  | Dec TotalDequeueTime n => dec_totalDequeueTime idx n
  | EnqueueTime v => set_enqueueTime idx v
  | DequeueTime v => set_dequeueTime idx v
  end.

(** A time is a [uint64_t]. *)
Definition op_ok (op : stat_op) : Prop :=
  match op with EnqueueTime v | DequeueTime v => is_u64 v | _ => True end.

(** What was counted: an integer per counter, and the samples since the last report. *)
Record history := mkHist {
  hi_count : counter -> Z; hi_enq : list Z; hi_deq : list Z; hi_changed : bool
}.
Implicit Types (g : history).

Definition bump (c : counter) (n : Z) (f : counter -> Z) : counter -> Z :=
  fun c' => if decide (c' = c) then f c' + n else f c'.
Lemma bump_self c n f : bump c n f c = f c + n.
Proof. unfold bump. by rewrite decide_True. Qed.
Definition record_op (op : stat_op) g : history :=
  match op with
  | Inc c n => mkHist (bump c n (hi_count g)) (hi_enq g) (hi_deq g) true
  | Dec c n => mkHist (bump c (- n) (hi_count g)) (hi_enq g) (hi_deq g) true
  | EnqueueTime v => mkHist (hi_count g) (v :: hi_enq g) (hi_deq g) true
  | DequeueTime v => mkHist (hi_count g) (hi_enq g) (v :: hi_deq g) true
  end.
Definition hist_start (changed : bool) : history := mkHist (fun _ => 0) [] [] changed.
Definition record_report g : history := mkHist (hi_count g) [] [] false.

Definition sum_list_Z (l : list Z) : Z := foldr Z.add 0 l.
Definition hilo_of (l : list Z) : hilo :=
  mkHilo (u64 (Z.of_nat (length l))) (u64 (sum_list_Z l)) (foldr Z.min u64_max l) (foldr Z.max 0 l).

(** The totals that a history stands for, at the widths of the counters. *)
Definition totals_of g : PerThreadStats :=
  let c := hi_count g in
  mkPTS (u32 (c PendingAsyncEnqueue_c)) (u32 (c PendingAsyncDequeue_c)) (u32 (c ExecutedEnqueue))
    (u32 (c ExecutedDequeue)) (u32 (c SkippedEnqueue)) (u32 (c SkippedDequeue)) (u64 (c TotalEnqueueTime))
    (u64 (c TotalDequeueTime)) (hilo_of (hi_enq g)) (hilo_of (hi_deq g)).

(** What one call adds. *)
Definition delta (op : stat_op) : PerThreadStats := totals_of (record_op op (hist_start false)).

Lemma hilo_of_ok l : Forall is_u64 l -> hilo_ok (hilo_of l).
Proof.
  intros Hl. split; simpl; auto with store; unfold is_u64, u64_max in *;
    induction Hl as [|v l Hv Hl IH]; simpl; lia.
Qed.

Lemma hilo_of_cons v l : is_u64 v -> hilo_of (v :: l) = hilo_add (hilo_of l) (hilo_once v).
Proof.
  intros Hv. rewrite hilo_add_eq. unfold hilo_of. cbn [h_count h_total h_min h_max length foldr hilo_once sum_list_Z].
  unfold sum_list_Z. rewrite !u64_add_l. f_equal; [f_equal; lia..| |]; lia.
Qed.

Lemma hilo_of_single v : is_u64 v -> hilo_of [v] = hilo_once v.
Proof.
  intros Hv. rewrite hilo_of_cons by done. change (hilo_of []) with hilo_new.
  by rewrite hilo_add_comm, hilo_add_new.
Qed.

(** The widths of the counters divide what is added. *)
Lemma totals_record op g : op_ok op -> hilo_ok (hilo_of (hi_enq g)) -> hilo_ok (hilo_of (hi_deq g)) ->
  totals_of (record_op op g) = add_totals (totals_of g) (delta op).
Proof.
  intros Ho He Hd. unfold delta, totals_of, add_totals.
  destruct op as [c n|c n|v|v]; cbn -[hilo_of hilo_add]; change (hilo_of []) with hilo_new;
    rewrite ?u32_add_l, ?u64_add_l, ?u32_add_r, ?u64_add_r, ?Z.add_0_r, ?(hilo_add_new (hilo_of _)) by done.
  1-2: f_equal; unfold bump; case_decide; f_equal; lia.
  all: by rewrite hilo_of_cons, hilo_of_single.
Qed.

Lemma delta_ok op : op_ok op -> pts_ok (delta op).
Proof.
  intros Ho. unfold delta, totals_of. split; simpl; try (repeat constructor; first [apply u32_range | apply u64_range]).
  all: apply hilo_of_ok; destruct op; simpl in *; auto.
Qed.
#[export] Hint Resolve delta_ok : store.

(** An update method adds its delta to the slot of its thread. *)
Lemma run_op_adds idx op st :
  op_ok op -> pts_ok (getThreadStats idx (perThreadStatsArray st)) ->
  run_op idx op st =
  mkStats (<[idx := Some (add_totals (getThreadStats idx (perThreadStatsArray st)) (delta op))]>
             (perThreadStatsArray st)) true.
Proof.
  intros Ho Hp.
  assert (E : exists f, run_op idx op st = with_slot idx f st /\
              f (getThreadStats idx (perThreadStatsArray st)) =
              add_totals (getThreadStats idx (perThreadStatsArray st)) (delta op)); cycle 1.
  { destruct E as (f & -> & E). unfold with_slot. by rewrite E. }
  pose proof (pts_fields _ Hp) as F. destruct Hp as [_ _ He Hd].
  destruct op as [[] n|[] n|v|v]; (eexists; split; [reflexivity|]); cbn beta;
    set (q := getThreadStats _ _) in *; unfold add_totals, delta, totals_of;
    cbn -[hilo_of hilo_add hilo_sample]; change (hilo_of []) with hilo_new;
    rewrite ?u32_add_r, ?u64_add_r, ?Z.add_0_r, ?(hilo_add_new (enqueueTime q)), ?(hilo_add_new (dequeueTime q)),
      ?hilo_of_single, ?hilo_sample_add by done;
    rewrite ?bump_self; match goal with |- ?put _ _ = _ => unfold put end;
    destruct q; cbn in *; f_equal; try (by symmetry; apply F); f_equal; lia.
Qed.

(** ** Slots and totals *)

Definition slot_ok (s : option PerThreadStats) : Prop := match s with None => True | Some p => pts_ok p end.

Lemma slot_get_ok idx a : Forall slot_ok a -> pts_ok (getThreadStats idx a).
Proof.
  intros Ha. unfold getThreadStats. destruct (a !! idx) as [[p|]|] eqn:E; auto with store.
  by apply (Forall_lookup_1 _ _ _ _ Ha E).
Qed.

Lemma add_slot_move t d a : foldl add_slot (add_totals t d) a = add_totals (foldl add_slot t a) d.
Proof.
  revert t. induction a as [|[p|] a IH]; intros t; simpl; [done| |done].
  rewrite <- IH. f_equal. rewrite !add_totals_assoc. f_equal. apply add_totals_comm.
Qed.

Lemma add_slot_ok a t : pts_ok t -> Forall slot_ok a -> pts_ok (foldl add_slot t a).
Proof. intros Ht Ha. revert t Ht. induction Ha as [|[p|] a Hp Ha IH]; intros t Ht; simpl; auto with store. Qed.

(** Adding to one slot adds to the totals. *)
Lemma aggregate_adds idx d a t :
  pts_ok t -> pts_ok d -> Forall slot_ok a -> (idx < length a)%nat ->
  foldl add_slot t (<[idx := Some (add_totals (getThreadStats idx a) d)]> a) = add_totals (foldl add_slot t a) d.
Proof.
  intros Ht Hd Ha. revert t idx Ht. induction Ha as [|s a Hs Ha IH]; intros t idx Ht Hi; simpl in *; [lia|].
  destruct idx as [|idx].
  - change (getThreadStats 0 (s :: a)) with (match s with Some p => p | None => new_stats end). simpl.
    rewrite <- add_totals_assoc, add_slot_move. f_equal. f_equal.
    destruct s as [p|]; [done|]. by apply add_totals_new.
  - change (getThreadStats (S idx) (s :: a)) with (getThreadStats idx a). simpl.
    apply IH; [|lia]. destruct s; simpl; auto with store.
Qed.

Lemma reset_add t p : reset_hilo (add_totals t p) = add_totals (reset_hilo t) (reset_hilo p).
Proof. done. Qed.

Lemma reset_ok p : pts_ok p -> pts_ok (reset_hilo p).
Proof. intros [C32 C64 _ _]. by split. Qed.

Lemma aggregate_reset a t :
  foldl add_slot (reset_hilo t) (map (option_map reset_hilo) a) = reset_hilo (foldl add_slot t a).
Proof. revert t. induction a as [|[p|] a IH]; intros t; simpl; [done| |done]. by rewrite <- IH, reset_add. Qed.

(** ** Refinement *)

(** What happens to the object: a call by the thread with the given index, or a report. *)
Inductive stat_event : Type := Call (idx : nat) (op : stat_op) | Report.

Definition event_ok (maxThreads : nat) (e : stat_event) : Prop :=
  match e with Call idx op => (idx < maxThreads)%nat /\ op_ok op | Report => True end.

(** The reports of a run of the object and those of its history. *)
Fixpoint run_events (l : list stat_event) st : list (list Z) * Stats :=
  match l with
  | [] => ([], st)
  | Call idx op :: l => run_events l (run_op idx op st)
  | Report :: l => let '(t, st) := take_report st in
                   let '(rs, st) := run_events l st in (report t :: rs, st)
  end.
Fixpoint history_reports (l : list stat_event) g : list (list Z) * history :=
  match l with
  | [] => ([], g)
  | Call _ op :: l => history_reports l (record_op op g)
  | Report :: l => let '(rs, g') := history_reports l (record_report g) in (report (totals_of g) :: rs, g')
  end.

(** The object represents a history. *)
Record represents (maxThreads : nat) st g : Prop := {
  rp_length : length (perThreadStatsArray st) = maxThreads;
  rp_ok : Forall slot_ok (perThreadStatsArray st);
  rp_enq : Forall is_u64 (hi_enq g);
  rp_deq : Forall is_u64 (hi_deq g);
  rp_totals : aggregatePerThreadStats (perThreadStatsArray st) = totals_of g;
  rp_changed : instChanged st = hi_changed g
}.

Lemma represents_start n b : represents n (stats_ctor n b) (hist_start b).
Proof.
  split; simpl; auto.
  - apply length_replicate.
  - by apply Forall_replicate.
  - unfold aggregatePerThreadStats. by induction n.
Qed.

Lemma represents_op n st g idx op :
  represents n st g -> event_ok n (Call idx op) -> represents n (run_op idx op st) (record_op op g).
Proof.
  intros [L O E D T C] [Hi Ho]. rewrite run_op_adds by auto using slot_get_ok. split; cbn [perThreadStatsArray].
  - by rewrite length_insert.
  - apply Forall_insert; [done|]. simpl. auto using slot_get_ok with store.
  - destruct op; simpl; auto.
  - destruct op; simpl; auto.
  - rewrite totals_record by auto using hilo_of_ok. unfold aggregatePerThreadStats in *.
    rewrite aggregate_adds, T by (auto with store; lia). done.
  - by destruct op.
Qed.

Lemma represents_report n st g :
  represents n st g -> (take_report st).1 = totals_of g /\ represents n (take_report st).2 (record_report g).
Proof.
  intros [L O E D T C]. split; [done|]. split; simpl; auto.
  - by rewrite length_map.
  - apply Forall_map. eapply Forall_impl; [done|]. intros [p|] Hp; simpl in *; auto using reset_ok.
  - unfold aggregatePerThreadStats in *. change new_stats with (reset_hilo new_stats).
    rewrite aggregate_reset, T. done.
Qed.


(** ** Times *)

Definition least (l : list Z) : Z := foldr Z.min u64_max l.
Definition greatest (l : list Z) : Z := foldr Z.max 0 l.

Lemma extremes_bound l : Forall (fun v => least l <= v <= greatest l) l.
Proof.
  induction l as [|v l IH]; constructor; cbn [least greatest foldr].
  - fold (least l) (greatest l). lia.
  - eapply Forall_impl; [done|]. cbn beta. intros w Hw. fold (least l) (greatest l). lia.
Qed.

Lemma extremes_in l : Forall is_u64 l -> l <> [] -> least l ∈ l /\ greatest l ∈ l.
Proof.
  unfold is_u64. induction 1 as [|v l Hv Hl IH]; [done|]. intros _. cbn [least greatest foldr].
  fold (least l) (greatest l). destruct l as [|w l].
  { unfold least, greatest, u64_max. cbn [foldr].
    replace (Z.min v (2 ^ 64 - 1)) with v by lia. replace (Z.max v 0) with v by lia. split; constructor. }
  destruct (IH ltac:(done)) as [I1 I2].
  split; [destruct (Z.min_spec v (least (w :: l))) as [[_ ->]|[_ ->]]
         |destruct (Z.max_spec v (greatest (w :: l))) as [[_ ->]|[_ ->]]];
    first [by constructor | by apply elem_of_list_further].
Qed.

Lemma sum_bounds l lo hi :
  Forall (fun v => lo <= v <= hi) l ->
  lo * Z.of_nat (length l) <= sum_list_Z l <= hi * Z.of_nat (length l).
Proof. induction 1 as [|v l Hv Hl IH]; unfold sum_list_Z in *; cbn [length foldr]; nia. Qed.

Lemma average_between l :
  Forall is_u64 l -> l <> [] -> least l <= sum_list_Z l / Z.of_nat (length l) <= greatest l.
Proof.
  intros Hl Hn. pose proof (sum_bounds l _ _ (extremes_bound l)) as Hs.
  assert (0 < Z.of_nat (length l)) by (destruct l; [done|simpl; lia]).
  split; [apply Z.div_le_lower_bound; lia|].
  apply Z.lt_succ_r, Z.div_lt_upper_bound; lia.
Qed.

(** As long as the times sampled since the last report add up to less than [2^64], the report
    gives their number, the least and the greatest of them, which are times that were sampled, and
    their average, which lies between the two. *)
Theorem times_report_exact l :
  Forall is_u64 l -> l <> [] -> sum_list_Z l < 2 ^ 64 -> Z.of_nat (length l) < 2 ^ 64 ->
  hilo_report (hilo_of l) = [Z.of_nat (length l); least l; greatest l; sum_list_Z l / Z.of_nat (length l)] /\
  least l ∈ l /\ greatest l ∈ l /\ Forall (fun v => least l <= v <= greatest l) l /\
  least l <= sum_list_Z l / Z.of_nat (length l) <= greatest l.
Proof.
  intros Hl Hn Hs Hc. split; [|split_and!; try (by apply extremes_in); try apply extremes_bound; by apply average_between].
  assert (0 < Z.of_nat (length l)) by (destruct l; [done|simpl; lia]).
  assert (0 <= sum_list_Z l) by (clear -Hl; unfold is_u64, sum_list_Z in *; induction Hl; simpl; lia).
  unfold hilo_report, hilo_of. cbn [h_count h_total h_min h_max]. rewrite !u64_small by (unfold is_u64; lia).
  destruct (Z.eqb_spec (Z.of_nat (length l)) 0); [lia|done].
Qed.
