(* ===== verification/QmfStorageProvider.v ===== *)
(** The management class StorageProvider:
    lib/gen/qmf/com/atono/server/qpid/bdbstore/StorageProvider.h and .cpp.

    The object is its properties, its statistics ([QmfStats]), the flag [configChanged] and
    the state of its base class. Every method holds the object's lock, so it is one step;
    the buffers of 65536 bytes that the write methods use may overflow. *)
From S2P Require Import Prelude Bdb Framing Qmf QmfStats.
From Stdlib Require Import ZArith Lia.

Module StorageProviderQmf.

Definition packageName : string := "com.atono.server.qpid.bdbstore".
Definition className : string := "storageprovider".
Definition md5Sum : list Z :=
  [97; 10; 206; 159; 245; 61; 53; 248; 69; 30; 72; 219; 96; 103; 70; 108].

Section storage_provider.
Context `{Framing, Qmf}.

Record Props := mkProps {
  brokerRef : ObjectId;
  location : string;
  bdbBaseDir : string;
  type_ : string;
  num_jfiles : Z;
  num_thread_enqueue : Z;
  num_thread_dequeue : Z;
  compact : bool;
  smart_async : bool;
  acceptRecovery : bool;
  mongoHost : string;
  mongoPort : string;
  mongoDbName : string;
  mongoCollection : string;
  enqLogCleanerTimeInterval : Z;
  deqLogCleanerTimeInterval : Z;
  enqLogCleanerWarningSize : Z;
  deqLogCleanerWarningSize : Z
}.
Implicit Types (q : Props).

(** Assignments to the members. *)
Definition assign_brokerRef (v : ObjectId) q : Props :=
  mkProps
    v (location q) (bdbBaseDir q) (type_ q) (num_jfiles q) (num_thread_enqueue q) (num_thread_dequeue q)
    (compact q) (smart_async q) (acceptRecovery q) (mongoHost q) (mongoPort q) (mongoDbName q)
    (mongoCollection q) (enqLogCleanerTimeInterval q) (deqLogCleanerTimeInterval q)
    (enqLogCleanerWarningSize q) (deqLogCleanerWarningSize q).
Definition assign_location (v : string) q : Props :=
  mkProps
    (brokerRef q) v (bdbBaseDir q) (type_ q) (num_jfiles q) (num_thread_enqueue q) (num_thread_dequeue q)
    (compact q) (smart_async q) (acceptRecovery q) (mongoHost q) (mongoPort q) (mongoDbName q)
    (mongoCollection q) (enqLogCleanerTimeInterval q) (deqLogCleanerTimeInterval q)
    (enqLogCleanerWarningSize q) (deqLogCleanerWarningSize q).
Definition assign_bdbBaseDir (v : string) q : Props :=
  mkProps
    (brokerRef q) (location q) v (type_ q) (num_jfiles q) (num_thread_enqueue q) (num_thread_dequeue q)
    (compact q) (smart_async q) (acceptRecovery q) (mongoHost q) (mongoPort q) (mongoDbName q)
    (mongoCollection q) (enqLogCleanerTimeInterval q) (deqLogCleanerTimeInterval q)
    (enqLogCleanerWarningSize q) (deqLogCleanerWarningSize q).
Definition assign_type (v : string) q : Props :=
  mkProps
    (brokerRef q) (location q) (bdbBaseDir q) v (num_jfiles q) (num_thread_enqueue q)
    (num_thread_dequeue q) (compact q) (smart_async q) (acceptRecovery q) (mongoHost q) (mongoPort q)
    (mongoDbName q) (mongoCollection q) (enqLogCleanerTimeInterval q) (deqLogCleanerTimeInterval q)
    (enqLogCleanerWarningSize q) (deqLogCleanerWarningSize q).
Definition assign_num_jfiles (v : Z) q : Props :=
  mkProps
    (brokerRef q) (location q) (bdbBaseDir q) (type_ q) v (num_thread_enqueue q) (num_thread_dequeue q)
    (compact q) (smart_async q) (acceptRecovery q) (mongoHost q) (mongoPort q) (mongoDbName q)
    (mongoCollection q) (enqLogCleanerTimeInterval q) (deqLogCleanerTimeInterval q)
    (enqLogCleanerWarningSize q) (deqLogCleanerWarningSize q).
Definition assign_num_thread_enqueue (v : Z) q : Props :=
  mkProps
    (brokerRef q) (location q) (bdbBaseDir q) (type_ q) (num_jfiles q) v (num_thread_dequeue q) (compact q)
    (smart_async q) (acceptRecovery q) (mongoHost q) (mongoPort q) (mongoDbName q) (mongoCollection q)
    (enqLogCleanerTimeInterval q) (deqLogCleanerTimeInterval q) (enqLogCleanerWarningSize q)
    (deqLogCleanerWarningSize q).
Definition assign_num_thread_dequeue (v : Z) q : Props :=
  mkProps
    (brokerRef q) (location q) (bdbBaseDir q) (type_ q) (num_jfiles q) (num_thread_enqueue q) v (compact q)
    (smart_async q) (acceptRecovery q) (mongoHost q) (mongoPort q) (mongoDbName q) (mongoCollection q)
    (enqLogCleanerTimeInterval q) (deqLogCleanerTimeInterval q) (enqLogCleanerWarningSize q)
    (deqLogCleanerWarningSize q).
Definition assign_compact (v : bool) q : Props :=
  mkProps
    (brokerRef q) (location q) (bdbBaseDir q) (type_ q) (num_jfiles q) (num_thread_enqueue q)
    (num_thread_dequeue q) v (smart_async q) (acceptRecovery q) (mongoHost q) (mongoPort q) (mongoDbName q)
    (mongoCollection q) (enqLogCleanerTimeInterval q) (deqLogCleanerTimeInterval q)
    (enqLogCleanerWarningSize q) (deqLogCleanerWarningSize q).
Definition assign_smart_async (v : bool) q : Props :=
  mkProps
    (brokerRef q) (location q) (bdbBaseDir q) (type_ q) (num_jfiles q) (num_thread_enqueue q)
    (num_thread_dequeue q) (compact q) v (acceptRecovery q) (mongoHost q) (mongoPort q) (mongoDbName q)
    (mongoCollection q) (enqLogCleanerTimeInterval q) (deqLogCleanerTimeInterval q)
    (enqLogCleanerWarningSize q) (deqLogCleanerWarningSize q).
Definition assign_acceptRecovery (v : bool) q : Props :=
  mkProps
    (brokerRef q) (location q) (bdbBaseDir q) (type_ q) (num_jfiles q) (num_thread_enqueue q)
    (num_thread_dequeue q) (compact q) (smart_async q) v (mongoHost q) (mongoPort q) (mongoDbName q)
    (mongoCollection q) (enqLogCleanerTimeInterval q) (deqLogCleanerTimeInterval q)
    (enqLogCleanerWarningSize q) (deqLogCleanerWarningSize q).
Definition assign_mongoHost (v : string) q : Props :=
  mkProps
    (brokerRef q) (location q) (bdbBaseDir q) (type_ q) (num_jfiles q) (num_thread_enqueue q)
    (num_thread_dequeue q) (compact q) (smart_async q) (acceptRecovery q) v (mongoPort q) (mongoDbName q)
    (mongoCollection q) (enqLogCleanerTimeInterval q) (deqLogCleanerTimeInterval q)
    (enqLogCleanerWarningSize q) (deqLogCleanerWarningSize q).
Definition assign_mongoPort (v : string) q : Props :=
  mkProps
    (brokerRef q) (location q) (bdbBaseDir q) (type_ q) (num_jfiles q) (num_thread_enqueue q)
    (num_thread_dequeue q) (compact q) (smart_async q) (acceptRecovery q) (mongoHost q) v (mongoDbName q)
    (mongoCollection q) (enqLogCleanerTimeInterval q) (deqLogCleanerTimeInterval q)
    (enqLogCleanerWarningSize q) (deqLogCleanerWarningSize q).
Definition assign_mongoDbName (v : string) q : Props :=
  mkProps
    (brokerRef q) (location q) (bdbBaseDir q) (type_ q) (num_jfiles q) (num_thread_enqueue q)
    (num_thread_dequeue q) (compact q) (smart_async q) (acceptRecovery q) (mongoHost q) (mongoPort q) v
    (mongoCollection q) (enqLogCleanerTimeInterval q) (deqLogCleanerTimeInterval q)
    (enqLogCleanerWarningSize q) (deqLogCleanerWarningSize q).
Definition assign_mongoCollection (v : string) q : Props :=
  mkProps
    (brokerRef q) (location q) (bdbBaseDir q) (type_ q) (num_jfiles q) (num_thread_enqueue q)
    (num_thread_dequeue q) (compact q) (smart_async q) (acceptRecovery q) (mongoHost q) (mongoPort q)
    (mongoDbName q) v (enqLogCleanerTimeInterval q) (deqLogCleanerTimeInterval q)
    (enqLogCleanerWarningSize q) (deqLogCleanerWarningSize q).
Definition assign_enqLogCleanerTimeInterval (v : Z) q : Props :=
  mkProps
    (brokerRef q) (location q) (bdbBaseDir q) (type_ q) (num_jfiles q) (num_thread_enqueue q)
    (num_thread_dequeue q) (compact q) (smart_async q) (acceptRecovery q) (mongoHost q) (mongoPort q)
    (mongoDbName q) (mongoCollection q) v (deqLogCleanerTimeInterval q) (enqLogCleanerWarningSize q)
    (deqLogCleanerWarningSize q).
Definition assign_deqLogCleanerTimeInterval (v : Z) q : Props :=
  mkProps
    (brokerRef q) (location q) (bdbBaseDir q) (type_ q) (num_jfiles q) (num_thread_enqueue q)
    (num_thread_dequeue q) (compact q) (smart_async q) (acceptRecovery q) (mongoHost q) (mongoPort q)
    (mongoDbName q) (mongoCollection q) (enqLogCleanerTimeInterval q) v (enqLogCleanerWarningSize q)
    (deqLogCleanerWarningSize q).
Definition assign_enqLogCleanerWarningSize (v : Z) q : Props :=
  mkProps
    (brokerRef q) (location q) (bdbBaseDir q) (type_ q) (num_jfiles q) (num_thread_enqueue q)
    (num_thread_dequeue q) (compact q) (smart_async q) (acceptRecovery q) (mongoHost q) (mongoPort q)
    (mongoDbName q) (mongoCollection q) (enqLogCleanerTimeInterval q) (deqLogCleanerTimeInterval q) v
    (deqLogCleanerWarningSize q).
Definition assign_deqLogCleanerWarningSize (v : Z) q : Props :=
  mkProps
    (brokerRef q) (location q) (bdbBaseDir q) (type_ q) (num_jfiles q) (num_thread_enqueue q)
    (num_thread_dequeue q) (compact q) (smart_async q) (acceptRecovery q) (mongoHost q) (mongoPort q)
    (mongoDbName q) (mongoCollection q) (enqLogCleanerTimeInterval q) (deqLogCleanerTimeInterval q)
    (enqLogCleanerWarningSize q) v.

Record t := mk { props : Props; configChanged : bool; stats : Stats; base : Base }.
Implicit Types (o : t).

Definition lift (f : Props -> Props) o : t := mk (f (props o)) (configChanged o) (stats o) (base o).
Definition set_stats (s : Stats) o : t := mk (props o) (configChanged o) s (base o).
Definition set_configChanged (b : bool) o : t := mk (props o) b (stats o) (base o).

(** The constructor: [parent] is the object id of the parent's management object. *)
Definition StorageProvider (maxThreads : nat) (parent : ObjectId) : t :=
  mk (mkProps parent "" "" "" 0 0 0 false false false "" "" "" "" 0 0 0 0) configChanged_new
    (stats_ctor maxThreads instChanged_new) base_new.

(** ** Accessors *)

Definition set_brokerRef (val : ObjectId) o : t := set_configChanged true (lift (assign_brokerRef val) o).
Definition get_brokerRef o : ObjectId := brokerRef (props o).
Definition set_location (val : string) o : t := set_configChanged true (lift (assign_location val) o).
Definition get_location o : string := location (props o).
Definition set_bdbBaseDir (val : string) o : t := set_configChanged true (lift (assign_bdbBaseDir val) o).
Definition get_bdbBaseDir o : string := bdbBaseDir (props o).
Definition set_type (val : string) o : t := set_configChanged true (lift (assign_type val) o).
Definition get_type o : string := type_ (props o).
Definition set_num_jfiles (val : Z) o : t := set_configChanged true (lift (assign_num_jfiles val) o).
Definition get_num_jfiles o : Z := num_jfiles (props o).
Definition set_num_thread_enqueue (val : Z) o : t := set_configChanged true (lift (assign_num_thread_enqueue val) o).
Definition get_num_thread_enqueue o : Z := num_thread_enqueue (props o).
Definition set_num_thread_dequeue (val : Z) o : t := set_configChanged true (lift (assign_num_thread_dequeue val) o).
Definition get_num_thread_dequeue o : Z := num_thread_dequeue (props o).
Definition set_compact (val : bool) o : t := set_configChanged true (lift (assign_compact val) o).
Definition get_compact o : bool := compact (props o).
Definition set_smart_async (val : bool) o : t := set_configChanged true (lift (assign_smart_async val) o).
Definition get_smart_async o : bool := smart_async (props o).
Definition set_acceptRecovery (val : bool) o : t := set_configChanged true (lift (assign_acceptRecovery val) o).
Definition get_acceptRecovery o : bool := acceptRecovery (props o).
Definition set_mongoHost (val : string) o : t := set_configChanged true (lift (assign_mongoHost val) o).
Definition get_mongoHost o : string := mongoHost (props o).
Definition set_mongoPort (val : string) o : t := set_configChanged true (lift (assign_mongoPort val) o).
Definition get_mongoPort o : string := mongoPort (props o).
Definition set_mongoDbName (val : string) o : t := set_configChanged true (lift (assign_mongoDbName val) o).
Definition get_mongoDbName o : string := mongoDbName (props o).
Definition set_mongoCollection (val : string) o : t := set_configChanged true (lift (assign_mongoCollection val) o).
Definition get_mongoCollection o : string := mongoCollection (props o).
Definition set_enqLogCleanerTimeInterval (val : Z) o : t := set_configChanged true (lift (assign_enqLogCleanerTimeInterval val) o).
Definition get_enqLogCleanerTimeInterval o : Z := enqLogCleanerTimeInterval (props o).
Definition set_deqLogCleanerTimeInterval (val : Z) o : t := set_configChanged true (lift (assign_deqLogCleanerTimeInterval val) o).
Definition get_deqLogCleanerTimeInterval o : Z := deqLogCleanerTimeInterval (props o).
Definition set_enqLogCleanerWarningSize (val : Z) o : t := set_configChanged true (lift (assign_enqLogCleanerWarningSize val) o).
Definition get_enqLogCleanerWarningSize o : Z := enqLogCleanerWarningSize (props o).
Definition set_deqLogCleanerWarningSize (val : Z) o : t := set_configChanged true (lift (assign_deqLogCleanerWarningSize val) o).
Definition get_deqLogCleanerWarningSize o : Z := deqLogCleanerWarningSize (props o).

(** ** Schema *)

Definition config_schema : list schema_elt :=
  [mkElt "brokerRef" TYPE_REF (Some true) [];
   mkElt "location" TYPE_SSTR (Some false) [("desc", "Logical directory on disk")];
   mkElt "bdbBaseDir" TYPE_SSTR (Some false) [("desc", "Directory used for Berkeley Db Environment")];
   mkElt "type" TYPE_SSTR (Some true) [("desc", "Provider Name")];
   mkElt "num_jfiles" TYPE_U32 (Some false) [("desc", "Default number of files used for Journal")];
   mkElt "num_thread_enqueue" TYPE_U32 (Some false) [("desc", "Number of threads used for enqueue thread pool")];
   mkElt "num_thread_dequeue" TYPE_U32 (Some false) [("desc", "Number of threads used for dequeue thread pool")];
   mkElt "compact" TYPE_BOOL (Some false) [("desc", "Compact flag option")];
   mkElt "smart_async" TYPE_BOOL (Some false) [("desc", "Smart Async flag option")];
   mkElt "acceptRecovery" TYPE_BOOL (Some false) [("desc", "Accept Recovery option")];
   mkElt "mongoHost" TYPE_SSTR (Some false) [("desc", "Mongo Database Host for Accept Recovery")];
   mkElt "mongoPort" TYPE_SSTR (Some false) [("desc", "Mongo Database Port for Accept Recovery")];
   mkElt "mongoDbName" TYPE_SSTR (Some false) [("desc", "Mongo Database Name for Accept Recovery")];
   mkElt "mongoCollection" TYPE_SSTR (Some false) [("desc", "Mongo Collection Name for Accept Recovery")];
   mkElt "enqLogCleanerTimeInterval" TYPE_U32 (Some false) [("unit", "second"); ("desc", "Enqueue log cleaner time interval")];
   mkElt "deqLogCleanerTimeInterval" TYPE_U32 (Some false) [("unit", "second"); ("desc", "Dequeue Log cleaner time interval")];
   mkElt "enqLogCleanerWarningSize" TYPE_U32 (Some false) [("unit", "byte"); ("desc", "Enqueue Log cleaner warning size")];
   mkElt "deqLogCleanerWarningSize" TYPE_U32 (Some false) [("unit", "byte"); ("desc", "Dequeue Log cleaner warning size")]].
Definition inst_schema : list schema_elt :=
  [mkElt "pendingAsyncEnqueue" TYPE_U32 None [("desc", "Async Enqueue operations currently in the thread pool")];
   mkElt "pendingAsyncDequeue" TYPE_U32 None [("desc", "Async Dequeue operations currently in the thread pool")];
   mkElt "executedEnqueue" TYPE_U32 None [("desc", "Number of Enqueue executed by the store")];
   mkElt "executedDequeue" TYPE_U32 None [("desc", "Number of Dequeue executed by the store")];
   mkElt "skippedEnqueue" TYPE_U32 None [("desc", "Number of Enqueue skipped due to smart async")];
   mkElt "skippedDequeue" TYPE_U32 None [("desc", "Number of Dequeue skipped due to smart async")];
   mkElt "totalEnqueueTime" TYPE_U64 None [("desc", "Total time spent in enqueue operations")];
   mkElt "totalDequeueTime" TYPE_U64 None [("desc", "Total time spent in dequeue operations")];
   mkElt "enqueueTimeSamples" TYPE_DELTATIME None [("desc", " (Samples)")];
   mkElt "enqueueTimeMin" TYPE_DELTATIME None [("desc", " (Min)")];
   mkElt "enqueueTimeMax" TYPE_DELTATIME None [("desc", " (Max)")];
   mkElt "enqueueTimeAverage" TYPE_DELTATIME None [("desc", " (Average)")];
   mkElt "dequeueTimeSamples" TYPE_DELTATIME None [("desc", " (Samples)")];
   mkElt "dequeueTimeMin" TYPE_DELTATIME None [("desc", " (Min)")];
   mkElt "dequeueTimeMax" TYPE_DELTATIME None [("desc", " (Max)")];
   mkElt "dequeueTimeAverage" TYPE_DELTATIME None [("desc", " (Average)")]].

(** [writeSchema], with its literal element counts. *)
Definition writeSchema : option (list byte) :=
  buf_puts bufSize
    ([[CLASS_KIND_TABLE]; put_shortstr packageName; put_shortstr className; put_bin128 md5Sum;
      put_short 18; put_short 16; put_short 0] ++
     map (fun e => put_map (elt_map e)) (config_schema ++ inst_schema)).

(** ** Buffers *)

Definition writePropertiesSize o : Z :=
  let q := props o in
  u32 (writeTimestampsSize packageName className +
    16 + (1 + Z.of_nat (String.length (location q))) + (1 + Z.of_nat (String.length (bdbBaseDir q))) +
    (1 + Z.of_nat (String.length (type_ q))) + 4 + 4 + 4 + 1 + 1 + 1 +
    (1 + Z.of_nat (String.length (mongoHost q))) + (1 + Z.of_nat (String.length (mongoPort q))) +
    (1 + Z.of_nat (String.length (mongoDbName q))) + (1 + Z.of_nat (String.length (mongoCollection q))) +
    4 + 4 + 4 + 4).

(** [readProperties]: whether every get succeeded, and the object. *)
Definition readProperties (sBuf : list byte) o : bool * t :=
  run_readers
    [rd_raw (Z.to_nat (writeTimestampsSize packageName className))
       (fun s o => mk (props o) (configChanged o) (stats o) (readTimestamps s (base o)));
     rd_raw 16 (fun s => lift (fun q => assign_brokerRef (oid_decode s (brokerRef q)) q));
     rd_sstr (fun v => lift (assign_location v));
     rd_sstr (fun v => lift (assign_bdbBaseDir v));
     rd_sstr (fun v => lift (assign_type v));
     rd_long (fun v => lift (assign_num_jfiles v));
     rd_long (fun v => lift (assign_num_thread_enqueue v));
     rd_long (fun v => lift (assign_num_thread_dequeue v));
     rd_octet (fun v => lift (assign_compact (v =? 1)));
     rd_octet (fun v => lift (assign_smart_async (v =? 1)));
     rd_octet (fun v => lift (assign_acceptRecovery (v =? 1)));
     rd_sstr (fun v => lift (assign_mongoHost v));
     rd_sstr (fun v => lift (assign_mongoPort v));
     rd_sstr (fun v => lift (assign_mongoDbName v));
     rd_sstr (fun v => lift (assign_mongoCollection v));
     rd_long (fun v => lift (assign_enqLogCleanerTimeInterval v));
     rd_long (fun v => lift (assign_deqLogCleanerTimeInterval v));
     rd_long (fun v => lift (assign_enqLogCleanerWarningSize v));
     rd_long (fun v => lift (assign_deqLogCleanerWarningSize v))] sBuf o.

Definition properties_bytes o : list (list byte) :=
  let q := props o in
  [writeTimestamps packageName className md5Sum (base o);
   oid_encode (brokerRef q);
   put_shortstr (location q);
   put_shortstr (bdbBaseDir q);
   put_shortstr (type_ q);
   put_long (num_jfiles q);
   put_long (num_thread_enqueue q);
   put_long (num_thread_dequeue q);
   [if compact q then x01 else x00];
   [if smart_async q then x01 else x00];
   [if acceptRecovery q then x01 else x00];
   put_shortstr (mongoHost q);
   put_shortstr (mongoPort q);
   put_shortstr (mongoDbName q);
   put_shortstr (mongoCollection q);
   put_long (enqLogCleanerTimeInterval q);
   put_long (deqLogCleanerTimeInterval q);
   put_long (enqLogCleanerWarningSize q);
   put_long (deqLogCleanerWarningSize q)].
Definition writeProperties o : option (list byte) * t :=
  (buf_puts bufSize (properties_bytes o), set_configChanged false o).

Definition hilo_bytes (h : hilo) : list (list byte) := map put_longlong (hilo_report h).
Definition statistics_bytes (totals : PerThreadStats) : list (list byte) :=
  [put_long (pendingAsyncEnqueue totals);
   put_long (pendingAsyncDequeue totals);
   put_long (executedEnqueue totals);
   put_long (executedDequeue totals);
   put_long (skippedEnqueue totals);
   put_long (skippedDequeue totals);
   put_longlong (totalEnqueueTime totals);
   put_longlong (totalDequeueTime totals)] ++
  hilo_bytes (enqueueTime totals) ++ hilo_bytes (dequeueTime totals).
Definition writeStatistics (skipHeaders : bool) o : option (list byte) * t :=
  let '(totals, st) := report_totals (stats o) in
  let header := if skipHeaders then [] else [writeTimestamps packageName className md5Sum (base o)] in
  (buf_puts bufSize (header ++ statistics_bytes totals), set_stats (reset_slots st) o).

(** ** Methods and keys *)

Definition doMethod : option (list byte) :=
  buf_puts bufSize [put_long STATUS_UNKNOWN_METHOD; put_shortstr (StatusText STATUS_UNKNOWN_METHOD)].
Definition doMethod_map (outMap : gmap string Variant) : gmap string Variant :=
  <["_status_text" := var_str (StatusText STATUS_UNKNOWN_METHOD)]>
    (<["_status_code" := var_u32 STATUS_UNKNOWN_METHOD]> outMap).

Definition getKey o : string := getV2Key (brokerRef (props o)) +:+ "," +:+ type_ (props o).

(** ** Maps *)

Definition property_entries q : list (string * Variant) :=
  [("brokerRef", var_oid (brokerRef q));
   ("location", var_str (location q));
   ("bdbBaseDir", var_str (bdbBaseDir q));
   ("type", var_str (type_ q));
   ("num_jfiles", var_u32 (num_jfiles q));
   ("num_thread_enqueue", var_u32 (num_thread_enqueue q));
   ("num_thread_dequeue", var_u32 (num_thread_dequeue q));
   ("compact", var_bool (compact q));
   ("smart_async", var_bool (smart_async q));
   ("acceptRecovery", var_bool (acceptRecovery q));
   ("mongoHost", var_str (mongoHost q));
   ("mongoPort", var_str (mongoPort q));
   ("mongoDbName", var_str (mongoDbName q));
   ("mongoCollection", var_str (mongoCollection q));
   ("enqLogCleanerTimeInterval", var_u32 (enqLogCleanerTimeInterval q));
   ("deqLogCleanerTimeInterval", var_u32 (deqLogCleanerTimeInterval q));
   ("enqLogCleanerWarningSize", var_u32 (enqLogCleanerWarningSize q));
   ("deqLogCleanerWarningSize", var_u32 (deqLogCleanerWarningSize q))].

(** [Variant(0)] is an integer, not an unsigned one. *)
Definition hilo_entries (name : string) (h : hilo) : list (string * Variant) :=
  [(name +:+ "Count", var_u64 (h_count h));
   (name +:+ "Min", if h_count h =? 0 then var_int 0 else var_u64 (h_min h));
   (name +:+ "Max", var_u64 (h_max h));
   (name +:+ "Avg", if h_count h =? 0 then var_int 0 else var_u64 (h_total h / h_count h))].
Definition statistic_entries (totals : PerThreadStats) : list (string * Variant) :=
  [("pendingAsyncEnqueue", var_u32 (pendingAsyncEnqueue totals));
   ("pendingAsyncDequeue", var_u32 (pendingAsyncDequeue totals));
   ("executedEnqueue", var_u32 (executedEnqueue totals));
   ("executedDequeue", var_u32 (executedDequeue totals));
   ("skippedEnqueue", var_u32 (skippedEnqueue totals));
   ("skippedDequeue", var_u32 (skippedDequeue totals));
   ("totalEnqueueTime", var_u64 (totalEnqueueTime totals));
   ("totalDequeueTime", var_u64 (totalDequeueTime totals))] ++
  hilo_entries "enqueueTime" (enqueueTime totals) ++ hilo_entries "dequeueTime" (dequeueTime totals).

Definition mapEncodeValues (m : gmap string Variant) (includeProperties includeStatistics : bool) o :
    gmap string Variant * t :=
  let '(m, o) := if includeProperties
                 then (put_entries (property_entries (props o)) m, set_configChanged false o) else (m, o) in
  if includeStatistics then
    let '(totals, st) := report_totals (stats o) in
    (put_entries (statistic_entries totals) m, set_stats (reset_slots st) o)
  else (m, o).

(** [mapDecodeValues]: whether every conversion succeeded, and the object. *)
Definition mapDecodeValues (m : gmap string Variant) o : bool * t :=
  decode_entries
    [decode_entry "brokerRef" as_oid (fun v => lift (assign_brokerRef v));
     decode_entry "location" getString (fun v => lift (assign_location v));
     decode_entry "bdbBaseDir" getString (fun v => lift (assign_bdbBaseDir v));
     decode_entry "type" getString (fun v => lift (assign_type v));
     decode_entry "num_jfiles" as_u32 (fun v => lift (assign_num_jfiles v));
     decode_entry "num_thread_enqueue" as_u32 (fun v => lift (assign_num_thread_enqueue v));
     decode_entry "num_thread_dequeue" as_u32 (fun v => lift (assign_num_thread_dequeue v));
     decode_entry "compact" as_bool (fun v => lift (assign_compact v));
     decode_entry "smart_async" as_bool (fun v => lift (assign_smart_async v));
     decode_entry "acceptRecovery" as_bool (fun v => lift (assign_acceptRecovery v));
     decode_entry "mongoHost" getString (fun v => lift (assign_mongoHost v));
     decode_entry "mongoPort" getString (fun v => lift (assign_mongoPort v));
     decode_entry "mongoDbName" getString (fun v => lift (assign_mongoDbName v));
     decode_entry "mongoCollection" getString (fun v => lift (assign_mongoCollection v));
     decode_entry "enqLogCleanerTimeInterval" as_u32 (fun v => lift (assign_enqLogCleanerTimeInterval v));
     decode_entry "deqLogCleanerTimeInterval" as_u32 (fun v => lift (assign_deqLogCleanerTimeInterval v));
     decode_entry "enqLogCleanerWarningSize" as_u32 (fun v => lift (assign_enqLogCleanerWarningSize v));
     decode_entry "deqLogCleanerWarningSize" as_u32 (fun v => lift (assign_deqLogCleanerWarningSize v))] m o.

End storage_provider.
Arguments t {_}.
Arguments Props {_}.
End StorageProviderQmf.
