(* ===== verification/QmfJournal.v ===== *)
(** The management class Journal:
    lib/gen/qmf/com/atono/server/qpid/bdbstore/Journal.h and .cpp. It has properties and no
    statistics. *)
From S2P Require Import Prelude Bdb Framing Qmf.
From Stdlib Require Import ZArith Lia.

Module JournalQmf.

Definition packageName : string := "com.atono.server.qpid.bdbstore".
Definition className : string := "journal".
Definition md5Sum : list Z :=
  [167; 181; 115; 171; 84; 119; 4; 170; 35; 38; 27; 241; 125; 243; 165; 51].

Section journal.
Context `{Framing, Qmf}.

Record Props := mkProps {
  queueRef : ObjectId;
  name : string;
  directory : string;
  bdbDir : string;
  num_jfiles : Z
}.
Implicit Types (q : Props).

(** Assignments to the members. *)
Definition assign_queueRef (v : ObjectId) q : Props :=
  mkProps
    v (name q) (directory q) (bdbDir q) (num_jfiles q).
Definition assign_name (v : string) q : Props :=
  mkProps
    (queueRef q) v (directory q) (bdbDir q) (num_jfiles q).
Definition assign_directory (v : string) q : Props :=
  mkProps
    (queueRef q) (name q) v (bdbDir q) (num_jfiles q).
Definition assign_bdbDir (v : string) q : Props :=
  mkProps
    (queueRef q) (name q) (directory q) v (num_jfiles q).
Definition assign_num_jfiles (v : Z) q : Props :=
  mkProps
    (queueRef q) (name q) (directory q) (bdbDir q) v.

Record t := mk { props : Props; configChanged : bool; instChanged : bool; base : Base }.
Implicit Types (o : t).

Definition lift (f : Props -> Props) o : t := mk (f (props o)) (configChanged o) (instChanged o) (base o).
Definition set_configChanged (b : bool) o : t := mk (props o) b (instChanged o) (base o).
Definition set_instChanged (b : bool) o : t := mk (props o) (configChanged o) b (base o).

Definition Journal : t := mk (mkProps oid_none "" "" "" 0) configChanged_new instChanged_new base_new.

(** ** Accessors *)

(** [setReference] sets no flag. *)
Definition setReference (objectId : ObjectId) o : t := lift (assign_queueRef objectId) o.
(** The stubs of a class without statistics. *)
Definition getInstChanged o : bool := false.
Definition hasInst o : bool := false.

Definition set_queueRef (val : ObjectId) o : t := set_configChanged true (lift (assign_queueRef val) o).
Definition get_queueRef o : ObjectId := queueRef (props o).
Definition set_name (val : string) o : t := set_configChanged true (lift (assign_name val) o).
Definition get_name o : string := name (props o).
Definition set_directory (val : string) o : t := set_configChanged true (lift (assign_directory val) o).
Definition get_directory o : string := directory (props o).
Definition set_bdbDir (val : string) o : t := set_configChanged true (lift (assign_bdbDir val) o).
Definition get_bdbDir o : string := bdbDir (props o).
Definition set_num_jfiles (val : Z) o : t := set_configChanged true (lift (assign_num_jfiles val) o).
Definition get_num_jfiles o : Z := num_jfiles (props o).

(** ** Schema *)

Definition config_schema : list schema_elt :=
  [mkElt "queueRef" TYPE_REF (Some false) [];
   mkElt "name" TYPE_SSTR (Some true) [];
   mkElt "directory" TYPE_SSTR (Some false) [("desc", "Directory containing journal files")];
   mkElt "bdbDir" TYPE_SSTR (Some false) [("desc", "Berkeley DB directory")];
   mkElt "num_jfiles" TYPE_U32 (Some false) [("desc", "Number of files used for this journal")]].

Definition writeSchema : option (list byte) :=
  buf_puts bufSize
    ([[CLASS_KIND_TABLE]; put_shortstr packageName; put_shortstr className; put_bin128 md5Sum;
      put_short 5; put_short 0; put_short 0] ++ map (fun e => put_map (elt_map e)) config_schema).

(** ** Buffers *)

Definition writePropertiesSize o : Z :=
  let q := props o in
  u32 (writeTimestampsSize packageName className +
    16 + (1 + Z.of_nat (String.length (name q))) + (1 + Z.of_nat (String.length (directory q))) +
    (1 + Z.of_nat (String.length (bdbDir q))) + 4).

Definition readProperties (sBuf : list byte) o : bool * t :=
  run_readers
    [rd_raw (Z.to_nat (writeTimestampsSize packageName className))
       (fun s o => mk (props o) (configChanged o) (instChanged o) (readTimestamps s (base o)));
     rd_raw 16 (fun s => lift (fun q => assign_queueRef (oid_decode s (queueRef q)) q));
     rd_sstr (fun v => lift (assign_name v));
     rd_sstr (fun v => lift (assign_directory v));
     rd_sstr (fun v => lift (assign_bdbDir v));
     rd_long (fun v => lift (assign_num_jfiles v))] sBuf o.

Definition properties_bytes o : list (list byte) :=
  let q := props o in
  [writeTimestamps packageName className md5Sum (base o);
   oid_encode (queueRef q);
   put_shortstr (name q);
   put_shortstr (directory q);
   put_shortstr (bdbDir q);
   put_long (num_jfiles q)].
Definition writeProperties o : option (list byte) * t :=
  (buf_puts bufSize (properties_bytes o), set_configChanged false o).
Definition writeStatistics (skipHeaders : bool) o : option (list byte) * t :=
  (buf_puts bufSize (if skipHeaders then [] else [writeTimestamps packageName className md5Sum (base o)]),
   set_instChanged false o).

(** ** Methods and keys *)

Definition doMethod : option (list byte) :=
  buf_puts bufSize [put_long STATUS_UNKNOWN_METHOD; put_shortstr (StatusText STATUS_UNKNOWN_METHOD)].
Definition doMethod_map (outMap : gmap string Variant) : gmap string Variant :=
  <["_status_text" := var_str (StatusText STATUS_UNKNOWN_METHOD)]>
    (<["_status_code" := var_u32 STATUS_UNKNOWN_METHOD]> outMap).

Definition getKey o : string := name (props o).

(** ** Maps *)

Definition property_entries q : list (string * Variant) :=
  [("queueRef", var_oid (queueRef q));
   ("name", var_str (name q));
   ("directory", var_str (directory q));
   ("bdbDir", var_str (bdbDir q));
   ("num_jfiles", var_u32 (num_jfiles q))].

Definition mapEncodeValues (m : gmap string Variant) (includeProperties includeStatistics : bool) o :
    gmap string Variant * t :=
  let '(m, o) := if includeProperties
                 then (put_entries (property_entries (props o)) m, set_configChanged false o) else (m, o) in
  if includeStatistics then (m, set_instChanged false o) else (m, o).

Definition mapDecodeValues (m : gmap string Variant) o : bool * t :=
  decode_entries
    [decode_entry "queueRef" as_oid (fun v => lift (assign_queueRef v));
     decode_entry "name" getString (fun v => lift (assign_name v));
     decode_entry "directory" getString (fun v => lift (assign_directory v));
     decode_entry "bdbDir" getString (fun v => lift (assign_bdbDir v));
     decode_entry "num_jfiles" as_u32 (fun v => lift (assign_num_jfiles v))] m o.

End journal.
Arguments t {_}.
Arguments Props {_}.
End JournalQmf.
