(* ===== verification/QmfEvents.v ===== *)
(** The management events and the registration of the package:
    lib/gen/qmf/com/atono/server/qpid/bdbstore/Event*.h, Event*.cpp and Package.cpp.

    The store registers the schemas of all four with the management agent. It raises
    [EventCreated] and [EventRecovered] (see [QmfProvider]) and never the other two. An event holds references to its strings; it is modelled by the
    strings, so its creator must outlive it. *)
From S2P Require Import Prelude Bdb Framing Qmf QmfStats QmfStorageProvider QmfJournal.
From Stdlib Require Import ZArith Lia.

Module EventCreated.
Record t := mk { jrnlId : string }.
Definition packageName : string := "com.atono.server.qpid.bdbstore".
Definition eventName : string := "created".
Definition md5Sum : list Z :=
  [50; 0; 73; 52; 200; 221; 221; 47; 60; 3; 210; 89; 86; 60; 128; 151].
Definition getSeverity : Z := 5.
Definition arguments : list schema_elt :=
  [mkElt "jrnlId" TYPE_SSTR None [("desc", "Journal Id")]].
Section event.
Context `{Framing, Qmf}.
Definition writeSchema : option (list byte) :=
  buf_puts bufSize
    ([[CLASS_KIND_EVENT]; put_shortstr packageName; put_shortstr eventName; put_bin128 md5Sum; put_short 1] ++
     map (fun e => put_map (elt_map e)) arguments).
Definition encode (e : t) : option (list byte) :=
  buf_puts bufSize [put_shortstr (jrnlId e)].
Definition mapEncode (e : t) (m : gmap string Variant) : gmap string Variant :=
  put_entries [("jrnlId", var_str (jrnlId e))] m.
End event.
End EventCreated.

Module EventEnqThresholdExceeded.
Record t := mk { jrnlId : string; what : string }.
Definition packageName : string := "com.atono.server.qpid.bdbstore".
Definition eventName : string := "enqThresholdExceeded".
Definition md5Sum : list Z :=
  [91; 31; 212; 135; 156; 246; 30; 195; 220; 62; 196; 4; 73; 243; 168; 243].
Definition getSeverity : Z := 4.
Definition arguments : list schema_elt :=
  [mkElt "jrnlId" TYPE_SSTR None [("desc", "Journal Id")];
   mkElt "what" TYPE_SSTR None [("desc", "Description of event")]].
Section event.
Context `{Framing, Qmf}.
Definition writeSchema : option (list byte) :=
  buf_puts bufSize
    ([[CLASS_KIND_EVENT]; put_shortstr packageName; put_shortstr eventName; put_bin128 md5Sum; put_short 2] ++
     map (fun e => put_map (elt_map e)) arguments).
Definition encode (e : t) : option (list byte) :=
  buf_puts bufSize [put_shortstr (jrnlId e); put_shortstr (what e)].
Definition mapEncode (e : t) (m : gmap string Variant) : gmap string Variant :=
  put_entries [("jrnlId", var_str (jrnlId e)); ("what", var_str (what e))] m.
End event.
End EventEnqThresholdExceeded.

Module EventFull.
Record t := mk { jrnlId : string; what : string }.
Definition packageName : string := "com.atono.server.qpid.bdbstore".
Definition eventName : string := "full".
Definition md5Sum : list Z :=
  [35; 76; 112; 193; 176; 235; 78; 93; 114; 55; 86; 96; 195; 16; 120; 104].
Definition getSeverity : Z := 3.
Definition arguments : list schema_elt :=
  [mkElt "jrnlId" TYPE_SSTR None [("desc", "Journal Id")];
   mkElt "what" TYPE_SSTR None [("desc", "Description of event")]].
Section event.
Context `{Framing, Qmf}.
Definition writeSchema : option (list byte) :=
  buf_puts bufSize
    ([[CLASS_KIND_EVENT]; put_shortstr packageName; put_shortstr eventName; put_bin128 md5Sum; put_short 2] ++
     map (fun e => put_map (elt_map e)) arguments).
Definition encode (e : t) : option (list byte) :=
  buf_puts bufSize [put_shortstr (jrnlId e); put_shortstr (what e)].
Definition mapEncode (e : t) (m : gmap string Variant) : gmap string Variant :=
  put_entries [("jrnlId", var_str (jrnlId e)); ("what", var_str (what e))] m.
End event.
End EventFull.

Module EventRecovered.
Record t := mk { jrnlId : string }.
Definition packageName : string := "com.atono.server.qpid.bdbstore".
Definition eventName : string := "recovered".
Definition md5Sum : list Z :=
  [157; 59; 158; 62; 90; 23; 116; 46; 188; 213; 163; 107; 194; 125; 144; 81].
Definition getSeverity : Z := 5.
Definition arguments : list schema_elt :=
  [mkElt "jrnlId" TYPE_SSTR None [("desc", "Journal Id")]].
Section event.
Context `{Framing, Qmf}.
Definition writeSchema : option (list byte) :=
  buf_puts bufSize
    ([[CLASS_KIND_EVENT]; put_shortstr packageName; put_shortstr eventName; put_bin128 md5Sum; put_short 1] ++
     map (fun e => put_map (elt_map e)) arguments).
Definition encode (e : t) : option (list byte) :=
  buf_puts bufSize [put_shortstr (jrnlId e)].
Definition mapEncode (e : t) (m : gmap string Variant) : gmap string Variant :=
  put_entries [("jrnlId", var_str (jrnlId e))] m.
End event.
End EventRecovered.

(** ** The agent *)

(** What [registerClass] and [registerEvent] are given: whether it is an event, the package, the name and
    the hash, and the bytes that the schema function writes. *)
Record registration := mkReg {
  reg_event : bool; reg_package : string; reg_name : string; reg_md5 : list Z; reg_schema : option (list byte)
}.

Section package.
Context `{Framing, Qmf}.

Definition StorageProvider_registerSelf : registration :=
  mkReg false StorageProviderQmf.packageName StorageProviderQmf.className StorageProviderQmf.md5Sum
    StorageProviderQmf.writeSchema.
Definition Journal_registerSelf : registration :=
  mkReg false JournalQmf.packageName JournalQmf.className JournalQmf.md5Sum JournalQmf.writeSchema.
Definition EventCreated_registerSelf : registration :=
  mkReg true EventCreated.packageName EventCreated.eventName EventCreated.md5Sum EventCreated.writeSchema.
Definition EventEnqThresholdExceeded_registerSelf : registration :=
  mkReg true EventEnqThresholdExceeded.packageName EventEnqThresholdExceeded.eventName EventEnqThresholdExceeded.md5Sum EventEnqThresholdExceeded.writeSchema.
Definition EventFull_registerSelf : registration :=
  mkReg true EventFull.packageName EventFull.eventName EventFull.md5Sum EventFull.writeSchema.
Definition EventRecovered_registerSelf : registration :=
  mkReg true EventRecovered.packageName EventRecovered.eventName EventRecovered.md5Sum EventRecovered.writeSchema.

(** The constructor of [Package]: the registrations, in order. *)
Definition Package : list registration :=
  [StorageProvider_registerSelf; Journal_registerSelf; EventEnqThresholdExceeded_registerSelf;
   EventCreated_registerSelf; EventFull_registerSelf; EventRecovered_registerSelf].

End package.
