(* ===== verification/QmfSpec.v ===== *)
(** What the management objects promise: the properties survive the trip through a buffer
    and through a map, and the maps have the types that the schemas announce. *)
From S2P Require Import Prelude Bdb Framing Qmf QmfStats QmfStatsSpec QmfStorageProvider QmfJournal QmfEvents.
From Stdlib Require Import ZArith Lia.

(** A string that fits in an AMQP short string. *)
Definition short (s : string) : Prop := (String.length s < 256)%nat.

Lemma short_bytes `{Framing} s : short s -> length (put_shortstr s) = (1 + String.length s)%nat.
Proof. apply put_shortstr_length. Qed.

Lemma octet_bool (b : bool) : (Z_of_byte (if b then x01 else x00) =? 1) = b.
Proof. by destruct b. Qed.

(** One get of a reader that undoes one put. *)
Lemma rd_octet_app {O} (b : byte) (set : Z -> O -> O) rest :
  rd_octet set ([b] ++ rest) = Some (set (Z_of_byte b), rest).
Proof. done. Qed.

(** Reads back what a list of puts wrote, put by put. *)
Ltac read_next :=
  cbn [concat]; etransitivity;
  [eapply run_readers_next; first [apply rd_raw_app | apply rd_sstr_app | apply rd_long_app | apply rd_octet_app];
   assumption|].

Module SP := StorageProviderQmf.

Section storage_provider.
Context `{Framing, Qmf}.
Implicit Types (o : SP.t) (q : SP.Props).

(** Properties that can be written: strings of less than 256 bytes, 32-bit numbers and an id with
    a form on the wire. *)
Record sp_wire q : Prop := {
  w_brokerRef : oid_wire (SP.brokerRef q);
  w_strings : Forall short [SP.location q; SP.bdbBaseDir q; SP.type_ q; SP.mongoHost q; SP.mongoPort q;
                            SP.mongoDbName q; SP.mongoCollection q];
  w_numbers : Forall is_u32 [SP.num_jfiles q; SP.num_thread_enqueue q; SP.num_thread_dequeue q;
                             SP.enqLogCleanerTimeInterval q; SP.deqLogCleanerTimeInterval q;
                             SP.enqLogCleanerWarningSize q; SP.deqLogCleanerWarningSize q]
}.

Lemma sp_names : short SP.packageName /\ short SP.className.
Proof. split; vm_compute; lia. Qed.

Lemma sp_bytes_length o :
  sp_wire (SP.props o) -> Z.of_nat (length (concat (SP.properties_bytes o))) = SP.writePropertiesSize o /\
  (length (concat (SP.properties_bytes o)) <= bufSize)%nat.
Proof.
  intros [_ Hs _]. destruct sp_names as [Np Nc].
  repeat (apply Forall_cons in Hs as [? Hs]). clear Hs.
  assert (E : length (concat (SP.properties_bytes o)) =
          (42 + String.length SP.packageName + String.length SP.className + 16 +
           (1 + String.length (SP.location (SP.props o))) + (1 + String.length (SP.bdbBaseDir (SP.props o))) +
           (1 + String.length (SP.type_ (SP.props o))) + 4 + 4 + 4 + 1 + 1 + 1 +
           (1 + String.length (SP.mongoHost (SP.props o))) + (1 + String.length (SP.mongoPort (SP.props o))) +
           (1 + String.length (SP.mongoDbName (SP.props o))) + (1 + String.length (SP.mongoCollection (SP.props o))) +
           4 + 4 + 4 + 4)%nat).
  { unfold SP.properties_bytes. cbn [concat]. rewrite !length_app, writeTimestamps_length, oid_encode_length by done.
    rewrite !short_bytes, !put_long_length by done. rewrite writeTimestampsSize_eq, Nat2Z.id. simpl length. lia. }
  rewrite E. unfold short in *. split; [|unfold bufSize; lia].
  unfold SP.writePropertiesSize, u32. rewrite writeTimestampsSize_eq. rewrite Z.mod_small; [|lia]. lia.
Qed.

(** The assignments of a whole object leave nothing of the object before. *)
Lemma sp_assign_all q q' c st (b : Base) :
  (SP.lift (SP.assign_deqLogCleanerWarningSize (SP.deqLogCleanerWarningSize q))
  (SP.lift (SP.assign_enqLogCleanerWarningSize (SP.enqLogCleanerWarningSize q))
  (SP.lift (SP.assign_deqLogCleanerTimeInterval (SP.deqLogCleanerTimeInterval q))
  (SP.lift (SP.assign_enqLogCleanerTimeInterval (SP.enqLogCleanerTimeInterval q))
  (SP.lift (SP.assign_mongoCollection (SP.mongoCollection q))
  (SP.lift (SP.assign_mongoDbName (SP.mongoDbName q)) (SP.lift (SP.assign_mongoPort (SP.mongoPort q))
  (SP.lift (SP.assign_mongoHost (SP.mongoHost q)) (SP.lift (SP.assign_acceptRecovery (SP.acceptRecovery q))
  (SP.lift (SP.assign_smart_async (SP.smart_async q)) (SP.lift (SP.assign_compact (SP.compact q))
  (SP.lift (SP.assign_num_thread_dequeue (SP.num_thread_dequeue q))
  (SP.lift (SP.assign_num_thread_enqueue (SP.num_thread_enqueue q))
  (SP.lift (SP.assign_num_jfiles (SP.num_jfiles q)) (SP.lift (SP.assign_type (SP.type_ q))
  (SP.lift (SP.assign_bdbBaseDir (SP.bdbBaseDir q)) (SP.lift (SP.assign_location (SP.location q))
  (SP.lift (SP.assign_brokerRef (SP.brokerRef q))
    (SP.mk q' c st b))))))))))))))))))) =
  SP.mk q c st b.
Proof. destruct q, q'. vm_compute. reflexivity. Qed.

Lemma sp_oid_back i q c st (b : Base) :
  oid_wire i ->
  SP.lift (fun q => SP.assign_brokerRef (oid_decode (oid_encode i) (SP.brokerRef q)) q) (SP.mk q c st b) =
  SP.lift (SP.assign_brokerRef i) (SP.mk q c st b).
Proof. intros Hi. unfold SP.lift. by rewrite oid_decode_encode. Qed.


(** *** Maps *)

Lemma sp_keys_NoDup q : NoDup (SP.property_entries q).*1.
Proof. apply (bool_decide_unpack _). by vm_compute. Qed.

(** The keys of the statistics are none of the properties'. *)
Lemma sp_keys_apart q totals k :
  k ∈ (SP.property_entries q).*1 -> k ∉ (SP.statistic_entries totals).*1.
Proof.
  revert k. apply Forall_forall. apply (bool_decide_unpack _). by vm_compute.
Qed.

(** The map has every property, whatever it had before. *)
Lemma sp_map_entry m b o k v :
  (k, v) ∈ SP.property_entries (SP.props o) -> (SP.mapEncodeValues m true b o).1 !! k = Some v.
Proof.
  intros Hk. assert (E : put_entries (SP.property_entries (SP.props o)) m !! k = Some v)
    by (apply put_entries_lookup; [apply sp_keys_NoDup|done]).
  destruct b; [|done]. unfold SP.mapEncodeValues, report_totals. cbn -[put_entries SP.property_entries SP.statistic_entries].
  rewrite put_entries_other; [done|]. eapply sp_keys_apart. by apply (list_elem_of_fmap_2 fst) in Hk.
Qed.

(** A map of values, with or without statistics and whatever else is in it, gives another
    object the same properties. *)
Theorem sp_map_roundtrip m b o o' :
  Forall is_u32 [SP.num_jfiles (SP.props o); SP.num_thread_enqueue (SP.props o); SP.num_thread_dequeue (SP.props o);
                 SP.enqLogCleanerTimeInterval (SP.props o); SP.deqLogCleanerTimeInterval (SP.props o);
                 SP.enqLogCleanerWarningSize (SP.props o); SP.deqLogCleanerWarningSize (SP.props o)] ->
  SP.mapDecodeValues (SP.mapEncodeValues m true b o).1 o' =
    (true, SP.mk (SP.props o) (SP.configChanged o') (SP.stats o') (SP.base o')).
Proof.
  intros Hn. repeat (apply Forall_cons in Hn as [? Hn]). destruct o' as [q' c' st' b'].
  unfold SP.mapDecodeValues.
  do 18 (etransitivity;
    [eapply decode_entries_next;
     [apply sp_map_entry; repeat first [apply list_elem_of_here | apply list_elem_of_further]
     |first [apply as_var_str | apply as_var_bool | apply as_var_oid | by apply as_var_u32]]|]).
  cbn [decode_entries]. f_equal. apply sp_assign_all.
Qed.

(** *** Types *)

Lemma sp_follows q : follows (SP.property_entries q) SP.config_schema.
Proof.
  unfold follows, SP.property_entries, SP.config_schema.
  repeat (constructor; [split; [reflexivity|cbn; first [apply kind_oid|apply kind_str|apply kind_u32|apply kind_bool]]|]).
  constructor.
Qed.


(** The statistics are reported under other names than the schema announces: no map ever has the average
    or the number of samples under its announced name. *)
Theorem statistics_names_differ m p b o k :
  k ∈ ["enqueueTimeSamples"; "enqueueTimeAverage"; "dequeueTimeSamples"; "dequeueTimeAverage"] ->
  k ∈ map se_name SP.inst_schema /\
  (m !! k = None -> (SP.mapEncodeValues m p b o).1 !! k = None).
Proof.
  intros Hk. split.
  { revert k Hk. apply Forall_forall. apply (bool_decide_unpack _). by vm_compute. }
  intros Hm.
  assert (Hp : k ∉ (SP.property_entries (SP.props o)).*1).
  { revert k Hk Hm. intros k Hk _. revert k Hk. apply Forall_forall. apply (bool_decide_unpack _). by vm_compute. }
  assert (Hs : forall t, k ∉ (SP.statistic_entries t).*1).
  { intros t. revert k Hk Hm Hp. intros k Hk _ _. revert k Hk. apply Forall_forall.
    apply (bool_decide_unpack _). by vm_compute. }
  unfold SP.mapEncodeValues, report_totals. destruct p, b; cbn -[put_entries SP.property_entries SP.statistic_entries];
    by rewrite ?put_entries_other.
Qed.
End storage_provider.

(** ** Statistics on the wire *)

Section statistics.
Context `{Framing, Qmf}.
Implicit Types (o : SP.t) (t : PerThreadStats).

(** What a console reads from a statistics record without header: six 32-bit numbers and ten of 64
    bits. *)
Definition read_longs (n : nat) (bs : list byte) : list Z := map (fun i => get_long (drop (4 * i) bs)) (seq 0 n).
Definition read_longlongs (n : nat) (bs : list byte) : list Z :=
  map (fun i => get_longlong (drop (8 * i) bs)) (seq 0 n).
Definition read_statistics (bs : list byte) : list Z := read_longs 6 bs ++ read_longlongs 10 (drop 24 bs).

Lemma read_longs_back l rest :
  Forall is_u32 l -> read_longs (length l) (concat (map put_long l) ++ rest) = l /\
  drop (4 * length l) (concat (map put_long l) ++ rest) = rest.
Proof.
  induction 1 as [|z l Hz Hl [IH1 IH2]]; [done|]. unfold read_longs in *. cbn [length seq map concat].
  rewrite <- app_assoc. split.
  - rewrite Nat.mul_0_r, drop_0, get_put_long by done. f_equal. rewrite <- seq_shift, map_map. rewrite <- IH1 at 2.
    apply map_ext. intros i. replace (4 * S i)%nat with (length (put_long z) + 4 * i)%nat
      by (rewrite put_long_length; lia). by rewrite drop_app_add.
  - replace (4 * S (length l))%nat with (length (put_long z) + 4 * length l)%nat by (rewrite put_long_length; lia).
    by rewrite drop_app_add.
Qed.

Lemma read_longlongs_back l rest :
  Forall is_u64 l -> read_longlongs (length l) (concat (map put_longlong l) ++ rest) = l.
Proof.
  induction 1 as [|z l Hz Hl IH]; [done|]. unfold read_longlongs in *. cbn [length seq map concat].
  rewrite <- app_assoc, Nat.mul_0_r, drop_0, get_put_longlong by done. f_equal. rewrite <- seq_shift, map_map. rewrite <- IH at 2.
  apply map_ext. intros i. replace (8 * S i)%nat with (length (put_longlong z) + 8 * i)%nat
    by (rewrite put_longlong_length; lia). by rewrite drop_app_add.
Qed.

(** The report of totals in range is in range. *)
Lemma hilo_report_range h : hilo_ok h -> Forall is_u64 (hilo_report h).
Proof.
  intros [C T Mn Mx]. unfold hilo_report. repeat (apply Forall_cons; split); try done.
  - by destruct (h_count h =? 0).
  - destruct (Z.eqb_spec (h_count h) 0) as [|Hc]; [done|]. unfold is_u64 in *. split; [apply Z.div_pos; lia|].
    apply Z.le_lt_trans with (h_total h); [|lia]. apply Z.div_le_upper_bound; nia.
Qed.

Lemma report_bytes t :
  SP.statistics_bytes t = map put_long (take 6 (report t)) ++ map put_longlong (drop 6 (report t)).
Proof. done. Qed.

Lemma report_range t : pts_ok t -> Forall is_u32 (take 6 (report t)) /\ Forall is_u64 (drop 6 (report t)).
Proof.
  intros [C32 C64 E D]. split; [exact C32|]. change (drop 6 (report t)) with
    ([totalEnqueueTime t; totalDequeueTime t] ++ hilo_report (enqueueTime t) ++ hilo_report (dequeueTime t)).
  rewrite !Forall_app. auto using hilo_report_range.
Qed.

Lemma statistics_read_back t :
  pts_ok t -> read_statistics (concat (SP.statistics_bytes t)) = report t /\
  length (concat (SP.statistics_bytes t)) = 104%nat.
Proof.
  intros Ht. destruct (report_range t Ht) as [R32 R64].
  split; cycle 1.
  { rewrite report_bytes. unfold report, counters_report, hilo_report. cbn [app take drop map concat].
    rewrite !length_app, !put_long_length, !put_longlong_length. done. }
  rewrite report_bytes, concat_app. unfold read_statistics.
  destruct (read_longs_back _ (concat (map put_longlong (drop 6 (report t)))) R32) as [E1 E2].
  pose proof (read_longlongs_back _ [] R64) as E3. rewrite app_nil_r in E3.
  change (length (take 6 (report t))) with 6%nat in *. change (length (drop 6 (report t))) with 10%nat in *.
  change (4 * 6)%nat with 24%nat in E2. rewrite E1, E2, E3. apply take_drop.
Qed.

Lemma totals_range g n st : represents n st g -> pts_ok (totals_of g).
Proof. intros R. rewrite <- (rp_totals _ _ _ R). apply add_slot_ok; auto with store. apply R. Qed.

(** The bytes that a provider's statistics are written to are read as the report of
    everything its threads counted, and the written object starts the next report. *)
Theorem statistics_on_the_wire n g o :
  represents n (SP.stats o) g ->
  exists bs, (SP.writeStatistics true o).1 = Some bs /\ read_statistics bs = report (totals_of g) /\
    represents n (SP.stats (SP.writeStatistics true o).2) (record_report g) /\
    SP.props (SP.writeStatistics true o).2 = SP.props o.
Proof.
  intros R. destruct (represents_report n _ g R) as [E R']. destruct (statistics_read_back _ (totals_range _ _ _ R)) as [B L].
  exists (concat (SP.statistics_bytes (totals_of g))). split_and!; try done.
  unfold SP.writeStatistics, report_totals. cbn -[buf_puts SP.statistics_bytes].
  rewrite (rp_totals _ _ _ R). apply buf_puts_fits. rewrite L. unfold bufSize. lia.
Qed.
End statistics.

(** ** Journal *)

Module QJ := JournalQmf.

Section journal.
Context `{Framing, Qmf}.
Implicit Types (o : QJ.t) (q : QJ.Props).

Record j_wire q : Prop := {
  jw_queueRef : oid_wire (QJ.queueRef q);
  jw_strings : Forall short [QJ.name q; QJ.directory q; QJ.bdbDir q];
  jw_num : is_u32 (QJ.num_jfiles q)
}.

Lemma j_names : short QJ.packageName /\ short QJ.className.
Proof. split; vm_compute; lia. Qed.

Lemma j_bytes_length o :
  j_wire (QJ.props o) -> Z.of_nat (length (concat (QJ.properties_bytes o))) = QJ.writePropertiesSize o /\
  (length (concat (QJ.properties_bytes o)) <= bufSize)%nat.
Proof.
  intros [_ Hs _]. destruct j_names as [Np Nc]. repeat (apply Forall_cons in Hs as [? Hs]). clear Hs.
  assert (E : length (concat (QJ.properties_bytes o)) =
          (42 + String.length QJ.packageName + String.length QJ.className + 16 +
           (1 + String.length (QJ.name (QJ.props o))) + (1 + String.length (QJ.directory (QJ.props o))) +
           (1 + String.length (QJ.bdbDir (QJ.props o))) + 4)%nat).
  { unfold QJ.properties_bytes. cbn [concat]. rewrite !length_app, writeTimestamps_length, oid_encode_length by done.
    rewrite !short_bytes, !put_long_length by done. rewrite writeTimestampsSize_eq, Nat2Z.id. simpl length. lia. }
  rewrite E. unfold short in *. split; [|unfold bufSize; lia].
  unfold QJ.writePropertiesSize, u32. rewrite writeTimestampsSize_eq. rewrite Z.mod_small; [|lia]. lia.
Qed.

Lemma j_assign_all q q' c i (b : Base) :
  (QJ.lift (QJ.assign_num_jfiles (QJ.num_jfiles q)) (QJ.lift (QJ.assign_bdbDir (QJ.bdbDir q))
  (QJ.lift (QJ.assign_directory (QJ.directory q)) (QJ.lift (QJ.assign_name (QJ.name q))
  (QJ.lift (QJ.assign_queueRef (QJ.queueRef q))
    (QJ.mk q' c i b)))))) =
  QJ.mk q c i b.
Proof. destruct q, q'. vm_compute. reflexivity. Qed.

Lemma j_oid_back i q c n (b : Base) :
  oid_wire i ->
  QJ.lift (fun q => QJ.assign_queueRef (oid_decode (oid_encode i) (QJ.queueRef q)) q) (QJ.mk q c n b) =
  QJ.lift (QJ.assign_queueRef i) (QJ.mk q c n b).
Proof. intros Hi. unfold QJ.lift. by rewrite oid_decode_encode. Qed.

(** The properties of a journal survive the trip through a buffer. *)
Theorem j_properties_roundtrip o o' :
  j_wire (QJ.props o) ->
  exists bs o'', (QJ.writeProperties o).1 = Some bs /\ Z.of_nat (length bs) = QJ.writePropertiesSize o /\
    QJ.readProperties bs o' = (true, o'') /\ QJ.props o'' = QJ.props o.
Proof.
  intros W. destruct (j_bytes_length o W) as [L F]. destruct j_names as [Np Nc].
  set (ts := writeTimestamps QJ.packageName QJ.className QJ.md5Sum (QJ.base o)).
  exists (concat (QJ.properties_bytes o)),
    (QJ.mk (QJ.props o) (QJ.configChanged o') (QJ.instChanged o') (readTimestamps ts (QJ.base o'))).
  split_and!; try done; [by apply buf_puts_fits|].
  destruct W as [Wo Ws Wn]. repeat (apply Forall_cons in Ws as [? Ws]).
  assert (length (oid_encode (QJ.queueRef (QJ.props o))) = 16%nat) by apply oid_encode_length.
  assert (length ts = Z.to_nat (writeTimestampsSize QJ.packageName QJ.className)) by by apply writeTimestamps_length.
  unfold QJ.readProperties, QJ.properties_bytes. fold ts.
  do 6 read_next. cbn [run_readers]. cbn beta. rewrite j_oid_back by done. f_equal. apply j_assign_all.
Qed.

Lemma j_keys_NoDup q : NoDup (QJ.property_entries q).*1.
Proof. apply (bool_decide_unpack _). by vm_compute. Qed.

Lemma j_map_entry m b o k v :
  (k, v) ∈ QJ.property_entries (QJ.props o) -> (QJ.mapEncodeValues m true b o).1 !! k = Some v.
Proof. intros Hk. destruct b; apply put_entries_lookup; auto using j_keys_NoDup. Qed.

(** ... and through a map, whose entries have the types of the schema. *)
Theorem j_map_roundtrip m b o o' :
  is_u32 (QJ.num_jfiles (QJ.props o)) ->
  QJ.mapDecodeValues (QJ.mapEncodeValues m true b o).1 o' =
    (true, QJ.mk (QJ.props o) (QJ.configChanged o') (QJ.instChanged o') (QJ.base o')) /\
  length QJ.config_schema = 5%nat /\
  Forall (entry_typed (QJ.mapEncodeValues m true b o).1) QJ.config_schema.
Proof.
  intros Hn. destruct o' as [q' c' i' b']. split_and!; [|done|].
  - unfold QJ.mapDecodeValues.
    do 5 (etransitivity;
      [eapply decode_entries_next;
       [apply j_map_entry; repeat first [apply list_elem_of_here | apply list_elem_of_further]
       |first [apply as_var_str | apply as_var_oid | by apply as_var_u32]]|]).
    cbn [decode_entries]. f_equal. apply j_assign_all.
  - assert (Fo : follows (QJ.property_entries (QJ.props o)) QJ.config_schema).
    { repeat (constructor; [split; [reflexivity|cbn; first [apply kind_oid|apply kind_str|apply kind_u32]]|]).
      constructor. }
    apply Forall_forall. intros e He. destruct b; (eapply follows_typed; [done|apply j_keys_NoDup|done]).
Qed.
End journal.
