(* ===== verification/QmfPath.v ===== *)
(** The management counters along the life of messages: [Durability] with the calls of
    lib/BdbStoreProvider.cpp to its management object.

    [enqueue], [dequeue], [store] and [async_dequeue] count in the slot of their thread. A
    [store] task decides with [enqueueCheck] whether it is skipped and counts it at its
    end, so its local variable [toExec] is part of the state. The calls at the end of a
    task are one step with its last call to the tracker or to the log. *)
From S2P Require Import Prelude NestedMap PendingOps LogFormat LogExtract PidTracker Durability QmfStats QmfStatsSpec.
From Stdlib Require Import ZArith Lia.
Import PidTracker.

(** [ms_exec] is [toExec] of the [store] tasks that have decided. *)
Record msys := mkM { ms_d : dsys; ms_exec : gmap mkey bool; ms_stats : Stats }.

Section counted.
Context `{HostEndian, HostAlloc}.
Variable smart : bool.
Variable base : Z.
Variable old : gmap mkey (list byte).

Implicit Types (s : dsys) (m : msys) (k : mkey) (q p : Z) (st : Stats) (idx : nat) (e : gmap mkey bool).

(** ** Calls *)

(** The calls at the end of [store] and of [async_dequeue], after [ms] milliseconds and [us]
    microseconds. *)
Definition store_counts idx (toExec : bool) (ms us : Z) st : Stats :=
  let st := dec_pendingAsyncEnqueue idx 1 st in
  let st := inc_totalEnqueueTime idx (u64 ms) st in
  let st := set_enqueueTime idx (u64 (us * 10)) st in
  if toExec then inc_executedEnqueue idx 1 st else inc_skippedEnqueue idx 1 st.
Definition dequeue_counts idx (ms us : Z) st : Stats :=
  let st := dec_pendingAsyncDequeue idx 1 st in
  let st := inc_totalDequeueTime idx (u64 ms) st in
  let st := set_dequeueTime idx (u64 (us * 10)) st in
  inc_executedDequeue idx 1 st.

(** ** Steps *)

(** The steps of [Durability] that count nothing. *)
Inductive silent s : dsys -> Prop :=
| Si_data q p i b :
    d_items s !! (q, p) = Some i -> si_ph i = SData b -> silent s (store_data q p b i s)
| Si_data_throws q p i :
    d_items s !! (q, p) = Some i -> si_ph i = SData true ->
    silent s (set_item (q, p) (mkItem (si_val i) (si_new i) SFailed) s)
| Si_log q p i :
    d_items s !! (q, p) = Some i -> si_ph i = SLog -> silent s (store_log q p i s)
| Si_wait_dup q p :
    d_deqs s !! (q, p) = Some DWait -> qm_mem (dupMap (d_tr s)) q p = false ->
    silent s (set_deq (q, p) DWaitMain s)
| Si_wait_main q p :
    d_deqs s !! (q, p) = Some DWaitMain -> p <= lastPid (mainRecord (d_tr s)) ->
    silent s (set_deq (q, p) DData s)
| Si_redispatch q p :
    d_deqs s !! (q, p) = Some DWaitMain -> silent s (set_deq (q, p) DWait s)
| Si_deq_ends q p d :
    d_deqs s !! (q, p) = Some d -> d = DWait \/ d = DWaitMain \/ d = DData ->
    silent s (set_deq (q, p) DFailed s)
| Si_deq_data q p :
    d_deqs s !! (q, p) = Some DData -> silent s (deq_data q p s).

(** A step of thread [idx]; a report may be taken at any moment. *)
Inductive mstep idx : msys -> msys -> Prop :=
| Ms_enqueue_new s e st q buf tr :
    mstep idx (mkM s e st)
      (mkM (do_enqueue smart q (d_next s) true buf tr s) e (inc_pendingAsyncEnqueue idx 1 st))
| Ms_enqueue_dup s e st q p buf tr :
    p < d_next s -> ~ enqueued old s q p ->
    mstep idx (mkM s e st) (mkM (do_enqueue smart q p false buf tr s) e (inc_pendingAsyncEnqueue idx 1 st))
| Ms_dequeue s e st q p :
    enqueued old s q p -> (q, p) ∉ d_out s ->
    mstep idx (mkM s e st)
      (mkM (do_dequeue smart q p s) e
         (if (deq_check smart q p (d_tr s)).1 then inc_pendingAsyncDequeue idx 1 st
          else inc_skippedDequeue idx 1 st))
| Ms_check s e st q p i :
    d_items s !! (q, p) = Some i -> si_ph i = SCheck ->
    mstep idx (mkM s e st)
      (mkM (store_check smart q p i s) (<[(q, p) := (enq_check smart q p (d_tr s)).1]> e) st)
| Ms_add s e st q p i toExec ms us :
    d_items s !! (q, p) = Some i -> si_ph i = SAdd -> e !! (q, p) = Some toExec ->
    mstep idx (mkM s e st) (mkM (store_add q p s) (delete (q, p) e) (store_counts idx toExec ms us st))
| Ms_deq_log s e st q p ms us :
    d_deqs s !! (q, p) = Some DLog ->
    mstep idx (mkM s e st) (mkM (deq_log q p s) e (dequeue_counts idx ms us st))
| Ms_silent s e st s' :
    silent s s' -> mstep idx (mkM s e st) (mkM s' e st)
| Ms_report s e st :
    mstep idx (mkM s e st) (mkM s e (take_report st).2).

Inductive mreach (n : nat) (m0 : msys) : msys -> Prop :=
| Mr_refl : mreach n m0 m0
| Mr_step m m' idx : mreach n m0 m -> (idx < n)%nat -> mstep idx m m' -> mreach n m0 m'.

(** A session starts with nothing counted. *)
Definition m_init (n : nat) m : Prop :=
  d_init base old (ms_d m) /\ ms_exec m = ∅ /\ exists b, ms_stats m = stats_ctor n b.

Lemma silent_dstep s s' : silent s s' -> dstep smart old s s'.
Proof. destruct 1; econstructor; eauto. Qed.

(** Every step is one of [Durability], or nothing happens to the messages. *)
Lemma mstep_dstep idx m m' : mstep idx m m' -> ms_d m' = ms_d m \/ dstep smart old (ms_d m) (ms_d m').
Proof. destruct 1; simpl; try (right; econstructor; eauto; fail); [right; by apply silent_dstep|by left]. Qed.

Lemma mreach_dinv n m0 m :
  m_init n m0 -> mreach n m0 m -> d_next (ms_d m) <= base + 2 ^ 31 ->
  dreach smart old (ms_d m0) (ms_d m) /\ dinv smart base old (ms_d m).
Proof.
  intros (Hd & _ & _) Hr Hw. assert (R : dreach smart old (ms_d m0) (ms_d m)).
  { clear Hw. induction Hr as [|m m' idx Hr IH Hi Hs]; [constructor|].
    destruct (mstep_dstep _ _ _ Hs) as [->|Hs']; [done|]. by eapply Dr_step. }
  split; [done|]. by eapply dreach_dinv.
Qed.

Lemma mnext_mono idx m m' : mstep idx m m' -> d_next (ms_d m) <= d_next (ms_d m').
Proof. intros Hs. destruct (mstep_dstep _ _ _ Hs) as [->|Hs']; [done|]. by eapply dnext_mono. Qed.

(** ** What is counted *)

Definition nstarts {V} (l : list (log_rec V)) : Z :=
  foldr (fun r n => match r with LStart _ => n + 1 | LComplete _ _ => n end) 0 l.

(** A [store] task that will skip its message: the dequeue came before its check, or it has
    decided so. *)
Definition cancelled s e k (i : sitem) : Prop :=
  match si_ph i with
  | SCheck => smart = true /\ qm_mem (pendMap (d_tr s)) k.1 k.2 = false
  | _ => e !! k = Some false
  end.
#[local] Instance cancelled_dec s e k i : Decision (cancelled s e k i).
Proof. unfold cancelled. destruct (si_ph i); apply _. Defined.
Definition in_cancel s e : gset mkey := dom (filter (fun ki => cancelled s e ki.1 ki.2) (d_items s)).

(** The balance of the counters. *)
Record counted s e (g : history) : Prop := {
  ct_pend_enq : hi_count g PendingAsyncEnqueue_c = Z.of_nat (size (d_items s));
  ct_pend_deq : hi_count g PendingAsyncDequeue_c = Z.of_nat (size (d_deqs s));
  ct_enq : hi_count g ExecutedEnqueue + hi_count g SkippedEnqueue + Z.of_nat (size (d_items s)) = nstarts (d_enq s);
  ct_deq : hi_count g ExecutedDequeue + hi_count g SkippedDequeue + Z.of_nat (size (d_deqs s)) =
           Z.of_nat (size (d_out s));
  ct_skip : hi_count g SkippedDequeue = hi_count g SkippedEnqueue + Z.of_nat (size (in_cancel s e));
  ct_decided : forall k i, d_items s !! k = Some i -> si_ph i <> SCheck -> is_Some (e !! k)
}.

Lemma nstarts_snoc {V} (l : list (log_rec V)) r :
  nstarts (l ++ [r]) = nstarts l + match r with LStart _ => 1 | LComplete _ _ => 0 end.
Proof.
  unfold nstarts. induction l as [|r' l IH]; simpl; [by destruct r|].
  destruct r'; rewrite IH; lia.
Qed.

Lemma elem_of_in_cancel s e k :
  k ∈ in_cancel s e <-> exists i, d_items s !! k = Some i /\ cancelled s e k i.
Proof.
  unfold in_cancel. rewrite elem_of_dom. split.
  - intros [i [Hi Hc]%map_lookup_filter_Some]. eauto.
  - intros (i & Hi & Hc). exists i. by apply map_lookup_filter_Some.
Qed.

(** Sets that differ at one message at most. *)
Definition ind (P : Prop) `{!Decision P} : Z := if decide P then 1 else 0.

Lemma size_but_one (X Y : gset mkey) k0 :
  (forall k, k <> k0 -> k ∈ X <-> k ∈ Y) ->
  Z.of_nat (size Y) + ind (k0 ∈ X) = Z.of_nat (size X) + ind (k0 ∈ Y).
Proof.
  intros HE. assert (E : X ∖ {[k0]} = Y ∖ {[k0]}).
  { apply set_eq. intros k. rewrite !elem_of_difference, !elem_of_singleton.
    destruct (decide (k = k0)); [naive_solver|]. by rewrite HE. }
  assert (S : forall Z' : gset mkey, Z.of_nat (size Z') = Z.of_nat (size (Z' ∖ {[k0]})) + ind (k0 ∈ Z')).
  { intros Z'. unfold ind. case_decide as Hk.
    - rewrite size_difference by set_solver. rewrite size_singleton.
      assert (size Z' <> 0%nat) by (intros E0%size_empty_inv; set_solver). lia.
    - replace (Z' ∖ {[k0]}) with Z' by set_solver. lia. }
  rewrite (S X), (S Y), E. lia.
Qed.

Lemma size_replace {A} (m : gmap mkey A) k (x y : A) : m !! k = Some y -> size (<[k := x]> m) = size m.
Proof. intros Hy. apply map_size_insert_Some. by exists y. Qed.
Lemma size_remove {A} (m : gmap mkey A) k (y : A) : m !! k = Some y -> size m = S (size (delete k m)).
Proof.
  intros Hy. rewrite map_size_delete_Some by by exists y.
  assert (size m <> 0%nat) by (intros E0%map_size_empty_inv; rewrite E0 in Hy; done). lia.
Qed.

(** Only message [k0] changes. *)
Definition only k0 s e s' e' : Prop :=
  forall k, k <> k0 -> d_items s' !! k = d_items s !! k /\
    qm_mem (pendMap (d_tr s')) k.1 k.2 = qm_mem (pendMap (d_tr s)) k.1 k.2 /\ e' !! k = e !! k.

Lemma in_cancel_only k0 s e s' e' :
  only k0 s e s' e' ->
  Z.of_nat (size (in_cancel s' e')) + ind (k0 ∈ in_cancel s e) =
  Z.of_nat (size (in_cancel s e)) + ind (k0 ∈ in_cancel s' e').
Proof.
  intros Ho. apply size_but_one. intros k Hk. rewrite !elem_of_in_cancel. unfold cancelled.
  by destruct (Ho k Hk) as (-> & -> & ->).
Qed.

Lemma in_cancel_same k0 s e s' e' :
  only k0 s e s' e' -> (k0 ∈ in_cancel s e <-> k0 ∈ in_cancel s' e') ->
  size (in_cancel s' e') = size (in_cancel s e).
Proof.
  intros Ho Hk. pose proof (in_cancel_only _ _ _ _ _ Ho) as E. unfold ind in E.
  repeat case_decide; try tauto; lia.
Qed.

(** ** What the life of a message says about its tasks *)

Lemma life_fresh s q p : (forall k, kinv smart old s k) -> ~ enqueued old s q p -> d_items s !! (q, p) = None.
Proof.
  intros Hk Hn. destruct (not_enqueued old s q p Hn) as [Ho Hs]. specialize (Hk (q, p)).
  unfold kinv in Hk. rewrite Ho in Hk. exact (f_equal v_it (kok_fresh smart _ Hk Hs)).
Qed.

Lemma life_not_out s k : kinv smart old s k -> k ∉ d_out s -> d_deqs s !! k = None.
Proof.
  intros (g & _ & D) Ho. simpl in D. rewrite (bool_decide_eq_false_2 (k ∈ d_out s)) in D by done.
  by inversion D.
Qed.

Lemma life_pending s q p :
  kinv smart old s (q, p) -> qm_mem (pendMap (d_tr s)) q p = true ->
  smart = true /\ exists i, d_items s !! (q, p) = Some i /\ si_ph i = SCheck.
Proof.
  intros (g & E & _) Hp. simpl in E. rewrite Hp in E. inversion E; subst; simpl in *.
  split; [done|]. eexists. split; [by symmetry|done].
Qed.

(** ** Every step keeps the balance *)

Ltac bump_counts :=
  cbn [record_op hi_count]; unfold bump;
  repeat match goal with
  | |- context [@decide (?x = ?y :> counter) ?D] => destruct (@decide (x = y) D) as [|]; [try done|try done]
  end.

Lemma counted_enqueue s e g q p new buf tr :
  counted s e g -> d_items s !! (q, p) = None ->
  counted (do_enqueue smart q p new buf tr s) e (record_op (Inc PendingAsyncEnqueue_c 1) g).
Proof.
  intros [P1 P2 P3 P4 P5 P6] Hf.
  assert (Ho : only (q, p) s e (do_enqueue smart q p new buf tr s) e).
  { intros k Hk. simpl. rewrite lookup_insert_ne by done. split_and!; try done. rewrite will_pend.
    rewrite decide_False by (destruct k; naive_solver). destruct new; [done|].
    by destruct (addDuplicate_dup q p (d_tr s) k.1 k.2) as (_ & _ & ->). }
  assert (Hs : size (in_cancel (do_enqueue smart q p new buf tr s) e) = size (in_cancel s e)).
  { apply (in_cancel_same (q, p)); [done|]. rewrite !elem_of_in_cancel. split.
    - intros (i & Hi & _). by rewrite Hf in Hi.
    - simpl. rewrite lookup_insert_eq. intros (i & [= <-] & Hc). unfold cancelled in Hc. simpl in Hc.
      rewrite will_pend, decide_True in Hc by done. destruct Hc as [-> Hc]. done. }
  split; bump_counts; rewrite ?Hs; simpl; rewrite ?map_size_insert_None, ?nstarts_snoc by done; try lia.
  intros k i. destruct (decide (k = (q, p))) as [->|Hk]; [rewrite lookup_insert_eq; by intros [= <-]|].
  rewrite lookup_insert_ne by done. apply P6.
Qed.

(** What [dequeue] does to the pending marks. *)
Lemma dequeue_only s e q p : only (q, p) s e (do_dequeue smart q p s) e.
Proof.
  intros k Hk. unfold do_dequeue. pose proof (check_pend smart q p (d_tr s) k.1 k.2) as [E _].
  rewrite decide_False in E by (destruct k; naive_solver).
  destruct (deq_check smart q p (d_tr s)) as [[] t]; simpl in *; by rewrite E.
Qed.

Lemma counted_dequeue s e g q p :
  counted s e g -> (forall k, kinv smart old s k) -> (q, p) ∉ d_out s ->
  counted (do_dequeue smart q p s) e
    (record_op (if (deq_check smart q p (d_tr s)).1 then Inc PendingAsyncDequeue_c 1 else Inc SkippedDequeue 1) g).
Proof.
  intros [P1 P2 P3 P4 P5 P6] Hk Ho. pose proof (dequeue_only s e q p) as On.
  pose proof (in_cancel_only _ _ _ _ _ On) as Sz. pose proof (life_not_out s _ (Hk (q, p)) Ho) as Hd.
  destruct (check_answers smart q p (d_tr s)) as [A _].
  pose proof (check_pend smart q p (d_tr s) q p) as [M _]. rewrite decide_True in M by done.
  assert (So : size ({[(q, p)]} ∪ d_out s) = S (size (d_out s))).
  { rewrite size_union by set_solver. by rewrite size_singleton. }
  unfold do_dequeue in *. destruct (deq_check smart q p (d_tr s)) as [b t]. cbn [fst snd] in *. rewrite A.
  destruct b; simpl in A.
  - assert (Same : (q, p) ∈ in_cancel s e <-> (q, p) ∈ in_cancel (mkD (d_enq s) (d_deq s ++ [LStart (mkPAD p q)])
        (d_store s) t (d_items s) (<[(q, p):=DWait]> (d_deqs s)) (d_next s) ({[(q, p)]} ∪ d_out s)) e).
    { rewrite !elem_of_in_cancel. unfold cancelled. simpl. rewrite M. symmetry in A. apply negb_true_iff in A.
      destruct smart; simpl in A; [rewrite A|]; done. }
    rewrite <- A. split; bump_counts; simpl;
      rewrite ?map_size_insert_None, ?So, ?(in_cancel_same _ _ _ _ _ On Same) by done; try lia; done.
  - symmetry in A. apply negb_false_iff, andb_true_iff in A as [As Am].
    destruct (life_pending s q p (Hk _) Am) as (_ & i & Hi & Hc).
    assert (N1 : (q, p) ∉ in_cancel s e).
    { rewrite elem_of_in_cancel. intros (i' & Hi' & C). simplify_eq. unfold cancelled in C. rewrite Hc in C.
      simpl in C. rewrite Am in C. naive_solver. }
    assert (N2 : (q, p) ∈ in_cancel (mkD (d_enq s ++ [LComplete p q]) (d_deq s) (d_store s) t (d_items s) (d_deqs s)
        (d_next s) ({[(q, p)]} ∪ d_out s)) e).
    { rewrite elem_of_in_cancel. exists i. split; [done|]. unfold cancelled. rewrite Hc. simpl. rewrite M, As. done. }
    unfold ind in Sz. rewrite decide_False, decide_True in Sz by done. rewrite As, Am. cbn [negb andb].
    split; bump_counts; simpl; rewrite ?nstarts_snoc, ?So; simpl; try lia; done.
Qed.

Lemma counted_check s e g q p i :
  counted s e g -> d_items s !! (q, p) = Some i -> si_ph i = SCheck ->
  counted (store_check smart q p i s) (<[(q, p) := (enq_check smart q p (d_tr s)).1]> e) g.
Proof.
  intros [P1 P2 P3 P4 P5 P6] Hi Hc. destruct (check_answers smart q p (d_tr s)) as [_ A].
  unfold store_check. destruct (enq_check smart q p (d_tr s)) as [b t] eqn:Eq. cbn [fst] in *.
  assert (On : only (q, p) s e (set_item (q, p) (mkItem (si_val i) (si_new i) (SData b)) (set_tr t s))
                 (<[(q, p) := b]> e)).
  { intros k Hk. simpl. rewrite !lookup_insert_ne by done. split_and!; try done.
    pose proof (check_pend smart q p (d_tr s) k.1 k.2) as [_ E]. rewrite decide_False in E by (destruct k; naive_solver).
    by rewrite Eq in E. }
  assert (Same : (q, p) ∈ in_cancel s e <->
    (q, p) ∈ in_cancel (set_item (q, p) (mkItem (si_val i) (si_new i) (SData b)) (set_tr t s)) (<[(q, p) := b]> e)).
  { rewrite !elem_of_in_cancel. simpl. rewrite Hi, !lookup_insert_eq. unfold cancelled. split.
    - intros (i' & [= <-] & C). rewrite Hc in C. simpl in C. destruct C as [Es Em]. eexists. split; [done|].
      simpl. rewrite lookup_insert_eq, A, Es, Em. done.
    - intros (i' & [= <-] & C). simpl in C. rewrite lookup_insert_eq in C. injection C as ->.
      exists i. split; [done|]. rewrite Hc. simpl. by destruct smart. }
  split; rewrite ?(in_cancel_same _ _ _ _ _ On Same); simpl; rewrite ?(size_replace _ _ _ i) by done; try done.
  intros k j. destruct (decide (k = (q, p))) as [->|Hk].
  - rewrite !lookup_insert_eq. eauto.
  - rewrite !lookup_insert_ne by done. apply P6.
Qed.

Lemma counted_add s e g q p i (toExec : bool) ms us :
  counted s e g -> d_items s !! (q, p) = Some i -> si_ph i = SAdd -> e !! (q, p) = Some toExec ->
  counted (store_add q p s) (delete (q, p) e)
    (record_op (Inc (if toExec then ExecutedEnqueue else SkippedEnqueue) 1)
      (record_op (EnqueueTime us) (record_op (Inc TotalEnqueueTime ms) (record_op (Dec PendingAsyncEnqueue_c 1) g)))).
Proof.
  intros [P1 P2 P3 P4 P5 P6] Hi Ha He.
  assert (On : only (q, p) s e (store_add q p s) (delete (q, p) e)).
  { intros k Hk. simpl. rewrite !lookup_delete_ne by done. split_and!; try done. by rewrite addPid_pend. }
  pose proof (in_cancel_only _ _ _ _ _ On) as Sz.
  assert (Gone : (q, p) ∉ in_cancel (store_add q p s) (delete (q, p) e)) by
    (rewrite elem_of_in_cancel; simpl; rewrite lookup_delete_eq; naive_solver).
  assert (Hc : (q, p) ∈ in_cancel s e <-> toExec = false).
  { rewrite elem_of_in_cancel. unfold cancelled. split.
    - intros (i' & Hi' & C). simplify_eq. rewrite Ha in C. congruence.
    - intros ->. exists i. by rewrite Ha. }
  assert (Is : ind ((q, p) ∈ in_cancel s e) = if toExec then 0 else 1)
    by (unfold ind; destruct toExec; [rewrite decide_False|rewrite decide_True]; rewrite ?Hc; done).
  rewrite Is in Sz. unfold ind in Sz. rewrite decide_False in Sz by done. clear On Is Hc Gone.
  pose proof (size_remove _ _ _ Hi) as Hz.
  split; [..|].
  1-5: destruct toExec; bump_counts; cbn [store_add d_items d_deqs d_enq d_out]; lia.
  intros k j. simpl. destruct (decide (k = (q, p))) as [->|Hk]; [by rewrite lookup_delete_eq|].
  rewrite !lookup_delete_ne by done. apply P6.
Qed.

Lemma counted_deq_log s e g q p ms us :
  counted s e g -> d_deqs s !! (q, p) = Some DLog ->
  counted (deq_log q p s) e
    (record_op (Inc ExecutedDequeue 1)
      (record_op (DequeueTime us) (record_op (Inc TotalDequeueTime ms) (record_op (Dec PendingAsyncDequeue_c 1) g)))).
Proof.
  intros [P1 P2 P3 P4 P5 P6] Hd.
  pose proof (size_remove _ _ _ Hd) as Hz.
  change (in_cancel s e) with (in_cancel (deq_log q p s) e) in P5.
  split; bump_counts; simpl; try lia; done.
Qed.

(** Phases other than the first move freely. *)
Lemma counted_phase s e g q p i i' s' :
  counted s e g -> d_items s !! (q, p) = Some i -> si_ph i <> SCheck -> si_ph i' <> SCheck ->
  d_items s' = <[(q, p) := i']> (d_items s) -> d_tr s' = d_tr s -> d_deqs s' = d_deqs s ->
  d_out s' = d_out s -> nstarts (d_enq s') = nstarts (d_enq s) -> counted s' e g.
Proof.
  intros [P1 P2 P3 P4 P5 P6] Hi Hc Hc' Ei Et Ed Eo En.
  assert (On : only (q, p) s e s' e) by (intros k Hk; rewrite Ei, Et, lookup_insert_ne; done).
  assert (Same : (q, p) ∈ in_cancel s e <-> (q, p) ∈ in_cancel s' e).
  { rewrite !elem_of_in_cancel. rewrite Ei, Hi, lookup_insert_eq. unfold cancelled.
    destruct (si_ph i) eqn:?, (si_ph i') eqn:?; try done; split; intros (? & [= <-] & C);
      eexists; (split; [done|]); simplify_option_eq; repeat match goal with E : si_ph _ = _ |- _ => rewrite E in * end; done. }
  split; rewrite ?(in_cancel_same _ _ _ _ _ On Same), ?Ei, ?Ed, ?Eo, ?En, ?(size_replace _ _ _ i) by done; try done.
  intros k j. destruct (decide (k = (q, p))) as [->|Hk].
  - intros _ _. by apply (P6 _ i).
  - rewrite lookup_insert_ne by done. apply P6.
Qed.

Lemma counted_silent s e g s' : counted s e g -> silent s s' -> counted s' e g.
Proof.
  intros C Hs. assert (Dq : forall s' k d, d_deqs s !! k = Some d -> d_items s' = d_items s -> d_tr s' = d_tr s ->
    (exists d', d_deqs s' = <[k := d']> (d_deqs s)) -> d_out s' = d_out s -> d_enq s' = d_enq s -> counted s' e g).
  { intros s1 k d Hd Ei Et [d' Ed] Eo En. destruct C as [P1 P2 P3 P4 P5 P6].
    assert (Ic : in_cancel s1 e = in_cancel s e) by
      (apply set_eq; intros k'; rewrite !elem_of_in_cancel; unfold cancelled; by rewrite Ei, Et).
    split; rewrite ?Ic, ?Ei, ?Ed, ?Eo, ?En, ?(size_replace _ _ _ d) by done; done. }
  destruct Hs; try (eapply Dq; [eassumption|reflexivity..| |reflexivity|reflexivity]; eexists; reflexivity).
  all: eapply counted_phase; eauto; simpl; rewrite ?nstarts_snoc; try done; try congruence; lia.
Qed.

(** One call of an update method, on both sides. *)
Ltac op_step :=
  match goal with
  | Op : forall st g op, represents _ _ _ -> _ |- represents _ _ (record_op ?op ?g) => apply (Op _ g op)
  end.

(** A step keeps the balance, with the history that the statistics represent. *)
Lemma counted_mstep n idx m m' g :
  dinv smart base old (ms_d m) -> (idx < n)%nat -> mstep idx m m' ->
  represents n (ms_stats m) g -> counted (ms_d m) (ms_exec m) g ->
  exists g', represents n (ms_stats m') g' /\ counted (ms_d m') (ms_exec m') g'.
Proof.
  intros [Hk [added Ht]] Hi Hs R C.
  assert (Op : forall st g op, represents n st g -> op_ok op -> represents n (run_op idx op st) (record_op op g))
    by (intros; by apply represents_op).
  destruct Hs; cbn [ms_d ms_exec ms_stats] in *.
  - exists (record_op (Inc PendingAsyncEnqueue_c 1) g). split; [by op_step|]. apply counted_enqueue; [done|].
    by apply (t_unseen _ _ _ _ Ht).
  - exists (record_op (Inc PendingAsyncEnqueue_c 1) g). split; [by op_step|]. apply counted_enqueue; [done|].
    by apply life_fresh.
  - eexists. split; [|by apply counted_dequeue]. destruct (deq_check smart q p (d_tr s)) as [[] t]; by op_step.
  - exists g. split; [done|]. by apply counted_check.
  - eexists. split; [|by apply (counted_add s e g q p i toExec (u64 ms) (u64 (us * 10)))].
    by destruct toExec; repeat op_step; try apply u64_range.
  - eexists. split; [|by apply (counted_deq_log s e g q p (u64 ms) (u64 (us * 10)))].
    by repeat op_step; try apply u64_range.
  - exists g. split; [done|]. by eapply counted_silent.
  - exists (record_report g). split; [by apply represents_report|]. by destruct C.
Qed.

Lemma mreach_counted n m0 m :
  m_init n m0 -> mreach n m0 m -> d_next (ms_d m) <= base + 2 ^ 31 ->
  exists g, represents n (ms_stats m) g /\ counted (ms_d m) (ms_exec m) g.
Proof.
  intros Hi Hr. induction Hr as [|m m' idx Hr IH Hx Hs]; intros Hw.
  - destruct Hi as (Hd & He & b & Est). exists (hist_start b). rewrite Est. split; [apply represents_start|].
    unfold d_init in Hd. destruct Hd as (E1 & E2 & E3 & E4 & E5 & E6 & _).
    assert (Ic : in_cancel (ms_d m0) (ms_exec m0) = ∅).
    { apply set_eq. intros k. rewrite elem_of_in_cancel, E4. rewrite elem_of_empty. split; [|done].
      by intros (i & Hi & _). }
    split; rewrite ?Ic, ?E1, ?E4, ?E5, ?E6, ?map_size_empty; done.
  - pose proof (mnext_mono _ _ _ Hs). destruct IH as (g & R & C); [lia|].
    eapply counted_mstep; eauto. eapply mreach_dinv; eauto; lia.
Qed.


(** When nothing is left to do, nothing is counted as pending, and as many enqueues as
    dequeues were skipped. *)
Corollary counters_at_rest n m0 m (t := aggregatePerThreadStats (perThreadStatsArray (ms_stats m))) :
  m_init n m0 -> mreach n m0 m -> d_next (ms_d m) <= base + 2 ^ 31 ->
  d_items (ms_d m) = ∅ -> d_deqs (ms_d m) = ∅ ->
  pendingAsyncEnqueue t = 0 /\ pendingAsyncDequeue t = 0 /\ skippedEnqueue t = skippedDequeue t.
Proof.
  intros Hi Hr Hw E1 E2. destruct (mreach_counted n m0 m Hi Hr Hw) as (g & R & [P1 P2 P3 P4 P5 _]).
  unfold t. rewrite (rp_totals _ _ _ R). cbn [totals_of pendingAsyncEnqueue pendingAsyncDequeue skippedEnqueue skippedDequeue].
  rewrite P1, P2, P5, E1, E2, !map_size_empty. split_and!; try done. f_equal.
  assert (in_cancel (ms_d m) (ms_exec m) = ∅) as ->; [|rewrite size_empty; lia].
  apply set_eq. intros k. rewrite elem_of_in_cancel, E1, elem_of_empty. split; [|done]. by intros (i & Hx & _).
Qed.

End counted.
