(* ===== verification/QmfProvider.v ===== *)
(** The calls of the store to its management objects: [initManagement] and the counting of
    lib/BdbStoreProvider.cpp, and the management object and events of a journal in
    lib/JournalImpl.cpp.

    What the management agent is told is the list of calls it gets. The handlers are those
    of [Provider] with the calls in their places; [mgmtObject] is [None] while the provider
    has no broker. *)
From S2P Require Import Prelude Format Jerrno IdSequence NestedMap PidTracker PendingOps.
From S2P Require Import LogFormat LogExtract AsyncLog Bdb TxnCtxt Framing Journal Posix Jdir Provider Lifecycle.
From S2P Require Import Durability Qmf QmfStats QmfStatsSpec QmfStorageProvider QmfJournal QmfEvents QmfPath.
From Stdlib Require Import ZArith Lia.

Module SP := StorageProviderQmf.
Module QJ := JournalQmf.

Section agent.
Context `{Framing, Qmf}.

(** ** The agent *)

Inductive agent_call : Type :=
| RegisterSelf (r : registration)
| AddProvider (o : SP.t)
| AddJournal (o : QJ.t)
| RaiseCreated (e : EventCreated.t)
| RaiseRecovered (e : EventRecovered.t)
| DestroyJournal (o : QJ.t).

(** What the provider uses of the broker: its object id, and whether it has an agent. *)
Record Broker := mkBroker { br_agent : bool; br_objectId : ObjectId }.

(** ** The provider *)

(** The calls of the setters in [initManagement]. *)
Definition show_options (st : Life) (o : SP.t) : SP.t :=
  let opt := l_options st in
  let o := SP.set_location (l_storeDir st) o in
  let o := SP.set_bdbBaseDir (getBdbBaseDir (l_storeDir st)) o in
  let o := SP.set_type "BDB" o in
  let o := SP.set_num_jfiles (u32 (l_num_jfiles st)) o in
  let o := SP.set_num_thread_dequeue (u32 num_thread_dequeue) o in
  let o := SP.set_num_thread_enqueue (u32 num_thread_enqueue) o in
  let o := SP.set_compact (compactFlag opt) o in
  let o := SP.set_smart_async (o_enableSmartAsync opt) o in
  let o := SP.set_acceptRecovery (o_enableAcceptRecoveryFlag opt) o in
  let o := SP.set_mongoHost (acceptRecoveryMongoHost opt) o in
  let o := SP.set_mongoPort (acceptRecoveryMongoPort opt) o in
  let o := SP.set_mongoDbName (acceptRecoveryMongoDb opt) o in
  let o := SP.set_mongoCollection (acceptRecoveryMongoCollection opt) o in
  let o := SP.set_enqLogCleanerTimeInterval (u32 (enqLogCleanerTimeInterval opt)) o in
  let o := SP.set_deqLogCleanerTimeInterval (u32 (deqLogCleanerTimeInterval opt)) o in
  let o := SP.set_enqLogCleanerWarningSize (u32 (enqLogCleanerWarningSize opt)) o in
  SP.set_deqLogCleanerWarningSize (u32 (deqLogCleanerWarningSize opt)) o.

(** [initManagement()]: the calls of the agent, and the object. [registerClass] is called on
    whatever [getManagementAgent] returned. *)
Definition initManagement (maxThreads : nat) (broker : option Broker) (st : Life) :
    result (list agent_call * option SP.t) :=
  match broker with
  | None => Ret ([], None)
  | Some b =>
      if br_agent b then
        let o := show_options st (SP.StorageProvider maxThreads (br_objectId b)) in
        Ret (map RegisterSelf Package ++ [AddProvider o], Some o)
      else Throw (Undefined "null management agent")
  end.

(** The states in which [init(dir,truncateFlag)] calls [initManagement]: once, and once
    more in the [init] that [truncateInit] calls. *)
Definition init_managements (home dir : string) (truncate : bool) (st : Life) : list Life :=
  if l_isInit st then []
  else let st1 := choose_dir home dir st in
       st1 :: if truncate then [choose_dir home (o_storeDir (l_options st1)) st1] else [].

(** ** A journal *)

(** [_agent != 0] and [_mgmtObject]. *)
Record JournalMgmt := mkJM { jm_agent : bool; jm_object : option QJ.t }.

(** The part of the constructor of [JournalImpl] that concerns management, and those of
    [initialize], [recover_complete], [stop] and the destructor. *)
Definition journal_new (agent : bool) (journalId journalDirectory bdbDir : string) :
    list agent_call * JournalMgmt :=
  if agent then
    let o := QJ.set_bdbDir bdbDir (QJ.set_directory journalDirectory (QJ.set_name journalId QJ.Journal)) in
    ([AddJournal o], mkJM true (Some o))
  else ([], mkJM false None).
Definition journal_initialized (journalName : string) (j : JournalMgmt) : list agent_call :=
  if jm_agent j then [RaiseCreated (EventCreated.mk journalName)] else [].
Definition journal_recovered (journalName : string) (j : JournalMgmt) : list agent_call :=
  if jm_agent j then [RaiseRecovered (EventRecovered.mk journalName)] else [].
Definition journal_destroy (j : JournalMgmt) : list agent_call * JournalMgmt :=
  match jm_object j with
  | None => ([], j)
  | Some o => ([DestroyJournal o], mkJM (jm_agent j) None)
  end.

(** The destructor: the databases that were open are closed, in order, and the agent is told. *)
Definition journal_dtor (messageDbs : list bool) (j : JournalMgmt) : list agent_call * list nat :=
  let '(calls, j) := journal_destroy j in
  (calls, filter (fun k => messageDbs !! k = Some true) (seq 0 (length messageDbs))).

(** [ManagementMethod]: no method is implemented. *)
Inductive status_t : Type := STATUS_UNKNOWN | STATUS_NOT_IMPLEMENTED.
Definition ManagementMethod (methodId : Z) : status_t :=
  if methodId =? 0 then STATUS_UNKNOWN else STATUS_NOT_IMPLEMENTED.

(** ** What they show *)

Lemma set_all_props (v1 v2 v3 : string) (v4 v5 v6 : Z) (v7 v8 v9 : bool) (v10 v11 v12 v13 : string)
    (v14 v15 v16 v17 : Z) (o : SP.t) :
  SP.set_deqLogCleanerWarningSize v17 (SP.set_enqLogCleanerWarningSize v16 (SP.set_deqLogCleanerTimeInterval v15
    (SP.set_enqLogCleanerTimeInterval v14 (SP.set_mongoCollection v13 (SP.set_mongoDbName v12 (SP.set_mongoPort v11
    (SP.set_mongoHost v10 (SP.set_acceptRecovery v9 (SP.set_smart_async v8 (SP.set_compact v7
    (SP.set_num_thread_enqueue v6 (SP.set_num_thread_dequeue v5 (SP.set_num_jfiles v4 (SP.set_type v3
    (SP.set_bdbBaseDir v2 (SP.set_location v1 o)))))))))))))))) =
  SP.mk (SP.mkProps (SP.brokerRef (SP.props o)) v1 v2 v3 v4 v6 v5 v7 v8 v9 v10 v11 v12 v13 v14 v15 v16 v17) true
    (SP.stats o) (SP.base o).
Proof. destruct o as [[] c st b]. vm_compute. reflexivity. Qed.

(** The object that the provider registers has the broker as its parent and exactly
    the directories and the options the provider runs with; nothing has been counted in it. *)
Theorem management_shows_options maxThreads b st :
  br_agent b = true ->
  exists o, initManagement maxThreads (Some b) st = Ret (map RegisterSelf Package ++ [AddProvider o], Some o) /\
    SP.props o = SP.mkProps (br_objectId b) (l_storeDir st) (getBdbBaseDir (l_storeDir st)) "BDB"
      (u32 (l_num_jfiles st)) (u32 num_thread_enqueue) (u32 num_thread_dequeue) (compactFlag (l_options st))
      (o_enableSmartAsync (l_options st)) (o_enableAcceptRecoveryFlag (l_options st))
      (acceptRecoveryMongoHost (l_options st)) (acceptRecoveryMongoPort (l_options st))
      (acceptRecoveryMongoDb (l_options st)) (acceptRecoveryMongoCollection (l_options st))
      (u32 (enqLogCleanerTimeInterval (l_options st))) (u32 (deqLogCleanerTimeInterval (l_options st)))
      (u32 (enqLogCleanerWarningSize (l_options st))) (u32 (deqLogCleanerWarningSize (l_options st))) /\
    SP.configChanged o = true /\ represents maxThreads (SP.stats o) (hist_start instChanged_new).
Proof.
  intros Ha. unfold initManagement. rewrite Ha. eexists. split; [reflexivity|].
  unfold show_options. cbv zeta. rewrite set_all_props. split; [reflexivity|]. split; [reflexivity|].
  apply represents_start.
Qed.

(** A truncating [init] registers the provider twice, under the same key. *)
Theorem truncate_registers_twice home dir st :
  l_isInit st = false -> length (init_managements home dir true st) = 2%nat /\
  length (init_managements home dir false st) = 1%nat.
Proof. intros Hi. unfold init_managements. by rewrite Hi. Qed.

(** However often a journal is stopped and destroyed, the agent is told once; and the
    number of files that it shows is 0 at all times. *)
Fixpoint destroys (n : nat) (j : JournalMgmt) : list agent_call * JournalMgmt :=
  match n with
  | O => ([], j)
  | S n => let '(c, j) := journal_destroy j in let '(cs, j) := destroys n j in (c ++ cs, j)
  end.

Theorem journal_registered_once agent name dir bdb n :
  let '(c, j) := journal_new agent name dir bdb in
  (destroys (S n) j).1 = (if agent then match c with [AddJournal o] => [DestroyJournal o] | _ => [] end else []) /\
  forall o, jm_object j = Some o ->
    QJ.props o = QJ.mkProps oid_none name dir bdb 0 /\ QJ.getKey o = name.
Proof.
  assert (N : forall n a, (destroys n (mkJM a None)).1 = []).
  { intros k a. induction k as [|k IH]; [done|]. cbn [destroys journal_destroy jm_object].
    destruct (destroys k (mkJM a None)). exact IH. }
  unfold journal_new. destruct agent; cbn [destroys journal_destroy jm_object jm_agent].
  - split; [|by intros o [= <-]]. specialize (N n true). destruct (destroys n (mkJM true None)). simpl in *. by subst.
  - split; [|done]. specialize (N n false). destruct (destroys n (mkJM false None)). done.
Qed.

End agent.

(** ** The handlers with their counting *)

Section counting.
Context `{HostEndian, HostAlloc, Framing, BT : !BTree bt_compare}.
Implicit Types (pv : Provider) (mo : option Stats) (idx : nat).

(** [if (this->mgmtObject) this->mgmtObject->f()] *)
Definition mgmt (f : Stats -> Stats) mo : option Stats := f <$> mo.

Definition enqueue_m idx (accepts : bool) (queueName : string) (queueId messageId : Z) (jc : option Z)
    (msg : Message) pv mo : result Z * Provider * option Stats :=
  let pv := Provider.checkInit pv in
  if queueId =? 0 then (Throw (StoreException ("Queue not created: " +:+ queueName)), pv, mo)
  else
    let '(id, pv) := assign_id queueId messageId pv in
    let '(buff, size) := msgEncode msg in
    let transient := negb (m_persistent msg) in
    let pv := set_log (AsyncOperationLogger.log_enqueue_start id queueId buff size transient (aologger pv)).2 pv in
    let mo := mgmt (inc_pendingAsyncEnqueue idx 1) mo in
    let pv := if enableSmartAsync pv
              then set_tracker (PidTracker.willEnqueue id queueId (tracker pv)).2 pv else pv in
    if accepts
    then (Ret id, set_pools (enqueuePool pv ++ [mkStore jc buff size id transient]) (dequeuePool pv) pv, mo)
    else (Throw (StoreException "Unable to dispatch the enqueue!"), pv, mo).

Definition dequeue_m idx (accepts : bool) (queueName : string) (queueId messageId : Z) (jc : Z) pv mo :
    result unit * Provider * option Stats :=
  let pv := Provider.checkInit pv in
  if messageId =? 0 then (Throw (StoreException "Error dequeuing message, persistence id not set"), pv, mo)
  else if queueId =? 0 then (Throw (StoreException ("Queue not created: " +:+ queueName)), pv, mo)
  else
    let '(toExec, t) := if enableSmartAsync pv
                        then PidTracker.dequeueCheck messageId queueId (tracker pv)
                        else (true, tracker pv) in
    let pv := set_tracker t pv in
    if toExec then
      let pv := set_log (AsyncOperationLogger.log_dequeue_start messageId queueId (aologger pv)).2 pv in
      let mo := mgmt (inc_pendingAsyncDequeue idx 1) mo in
      if accepts
      then (Ret tt, set_pools (enqueuePool pv) (dequeuePool pv ++ [mkDeq messageId jc]) pv, mo)
      else (Throw (StoreException "Unable to dispatch the dequeue!"), pv, mo)
    else (Ret tt, set_log (AsyncOperationLogger.log_enqueue_complete messageId queueId (aologger pv)).2 pv,
          mgmt (inc_skippedDequeue idx 1) mo).

(** [store] that took [ms] milliseconds and [us] microseconds. *)
Definition store_m idx (ms us : Z) (io : db_answers) (t : store_task) pv mo : result unit * Provider * option Stats :=
  match st_jc t with
  | None => (Throw (StoreException "BdbStoreProvider::store() failed: queue NULL."), pv, mo)
  | Some q =>
      let '(toExec, pv) := store_check_p q (st_pid t) pv in
      match store_data_p io q (st_pid t) (st_buff t) (st_size t) toExec pv with
      | (Throw x, pv) => (Throw x, pv, mo)
      | (Ret _, pv) =>
          (Ret tt, store_add_p q (st_pid t) (store_log_p q (st_pid t) pv), mgmt (store_counts idx toExec ms us) mo)
      end
  end.

Definition async_dequeue_m idx (ms us : Z) (io : db_answers) (obs : list PidTracker) (accepts : bool) (t : deq_task)
    pv mo : option (result unit * Provider * option Stats) :=
  match PidTracker.waitForPid (dt_msgId t) (dt_jc t) obs with
  | None => None
  | Some r =>
      if r =? -1 then
        if accepts then Some (Ret tt, set_pools (enqueuePool pv) (dequeuePool pv ++ [t]) pv, mo)
        else Some (Throw (StoreException "Unable to redispatch the dequeue!"), pv, mo)
      else if r =? -2 then Some (Ret tt, pv, mo)
      else match deq_data_p io (dt_jc t) (dt_msgId t) pv with
           | (Throw x, pv) => Some (Throw x, pv, mo)
           | (Ret _, pv) => Some (Ret tt, deq_log_p (dt_jc t) (dt_msgId t) pv, mgmt (dequeue_counts idx ms us) mo)
           end
  end.


End counting.
