(* ===== verification/QmfExamples.v ===== *)
(** Concrete runs of the management classes: inputs for the theorems, and what goes wrong
    in the statistics. *)
From S2P Require Import Prelude NestedMap PendingOps LogFormat LogExtract PidTracker Bdb Framing Durability DurabilityExamples.
From S2P Require Import Qmf QmfStats QmfStatsSpec QmfStorageProvider QmfJournal QmfEvents QmfSpec QmfPath.
From Stdlib Require Import ZArith Lia.
Import PidTracker.

#[local] Existing Instance wire.
#[local] Existing Instance wire_qmf.
#[local] Existing Instance little_endian.
#[local] Existing Instance life_host.

(** ** Statistics *)

(** Three threads count, with two reports. *)
Definition busy : list stat_event :=
  [Call 0 (Inc PendingAsyncEnqueue_c 1); Call 2 (Inc PendingAsyncEnqueue_c 1); Call 1 (Dec PendingAsyncEnqueue_c 1);
   Call 1 (EnqueueTime 70); Call 2 (EnqueueTime 30); Call 1 (Inc ExecutedEnqueue 1); Report;
   Call 0 (EnqueueTime 50); Report].

Example busy_reports :
  (run_events busy (stats_ctor 3 true)).1 =
  [[1; 0; 1; 0; 0; 0; 0; 0; 2; 30; 70; 50; 0; 0; 0; 0]; [1; 0; 1; 0; 0; 0; 0; 0; 1; 50; 50; 50; 0; 0; 0; 0]].
Proof. vm_compute. reflexivity. Qed.


Lemma times_report_exact_witness :
  hilo_report (hilo_of [30; 70]) = [2; 30; 70; 50] /\ 30 ∈ [30; 70] /\ 30 <= 50 <= 70.
Proof.
  destruct (times_report_exact [30; 70]) as (E & M & _ & _ & L); try done.
  - repeat constructor; unfold is_u64; lia.
Defined.

(** Times that add up to more than 64 bits: the average is less than the least time. *)
Example average_wraps : hilo_report (hilo_of [2 ^ 63; 2 ^ 63]) = [2; 2 ^ 63; 2 ^ 63; 0].
Proof. vm_compute. reflexivity. Qed.

(** A time that is sampled between the two stretches of a report is in no report: the update
    methods do not take the lock that the report holds. *)
Example sample_lost_in_report :
  let st := stats_ctor 2 false in
  let '(first, st) := report_totals st in
  let st := run_op 1 (EnqueueTime 40) st in
  let '(second, st) := take_report (reset_slots st) in
  report first = repeat 0 16 /\ report second = repeat 0 16 /\ instChanged st = false.
Proof. vm_compute. done. Qed.

(** ** Objects *)

Definition prov_object : SP.t :=
  SP.set_type "BDB" (SP.set_location "/var/store" (SP.set_compact true (SP.StorageProvider 2 77))).
Definition other_object : SP.t := SP.StorageProvider 2 1.


Lemma sp_map_roundtrip_witness :
  SP.mapDecodeValues (SP.mapEncodeValues ∅ true true prov_object).1 other_object =
    (true, SP.mk (SP.props prov_object) true (SP.stats other_object) (SP.base other_object)).
Proof. apply (sp_map_roundtrip ∅ true prov_object other_object). repeat constructor; vm_compute; done. Defined.

(** A buffer that ends early: the members read so far are assigned. *)
Example short_buffer :
  let '(ok, o) := SP.readProperties (take 120 (concat (SP.properties_bytes prov_object))) other_object in
  ok = false /\ SP.location (SP.props o) = "/var/store" /\ SP.compact (SP.props o) = false.
Proof. vm_compute. done. Qed.

(** A map with a value of the wrong kind. *)
Example wrong_kind :
  let '(ok, o) := SP.mapDecodeValues {[ "location" := WStr "/a"; "num_jfiles" := WStr "4"; "mongoHost" := WStr "h" ]}
                    other_object in
  ok = false /\ SP.location (SP.props o) = "/a" /\ SP.mongoHost (SP.props o) = "".
Proof. vm_compute. done. Qed.

(** Without a sample the least time is an integer, not the unsigned number of the schema. *)
Example no_sample_kind :
  kind_of <$> (SP.mapEncodeValues ∅ false true prov_object).1 !! "enqueueTimeMin" = Some VAR_INT32.
Proof. vm_compute. done. Qed.

Lemma statistics_on_the_wire_witness :
  exists bs, (SP.writeStatistics true prov_object).1 = Some bs /\ read_statistics bs = repeat 0 16.
Proof.
  destruct (statistics_on_the_wire 2 (hist_start true) prov_object) as (bs & E1 & E2 & _).
  - apply represents_start.
  - exists bs. split; [exact E1|]. rewrite E2. vm_compute. reflexivity.
Defined.

(** ** Counters along a session *)

Definition count0 : msys := mkM life0 ∅ (stats_ctor 3 true).

Lemma count0_init : m_init 0 ∅ 3 count0.
Proof. split_and!; [apply life_init|done|by exists true]. Qed.

(** An enqueue whose task throws. *)
Definition thrown_item : sitem := mkItem (mkPAE 1 3 [x61; x62] 2 false) true SFailed.
Definition count1 : msys := mkM life1 ∅ (inc_pendingAsyncEnqueue 0 1 (ms_stats count0)).
Definition item1 : sitem := mkItem (mkPAE 1 3 [x61; x62] 2 false) true SCheck.
Definition count2 : msys :=
  mkM (store_check false 3 1 item1 life1) (<[(3, 1) := true]> ∅) (ms_stats count1).
Definition count3 : msys :=
  mkM (set_item (3, 1) thrown_item (ms_d count2)) (ms_exec count2) (ms_stats count2).

Lemma count3_reach : mreach false ∅ 3 count0 count3.
Proof.
  eapply Mr_step with (idx := 1%nat); [eapply Mr_step with (idx := 1%nat);
    [eapply Mr_step with (idx := 0%nat); [apply Mr_refl|lia|]|lia|]|lia|].
  - apply (Ms_enqueue_new false ∅ 0 life0 ∅ (ms_stats count0) 3 [x61; x62] false).
  - apply (Ms_check false ∅ 1 life1 ∅ (ms_stats count1) 3 1 item1); reflexivity.
  - apply Ms_silent. apply (Si_data_throws (ms_d count2) 3 1 (mkItem (si_val item1) true (SData true))); reflexivity.
Qed.

