(* ===== verification/Future.v ===== *)
(** Futures of the thread pool: lib/ext/boost/threadpool/detail/future.hpp and future.hpp.

    A future is written by one task of the pool, tested and cancelled by any thread and
    waited for by others. [set_value] holds the future's mutex and is one step; [cancel],
    [ready] and [is_cancelled] read volatile members without it, so a [cancel] is two steps,
    its test and its assignment. A waiting thread tests [m_ready] with the mutex and sleeps
    until it is notified.

    [future] forwards every call to its [future_impl], so one state stands for both. *)
From S2P Require Import Prelude.
From Stdlib Require Import ZArith Lia.

Section futures.
Context {A E : Type}.

(** ** The object *)

(** [m_result] has no value before the first [set_value]; the constructor does not give
    [m_executing] one either. *)
Record future_impl := mkFut {
  m_ready : bool; m_result : option A; m_is_cancelled : bool; m_executing : option bool
}.
Implicit Types (f : future_impl).

Definition future_new : future_impl := mkFut false None false None.
Definition ready f : bool := m_ready f.
Definition is_cancelled f : bool := m_is_cancelled f.
Definition set_value (r : A) f : future_impl :=
  if negb (m_ready f) && negb (m_is_cancelled f) then mkFut true (Some r) (m_is_cancelled f) (m_executing f) else f.
Definition set_execution_status (executing : bool) f : future_impl :=
  mkFut (m_ready f) (m_result f) (m_is_cancelled f) (Some executing).

(** The two steps of [cancel]: its test, which may read [m_executing] before it has a value
    (a wild read: [garbage]), and its assignment. *)
Definition cancel_test (garbage : bool) f : bool := negb (m_ready f) || default garbage (m_executing f).
Definition cancel_assign f : future_impl := mkFut (m_ready f) (m_result f) true (m_executing f).

(** ** Threads *)

(** The task: [future_impl_task_func::operator()] is cut before each of its calls; the
    function is [Some] of what [m_function()] does, or [None] when it is empty. A task that the
    pool refused never runs. *)
Inductive tphase : Type :=
| TQueued | TStarted | TCalls | TReturned (a : A) | TStored | TEnded | TThrew (e : E) | TRefused.

(** A thread in [wait] or in [operator()]: about to test, asleep, returned with a result. *)
Inductive wphase : Type := WTest | WSleep | WReturn (r : option A).

Record fsys := mkFS {
  fs_fut : future_impl;
  fs_task : tphase;
  fs_cancels : nat;                (* calls of [cancel] between test and assignment *)
  fs_answers : list bool;          (* what [cancel] has returned *)
  fs_waiters : gmap nat wphase
}.
Implicit Types (s : fsys) (w : nat).

Variable fn : option (outcome E A).

Definition wake (p : wphase) : wphase := match p with WSleep => WTest | p => p end.

(** [schedule(pool,task)]: a new future, whatever the pool says. *)
Definition schedule (accepted : bool) : fsys :=
  mkFS future_new (if accepted then TQueued else TRefused) 0 [] ∅.

Definition set_task (t : tphase) s : fsys := mkFS (fs_fut s) t (fs_cancels s) (fs_answers s) (fs_waiters s).
Definition set_fut f s : fsys := mkFS f (fs_task s) (fs_cancels s) (fs_answers s) (fs_waiters s).
Definition set_waiter w (p : wphase) s : fsys :=
  mkFS (fs_fut s) (fs_task s) (fs_cancels s) (fs_answers s) (<[w := p]> (fs_waiters s)).

(** [set_value] and [notify_all] when it stores. *)
Definition store_value (a : A) s : fsys :=
  let f := fs_fut s in
  let ws := if negb (m_ready f) && negb (m_is_cancelled f) then wake <$> fs_waiters s else fs_waiters s in
  mkFS (set_value a f) TStored (fs_cancels s) (fs_answers s) ws.

(** Steps of the task and of the waiting threads. *)
Inductive fwork s : fsys -> Prop :=
| F_empty : fs_task s = TQueued -> fn = None -> fwork s (set_task TEnded s)
| F_start : fs_task s = TQueued -> fn <> None ->
    fwork s (set_task TStarted (set_fut (set_execution_status true (fs_fut s)) s))
| F_skip : fs_task s = TStarted -> is_cancelled (fs_fut s) = true -> fwork s (set_task TStored s)
| F_go : fs_task s = TStarted -> is_cancelled (fs_fut s) = false -> fwork s (set_task TCalls s)
| F_returns a : fs_task s = TCalls -> fn = Some (Ret a) -> fwork s (set_task (TReturned a) s)
| F_throws e : fs_task s = TCalls -> fn = Some (Throw e) -> fwork s (set_task (TThrew e) s)
| F_store a : fs_task s = TReturned a -> fwork s (store_value a s)
| F_end : fs_task s = TStored ->
    fwork s (set_task TEnded (set_fut (set_execution_status false (fs_fut s)) s))
| F_sleep w : fs_waiters s !! w = Some WTest -> m_ready (fs_fut s) = false -> fwork s (set_waiter w WSleep s)
| F_return w : fs_waiters s !! w = Some WTest -> m_ready (fs_fut s) = true ->
    fwork s (set_waiter w (WReturn (m_result (fs_fut s))) s).

(** New calls, assignments of [cancel] and wake-ups without a notification. *)
Inductive fcall s : fsys -> Prop :=
| F_wait w : fs_waiters s !! w = None -> fcall s (set_waiter w WTest s)
| F_spurious w : fs_waiters s !! w = Some WSleep -> fcall s (set_waiter w WTest s)
| F_cancel_yes g : cancel_test g (fs_fut s) = true ->
    fcall s (mkFS (fs_fut s) (fs_task s) (S (fs_cancels s)) (fs_answers s) (fs_waiters s))
| F_cancel_no g : cancel_test g (fs_fut s) = false ->
    fcall s (mkFS (fs_fut s) (fs_task s) (fs_cancels s) (fs_answers s ++ [false]) (fs_waiters s))
| F_cancel_set n : fs_cancels s = S n ->
    fcall s (mkFS (cancel_assign (fs_fut s)) (fs_task s) n (fs_answers s ++ [true]) (fs_waiters s)).

Definition fstep s s' : Prop := fwork s s' \/ fcall s s'.

Inductive freach s0 : fsys -> Prop :=
| Fr_refl : freach s0 s0
| Fr_step s s' : freach s0 s -> fstep s s' -> freach s0 s'.

(** ** Invariant *)

(** The value in flight is the function's; a ready future holds it; nobody returns with
    anything else; a thread sleeps only while the future is not ready; and a task that has stored
    leaves the future ready or cancelled. *)
Record finv s : Prop := {
  fi_flight : forall a, fs_task s = TReturned a -> fn = Some (Ret a);
  fi_ready : m_ready (fs_fut s) = true -> exists a, fn = Some (Ret a) /\ m_result (fs_fut s) = Some a;
  fi_return : forall w r, fs_waiters s !! w = Some (WReturn r) ->
    m_ready (fs_fut s) = true /\ r = m_result (fs_fut s);
  fi_sleep : forall w, fs_waiters s !! w = Some WSleep -> m_ready (fs_fut s) = false;
  fi_late : m_ready (fs_fut s) = true -> fs_task s = TStored \/ fs_task s = TEnded;
  fi_stored : fs_task s = TStored \/ fs_task s = TEnded -> fn <> None ->
    m_ready (fs_fut s) = true \/ m_is_cancelled (fs_fut s) = true;
  fi_answers : m_is_cancelled (fs_fut s) = true <-> true ∈ fs_answers s;
  fi_refused : false ∈ fs_answers s -> m_ready (fs_fut s) = true;
  fi_fun : fs_task s = TStarted \/ fs_task s = TCalls -> fn <> None
}.

Lemma finv_start b : finv (schedule b).
Proof.
  split; simpl; try done; try (intros; destruct b; done).
  - destruct b; intros [|] ?; done.
  - split; [done|]. by intros ?%elem_of_nil.
  - by intros ?%elem_of_nil.
  - destruct b; intros [|]; done.
Qed.

(** Steps that leave the future and its waiters alone. *)
Lemma finv_task s t :
  finv s -> (forall a, t = TReturned a -> fn = Some (Ret a)) -> (t = TStarted \/ t = TCalls -> fn <> None) ->
  (m_ready (fs_fut s) = true -> t = TStored \/ t = TEnded) ->
  (t = TStored \/ t = TEnded -> fn <> None -> m_ready (fs_fut s) = true \/ m_is_cancelled (fs_fut s) = true) ->
  finv (set_task t s).
Proof. intros [] Ha He Hl Hs. by split. Qed.

Lemma finv_exec s b : finv s -> finv (set_fut (set_execution_status b (fs_fut s)) s).
Proof. intros []. by split. Qed.

Lemma finv_waiter s w p :
  finv s -> (forall r, p = WReturn r -> m_ready (fs_fut s) = true /\ r = m_result (fs_fut s)) ->
  (p = WSleep -> m_ready (fs_fut s) = false) -> finv (set_waiter w p s).
Proof.
  intros [] Hr Hs. split; try done; simpl.
  - intros w' r. rewrite lookup_insert_Some. naive_solver.
  - intros w'. rewrite lookup_insert_Some. naive_solver.
Qed.

(** Unless it has stored, the task has left the future unready. *)
Lemma unready s : finv s -> ~ (fs_task s = TStored \/ fs_task s = TEnded) -> m_ready (fs_fut s) = false.
Proof. intros I Hn. destruct (m_ready (fs_fut s)) eqn:Er; [|done]. by apply (fi_late s I) in Er. Qed.

Lemma finv_store s a : finv s -> fs_task s = TReturned a -> finv (store_value a s).
Proof.
  intros I Ht. pose proof (unready s I ltac:(rewrite Ht; by intros [|])) as Hr.
  pose proof (fi_flight s I a Ht) as Hf.
  unfold store_value, set_value. rewrite Hr. destruct (m_is_cancelled (fs_fut s)) eqn:Hc; simpl.
  - apply (finv_task s TStored I); try done; [by intros [|]|rewrite Hr; done|by right].
  - destruct I as [I1 I2 I3 I4 I5 I6 I7 I8 I9]. split; simpl; try done; try (by auto).
    + intros _. by exists a.
    + intros w r. rewrite lookup_fmap, fmap_Some. intros ([| |r'] & Hw & Hx); try done. simplify_eq/=.
      destruct (I3 w r' Hw). congruence.
    + intros w. rewrite lookup_fmap, fmap_Some. by intros ([] & Hw & Hx).
    + by rewrite <- Hc.
    + by intros [|].
Qed.

Lemma finv_step s s' : finv s -> fstep s s' -> finv s'.
Proof.
  intros I [Hw|Hc].
  - destruct Hw as [Ht Hn|Ht Hn|Ht Hc|Ht Hc|a Ht Hf|e Ht Hf|a Ht|Ht|w Hw Hr|w Hw Hr];
      try (pose proof (unready s I ltac:(rewrite Ht; naive_solver)) as Hr).
    + apply finv_task; try done; [by intros [|]|by right].
    + apply finv_task; [by apply finv_exec|done|done|simpl; by rewrite Hr|by intros [|]].
    + apply finv_task; try done; [by intros [|]|by rewrite Hr|by right].
    + apply finv_task; try done; [intros _; by apply (fi_fun s I); left|by rewrite Hr|by intros [|]].
    + apply finv_task; try done; [by intros a' [= ->]|by intros [|]|by rewrite Hr|by intros [|]].
    + apply finv_task; try done; [by intros [|]|by rewrite Hr|by intros [|]].
    + by apply finv_store.
    + apply finv_task; [by apply finv_exec|done|by intros [|]|by right|].
      intros _ Hn. apply (fi_stored s I); auto.
    + by apply finv_waiter.
    + apply finv_waiter; [done|by intros r [= <-]|done].
  - destruct Hc as [w Hw|w Hw|g Hg|g Hg|n Hn]; try (by apply finv_waiter); destruct I as [I1 I2 I3 I4 I5 I6 I7 I8 I9].
    + by split.
    + apply orb_false_iff in Hg as [Hg _]. apply negb_false_iff in Hg.
      split; try done; simpl; rewrite elem_of_app, list_elem_of_singleton. naive_solver.
    + split; try done; simpl; [by right|..]; rewrite elem_of_app, list_elem_of_singleton; naive_solver.
Qed.

Lemma finv_reach b s : freach (schedule b) s -> finv s.
Proof. induction 1 as [|s s' _ IH Hs]; [apply finv_start|]. by eapply finv_step. Qed.

(** ** Agreement *)

Lemma fstep_stable s s' :
  fstep s s' -> m_ready (fs_fut s) = true -> m_ready (fs_fut s') = true /\ m_result (fs_fut s') = m_result (fs_fut s).
Proof.
  intros [Hw|Hc] Hr; [destruct Hw|destruct Hc]; simpl; auto.
  unfold set_value. by rewrite Hr.
Qed.

(** A future gives every thread that waits the value that the function returned; it never
    changes once it is there. *)
Theorem future_agreement b s s' w r :
  freach (schedule b) s -> fs_waiters s !! w = Some (WReturn r) -> freach s s' ->
  exists a, fn = Some (Ret a) /\ r = Some a /\ ready (fs_fut s') = true /\ m_result (fs_fut s') = Some a.
Proof.
  intros Hr Hw Hs. pose proof (finv_reach b s Hr) as I. destruct (fi_return s I w r Hw) as [Hy ->].
  destruct (fi_ready s I Hy) as (a & Hf & Ha). exists a. split; [done|]. split; [done|].
  induction Hs as [|s1 s2 Hs IH Hst]; [done|]. destruct IH as [IH1 IH2].
  destruct (fstep_stable s1 s2 Hst IH1) as [E1 E2]. unfold ready. by rewrite E1, E2, IH2.
Qed.

(** ** Progress *)

(** Nothing is left to do for the task and the waiting threads. *)
Definition f_rest s : Prop := forall s', ~ fwork s s'.

Lemma rest_task s :
  finv s -> f_rest s -> fs_task s = TEnded \/ fs_task s = TRefused \/ exists e, fs_task s = TThrew e.
Proof.
  intros I Hr. destruct (fs_task s) as [| | |a| | |e|] eqn:Ht; eauto; exfalso.
  - destruct fn eqn:Ef; eapply Hr; [apply F_start; congruence|by apply F_empty].
  - destruct (is_cancelled (fs_fut s)) eqn:Hc; eapply Hr; [by apply F_skip|by apply F_go].
  - pose proof (fi_fun s I (or_intror Ht)) as Hn.
    destruct fn as [[a|e]|] eqn:Ef; [eapply Hr; by apply F_returns|eapply Hr; by apply F_throws|done].
  - eapply Hr. by eapply F_store.
  - eapply Hr. by apply F_end.
Qed.

Lemma rest_waiter s w p :
  f_rest s -> fs_waiters s !! w = Some p -> p <> WTest.
Proof.
  intros Hr Hw ->. destruct (m_ready (fs_fut s)) eqn:Hy; eapply Hr; [by eapply F_return|by eapply F_sleep].
Qed.

(** How many steps the task and the waiting threads can still make. *)
Definition task_rank (t : tphase) : nat :=
  match t with
  | TQueued => 6 | TStarted => 5 | TCalls => 4 | TReturned _ => 3 | TStored => 1 | TEnded | TThrew _ | TRefused => 0
  end.
Definition is_test (p : wphase) : bool := match p with WTest => true | _ => false end.
Definition testers s : gmap nat wphase := filter (fun wp => is_test wp.2 = true) (fs_waiters s).
Definition steps_left s : nat := task_rank (fs_task s) * S (size (fs_waiters s)) + size (testers s).

Lemma testers_bound s : (size (testers s) <= size (fs_waiters s))%nat.
Proof. unfold testers. apply map_subseteq_size, map_filter_subseteq. Qed.

(** A thread that stops testing. *)
Lemma testers_leave s w p :
  fs_waiters s !! w = Some WTest -> is_test p = false ->
  size (fs_waiters (set_waiter w p s)) = size (fs_waiters s) /\
  size (testers s) = S (size (testers (set_waiter w p s))).
Proof.
  intros Hw Hp. split; [apply map_size_insert_Some; by exists WTest|].
  unfold testers. simpl. rewrite map_filter_insert_False by (simpl; by rewrite Hp). rewrite map_filter_delete.
  rewrite map_size_delete_Some by (exists WTest; by apply map_lookup_filter_Some).
  assert (size (filter (fun wp : nat * wphase => is_test wp.2 = true) (fs_waiters s)) <> 0%nat); [|lia].
  intros E0%map_size_empty_inv. pose proof (lookup_empty (M := gmap nat) (A := wphase) w) as L.
  rewrite <- E0 in L. rewrite map_lookup_filter_None in L. destruct L as [L|L]; [congruence|]. by eapply L.
Qed.

Lemma fwork_decreases s s' : fwork s s' -> (steps_left s' < steps_left s)%nat.
Proof.
  intros Hw. unfold steps_left. destruct Hw as [Ht Hn|Ht Hn|Ht Hc|Ht Hc|a Ht Hf|e Ht Hf|a Ht|Ht|w Hw Hr|w Hw Hr].
  7: { rewrite Ht. simpl fs_task. pose proof (testers_bound (store_value a s)) as B.
       assert (Hz : size (fs_waiters (store_value a s)) = size (fs_waiters s)).
       { unfold store_value. simpl. case_goal; [by rewrite map_size_fmap|done]. }
       rewrite Hz in *. cbn [task_rank]. lia. }
  8: destruct (testers_leave s w WSleep Hw eq_refl) as [E1 E2]; rewrite E1, E2; simpl; lia.
  8: destruct (testers_leave s w (WReturn (m_result (fs_fut s))) Hw eq_refl) as [E1 E2]; rewrite E1, E2; simpl; lia.
  all: rewrite Ht; unfold testers; cbn [set_task set_fut fs_task fs_waiters task_rank]; lia.
Qed.

Inductive fruns : nat -> fsys -> fsys -> Prop :=
| Fn_zero s : fruns 0 s s
| Fn_more n s s1 s2 : fwork s s1 -> fruns n s1 s2 -> fruns (S n) s s2.

(** C23: without further calls the task and the waiting threads come to rest, within a number of steps
    known from the start; and if the pool took the task, its function returns and nobody cancelled,
    then the future is ready and every thread that waited has the value. *)
Theorem future_resolves a s s' n :
  fn = Some (Ret a) -> freach (schedule true) s -> fruns n s s' ->
  (n <= steps_left s)%nat /\
  (f_rest s' -> is_cancelled (fs_fut s') = false ->
   ready (fs_fut s') = true /\ m_result (fs_fut s') = Some a /\
   forall w p, fs_waiters s' !! w = Some p -> p = WReturn (Some a)).
Proof.
  intros Hf Hr Hn. split.
  { clear Hr. induction Hn as [s|n s s1 s2 Hw Hn IH]; [lia|]. pose proof (fwork_decreases s s1 Hw). lia. }
  intros Hrest Hc.
  assert (Hr' : freach (schedule true) s').
  { clear Hrest Hc. induction Hn as [s|n s s1 s2 Hw Hn IH]; [done|]. apply IH. eapply Fr_step; [done|by left]. }
  pose proof (finv_reach true s' Hr') as I.
  assert (Hy : m_ready (fs_fut s') = true).
  { destruct (rest_task s' I Hrest) as [Ht|[Ht|[e Ht]]].
    - destruct (fi_stored s' I (or_intror Ht)) as [|Hx]; [congruence|done|]. unfold is_cancelled in Hc. congruence.
    - exfalso. clear -Hr' Ht. induction Hr' as [|s s' Hr IH Hs]; [done|].
      destruct Hs as [Hw|Hw]; destruct Hw; simpl in *; try done; by apply IH.
    - exfalso. clear -Hr' Ht Hf. induction Hr' as [|s s' Hr IH Hs]; [done|].
      destruct Hs as [Hw|Hw]; destruct Hw; simpl in *; try done; try (by apply IH). congruence. }
  destruct (fi_ready s' I Hy) as (a' & Ha' & Hres). rewrite Hf in Ha'. injection Ha' as <-.
  split_and!; [done|done|]. intros w p Hw. pose proof (rest_waiter s' w p Hrest Hw) as Hp. destruct p as [| |r]; [done| |].
  - apply (fi_sleep s' I) in Hw. congruence.
  - apply (fi_return s' I) in Hw as [_ ->]. by rewrite Hres.
Qed.

(** ** Cancellation *)

Lemma cancelled_stable s s' :
  fstep s s' -> m_is_cancelled (fs_fut s) = true -> m_ready (fs_fut s) = false ->
  m_is_cancelled (fs_fut s') = true /\ m_ready (fs_fut s') = false.
Proof.
  intros [Hw|Hw] Hc Hr; destruct Hw; simpl; auto. unfold set_value. by rewrite Hr, Hc.
Qed.


(** What the answers of [cancel] tell: a refusal means that the value is there; consent that the
    flag is set. *)
Theorem cancel_answers b s :
  freach (schedule b) s ->
  (false ∈ fs_answers s -> ready (fs_fut s) = true) /\ (is_cancelled (fs_fut s) = true <-> true ∈ fs_answers s).
Proof. intros Hr%finv_reach. split; apply Hr. Qed.

(** A future that the pool did not take, or whose function throws or is empty, is never ready. *)
Theorem unscheduled_never_ready b s :
  freach (schedule b) s -> b = false \/ (forall a, fn <> Some (Ret a)) -> ready (fs_fut s) = false.
Proof.
  intros Hr Hb. unfold ready. pose proof (finv_reach b s Hr) as I. destruct (m_ready (fs_fut s)) eqn:Hy; [|done].
  exfalso. destruct Hb as [->|Hb].
  - destruct (fi_late s I Hy) as [Ht|Ht]; revert Ht; clear -Hr.
    all: assert (fs_task s = TRefused) as ->; [|done].
    all: induction Hr as [|s s' Hr IH Hs]; [done|]; destruct Hs as [Hw|Hw]; destruct Hw; simpl in *; congruence.
  - destruct (fi_ready s I Hy) as (a & Ha & _). by apply (Hb a).
Qed.

End futures.
