(* ===== verification/LoopedTask.v ===== *)
(** Looped tasks of the thread pool: [looped_task_func] of
    lib/ext/boost/threadpool/task_adaptors.hpp.

    The function that is looped is the sequence of its answers; what the thread does is
    the list of its sleeps, calls and yields. *)
From S2P Require Import Prelude.
From Stdlib Require Import ZArith Lia.

(** [looped_task_func]: the break in seconds and nanoseconds, both [unsigned int]. *)
Record looped_task_func := mkLoop { m_break_s : Z; m_break_ns : Z }.

Definition looped_task (interval : Z) : looped_task_func :=
  let s := interval / 1000 in
  mkLoop s (u32 (u32 (u32 (interval - u32 (s * 1000)) * 1000) * 1000)).

(** What the thread does: a sleep, a call of the function with its answer, a yield. *)
Inductive loop_event : Type := Sleep (s ns : Z) | Invoke (again : bool) | Yield.

Definition breaks (l : looped_task_func) : bool := (0 <? m_break_s l) || (0 <? m_break_ns l).

(** [while(m_function()) { ... }]: [answer k] is what the call number [k] returns. [None] is a loop that is
    still running when the fuel is used up. *)
Fixpoint loop_run (fuel : nat) (l : looped_task_func) (answer : nat -> bool) (k : nat) : option (list loop_event) :=
  match fuel with
  | O => None
  | S fuel =>
      if answer k then
        match loop_run fuel l answer (S k) with
        | None => None
        | Some ev => Some (Invoke true :: (if breaks l then Sleep (m_break_s l) (m_break_ns l) else Yield) :: ev)
        end
      else Some [Invoke false]
  end.

(** [operator()]: [function] tells whether there is a function. *)
Definition looped_call (fuel : nat) (l : looped_task_func) (function : bool) (answer : nat -> bool) :
    option (list loop_event) :=
  if function then
    let first := if breaks l then [Sleep (m_break_s l) (m_break_ns l)] else [] in
    app first <$> loop_run fuel l answer 0
  else Some [].

Fixpoint invocations (ev : list loop_event) : nat :=
  match ev with
  | [] => 0
  | Invoke _ :: ev => S (invocations ev)
  | _ :: ev => invocations ev
  end.

(** The break is the interval, split without loss; the product fits in 32 bits. *)
Lemma looped_break interval :
  0 <= interval < 2 ^ 32 ->
  let l := looped_task interval in
  m_break_s l * 1000 + m_break_ns l / 1000000 = interval /\ m_break_ns l mod 1000000 = 0 /\
  0 <= m_break_ns l < 10 ^ 9 /\ (breaks l = true <-> 0 < interval).
Proof.
  intros Hi l. pose proof (Z.div_mod interval 1000 ltac:(lia)) as Hd. pose proof (Z.mod_pos_bound interval 1000 ltac:(lia)).
  assert (Hq : 0 <= interval / 1000 < 4294968) by (split; [apply Z.div_pos; lia|apply Z.div_lt_upper_bound; lia]).
  assert (E : m_break_ns l = (interval mod 1000) * 1000000).
  { unfold l, looped_task, u32. cbn [m_break_ns]. rewrite (Z.mod_small (interval / 1000 * 1000)) by lia.
    rewrite (Z.mod_small (interval - _)) by lia.
    rewrite (Z.mod_small ((interval - interval / 1000 * 1000) * 1000)) by lia.
    rewrite Z.mod_small by lia. lia. }
  assert (Es : m_break_s l = interval / 1000) by done.
  rewrite E, Es, Z.div_mul, Z.mod_mul by lia. split_and!; [lia|done|lia|lia|].
  unfold breaks. rewrite E, Es. rewrite orb_true_iff, !Z.ltb_lt. lia.
Qed.

(** A loop whose function first returns false at call [n]: it ends, the function is called [n+1] times, and
    between two calls the thread sleeps or yields. *)
Fixpoint loop_trace (l : looped_task_func) (n : nat) : list loop_event :=
  match n with
  | O => [Invoke false]
  | S n => Invoke true :: (if breaks l then Sleep (m_break_s l) (m_break_ns l) else Yield) :: loop_trace l n
  end.

Lemma loop_run_ends l answer n k fuel :
  (forall i, (i < n)%nat -> answer (k + i)%nat = true) -> answer (k + n)%nat = false -> (n < fuel)%nat ->
  loop_run fuel l answer k = Some (loop_trace l n).
Proof.
  revert k fuel. induction n as [|n IH]; intros k fuel Ht Hf Hl; destruct fuel as [|fuel]; try lia; cbn [loop_run].
  - rewrite Nat.add_0_r in Hf. by rewrite Hf.
  - pose proof (Ht 0%nat ltac:(lia)) as H0. rewrite Nat.add_0_r in H0. rewrite H0.
    rewrite (IH (S k) fuel); [done| |by rewrite Nat.add_succ_comm|lia].
    intros i Hi. rewrite Nat.add_succ_comm. apply Ht. lia.
Qed.

Lemma loop_trace_calls l n : invocations (loop_trace l n) = S n.
Proof.
  induction n as [|n IH]; [done|]. cbn [loop_trace]. destruct (breaks l); simpl; by rewrite IH.
Qed.

(** A looped task ends exactly when its function returns false, after that many calls, and with an
    interval every call comes after a break of that length. *)
Theorem looped_task_exact interval answer :
  0 <= interval < 2 ^ 32 ->
  let l := looped_task interval in
  (forall n fuel, (forall i, (i < n)%nat -> answer i = true) -> answer n = false -> (n < fuel)%nat ->
     looped_call fuel l true answer =
       Some ((if 0 <? interval then [Sleep (m_break_s l) (m_break_ns l)] else []) ++ loop_trace l n) /\
     invocations (loop_trace l n) = S n) /\
  ((forall i, answer i = true) -> forall fuel, looped_call fuel l true answer = None).
Proof.
  intros Hi l. destruct (looped_break interval Hi) as (_ & _ & _ & Hb). fold l in Hb. split.
  - intros n fuel Ht Hf Hl. split; [|apply loop_trace_calls]. unfold looped_call.
    rewrite (loop_run_ends l answer n 0 fuel) by done.
    assert (breaks l = (0 <? interval)) as ->; [|done].
    destruct (Z.ltb_spec 0 interval), (breaks l) eqn:Eb; naive_solver lia.
  - intros Ht fuel. unfold looped_call.
    assert (N : forall k, loop_run fuel l answer k = None).
    { induction fuel as [|fuel IH]; intros k; [done|]. cbn [loop_run]. by rewrite Ht, IH. }
    by rewrite N.
Qed.

(** Three calls at an interval of one and a half seconds. *)
Example looped_example :
  looped_call 10 (looped_task 1500) true (fun k => (k <? 2)%nat) =
  Some [Sleep 1 500000000; Invoke true; Sleep 1 500000000; Invoke true; Sleep 1 500000000; Invoke false].
Proof. vm_compute. reflexivity. Qed.
