(* ===== verification/FutureExamples.v ===== *)
(** Concrete runs of futures: inputs for the theorems, and an answer of [cancel] that
    misleads. *)
From S2P Require Import Prelude Future.
From Stdlib Require Import ZArith Lia.

Abbreviation five := (Some (Ret 5) : option (outcome unit Z)).
Implicit Types (s : fsys (A := Z) (E := unit)).

(** One thread waits and falls asleep; the task runs. *)
Definition fut0 : fsys (A := Z) (E := unit) := schedule true.
Definition fut1 := set_waiter 7 WTest fut0.
Definition fut2 := set_waiter 7 WSleep fut1.
Definition fut3 := set_task TStarted (set_fut (set_execution_status true (fs_fut fut2)) fut2).
Definition fut4 := set_task TCalls fut3.
Definition fut5 := set_task (TReturned 5) fut4.
Definition fut6 := store_value 5 fut5.
Definition fut7 := set_task TEnded (set_fut (set_execution_status false (fs_fut fut6)) fut6).
Definition fut8 := set_waiter 7 (WReturn (Some 5)) fut7.

Lemma fut1_reach : freach five fut0 fut1.
Proof. eapply Fr_step; [apply Fr_refl|]. right. by apply F_wait. Qed.

Lemma fut_runs : fruns five 7 fut1 fut8.
Proof.
  eapply Fn_more; [by apply (F_sleep _ _ 7)|]. fold fut2.
  eapply Fn_more; [by apply F_start|]. fold fut3.
  eapply Fn_more; [by apply F_go|]. fold fut4.
  eapply Fn_more; [by apply (F_returns _ _ 5)|]. fold fut5.
  eapply Fn_more; [by apply (F_store _ _ 5)|]. fold fut6.
  eapply Fn_more; [by apply F_end|]. fold fut7.
  eapply Fn_more; [by apply (F_return _ _ 7)|]. apply Fn_zero.
Qed.

Lemma freach_trans s0 s1 s2 : freach five s0 s1 -> freach five s1 s2 -> freach five s0 s2.
Proof. intros H1 H2. induction H2 as [|s s' _ IH Hs]; [done|by eapply Fr_step]. Qed.

Lemma fruns_reach n s s' : fruns five n s s' -> freach five s s'.
Proof.
  induction 1 as [s|n s s1 s2 Hw Hn IH]; [apply Fr_refl|].
  eapply freach_trans; [|exact IH]. eapply Fr_step; [apply Fr_refl|by left].
Qed.

Lemma fut8_rest : f_rest five fut8.
Proof.
  intros s' Hw. inversion Hw as [Ht|Ht|Ht|Ht|a Ht|e Ht|a Ht|Ht|w Hl Hr|w Hl Hr]; try discriminate Ht; try discriminate Hr.
  clear -Hl. change (fs_waiters fut8) with ({[7%nat := WReturn (Some 5)]} : gmap nat (wphase (A := Z))) in Hl.
  apply lookup_singleton_Some in Hl as [_ Hl]. discriminate.
Qed.

Lemma future_resolves_witness :
  (7 <= steps_left fut1)%nat /\ ready (fs_fut fut8) = true /\ m_result (fs_fut fut8) = Some 5.
Proof.
  destruct (future_resolves five 5 fut1 fut8 7 eq_refl fut1_reach fut_runs) as [L R].
  split; [exact L|]. destruct (R fut8_rest eq_refl) as (E1 & E2 & _). by split.
Defined.

Lemma future_agreement_witness : exists a, five = Some (Ret a) /\ Some 5 = Some a.
Proof.
  destruct (future_agreement five true fut8 fut8 7 (Some 5)) as (a & E1 & E2 & _); [|reflexivity|apply Fr_refl|by eauto].
  eapply freach_trans; [apply fut1_reach|]. eapply fruns_reach, fut_runs.
Defined.

(** The future is cancelled while the thread waits. *)
Definition fut2c : fsys (A := Z) (E := unit) :=
  mkFS (cancel_assign (fs_fut fut2)) TQueued 0 [true] (fs_waiters fut2).

Lemma fut2c_reach : freach five fut0 fut2c.
Proof.
  eapply Fr_step; [eapply Fr_step; [eapply Fr_step; [apply fut1_reach|left; by apply (F_sleep _ _ 7)]|]|]; fold fut2.
  - right. by apply (F_cancel_yes _ true).
  - right. by apply (F_cancel_set (mkFS (fs_fut fut2) (fs_task fut2) 1 [] (fs_waiters fut2)) 0).
Qed.


(** [cancel] is asked between [set_value] and the end of the task: it consents, although the value is there
    and will be delivered. *)
Definition fut6c : fsys (A := Z) (E := unit) :=
  mkFS (cancel_assign (fs_fut fut6)) TStored 0 [true] (fs_waiters fut6).

Example cancel_consents_too_late :
  freach five fut0 fut6c /\ ready (fs_fut fut6c) = true /\ m_result (fs_fut fut6c) = Some 5 /\
  fs_answers fut6c = [true].
Proof.
  split; [|done]. eapply Fr_step; [eapply Fr_step; [eapply freach_trans; [apply fut1_reach|]|]|].
  - eapply (fruns_reach 5 fut1 fut6).
    eapply Fn_more; [by apply (F_sleep _ _ 7)|]. eapply Fn_more; [by apply F_start|].
    eapply Fn_more; [by apply F_go|]. eapply Fn_more; [by apply (F_returns _ _ 5)|].
    eapply Fn_more; [by apply (F_store _ _ 5)|]. apply Fn_zero.
  - right. by apply (F_cancel_yes _ true).
  - right. by apply (F_cancel_set (mkFS (fs_fut fut6) (fs_task fut6) 1 [] (fs_waiters fut6)) 0).
Qed.
